(** * jr_writer: a shallow embedding of [writer.go] and its properties

    The development follows the layout of the Go package [writer]:
    machine integers, the Go runtime effects the package relies on
    (panics, the file system, the clock, contexts), then the [Mode],
    [Results] and [Writer] types with their methods, and finally the
    theorems about them.

    Conventions.
    - A Go pointer that may be [nil] is an [option]; a dereference of
      [None] is a [Panic].
    - [uint64] and [int] values are [Z] with the wrap-around written out.
    - An [error] is the text its [Error()] method returns.
    - [sync.Map] and Go maps are [gmap]s; the order in which [Range] and
      [for ... range] visit the entries is a parameter of the model.
    - Calls of [Debug] and of the package logger only print and are left
      out; locks are left out too, the model runs the critical sections
      one after the other. *)

From Stdlib Require Import ZArith Lia Bool.
From Stdlib Require Import SpecFloat.
From stdpp Require Import gmap strings list fin_maps.

Local Open Scope Z_scope.

(** ** Machine integers *)

Definition uint64_modulus : Z := 2 ^ 64.
Definition int_modulus : Z := 2 ^ 64.
Definition MaxInt : Z := 2 ^ 63 - 1.
Definition MinInt : Z := - 2 ^ 63.

(** Result of an [uint64] operation. *)
Definition wrap_uint64 (z : Z) : Z := z mod uint64_modulus.

(** Result of an [int] operation (two's complement, 64 bits). *)
Definition wrap_int (z : Z) : Z := (z + 2 ^ 63) mod int_modulus - 2 ^ 63.

(** Result of an [int64] operation, and of the conversion of a [uint64]
    to [int64]. *)
Definition wrap_int64 (z : Z) : Z := (z + 2 ^ 63) mod 2 ^ 64 - 2 ^ 63.

Definition is_uint64 (z : Z) : Prop := 0 <= z < uint64_modulus.
Definition is_int (z : Z) : Prop := MinInt <= z <= MaxInt.

(** ** Errors and strings *)

Definition error : Type := string.

(** [strings.Contains]. *)
Fixpoint Contains (s substr : string) : bool :=
  String.prefix substr s ||
  match s with
  | EmptyString => false
  | String _ s' => Contains s' substr
  end.

(** [fmt.Sprintf("%v", errs)] for a slice of errors: [[e1 e2 ...]]. *)
Fixpoint join_errors (errs : list error) : string :=
  match errs with
  | [] => EmptyString
  | [e] => e
  | e :: rest => e +:+ " " +:+ join_errors rest
  end.

Definition format_error_slice (errs : list error) : string :=
  "[" +:+ join_errors errs +:+ "]".

(** ** Outcomes of Go code: a value or a panic *)

Inductive Go (A : Type) : Type :=
| Ret (a : A)
| Panic (msg : string).
Arguments Ret {A} a.
Arguments Panic {A} msg.

Definition nil_dereference : string :=
  "runtime error: invalid memory address or nil pointer dereference".

(** ** Files, modes, contexts *)

(** An [*os.File] value that is not [nil]: the name it was opened under
    and the identity of the handle.  Two handles on the same path have the
    same [Name] and different [fd]. *)
Record File : Type := mkFile { Name : string; fd : nat }.

#[global] Instance File_eq_dec : EqDecision File.
Proof. solve_decision. Defined.

(** The [Mode] struct; its only field is the pointer [mode *string]. *)
Module Mode.
Record t : Type := mk { mode : option string }.
End Mode.

(** A [context.Context] as far as the package observes it: what [Err()]
    returns at a given instant ([None] while the context is not done). *)
Record Context : Type := mkContext { Err : nat -> option error }.

(** [context.Background()]. *)
Definition Background : Context := {| Err := fun _ => None |}.

(** ** Results *)

(** [float64] values, as IEEE 754 binary64. *)
Definition float64 : Type := spec_float.
Definition prec64 : Z := 53.
Definition emax64 : Z := 1024.

(** The conversion [float64(n)] of an unsigned integer. *)
Definition float64_of_uint64 (n : Z) : float64 :=
  binary_normalize prec64 emax64 n 0 false.

Definition float64_div (x y : float64) : float64 := SFdiv prec64 emax64 x y.
Definition float64_add (x y : float64) : float64 := SFadd prec64 emax64 x y.
Definition float64_eqb (x y : float64) : bool := SFeqb x y.

Definition float64_zero : float64 := S754_zero false.
Definition float64_one : float64 := float64_of_uint64 1.

Record Results : Type := mkResults {
  Total : Z;                  (* uint64 *)
  ErrSlice : list error;
  Success : Z;                (* uint64 *)
  Failure : Z;                (* uint64 *)
  SuccessRate : float64;
  FailureRate : float64;
  Info : gmap string string
}.

Definition NewResults : Results :=
  {| Total := 0; ErrSlice := []; Success := 0; Failure := 0;
     SuccessRate := float64_zero; FailureRate := float64_zero; Info := ∅ |}.

(** ** The Writer struct *)

Record Writer : Type := mkWriter {
  files : option (list (option File));   (* *[]*os.File *)
  mode : option Mode.t;                  (* *Mode *)
  message : option string;               (* *string *)
  openFilesPool : gmap string File;      (* sync.Map: name -> *os.File *)
  connLastUsed : gmap string Z;          (* sync.Map: name -> time.Time *)
  maxConns : Z;                          (* uint64 *)
  retries : Z;                           (* uint64 *)
  backoff : Z;                           (* uint64 *)
  ctx : option Context                   (* context.Context, an interface *)
}.

(** [NewWriter]. *)
Definition NewWriter (files : option (list (option File))) (mode : option Mode.t)
    (message : option string) (maxPool retries backoff : Z) : Writer :=
  {| files := match files with None => Some [] | Some l => Some l end;
     mode := mode; message := message;
     openFilesPool := ∅; connLastUsed := ∅;
     maxConns := maxPool; retries := retries; backoff := backoff;
     ctx := Some Background |}.

(** ** The operating system as the package sees it *)

Inductive syscall : Type :=
| SysStat (f : File)
| SysOpenFile (name : string) (flag perm : Z)
| SysWrite (f : File) (data : string)
| SysClose (f : File).

(** What an observer of the process sees. *)
Inductive Event : Type :=
| EvSleep (ns : Z)
| EvOpen (f : File) (flag : Z)
| EvWrite (f : File) (data : string)
| EvClose (f : File).

Record OS : Type := mkOS {
  tick : nat;            (* instants elapsed: one per system call or clock reading *)
  closed : gset nat;     (* handles that have been closed *)
  next_fd : nat;         (* identity of the next handle [os.OpenFile] returns *)
  trace : list Event     (* events so far, latest first *)
}.

(** The state a method of [Writer] runs in: the receiver, the [Results]
    object the [*Results] argument points to, and the operating system. *)
Record State : Type := mkState { wr : Writer; res : Results; os : OS }.

Definition M (A : Type) : Type := State -> Go (A * State).

Definition ret {A} (a : A) : M A := fun st => Ret (a, st).

Definition bind {A B} (m : M A) (k : A -> M B) : M B :=
  fun st => match m st with
            | Ret (a, st') => k a st'
            | Panic msg => Panic msg
            end.

Definition panic {A} (msg : string) : M A := fun _ => Panic msg.
Definition get : M State := fun st => Ret (st, st).
Definition modify (f : State -> State) : M unit := fun st => Ret (tt, f st).

Declare Scope go_scope.
Delimit Scope go_scope with go.
Notation "'let*' x ':=' c 'in' k" := (bind c (fun x => k))
  (at level 10, x name, c at level 100, k at level 200) : go_scope.
Notation "c ';;;' k" := (bind c (fun _ => k))
  (at level 100, k at level 200, right associativity) : go_scope.
Local Open Scope go_scope.

Definition set_wr (f : Writer -> Writer) : M unit :=
  modify (fun st => {| wr := f (wr st); res := res st; os := os st |}).
Definition set_res (f : Results -> Results) : M unit :=
  modify (fun st => {| wr := wr st; res := f (res st); os := os st |}).
Definition set_os (f : OS -> OS) : M unit :=
  modify (fun st => {| wr := wr st; res := res st; os := f (os st) |}).

Definition with_pool (p : gmap string File) (w : Writer) : Writer :=
  {| files := files w; mode := mode w; message := message w;
     openFilesPool := p; connLastUsed := connLastUsed w;
     maxConns := maxConns w; retries := retries w; backoff := backoff w;
     ctx := ctx w |}.
Definition with_lastUsed (l : gmap string Z) (w : Writer) : Writer :=
  {| files := files w; mode := mode w; message := message w;
     openFilesPool := openFilesPool w; connLastUsed := l;
     maxConns := maxConns w; retries := retries w; backoff := backoff w;
     ctx := ctx w |}.
Definition with_files (fs : option (list (option File))) (w : Writer) : Writer :=
  {| files := fs; mode := mode w; message := message w;
     openFilesPool := openFilesPool w; connLastUsed := connLastUsed w;
     maxConns := maxConns w; retries := retries w; backoff := backoff w;
     ctx := ctx w |}.

(** The operands of the composite literal of [NewWriterFromMap] that can
    panic: its six type assertions, here in the order of the source. *)
Inductive operand : Type :=
| OpFiles | OpMode | OpMessage | OpRetries | OpBackoff | OpMaxPool.

Definition operands : list operand :=
  [OpFiles; OpMode; OpMessage; OpRetries; OpBackoff; OpMaxPool].

(** ** The Go implementation the package runs on

    Everything the package does not decide itself: the number of CPUs,
    which system calls fail and with which error, what the clock shows,
    in which order a map is ranged over, in which order the jobs of a
    worker pool are run, and in which order the compiled code evaluates
    the operands of a composite literal (the language fixes the order of
    function calls, method calls and channel operations only).

    A pool of one worker takes the jobs in the order they were queued;
    for that pool the model is exact.  A pool of several workers is
    modelled as running each job whole, in an order the runtime picks:
    the runs in which two workers are inside a job at the same time are
    left out, so what is stated for several workers is only what does
    not depend on how the jobs overlap (the outcomes that are counted);
    what depends on the pool is stated for one worker. *)
Class Runtime : Type := {
  NumCPU : Z;
  NumCPU_range : 1 <= NumCPU <= MaxInt;
  fault : nat -> syscall -> option error;
  clock : nat -> Z;
  Range : forall A : Type, gmap string A -> list (string * A);
  Range_perm : forall (A : Type) (m : gmap string A), Range A m ≡ₚ map_to_list m;
  Schedule : Z -> list (option File) -> list (option File);
  Schedule_perm : forall workers jobs, Schedule workers jobs ≡ₚ jobs;
  Schedule_one : forall jobs, Schedule 1 jobs = jobs;
  Operands : list operand;
  Operands_perm : Operands ≡ₚ operands
}.
Arguments Range {_ _} m.

Section Package.
Context {rt : Runtime}.

(** *** System calls *)

(** One instant passes; the result is the instant that has just passed. *)
Definition advance : M nat :=
  fun st => Ret (tick (os st),
                 {| wr := wr st; res := res st;
                    os := {| tick := S (tick (os st)); closed := closed (os st);
                             next_fd := next_fd (os st); trace := trace (os st) |} |}).

Definition emit (e : Event) : M unit :=
  set_os (fun o => {| tick := tick o; closed := closed o;
                      next_fd := next_fd o; trace := e :: trace o |}).

Definition is_closed (f : File) : M bool :=
  let* st := get in ret (bool_decide (fd f ∈ closed (os st))).

(** [time.Now()]. *)
Definition Now : M Z := let* t := advance in ret (clock t).

(** [time.Duration]: an [int64] count of nanoseconds.  [Duration n] is
    the conversion [time.Duration(n)] of a [uint64], [Duration_mul] the
    product of two durations; both wrap around. *)
Definition Duration (n : Z) : Z := wrap_int64 n.
Definition Duration_mul (a b : Z) : Z := wrap_int64 (a * b).
Definition Millisecond : Z := 1000000.

(** [time.Sleep(d)]: the goroutine pauses for (at least) [d] nanoseconds,
    and not at all when [d] is zero or negative; the event records the
    pause asked for. *)
Definition Sleep (d : Z) : M unit := emit (EvSleep (Z.max 0 d)).

(** [file.Stat()], of which the package only looks at the error. *)
Definition Stat (f : File) : M (option error) :=
  let* t := advance in
  let* c := is_closed f in
  if c then ret (Some ("stat " +:+ Name f +:+ ": use of closed file"))
  else ret (fault t (SysStat f)).

(** [file.Close()]: the handle is gone afterwards, also when the call
    reports an error. *)
Definition Close (f : File) : M (option error) :=
  let* t := advance in
  let* c := is_closed f in
  if c then ret (Some ("close " +:+ Name f +:+ ": file already closed"))
  else
    set_os (fun o => {| tick := tick o; closed := {[fd f]} ∪ closed o;
                        next_fd := next_fd o; trace := EvClose f :: trace o |});;;
    ret (fault t (SysClose f)).

(** [os.OpenFile(name, flag, perm)]. *)
Definition OpenFile (name : string) (flag perm : Z) : M (option File * option error) :=
  let* t := advance in
  match fault t (SysOpenFile name flag perm) with
  | Some e => ret (None, Some e)
  | None =>
    let* st := get in
    let f := {| Name := name; fd := next_fd (os st) |} in
    set_os (fun o => {| tick := tick o; closed := closed o;
                        next_fd := S (next_fd o); trace := EvOpen f flag :: trace o |});;;
    ret (Some f, None)
  end.

(** [file.Write] and [file.WriteString]. *)
Definition file_Write (f : File) (data : string) : M (option error) :=
  let* t := advance in
  let* c := is_closed f in
  if c then ret (Some ("write " +:+ Name f +:+ ": file already closed"))
  else match fault t (SysWrite f data) with
       | Some e => ret (Some e)
       | None => emit (EvWrite f data);;; ret None
       end.

(** *** [bufio.Writer], as [writeToFile] uses it: one [WriteString] into a
    fresh writer of the default size, then [Flush]. *)
Definition bufio_defaultBufSize : nat := 4096.

Record bufio_Writer : Type := mkBufio { wr_file : File; buffered : string }.

Definition bufio_NewWriter (f : File) : bufio_Writer :=
  {| wr_file := f; buffered := EmptyString |}.

Definition bufio_WriteString (b : bufio_Writer) (s : string) : M (bufio_Writer * option error) :=
  if (bufio_defaultBufSize <? String.length s)%nat
  then let* err := file_Write (wr_file b) s in ret (b, err)
  else ret ({| wr_file := wr_file b; buffered := s |}, None).

Definition bufio_Flush (b : bufio_Writer) : M (option error) :=
  match buffered b with
  | EmptyString => ret None
  | s => file_Write (wr_file b) s
  end.

(** *** Write methods: validation *)

(** [fullWriteCheck]; the receiver may be [nil]. *)
Definition fullWriteCheck (w : option Writer) : option error :=
  match w with
  | None => Some "writer is nil"
  | Some w =>
    match files w with
    | None => Some "files is nil"
    | Some _ =>
      match mode w with
      | None => Some "mode is nil"
      | Some _ =>
        match message w with
        | None => Some "message is nil"
        | Some _ => None
        end
      end
    end
  end.

(** *** Construction from a map *)

(** The dynamic values a [map[string]interface{}] may hold. *)
Inductive Value : Type :=
| VNil                                            (* the nil interface *)
| VFiles (p : option (list (option File)))        (* *[]*os.File *)
| VMode (p : option Mode.t)                       (* *Mode *)
| VStringPtr (p : option string)                  (* *string *)
| VUint64 (n : Z)                                 (* uint64 *)
| VInt (n : Z)                                    (* int *)
| VString (s : string)                            (* string *)
| VFileSlice (l : list (option File)).            (* []*os.File *)

Definition validateEntry (key : string) (value : Value) : option error :=
  if String.eqb key "files" then
    match value with VFiles _ => None | _ => Some "files is not a []*os.File" end
  else if String.eqb key "mode" then
    match value with VMode _ => None | _ => Some "mode is not a *Mode" end
  else if String.eqb key "message" then
    match value with VStringPtr _ => None | _ => Some "message is not a *string" end
  else if String.eqb key "retries" then
    match value with VUint64 _ => None | _ => Some "retries is not a uint64" end
  else if String.eqb key "backoff" then
    match value with VUint64 _ => None | _ => Some "backoff is not a uint64" end
  else if String.eqb key "maxPool" then
    match value with VUint64 _ => None | _ => Some "maxPool is not a uint64" end
  else Some ("unknown key: " +:+ key).

(** The [for key, value := range config] loop of [validateMap]. *)
Fixpoint validateEntries (entries : list (string * Value)) : option error :=
  match entries with
  | [] => None
  | (key, value) :: rest =>
    match validateEntry key value with
    | Some e => Some e
    | None => validateEntries rest
    end
  end.

(** [validateMap]; a [nil] map is [None]. *)
Definition validateMap (config : option (gmap string Value)) : option error :=
  match config with
  | None => Some "config is nil"
  | Some m => validateEntries (Range m)
  end.

(** [config[key]]: the zero value, the nil interface, for an absent key. *)
Definition index (config : gmap string Value) (key : string) : Value :=
  default VNil (config !! key).

Definition interface_conversion (v : Value) (want : string) : string :=
  "interface conversion: interface {} is " +:+
  match v with
  | VNil => "nil"
  | VFiles _ => "*[]*os.File"
  | VMode _ => "*writer.Mode"
  | VStringPtr _ => "*string"
  | VUint64 _ => "uint64"
  | VInt _ => "int"
  | VString _ => "string"
  | VFileSlice _ => "[]*os.File"
  end +:+ ", not " +:+ want.

(** The single-value type assertions [v.( *[]*os.File)] and so on: they
    panic when the dynamic type is another one. *)
Definition assertFiles (v : Value) : Go (option (list (option File))) :=
  match v with VFiles p => Ret p | _ => Panic (interface_conversion v "*[]*os.File") end.
Definition assertMode (v : Value) : Go (option Mode.t) :=
  match v with VMode p => Ret p | _ => Panic (interface_conversion v "*writer.Mode") end.
Definition assertStringPtr (v : Value) : Go (option string) :=
  match v with VStringPtr p => Ret p | _ => Panic (interface_conversion v "*string") end.
Definition assertUint64 (v : Value) : Go Z :=
  match v with VUint64 n => Ret n | _ => Panic (interface_conversion v "uint64") end.

Definition Go_bind {A B} (m : Go A) (k : A -> Go B) : Go B :=
  match m with Ret a => k a | Panic msg => Panic msg end.

Definition failure {A} (g : Go A) : option string :=
  match g with Panic msg => Some msg | Ret _ => None end.

(** The panic of the type assertion of one operand, when it fails. *)
Definition operand_panic (m : gmap string Value) (op : operand) : option string :=
  match op with
  | OpFiles => failure (assertFiles (index m "files"))
  | OpMode => failure (assertMode (index m "mode"))
  | OpMessage => failure (assertStringPtr (index m "message"))
  | OpRetries => failure (assertUint64 (index m "retries"))
  | OpBackoff => failure (assertUint64 (index m "backoff"))
  | OpMaxPool => failure (assertUint64 (index m "maxPool"))
  end.

(** [NewWriterFromMap]: the pair [( *Writer, error)] it returns, or the
    panic of a type assertion.  The six assertions are operands of one
    composite literal: when several of them fail, the one that panics is
    the first in the order of evaluation, [Operands]; when none fails the
    order does not matter. *)
Definition NewWriterFromMap (config : option (gmap string Value))
  : Go (option Writer * option error) :=
  match validateMap config with
  | Some err => Ret (None, Some err)
  | None =>
    let m := default ∅ config in
    match head (omap (operand_panic m) Operands) with
    | Some msg => Panic msg
    | None =>
      Go_bind (assertFiles (index m "files")) (fun fs =>
      Go_bind (assertMode (index m "mode")) (fun md =>
      Go_bind (assertStringPtr (index m "message")) (fun msg =>
      Go_bind (assertUint64 (index m "retries")) (fun r =>
      Go_bind (assertUint64 (index m "backoff")) (fun b =>
      Go_bind (assertUint64 (index m "maxPool")) (fun mp =>
      Ret (Some {| files := fs; mode := md; message := msg;
                   openFilesPool := ∅; connLastUsed := ∅;
                   maxConns := mp; retries := r; backoff := b;
                   ctx := Some Background |}, None)))))))
    end
  end.

(** *** Mode methods *)

Definition O_RDWR : Z := 2.
Definition O_CREATE : Z := 64.
Definition O_TRUNC : Z := 512.
Definition O_APPEND : Z := 1024.

(** [getFileMode]. *)
Definition getFileMode (modeStr : string) : Z * option error :=
  if String.eqb modeStr "a" then (Z.lor (Z.lor O_RDWR O_CREATE) O_APPEND, None)
  else if String.eqb modeStr "w" then (Z.lor (Z.lor O_RDWR O_CREATE) O_TRUNC, None)
  else (0, Some ("invalid mode: " +:+ modeStr)).

(** *** Pool methods *)

Definition pool_Store (name : string) (f : File) : M unit :=
  set_wr (fun w => with_pool (<[name := f]> (openFilesPool w)) w).
Definition pool_Delete (name : string) : M unit :=
  set_wr (fun w => with_pool (delete name (openFilesPool w)) w).
Definition lastUsed_Store (name : string) (t : Z) : M unit :=
  set_wr (fun w => with_lastUsed (<[name := t]> (connLastUsed w)) w).
Definition lastUsed_Delete (name : string) : M unit :=
  set_wr (fun w => with_lastUsed (delete name (connLastUsed w)) w).

(** [AddConn]. *)
Definition AddConn (file : option File) : M (option error) :=
  match file with
  | None => ret (Some "nil file pointer received")
  | Some file =>
    let fileName := Name file in
    let* st := get in
    match openFilesPool (wr st) !! fileName with
    | Some _ => ret None
    | None =>
      pool_Store fileName file;;;
      let* now := Now in
      lastUsed_Store fileName now;;;
      ret None
    end
  end.

(** [RemoveConn]; calling [file.Name()] on a [nil] file panics. *)
Definition RemoveConn (file : option File) : M (option error) :=
  match file with
  | None => panic nil_dereference
  | Some file =>
    let fileName := Name file in
    let* st := get in
    match openFilesPool (wr st) !! fileName with
    | Some _ => pool_Delete fileName;;; ret None
    | None => ret (Some ("file " +:+ fileName +:+ " not found"))
    end
  end.

(** The callback of [w.connLastUsed.Range] in [GetConn]; the pair is
    [(oldestFile, oldestTime)], [lastUsed.Before(oldestTime)] is [<]. *)
Definition oldest_step (acc : string * Z) (entry : string * Z) : string * Z :=
  let '(oldestFile, oldestTime) := acc in
  let '(key, lastUsed) := entry in
  if String.eqb oldestFile "" || (lastUsed <? oldestTime)
  then (key, lastUsed) else (oldestFile, oldestTime).

(** The zero [time.Time]. *)
Definition zeroTime : Z := 0.

Definition find_oldest (lastUsed : gmap string Z) : string * Z :=
  fold_left oldest_step (Range lastUsed) (EmptyString, zeroTime).

(** The callback of [w.openFilesPool.Range] in [GetConn]: [count++]. *)
Definition count_entries (pool : gmap string File) : Z :=
  fold_left (fun count _ => wrap_int (count + 1)) (Range pool) 0.

(** The block of [GetConn] under "Check if pool is full". *)
Definition evict_if_full : M unit :=
  let* st := get in
  let count := count_entries (openFilesPool (wr st)) in
  if maxConns (wr st) <=? wrap_uint64 count then
    let oldestFile := fst (find_oldest (connLastUsed (wr st))) in
    if negb (String.eqb oldestFile "") then
      match openFilesPool (wr st) !! oldestFile with
      | Some oldFile =>
        let* _ := Close oldFile in
        pool_Delete oldestFile;;;
        lastUsed_Delete oldestFile
      | None => ret tt
      end
    else ret tt
  else ret tt.

(** The block of [GetConn] under "Check if file exists in pool": the
    pooled handle when it is there and still usable. *)
Definition lookup_live (fileName : string) : M (option File) :=
  let* st := get in
  match openFilesPool (wr st) !! fileName with
  | Some fileObj =>
    let* err := Stat fileObj in
    match err with
    | None =>
      let* now := Now in
      lastUsed_Store fileName now;;;
      ret (Some fileObj)
    | Some _ =>
      pool_Delete fileName;;;
      lastUsed_Delete fileName;;;
      ret None
    end
  | None => ret None
  end.

(** [GetConn]. *)
Definition GetConn (file : option File) : M (option File * option error) :=
  match file with
  | None => ret (None, Some "nil file pointer received")
  | Some file =>
    let fileName := Name file in
    let* pooled := lookup_live fileName in
    match pooled with
    | Some fileObj => ret (Some fileObj, None)
    | None =>
      evict_if_full;;;
      pool_Store fileName file;;;
      let* now := Now in
      lastUsed_Store fileName now;;;
      ret (Some file, None)
    end
  end.

(** [CheckConnStatus]. *)
Definition CheckConnStatus (file : option File) : M bool :=
  match file with
  | None => ret false
  | Some file =>
    let fileName := Name file in
    let* st := get in
    match openFilesPool (wr st) !! fileName with
    | Some fileObj =>
      let* err := Stat fileObj in
      match err with
      | Some _ => ret false
      | None => ret true
      end
    | None => ret false
    end
  end.

(** [CloseConn]. *)
Definition CloseConn (file : option File) : M (option error) :=
  match file with
  | None => ret (Some "file is nil")
  | Some file =>
    let fileName := Name file in
    let* st := get in
    match openFilesPool (wr st) !! fileName with
    | None => ret (Some ("file " +:+ fileName +:+ " not found in pool"))
    | Some fileObj =>
      pool_Delete fileName;;;
      lastUsed_Delete fileName;;;
      let* err := Close fileObj in
      match err with
      | Some e => ret (Some ("error closing file " +:+ fileName +:+ ": " +:+ e))
      | None => ret None
      end
    end
  end.

(** The [for name, file := range filesToClose] loop of [CloseAllConns]. *)
Fixpoint closeAll_loop (filesToClose : list (string * File)) (errSlice : list error)
  : M (list error) :=
  match filesToClose with
  | [] => ret errSlice
  | (name, file) :: rest =>
    let* serr := Stat file in
    match serr with
    | Some _ =>
      pool_Delete name;;;
      lastUsed_Delete name;;;
      closeAll_loop rest errSlice
    | None =>
      let* err := Close file in
      let errSlice' :=
        match err with
        | Some e =>
          if negb (Contains e "file already closed")
          then errSlice ++ ["error closing file " +:+ name +:+ ": " +:+ e]
          else errSlice
        | None => errSlice
        end in
      pool_Delete name;;;
      lastUsed_Delete name;;;
      closeAll_loop rest errSlice'
    end
  end.

(** [CloseAllConns]. *)
Definition CloseAllConns : M (option error) :=
  let* st := get in
  let filesToClose : gmap string File :=
    list_to_map (Range (openFilesPool (wr st))) in
  let* errSlice := closeAll_loop (Range filesToClose) [] in
  if (0 <? length errSlice)%nat
  then ret (Some ("multiple errors closing files: " +:+ format_error_slice errSlice))
  else ret None.

(** [ClearAll]. *)
Definition ClearAll : M unit :=
  set_wr (fun w => with_lastUsed ∅ (with_pool ∅ w)).

(** [ClearFiles]. *)
Definition ClearFiles : M unit :=
  set_wr (with_files (Some [])).

(** [FactoryReset]. *)
Definition FactoryReset : M (option error) :=
  let* err := CloseAllConns in
  match err with
  | Some e => ret (Some e)
  | None => ClearAll;;; ClearFiles;;; ret None
  end.

(** *** The single-target write *)

Definition Info_set (key value : string) : M unit :=
  set_res (fun r => {| Total := Total r; ErrSlice := ErrSlice r;
                       Success := Success r; Failure := Failure r;
                       SuccessRate := SuccessRate r; FailureRate := FailureRate r;
                       Info := <[key := value]> (Info r) |}).

(** The part of [writeToFile] under "Check if file is open": the handle
    to write to, or the error to return.  The deferred function declared
    there looks at the [err] of [os.OpenFile], which is [nil] from then
    on, so it never closes or removes anything. *)
Definition reopen_if_needed (file : File) (fileMode : Z) : M (File + error) :=
  let* live := CheckConnStatus (Some file) in
  if negb live then
    let* opened := OpenFile (Name file) fileMode 438 in
    match opened with
    | (Some newFile, None) =>
      let fileName := Name file in
      pool_Store fileName newFile;;;
      ret (inl newFile)
    | (_, Some e) =>
      Info_set (Name file) e;;;
      ret (inr ("error opening file " +:+ Name file +:+ ": " +:+ e))
    | (None, None) => panic nil_dereference
    end
  else ret (inl file).

(** [writeToFile]; the [*Results] argument is the [res] cell of the state. *)
Definition writeToFile (file : option File) (message : string) : M (option error) :=
  let* st := get in
  match ctx (wr st) with
  | None => panic nil_dereference
  | Some c =>
    match Err c (tick (os st)) with
    | Some e => ret (Some e)
    | None =>
      match file with
      | None =>
        Info_set "nil_file" "received nil file pointer";;;
        ret (Some "nil file pointer received")
      | Some file =>
        match mode (wr st) with
        | None => panic nil_dereference
        | Some m =>
          match Mode.mode m with
          | None => panic nil_dereference
          | Some modeStr =>
            match getFileMode modeStr with
            | (_, Some e) => Info_set (Name file) e;;; ret (Some e)
            | (fileMode, None) =>
              let* target := reopen_if_needed file fileMode in
              match target with
              | inr e => ret (Some e)
              | inl file =>
                let bufferedWriter := bufio_NewWriter file in
                let* written := bufio_WriteString bufferedWriter message in
                match written with
                | (_, Some e) =>
                  Info_set (Name file) e;;;
                  (if negb (Contains e "already closed")
                   then let* _ := Close file in ret tt
                   else ret tt);;;
                  ret (Some ("error writing to file " +:+ Name file +:+ ": " +:+ e))
                | (bufferedWriter, None) =>
                  let* ferr := bufio_Flush bufferedWriter in
                  match ferr with
                  | Some e =>
                    Info_set (Name file) e;;;
                    let* _ := Close file in
                    ret (Some ("error flushing buffer for file " +:+ Name file +:+ ": " +:+ e))
                  | None => ret None
                  end
                end
              end
            end
          end
        end
      end
    end
  end.

(** *** Retry *)

(** The [for i := tries; i > 0; i--] loop of [retry]; [i] is the loop
    counter, [backoff] the local variable of that name. *)
Fixpoint retry_loop (function : option File -> string -> M (option error))
    (file : option File) (message : string) (i : nat) (backoff : Z) : M (option error) :=
  match i with
  | O => ret None
  | S i' =>
    let* err := function file message in
    match err with
    | None => ret None
    | Some e =>
      match i' with
      | O => ret (Some ("exhausted retries: last error: " +:+ e))
      | S _ =>
        Sleep (Duration_mul (Duration backoff) Millisecond);;;
        retry_loop function file message i'
          (if backoff <? 1000 then wrap_uint64 (backoff * 2) else backoff)
      end
    end
  end.

(** [retry]. *)
Definition retry (function : option File -> string -> M (option error))
    (file : option File) (message : string) : M (option error) :=
  let* st := get in
  let tries := retries (wr st) in
  let backoff := backoff (wr st) in
  if tries =? 0 then function file message
  else retry_loop function file message (Z.to_nat tries) backoff.

(** *** Batcher *)

(** The slice expression [s[low:high]]; out of range it panics. *)
Definition slice {A} (s : list A) (low high : Z) : Go (list A) :=
  if (0 <=? low) && (low <=? high) && (high <=? Z.of_nat (length s))
  then Ret (take (Z.to_nat (high - low)) (drop (Z.to_nat low) s))
  else Panic "runtime error: slice bounds out of range".

(** The [for i := 0; i < numBatches; i++] loop of [batcher]; [n] is the
    number of iterations left. *)
Fixpoint batcher_loop (fs : list (option File)) (batchSize numFiles : Z)
    (n : nat) (i : Z) : Go (list (list (option File))) :=
  match n with
  | O => Ret []
  | S n' =>
    let start := wrap_int (i * batchSize) in
    let end_ := wrap_int (start + batchSize) in
    let end_ := if numFiles <? end_ then numFiles else end_ in
    Go_bind (slice fs start end_) (fun batch =>
    Go_bind (batcher_loop fs batchSize numFiles n' (wrap_int (i + 1))) (fun rest =>
    Ret (batch :: rest)))
  end.

(** The value of [batchSize] after the block of [batcher] under
    [if batchSize <= 0]. *)
Definition effectiveBatchSize (numFiles batchSize : Z) : Z :=
  if batchSize <=? 0 then
    let b := Z.quot numFiles NumCPU in
    if b =? 0 then 1 else b
  else batchSize.

(** [batcher]. *)
Definition batcher (w : Writer) (batchSize : Z) : Go (list (list (option File))) :=
  match files w with
  | None => Panic nil_dereference
  | Some fs =>
    let numFiles := Z.of_nat (length fs) in
    let batchSize := effectiveBatchSize numFiles batchSize in
    let numBatches := Z.quot (wrap_int (wrap_int (numFiles + batchSize) - 1)) batchSize in
    if numBatches <? 0 then Panic "runtime error: makeslice: len out of range"
    else batcher_loop fs batchSize numFiles (Z.to_nat numBatches) 0
  end.

(** *** Write *)

Definition record_failure (e : error) : M unit :=
  set_res (fun r => {| Total := Total r; ErrSlice := ErrSlice r ++ [e];
                       Success := Success r; Failure := wrap_uint64 (Failure r + 1);
                       SuccessRate := SuccessRate r; FailureRate := FailureRate r;
                       Info := Info r |}).

Definition record_success : M unit :=
  set_res (fun r => {| Total := Total r; ErrSlice := ErrSlice r;
                       Success := wrap_uint64 (Success r + 1); Failure := Failure r;
                       SuccessRate := SuccessRate r; FailureRate := FailureRate r;
                       Info := Info r |}).

(** Which branch the body of the worker loop took for a job. *)
Inductive Outcome : Type :=
| AcquisitionFailed
| WriteFailed
| Written.

#[global] Instance Outcome_eq_dec : EqDecision Outcome.
Proof. solve_decision. Defined.

(** The body of [for file := range jobs] in a worker. *)
Definition worker_job (file : option File) : M Outcome :=
  let* conn := GetConn file in
  match conn with
  | (_, Some errConn) => record_failure errConn;;; ret AcquisitionFailed
  | (file, None) =>
    let* st := get in
    match message (wr st) with
    | None => panic nil_dereference
    | Some msg =>
      let* err := retry writeToFile file msg in
      match err with
      | Some e => record_failure e;;; ret WriteFailed
      | None => record_success;;; ret Written
      end
    end
  end.

Fixpoint run_jobs (jobs : list (option File)) : M (list Outcome) :=
  match jobs with
  | [] => ret []
  | file :: rest =>
    let* o := worker_job file in
    let* os := run_jobs rest in
    ret (o :: os)
  end.

(** The worker pool: [maxWorkers] goroutines draining the channel.  With
    no worker nothing is drained; one worker runs the jobs in the order
    they were queued ([Schedule_one]); for several workers see [Runtime]. *)
Definition run_workers (maxWorkers : Z) (jobs : list (option File)) : M (list Outcome) :=
  if maxWorkers <=? 0 then ret [] else run_jobs (Schedule maxWorkers jobs).

(** The number of workers [Write] starts for [len] targets. *)
Definition worker_count (maxWorkers len : Z) : Z :=
  let maxWorkers := if maxWorkers <=? 0 then NumCPU else maxWorkers in
  if len <? maxWorkers then len else maxWorkers.

(** The block of [Write] under "Calculate final results". *)
Definition finalize (total : Z) (r : Results) : Results :=
  if 0 <? total then
    {| Total := total; ErrSlice := ErrSlice r;
       Success := Success r; Failure := Failure r;
       SuccessRate := float64_div (float64_of_uint64 (Success r)) (float64_of_uint64 total);
       FailureRate := float64_div (float64_of_uint64 (Failure r)) (float64_of_uint64 total);
       Info := Info r |}
  else
    {| Total := total; ErrSlice := ErrSlice r;
       Success := Success r; Failure := Failure r;
       SuccessRate := float64_zero; FailureRate := float64_zero;
       Info := Info r |}.

(** The jobs [Write] sends on the channel, in the order it sends them. *)
Definition queued_jobs (w : Writer) (fs : list (option File)) : Go (list (option File)) :=
  if 1000 <? Z.of_nat (length fs)
  then Go_bind (batcher w 0) (fun batches => Ret (concat batches))
  else Ret fs.

Definition lift {A} (g : Go A) : M A :=
  fun st => match g with Ret a => Ret (a, st) | Panic msg => Panic msg end.

(** [Write] on a receiver that is not [nil]. *)
Definition Write_body (maxWorkers : Z) : M (option Results * option error * list Outcome) :=
  let* st := get in
  let w := wr st in
  match ctx w with
  | None => panic nil_dereference
  | Some c =>
    match Err c (tick (os st)) with
    | Some e => ret (None, Some e, [])
    | None =>
      match fullWriteCheck (Some w) with
      | Some e => ret (None, Some e, [])
      | None =>
        match files w with
        | None => panic nil_dereference
        | Some fs =>
          let len := Z.of_nat (length fs) in
          if len =? 0 then ret (None, Some "files is empty", [])
          else
            set_res (fun _ => NewResults);;;
            let maxWorkers := if maxWorkers <=? 0 then NumCPU else maxWorkers in
            let maxWorkers := if len <? maxWorkers then len else maxWorkers in
            let* jobs := lift (queued_jobs w fs) in
            let* outcomes := run_workers maxWorkers jobs in
            set_res (finalize (wrap_uint64 len));;;
            let* st' := get in
            ret (Some (res st'), None, outcomes)
        end
      end
    end
  end.

(** [Write]: what it returns (the [*Results], the [error], and for the
    record the branch each job took) and the state it leaves, or a panic.
    The receiver may be [nil]; reading [w.ctx] then panics. *)
Definition Write (w : option Writer) (maxWorkers : Z) (o : OS)
  : Go ((option Results * option error * list Outcome) * State) :=
  match w with
  | None => Panic nil_dereference
  | Some w => Write_body maxWorkers {| wr := w; res := NewResults; os := o |}
  end.

End Package.

(** ** Observations and example inputs *)

(** The pauses made so far, in nanoseconds, oldest first. *)
Definition sleeps (st : State) : list Z :=
  omap (fun e => match e with EvSleep ns => Some ns | _ => None end)
       (rev (trace (os st))).

(** The pause [retry] makes when its variable [backoff] holds [b]
    (milliseconds), in nanoseconds. *)
Definition pause (b : Z) : Z := Z.max 0 (Duration_mul (Duration b) Millisecond).

(** A runtime in which no system call fails, the clock shows the number
    of instants elapsed, maps are ranged over in [map_to_list] order and
    jobs run in the order they were queued. *)
Definition quiet : Runtime :=
  {| NumCPU := 4;
     NumCPU_range := ltac:(unfold MaxInt; lia);
     fault := fun _ _ => None;
     clock := fun t => Z.of_nat t;
     Range := fun A m => map_to_list m;
     Range_perm := fun A m => reflexivity (map_to_list m);
     Schedule := fun _ jobs => jobs;
     Schedule_perm := fun _ jobs => reflexivity jobs;
     Schedule_one := fun jobs => eq_refl;
     Operands := operands;
     Operands_perm := reflexivity operands |}.

(** As [quiet], but the compiled code evaluates the assertions to
    [uint64] before the assertions to pointer types. *)
Definition uint64_first : Runtime :=
  {| NumCPU := 4;
     NumCPU_range := ltac:(unfold MaxInt; lia);
     fault := fun _ _ => None;
     clock := fun t => Z.of_nat t;
     Range := fun A m => map_to_list m;
     Range_perm := fun A m => reflexivity (map_to_list m);
     Schedule := fun _ jobs => jobs;
     Schedule_perm := fun _ jobs => reflexivity jobs;
     Schedule_one := fun jobs => eq_refl;
     Operands := [OpRetries; OpBackoff; OpMaxPool; OpFiles; OpMode; OpMessage];
     Operands_perm :=
       Permutation_app_comm [OpRetries; OpBackoff; OpMaxPool] [OpFiles; OpMode; OpMessage] |}.

(** As [quiet], but closing a handle fails with an input/output error. *)
Definition close_fails : Runtime :=
  {| NumCPU := 4;
     NumCPU_range := ltac:(unfold MaxInt; lia);
     fault := fun _ c => match c with
                         | SysClose f => Some ("close " +:+ Name f +:+ ": input/output error")
                         | _ => None
                         end;
     clock := fun t => Z.of_nat t;
     Range := fun A m => map_to_list m;
     Range_perm := fun A m => reflexivity (map_to_list m);
     Schedule := fun _ jobs => jobs;
     Schedule_perm := fun _ jobs => reflexivity jobs;
     Schedule_one := fun jobs => eq_refl;
     Operands := operands;
     Operands_perm := reflexivity operands |}.

(** An operation for [retry] that notes each of its invocations in
    [ErrSlice] and fails until it has been invoked [k] times before. *)
Definition note_call (e : error) : M unit :=
  set_res (fun r => {| Total := Total r; ErrSlice := ErrSlice r ++ [e];
                       Success := Success r; Failure := Failure r;
                       SuccessRate := SuccessRate r; FailureRate := FailureRate r;
                       Info := Info r |}).

Definition calls_noted (st : State) : nat := length (ErrSlice (res st)).

Definition fails_first (k : nat) (file : option File) (message : string) : M (option error) :=
  let* st := get in
  note_call "attempt";;;
  if (calls_noted st <? k)%nat then ret (Some "disk full") else ret None.

Definition always_fails (file : option File) (message : string) : M (option error) :=
  note_call "attempt";;; ret (Some "disk full").

Definition file1 : File := {| Name := "/tmp/a.txt"; fd := 1 |}.
Definition file2 : File := {| Name := "/tmp/b.txt"; fd := 2 |}.
Definition file3 : File := {| Name := "/tmp/c.txt"; fd := 3 |}.

Definition modeA : Mode.t := Mode.mk (Some "a").

Definition fresh_OS : OS := {| tick := 0; closed := ∅; next_fd := 100; trace := [] |}.

Definition state_of (w : Writer) : State := {| wr := w; res := NewResults; os := fresh_OS |}.

(** [NewWriter(&files, modeA, &message, maxPool, retries, backoff)] with
    the message of the tests. *)
Definition test_writer (fs : list (option File)) (maxPool retries backoff : Z) : Writer :=
  NewWriter (Some fs) (Some modeA) (Some "Hello, World!") maxPool retries backoff.

(** A handle whose name is the empty string, as [os.NewFile(fd, "")]
    makes one; the text of the name is built without a literal. *)
Definition unnamed_file : File := {| Name := EmptyString; fd := 9 |}.

(** The state of a fresh writer of capacity 1 after [GetConn(file1)]. *)
Definition after_first_acquisition : State :=
  match GetConn (rt := quiet) (Some file1) (state_of (test_writer [] 1 3 100)) with
  | Ret (_, st) => st
  | Panic _ => state_of (test_writer [] 1 3 100)
  end.

(** A writer with the target [file1], which is also in its pool. *)
Definition pooled_state : State :=
  {| wr := with_lastUsed {[Name file1 := 0]}
             (with_pool {[Name file1 := file1]} (test_writer [Some file1] 1 3 100));
     res := NewResults;
     os := fresh_OS |}.

(** ** Specification vocabulary *)

(** [calls] counts the invocations of [function] on [file] and [message]:
    an invocation returns and adds one, sleeping adds nothing. *)
Definition counts_invocations (function : option File -> string -> M (option error))
    (file : option File) (message : string) (calls : State -> nat) : Prop :=
  (forall s, exists r s', function file message s = Ret (r, s') /\ calls s' = S (calls s)) /\
  (forall ms s s', Sleep ms s = Ret (tt, s') -> calls s' = calls s).

Definition fails_at (function : option File -> string -> M (option error))
    (file : option File) (message : string) (s : State) : Prop :=
  exists e s', function file message s = Ret (Some e, s').

Definition succeeds_at (function : option File -> string -> M (option error))
    (file : option File) (message : string) (s : State) : Prop :=
  exists s', function file message s = Ret (None, s').

(** [function] fails whenever it is invoked and does not sleep itself. *)
Definition fails_without_sleeping (function : option File -> string -> M (option error))
    (file : option File) (message : string) : Prop :=
  forall s, exists e s', function file message s = Ret (Some e, s') /\ sleeps s' = sleeps s.

(** The value of the local variable [backoff] of [retry] after one more
    failed attempt. *)
Definition next_backoff (b : Z) : Z :=
  if b <? 1000 then wrap_uint64 (b * 2) else b.

(** The first [n] values [backoff] takes, starting from [b]. *)
Fixpoint backoffs (b : Z) (n : nat) : list Z :=
  match n with
  | O => []
  | S n' => b :: backoffs (next_backoff b) n'
  end.

(** What the pool looks like between acquisitions: the pool and the
    last-used index have the same keys, no key is the empty name (which
    [GetConn] uses for "no oldest entry yet"), and the pool holds at most
    [maxConns] entries, or one when [maxConns] is 0. *)
Definition pool_ok (w : Writer) : Prop :=
  dom (openFilesPool w) = dom (connLastUsed w) /\
  (EmptyString ∉ dom (openFilesPool w)) /\
  Z.of_nat (size (openFilesPool w)) <= Z.max (maxConns w) 1.

Definition named (file : option File) : Prop :=
  match file with
  | Some f => Name f <> EmptyString
  | None => True
  end.

(** The states a writer goes through when [GetConn] is called again and
    again on it, starting with empty pools; between two calls the rest of
    the process may do to the operating system what it likes. *)
Inductive acquiring `{Runtime} (capacity : Z) : State -> Prop :=
| acquiring_fresh st :
    openFilesPool (wr st) = ∅ -> connLastUsed (wr st) = ∅ ->
    maxConns (wr st) = capacity ->
    acquiring capacity st
| acquiring_GetConn st file r st' :
    acquiring capacity st -> named file ->
    GetConn file st = Ret (r, st') ->
    acquiring capacity st'
| acquiring_elsewhere st o :
    acquiring capacity st ->
    acquiring capacity {| wr := wr st; res := res st; os := o |}.

(** The pooled handle for [name] answers [Stat] without an error. *)
Definition live_in_pool `{Runtime} (st : State) (name : string) (h : File) : Prop :=
  openFilesPool (wr st) !! name = Some h /\
  exists st1, Stat h st = Ret (None, st1).

(** The two writers differ at most in their pools. *)
Definition same_settings (w w' : Writer) : Prop :=
  files w' = files w /\ mode w' = mode w /\ message w' = message w /\
  maxConns w' = maxConns w /\ retries w' = retries w /\ backoff w' = backoff w /\
  ctx w' = ctx w.

(** The two results differ at most in [Info]. *)
Definition same_counts (r r' : Results) : Prop :=
  Total r' = Total r /\ ErrSlice r' = ErrSlice r /\
  Success r' = Success r /\ Failure r' = Failure r /\
  SuccessRate r' = SuccessRate r /\ FailureRate r' = FailureRate r.

(** A writer on which the workers of [Write] dereference no [nil]: it has
    a context, a mode that holds a string, and a message. *)
Definition runnable (w : Writer) : Prop :=
  is_Some (ctx w) /\
  (exists m s, mode w = Some m /\ Mode.mode m = Some s) /\
  is_Some (message w).

(** No Go slice is longer: a 64-bit process addresses at most [2^48]
    bytes. *)
Definition maxSliceLen : Z := 2 ^ 48.

(** How often [x] occurs. *)
Definition occurrences {A} `{EqDecision A} (x : A) (l : list A) : nat :=
  length (filter (fun y => y = x) l).

(** The counters of [r] account for [n] jobs: each was counted once, as a
    success or as a failure, and every failure left its error in
    [ErrSlice]. *)
Definition tally (r : Results) (n : Z) : Prop :=
  0 <= Success r /\ 0 <= Failure r /\
  Success r + Failure r = n /\
  Z.of_nat (length (ErrSlice r)) = Failure r.

(** [function] returns on every runnable writer and changes neither the
    settings of the writer nor the counters of the results. *)
Definition well_behaved (function : option File -> string -> M (option error))
    (file : option File) (message : string) : Prop :=
  forall s, runnable (wr s) ->
    exists r s', function file message s = Ret (r, s') /\
                 same_settings (wr s) (wr s') /\ same_counts (res s) (res s').

(** A writer [Write] can run on: a non-empty target list [fs] (of a
    length a Go slice can have), a mode that holds a string, a message,
    and a context that is not done when [Write] is entered. *)
Definition validly_configured (w : Writer) (o : OS) (fs : list (option File)) : Prop :=
  files w = Some fs /\ fs <> [] /\ Z.of_nat (length fs) <= maxSliceLen /\
  runnable w /\
  forall c, ctx w = Some c -> Err c (tick o) = None.

(** The preconditions of [Write] on a receiver that is not [nil]: one of
    the fields [files], [mode], [message] is [nil], the target list is
    empty, or the context is done on entry. *)
Definition precondition_violated (w : Writer) (o : OS) : Prop :=
  files w = None \/ mode w = None \/ message w = None \/ files w = Some [] \/
  exists c e, ctx w = Some c /\ Err c (tick o) = Some e.

(** The keys [NewWriterFromMap] reads. *)
Definition required_keys : list string :=
  ["files"; "mode"; "message"; "retries"; "backoff"; "maxPool"]%string.

(** ** Rounding

    [rne_div a b] is the integer nearest to [a / b], the even one of the
    two when [a / b] lies half-way; [loc_of a b] is where [a / b] lies
    between [a / b] rounded down and the next integer. *)

Definition rne_div (a b : Z) : Z :=
  match 2 * (a mod b) ?= b with
  | Lt => a / b
  | Eq => if Z.even (a / b) then a / b else a / b + 1
  | Gt => a / b + 1
  end.

Definition loc_of (a b : Z) : location :=
  if a mod b =? 0 then loc_Exact else loc_Inexact (2 * (a mod b) ?= b).

(** ** Getters, setters and the other constructors *)

Definition with_mode (m : option Mode.t) (w : Writer) : Writer :=
  {| files := files w; mode := m; message := message w;
     openFilesPool := openFilesPool w; connLastUsed := connLastUsed w;
     maxConns := maxConns w; retries := retries w; backoff := backoff w;
     ctx := ctx w |}.
Definition with_message (msg : option string) (w : Writer) : Writer :=
  {| files := files w; mode := mode w; message := msg;
     openFilesPool := openFilesPool w; connLastUsed := connLastUsed w;
     maxConns := maxConns w; retries := retries w; backoff := backoff w;
     ctx := ctx w |}.
Definition with_retries (n : Z) (w : Writer) : Writer :=
  {| files := files w; mode := mode w; message := message w;
     openFilesPool := openFilesPool w; connLastUsed := connLastUsed w;
     maxConns := maxConns w; retries := n; backoff := backoff w;
     ctx := ctx w |}.
Definition with_backoff (n : Z) (w : Writer) : Writer :=
  {| files := files w; mode := mode w; message := message w;
     openFilesPool := openFilesPool w; connLastUsed := connLastUsed w;
     maxConns := maxConns w; retries := retries w; backoff := n;
     ctx := ctx w |}.
Definition with_maxConns (n : Z) (w : Writer) : Writer :=
  {| files := files w; mode := mode w; message := message w;
     openFilesPool := openFilesPool w; connLastUsed := connLastUsed w;
     maxConns := n; retries := retries w; backoff := backoff w;
     ctx := ctx w |}.
Definition with_ctx (c : option Context) (w : Writer) : Writer :=
  {| files := files w; mode := mode w; message := message w;
     openFilesPool := openFilesPool w; connLastUsed := connLastUsed w;
     maxConns := maxConns w; retries := retries w; backoff := backoff w;
     ctx := c |}.

(** Reading a field through the receiver, [w.f]; on [nil] it panics. *)
Definition field {A} (w : option Writer) (f : Writer -> A) : Go A :=
  match w with
  | None => Panic nil_dereference
  | Some w => Ret (f w)
  end.

(** Writing a field through the receiver, [w.f = v]. *)
Definition assign (w : option Writer) (f : Writer -> Writer) : Go (option Writer) :=
  match w with
  | None => Panic nil_dereference
  | Some w => Ret (Some (f w))
  end.

Definition GetFiles (w : option Writer) : Go (option (list (option File))) := field w files.
Definition GetMode (w : option Writer) : Go (option Mode.t) := field w mode.
Definition GetMessage (w : option Writer) : Go (option string) := field w message.
Definition GetRetries (w : option Writer) : Go Z := field w retries.
Definition GetBackoff (w : option Writer) : Go Z := field w backoff.
Definition GetMaxPool (w : option Writer) : Go Z := field w maxConns.

(** A setter returns its error and leaves the receiver as the second
    component. *)
Definition SetFiles (w : option Writer) (files : option (list (option File)))
  : Go (option error * option Writer) :=
  match fullWriteCheck w with
  | Some err => Ret (Some err, w)
  | None =>
    match files with
    | None => Ret (Some "files is nil", w)
    | Some _ => Go_bind (assign w (with_files files)) (fun w' => Ret (None, w'))
    end
  end.

(** [AddFiles]: [copy := *w.files], [append], [w.files = &copy]. *)
Definition AddFiles (w : option Writer) (fs : list (option File))
  : Go (option error * option Writer) :=
  match fullWriteCheck w with
  | Some err => Ret (Some err, w)
  | None =>
    Go_bind (field w files) (fun p =>
    match p with
    | None => Panic nil_dereference
    | Some copy =>
      let copy := copy ++ fs in
      Go_bind (assign w (with_files (Some copy))) (fun w' => Ret (None, w'))
    end)
  end.

Definition SetMode (w : option Writer) (mode : option Mode.t)
  : Go (option error * option Writer) :=
  match fullWriteCheck w with
  | Some err => Ret (Some err, w)
  | None =>
    match mode with
    | None => Ret (Some "mode is nil", w)
    | Some _ => Go_bind (assign w (with_mode mode)) (fun w' => Ret (None, w'))
    end
  end.

Definition SetMessage (w : option Writer) (message : option string)
  : Go (option error * option Writer) :=
  match fullWriteCheck w with
  | Some err => Ret (Some err, w)
  | None =>
    match message with
    | None => Ret (Some "message is nil", w)
    | Some _ => Go_bind (assign w (with_message message)) (fun w' => Ret (None, w'))
    end
  end.

Definition SetRetries (w : option Writer) (retries : Z)
  : Go (option error * option Writer) :=
  match fullWriteCheck w with
  | Some err => Ret (Some err, w)
  | None => Go_bind (assign w (with_retries retries)) (fun w' => Ret (None, w'))
  end.

Definition SetBackoff (w : option Writer) (backoff : Z)
  : Go (option error * option Writer) :=
  match fullWriteCheck w with
  | Some err => Ret (Some err, w)
  | None => Go_bind (assign w (with_backoff backoff)) (fun w' => Ret (None, w'))
  end.

Definition SetMaxPool (w : option Writer) (maxPool : Z)
  : Go (option error * option Writer) :=
  match fullWriteCheck w with
  | Some err => Ret (Some err, w)
  | None => Go_bind (assign w (with_maxConns maxPool)) (fun w' => Ret (None, w'))
  end.

(** [SetContext] checks nothing. *)
Definition SetContext (w : option Writer) (ctx : option Context) : Go (option Writer) :=
  assign w (with_ctx ctx).

(** The [WriterConfig] struct. *)
Module WriterConfig.
Record t : Type := mk {
  Files : option (list (option File));
  Mode : option Mode.t;
  Message : option string;
  MaxPool : Z;
  Retries : Z;
  Backoff : Z
}.
End WriterConfig.

(** [validateStruct]. *)
Definition validateStruct (w : option WriterConfig.t) : option error :=
  match w with
  | None => Some "writer is nil"
  | Some w =>
    match WriterConfig.Files w with
    | None => Some "files is nil"
    | Some _ =>
      match WriterConfig.Mode w with
      | None => Some "mode is nil"
      | Some _ =>
        match WriterConfig.Message w with
        | None => Some "message is nil"
        | Some _ => None
        end
      end
    end
  end.

(** [NewWriterFromStruct]. *)
Definition NewWriterFromStruct (config : option WriterConfig.t)
  : Go (option Writer * option error) :=
  match validateStruct config with
  | Some _ => Ret (None, validateStruct config)
  | None =>
    match config with
    | None => Panic nil_dereference
    | Some config =>
      Ret (Some {| files := WriterConfig.Files config;
                   mode := WriterConfig.Mode config;
                   message := WriterConfig.Message config;
                   openFilesPool := ∅; connLastUsed := ∅;
                   maxConns := WriterConfig.MaxPool config;
                   retries := WriterConfig.Retries config;
                   backoff := WriterConfig.Backoff config;
                   ctx := Some Background |}, None)
    end
  end.

(** The map [NewWriterFromJSON] hands to [NewWriterFromMap], for the
    values of a configuration. *)
Definition config_map (c : WriterConfig.t) : gmap string Value :=
  <["files" := VFiles (WriterConfig.Files c)]>
  (<["mode" := VMode (WriterConfig.Mode c)]>
  (<["message" := VStringPtr (WriterConfig.Message c)]>
  (<["maxPool" := VUint64 (WriterConfig.MaxPool c)]>
  (<["retries" := VUint64 (WriterConfig.Retries c)]>
  (<["backoff" := VUint64 (WriterConfig.Backoff c)]> ∅))))).

Section DefaultWriter.
Context {rt : Runtime}.

(** [default_writer.go]: the package-level [Dwriter]. *)
Definition appendModeA : string := "a".
Definition maxPool : Z := wrap_uint64 (wrap_int (NumCPU * 4)).
Definition Dwriter : Writer :=
  NewWriter (Some []) (Some (Mode.mk (Some appendModeA))) (Some "Add text to write")
    maxPool 2 100.

End DefaultWriter.

(** A call of one of the checked setters. *)
Inductive setter : Type :=
| CallSetFiles (files : option (list (option File)))
| CallAddFiles (files : list (option File))
| CallSetMode (mode : option Mode.t)
| CallSetMessage (message : option string)
| CallSetRetries (retries : Z)
| CallSetBackoff (backoff : Z)
| CallSetMaxPool (maxPool : Z).

Definition call (w : option Writer) (c : setter) : Go (option error * option Writer) :=
  match c with
  | CallSetFiles files => SetFiles w files
  | CallAddFiles files => AddFiles w files
  | CallSetMode mode => SetMode w mode
  | CallSetMessage message => SetMessage w message
  | CallSetRetries retries => SetRetries w retries
  | CallSetBackoff backoff => SetBackoff w backoff
  | CallSetMaxPool maxPool => SetMaxPool w maxPool
  end.

(** One call after the other on the same receiver; the errors returned,
    in order. *)
Fixpoint calls (w : option Writer) (cs : list setter)
  : Go (list (option error) * option Writer) :=
  match cs with
  | [] => Ret ([], w)
  | c :: rest =>
    Go_bind (call w c) (fun '(err, w') =>
    Go_bind (calls w' rest) (fun '(errs, w'') =>
    Ret (err :: errs, w'')))
  end.

(** ** Mode methods: validation *)

Import Ascii.AsciiSyntax.
Delimit Scope char_scope with char.

(** [strings.TrimSpace] and [strings.ToLower] on strings of ASCII bytes:
    the first removes the bytes [\t \n \v \f \r] and the space from both
    ends, the second maps [A-Z] to [a-z].  What they give on a string with
    a byte above 127, where the Unicode tables decide, is a parameter. *)
Class Unicode : Type := {
  TrimSpace_unicode : string -> string;
  ToLower_unicode : string -> string
}.

Definition is_ascii_byte (c : Ascii.ascii) : bool := (Ascii.N_of_ascii c <? 128)%N.

Fixpoint is_ascii (s : string) : bool :=
  match s with
  | EmptyString => true
  | String c s' => is_ascii_byte c && is_ascii s'
  end.

Definition asciiSpace (c : Ascii.ascii) : bool :=
  let n := Ascii.N_of_ascii c in
  ((n =? 9) || (n =? 10) || (n =? 11) || (n =? 12) || (n =? 13) || (n =? 32))%N.

Fixpoint trim_left (s : string) : string :=
  match s with
  | EmptyString => EmptyString
  | String c s' => if asciiSpace c then trim_left s' else s
  end.

Fixpoint trim_right (s : string) : string :=
  match s with
  | EmptyString => EmptyString
  | String c s' =>
    match trim_right s' with
    | EmptyString => if asciiSpace c then EmptyString else String c EmptyString
    | t => String c t
    end
  end.

Definition lower_byte (c : Ascii.ascii) : Ascii.ascii :=
  let n := Ascii.N_of_ascii c in
  if ((65 <=? n) && (n <=? 90))%N then Ascii.ascii_of_N (n + 32) else c.

Fixpoint lower (s : string) : string :=
  match s with
  | EmptyString => EmptyString
  | String c s' => String (lower_byte c) (lower s')
  end.

(** [slices.Contains] on strings. *)
Definition slices_Contains (l : list string) (x : string) : bool :=
  existsb (String.eqb x) l.

Definition availableModes : list string := ["a"; "w"]%string.

(** [GetAvailableModes]. *)
Definition GetAvailableModes : list string := availableModes.

Section ModeMethods.
Context {uc : Unicode}.

Definition TrimSpace (s : string) : string :=
  if is_ascii s then trim_right (trim_left s) else TrimSpace_unicode s.

Definition ToLower (s : string) : string :=
  if is_ascii s then lower s else ToLower_unicode s.

(** [modeValidation]. *)
Definition modeValidation (mode : option string) : option string * option error :=
  match mode with
  | None => (None, Some "Mode is nil")
  | Some mode =>
    let cleanMode := TrimSpace mode in
    let cleanMode := ToLower cleanMode in
    if negb (slices_Contains GetAvailableModes cleanMode)
    then (None, Some ("Mode is not available, please use 'a' or 'w', got: " +:+ cleanMode))
    else (Some cleanMode, None)
  end.

(** [NewMode]. *)
Definition NewMode (mode : option string) : option Mode.t * option error :=
  match modeValidation mode with
  | (_, Some err) => (None, Some err)
  | (cleanMode, None) => (Some (Mode.mk cleanMode), None)
  end.

(** The method [SetMode] of [Mode]: the error it returns and the [Mode]
    it leaves; on a [nil] receiver reading [m.mode] panics. *)
Definition Mode_SetMode (m : option Mode.t) : Go (option error * option Mode.t) :=
  match m with
  | None => Panic nil_dereference
  | Some m =>
    match modeValidation (Mode.mode m) with
    | (_, Some err) => Ret (Some err, Some m)
    | (cleanMode, None) => Ret (None, Some (Mode.mk cleanMode))
    end
  end.

(** The method [GetMode] of [Mode]. *)
Definition Mode_GetMode (m : option Mode.t) : Go (option string) :=
  match m with
  | None => Panic nil_dereference
  | Some m => Ret (Mode.mode m)
  end.

End ModeMethods.

(** An instance for examples: strings with bytes above 127 are left as
    they are. *)
Definition bytewise : Unicode :=
  {| TrimSpace_unicode := fun s => s; ToLower_unicode := fun s => s |}.

(** The strings made of the bytes [strings.TrimSpace] removes. *)
Fixpoint blank (s : string) : bool :=
  match s with
  | EmptyString => true
  | String c s' => asciiSpace c && blank s'
  end.

(** ** Vocabulary for the pool methods *)

(** The last-used index has an entry for [k] that the pool lacks, older
    than every other entry and than every reading of the clock from now
    on. *)
Definition stale `{Runtime} (st : State) (k : string) : Prop :=
  k <> EmptyString /\
  (EmptyString ∉ dom (connLastUsed (wr st))) /\
  openFilesPool (wr st) !! k = None /\
  exists t,
    connLastUsed (wr st) !! k = Some t /\
    (forall k' t', k' <> k -> connLastUsed (wr st) !! k' = Some t' -> t < t') /\
    (forall n, (tick (os st) <= n)%nat -> t < clock n).

(** The operating system [n] instants later, nothing else having
    happened. *)
Definition later (n : nat) (o : OS) : OS :=
  {| tick := n + tick o; closed := closed o; next_fd := next_fd o; trace := trace o |}.

(** The state with another writer, and with another operating system. *)
Definition on_writer (w : Writer) (st : State) : State :=
  {| wr := w; res := res st; os := os st |}.
Definition on_os (o : OS) (st : State) : State :=
  {| wr := wr st; res := res st; os := o |}.

(** The state of [after_first_acquisition] after [RemoveConn(file1)] and
    then [GetConn(file2)]: the writer has capacity 1. *)
Definition after_removal : State :=
  match RemoveConn (Some file1) after_first_acquisition with
  | Ret (_, st) => st
  | Panic _ => after_first_acquisition
  end.

Definition after_second_acquisition : State :=
  match GetConn (rt := quiet) (Some file2) after_removal with
  | Ret (_, st) => st
  | Panic _ => after_removal
  end.

(** ** Vocabulary for runs of [Write] *)

(** No system call fails of its own (a call on a closed handle still
    does). *)
Definition no_faults `{Runtime} : Prop := forall t c, fault t c = None.

(** The writes so far, oldest first: the name of the handle and the data. *)
Definition writes (o : OS) : list (string * string) :=
  omap (fun e => match e with EvWrite f d => Some (Name f, d) | _ => None end)
       (rev (trace o)).

(** The files opened so far, oldest first: the name and the flags. *)
Definition opens (o : OS) : list (string * Z) :=
  omap (fun e => match e with EvOpen f flag => Some (Name f, flag) | _ => None end)
       (rev (trace o)).

(** The handles of the pool are filed under their own names, and every
    handle the process has seen, pooled or closed, is older than the next
    one [os.OpenFile] will return. *)
Definition tidy (w : Writer) (o : OS) : Prop :=
  (forall n, n ∈ closed o -> (n < next_fd o)%nat) /\
  (forall k h, openFilesPool w !! k = Some h -> Name h = k /\ (fd h < next_fd o)%nat).

(** A writer whose workers can write [msg]: a context that is never
    done, a mode that holds "a" or "w", the message, and a number of
    retries that is not negative. *)
Definition ready (w : Writer) (msg : string) : Prop :=
  (exists c, ctx w = Some c /\ forall t, Err c t = None) /\
  (exists m s, mode w = Some m /\ Mode.mode m = Some s /\
               (s = "a"%string \/ s = "w"%string)) /\
  message w = Some msg /\
  0 <= retries w.

(** The counters after one more success. *)
Definition one_more_success (r : Results) : Results :=
  {| Total := Total r; ErrSlice := ErrSlice r;
     Success := wrap_uint64 (Success r + 1); Failure := Failure r;
     SuccessRate := SuccessRate r; FailureRate := FailureRate r;
     Info := Info r |}.

(** The names of the targets that are files. *)
Definition target_names (fs : list (option File)) : list string :=
  omap (fun f => match f with Some f => Some (Name f) | None => None end) fs.

(** The flags [writeToFile] opens files with on this writer. *)
Definition mode_flags (w : Writer) : Z :=
  match mode w with
  | Some m =>
    match Mode.mode m with
    | Some s => fst (getFileMode s)
    | None => 0
    end
  | None => 0
  end.

(** The counters after one more failure with the error [e]. *)
Definition one_more_failure (e : error) (r : Results) : Results :=
  {| Total := Total r; ErrSlice := ErrSlice r ++ [e];
     Success := Success r; Failure := wrap_uint64 (Failure r + 1);
     SuccessRate := SuccessRate r; FailureRate := FailureRate r;
     Info := Info r |}.

(** The error a job on a file ends with when every attempt of
    [writeToFile] returns [e]. *)
Definition retry_error (retries : Z) (e : error) : error :=
  if retries =? 0 then e else "exhausted retries: last error: " +:+ e.

(** The context [c] of the writer is done, with the error [e], at every
    instant after [t0]; the state is at [t0] or later. *)
Definition done_after (c : Context) (e : error) (t0 : nat) (st : State) : Prop :=
  ctx (wr st) = Some c /\
  (forall t, (t0 < t)%nat -> Err c t = Some e) /\
  (t0 <= tick (os st))%nat.

(** The error a job ends with under a context that is done with [e]. *)
Definition job_error (retries : Z) (e : error) (job : option File) : error :=
  match job with
  | None => "nil file pointer received"
  | Some _ => retry_error retries e
  end.

(** A context that is cancelled right after the instant [t0]. *)
Definition cancelled_after (t0 : nat) : Context :=
  {| Err := fun t => if (t0 <? t)%nat then Some "context canceled" else None |}.

(** The results with [cause] noted in [Info] under [key]. *)
Definition noted (key cause : string) (r : Results) : Results :=
  {| Total := Total r; ErrSlice := ErrSlice r;
     Success := Success r; Failure := Failure r;
     SuccessRate := SuccessRate r; FailureRate := FailureRate r;
     Info := <[key := cause]> (Info r) |}.

(** ** Writing under a deadline *)

Definition DeadlineExceeded : error := "context deadline exceeded".
Definition Canceled : error := "context canceled".

(** The instant at which the timer of a context fires that
    [context.WithTimeout] makes at the instant [now]: at once when the
    timeout is not positive, and not before [now] otherwise. *)
Class Timers : Type := {
  expiry : Z -> nat -> nat;
  expiry_past : forall timeout now, timeout <= 0 -> expiry timeout now = now;
  expiry_future : forall timeout now, (now <= expiry timeout now)%nat
}.

(** The context [context.WithTimeout(context.Background(), d)] returns,
    with a timer that fires at [deadline], as seen at the instant [t]:
    done with [DeadlineExceeded] once the timer has fired, done with
    [Canceled] once its cancel function has been called (at the instant
    [cancelled]) if the timer had not fired by then, and live before. *)
Definition timerCtx (deadline : nat) (cancelled : option nat) : Context :=
  {| Err := fun t =>
       match cancelled with
       | Some k =>
         if (deadline <=? k)%nat
         then (if (deadline <=? t)%nat then Some DeadlineExceeded else None)
         else (if (k <=? t)%nat then Some Canceled else None)
       | None => if (deadline <=? t)%nat then Some DeadlineExceeded else None
       end |}.

Section Timeout.
Context {rt : Runtime} {tm : Timers}.

(** [WriteWithTimeout].  The context it makes stays in [w.ctx]; the
    deferred [cancel()] runs as [Write] has returned, and from then on
    the context in [w.ctx] is the cancelled one. *)
Definition WriteWithTimeout (w : option Writer) (maxWorkers timeout : Z) (o : OS)
  : Go ((option Results * option error * list Outcome) * State) :=
  let deadline := expiry timeout (tick o) in
  Go_bind (SetContext w (Some (timerCtx deadline None))) (fun w =>
  Go_bind (Write w maxWorkers o) (fun '(r, st) =>
  Ret (r, {| wr := with_ctx (Some (timerCtx deadline (Some (tick (os st))))) (wr st);
             res := res st; os := os st |}))).

End Timeout.

(** Timers that fire [timeout] instants after they were set. *)
Definition punctual : Timers :=
  {| expiry := fun timeout now => (now + Z.to_nat timeout)%nat;
     expiry_past := fun timeout now H =>
       eq_trans (f_equal (Nat.add now) (Z2Nat.nonpos timeout H)) (Nat.add_0_r now);
     expiry_future := fun timeout now => Nat.le_add_r now (Z.to_nat timeout) |}.


Section WithCancel.
Context {rt : Runtime}.


End WithCancel.

(** The pool is in order and every handle in it is filed under its own
    name. *)
Definition pool_sound (w : Writer) : Prop :=
  pool_ok w /\ forall k h, openFilesPool w !! k = Some h -> Name h = k.

(** The states a job goes through once its file is acquired: the settings
    of [w0], a sound pool, and the file's name in it. *)
Definition holding (w0 : Writer) (name : string) (st : State) : Prop :=
  same_settings w0 (wr st) /\ pool_sound (wr st) /\
  is_Some (openFilesPool (wr st) !! name).

(* END-OF-DEFINITIONS *)

(** * Properties *)

(** ** The retry wrapper *)

Lemma Sleep_runs d s :
  Sleep d s = Ret (tt, {| wr := wr s; res := res s;
                          os := {| tick := tick (os s); closed := closed (os s);
                                   next_fd := next_fd (os s);
                                   trace := EvSleep (Z.max 0 d) :: trace (os s) |} |}).
Proof. reflexivity. Qed.

Section RetryCounting.
Variable function : option File -> string -> M (option error).
Variable file : option File.
Variable message : string.
Variable calls : State -> nat.
Hypothesis Hcount : counts_invocations function file message calls.

Lemma retry_loop_exhausts i :
  (forall s, fails_at function file message s) ->
  forall backoff st,
  exists e s st',
    function file message s = Ret (Some e, st') /\
    calls s = (calls st + i)%nat /\
    retry_loop function file message (S i) backoff st
      = Ret (Some ("exhausted retries: last error: " +:+ e), st') /\
    calls st' = (calls st + S i)%nat.
Proof.
  intros Hfail. destruct Hcount as [Hinc Hsl].
  induction i as [|i IH]; intros backoff st.
  - destruct (Hfail st) as (e & s' & He).
    destruct (Hinc st) as (r & s'' & Hr & Hc).
    rewrite He in Hr. inversion Hr; subst r s''; clear Hr.
    exists e, st, s'. split; [exact He|]. split; [lia|]. split; [|lia].
    cbn [retry_loop]. unfold bind at 1. rewrite He. reflexivity.
  - destruct (Hfail st) as (e & s1 & He).
    destruct (Hinc st) as (r & s1' & Hr & Hc).
    rewrite He in Hr. inversion Hr; subst r s1'; clear Hr.
    set (s2 := {| wr := wr s1; res := res s1;
                  os := {| tick := tick (os s1); closed := closed (os s1);
                           next_fd := next_fd (os s1);
                           trace := EvSleep (pause backoff) :: trace (os s1) |} |}).
    assert (Hs2 : calls s2 = calls s1)
      by (apply (Hsl (Duration_mul (Duration backoff) Millisecond) s1 s2); reflexivity).
    destruct (IH (if backoff <? 1000 then wrap_uint64 (backoff * 2) else backoff) s2)
      as (e' & s & st' & Hlast & Hcs & Hrun & Hc').
    exists e', s, st'. split; [exact Hlast|]. split; [lia|]. split; [|lia].
    change (retry_loop function file message (S (S i)) backoff st)
      with (bind (function file message) (fun err =>
              match err with
              | None => ret None
              | Some e0 =>
                bind (Sleep (Duration_mul (Duration backoff) Millisecond)) (fun _ =>
                  retry_loop function file message (S i)
                    (if backoff <? 1000 then wrap_uint64 (backoff * 2) else backoff))
              end) st).
    unfold bind at 1. rewrite He. unfold bind at 1. rewrite Sleep_runs. exact Hrun.
Qed.

Lemma retry_loop_first_success k :
  forall i backoff st,
  (1 <= k <= i)%nat ->
  (forall s, (calls st <= calls s < calls st + k - 1)%nat -> fails_at function file message s) ->
  (forall s, calls s = (calls st + k - 1)%nat -> succeeds_at function file message s) ->
  exists st', retry_loop function file message i backoff st = Ret (None, st') /\
              calls st' = (calls st + k)%nat.
Proof.
  destruct Hcount as [Hinc Hsl].
  induction k as [|k IH]; intros i backoff st Hk Hfail Hok; [lia|].
  destruct i as [|i]; [lia|].
  destruct (Hinc st) as (r & s1 & Hr & Hc).
  destruct k as [|k].
  - destruct (Hok st) as (s' & Hs'); [lia|].
    rewrite Hs' in Hr. inversion Hr; subst r s1; clear Hr.
    exists s'. cbn [retry_loop]. unfold bind at 1. rewrite Hs'. split; [reflexivity|lia].
  - destruct (Hfail st) as (e & s' & He); [lia|].
    rewrite He in Hr. inversion Hr; subst r s1; clear Hr.
    destruct i as [|i]; [lia|].
    set (s2 := {| wr := wr s'; res := res s';
                  os := {| tick := tick (os s'); closed := closed (os s');
                           next_fd := next_fd (os s');
                           trace := EvSleep (pause backoff) :: trace (os s') |} |}).
    assert (Hs2 : calls s2 = calls s')
      by (apply (Hsl (Duration_mul (Duration backoff) Millisecond) s' s2); reflexivity).
    destruct (IH (S i) (if backoff <? 1000 then wrap_uint64 (backoff * 2) else backoff) s2)
      as (st' & Hrun & Hc').
    + lia.
    + intros s Hs. apply Hfail. lia.
    + intros s Hs. apply Hok. lia.
    + exists st'. split; [|lia].
      change (retry_loop function file message (S (S i)) backoff st)
        with (bind (function file message) (fun err =>
                match err with
                | None => ret None
                | Some e0 =>
                  bind (Sleep (Duration_mul (Duration backoff) Millisecond)) (fun _ =>
                    retry_loop function file message (S i)
                      (if backoff <? 1000 then wrap_uint64 (backoff * 2) else backoff))
                end) st).
      unfold bind at 1. rewrite He. unfold bind at 1. rewrite Sleep_runs. exact Hrun.
Qed.
End RetryCounting.

Lemma fails_first_counts k file message :
  counts_invocations (fails_first k) file message calls_noted.
Proof.
  split.
  - intros s. unfold fails_first, bind, get, note_call, set_res, modify, ret, calls_noted.
    destruct (length (ErrSlice (res s)) <? k)%nat; eexists _, _;
      (split; [reflexivity|]); cbn; rewrite length_app; cbn; lia.
  - intros ms s s' H. rewrite Sleep_runs in H. inversion H. reflexivity.
Qed.

Lemma always_fails_counts file message :
  counts_invocations always_fails file message calls_noted.
Proof.
  split.
  - intros s. eexists _, _. split; [reflexivity|].
    unfold calls_noted. cbn. rewrite length_app. cbn. lia.
  - intros ms s s' H. rewrite Sleep_runs in H. inversion H. reflexivity.
Qed.

(** C3. Let the invocations of the operation be counted.  With
    [retries = R >= 1] and an operation that fails whenever it is invoked,
    [retry] invokes it exactly [R] times and returns an error that wraps the
    error of the last invocation.  With [retries = 0], [retry] is one
    invocation of the operation and returns what it returns.  With any [R],
    when the first [k - 1] invocations fail and the [k]-th succeeds
    ([k] within the attempts allowed), [retry] returns [nil] after exactly
    [k] invocations. *)
Theorem retry_invocation_count
    (function : option File -> string -> M (option error))
    (file : option File) (message : string) (calls : State -> nat) (st : State) :
  counts_invocations function file message calls ->
  0 <= retries (wr st) ->
  (1 <= retries (wr st) ->
   (forall s, fails_at function file message s) ->
   exists e s st',
     function file message s = Ret (Some e, st') /\
     Z.of_nat (calls s) + 1 = Z.of_nat (calls st) + retries (wr st) /\
     retry function file message st
       = Ret (Some ("exhausted retries: last error: " +:+ e), st') /\
     Z.of_nat (calls st') = Z.of_nat (calls st) + retries (wr st)) /\
  (retries (wr st) = 0 ->
   retry function file message st = function file message st /\
   exists r st', retry function file message st = Ret (r, st') /\
                 calls st' = S (calls st)) /\
  (forall k : nat,
   1 <= Z.of_nat k <= Z.max (retries (wr st)) 1 ->
   (forall s, (calls st <= calls s < calls st + k - 1)%nat ->
              fails_at function file message s) ->
   (forall s, calls s = (calls st + k - 1)%nat -> succeeds_at function file message s) ->
   exists st', retry function file message st = Ret (None, st') /\
               calls st' = (calls st + k)%nat).
Proof.
  intros Hcount HR.
  assert (Hzero : retries (wr st) = 0 ->
                  retry function file message st = function file message st).
  { intros H0. unfold retry, bind, get. rewrite H0. reflexivity. }
  assert (Hpos : 1 <= retries (wr st) ->
                 retry function file message st
                 = retry_loop function file message (Z.to_nat (retries (wr st)))
                     (backoff (wr st)) st).
  { intros H1. unfold retry, bind, get.
    destruct (retries (wr st) =? 0) eqn:E; [apply Z.eqb_eq in E; lia | reflexivity]. }
  split; [|split].
  - intros H1 Hfail. rewrite (Hpos H1).
    destruct (Z.to_nat (retries (wr st))) as [|i] eqn:Ei; [lia|].
    destruct (retry_loop_exhausts function file message calls Hcount i Hfail
                (backoff (wr st)) st) as (e & s & st' & Hlast & Hcs & Hrun & Hc').
    exists e, s, st'. repeat split; [exact Hlast | lia | exact Hrun | lia].
  - intros H0. split; [exact (Hzero H0)|]. rewrite (Hzero H0).
    destruct Hcount as [Hinc _]. destruct (Hinc st) as (r & s' & Hr & Hc).
    exists r, s'. split; assumption.
  - intros k Hk Hfail Hok.
    destruct (Z.eq_dec (retries (wr st)) 0) as [H0|Hn0].
    + rewrite (Hzero H0). assert (k = 1%nat) by lia. subst k.
      destruct (Hok st) as (s' & Hs'); [lia|].
      destruct Hcount as [Hinc _]. destruct (Hinc st) as (r & s1 & Hr & Hc).
      rewrite Hs' in Hr. inversion Hr; subst. exists s1. split; [exact Hs'|lia].
    + rewrite Hpos by lia.
      apply (retry_loop_first_success function file message calls Hcount k); [lia | exact Hfail | exact Hok].
Qed.

Lemma retry_invocation_count_witness :
  (exists e st',
     retry always_fails None "m" (state_of (test_writer [] 1 3 100))
       = Ret (Some ("exhausted retries: last error: " +:+ e), st') /\
     calls_noted st' = 3%nat) /\
  (exists st',
     retry (fails_first 2) None "m" (state_of (test_writer [] 1 3 100)) = Ret (None, st') /\
     calls_noted st' = 3%nat).
Proof.
  split.
  - destruct (retry_invocation_count always_fails None "m" calls_noted
                (state_of (test_writer [] 1 3 100))
                (always_fails_counts None "m")) as [Hex _].
    + cbn. lia.
    + destruct Hex as (e & s & st' & _ & _ & Hrun & Hc).
      * cbn. lia.
      * intros s. eexists _, _. reflexivity.
      * exists e, st'. split; [exact Hrun|]. cbn in Hc. lia.
  - destruct (retry_invocation_count (fails_first 2) None "m" calls_noted
                (state_of (test_writer [] 1 3 100))
                (fails_first_counts 2 None "m")) as (_ & _ & Hk).
    + cbn. lia.
    + destruct (Hk 3%nat) as (st' & Hrun & Hc).
      * cbn. lia.
      * intros s Hs. cbn in Hs.
        unfold fails_at, fails_first, bind, get, note_call, set_res, modify, ret.
        destruct (calls_noted s <? 2)%nat eqn:E; [eexists _, _; reflexivity|].
        apply Nat.ltb_ge in E. lia.
      * intros s Hs. cbn in Hs.
        unfold succeeds_at, fails_first, bind, get, note_call, set_res, modify, ret.
        destruct (calls_noted s <? 2)%nat eqn:E; [|eexists; reflexivity].
        apply Nat.ltb_lt in E. lia.
      * exists st'. split; [exact Hrun | exact Hc].
Defined.

(** ** Backoff between attempts *)

Lemma sleeps_after_Sleep d s s' :
  Sleep d s = Ret (tt, s') -> sleeps s' = sleeps s ++ [Z.max 0 d].
Proof.
  rewrite Sleep_runs. intros H. inversion H; subst s'; clear H.
  unfold sleeps. cbn. rewrite omap_app. reflexivity.
Qed.

Lemma retry_loop_sleeps function file message :
  fails_without_sleeping function file message ->
  forall n b st,
  exists e st',
    retry_loop function file message (S n) b st = Ret (Some e, st') /\
    sleeps st' = sleeps st ++ (pause <$> backoffs b n).
Proof.
  intros Hf. induction n as [|n IH]; intros b st.
  - destruct (Hf st) as (e & s' & He & Hs).
    exists ("exhausted retries: last error: " +:+ e), s'.
    cbn [retry_loop backoffs]. unfold bind at 1. rewrite He.
    split; [reflexivity | rewrite app_nil_r; exact Hs].
  - destruct (Hf st) as (e & s1 & He & Hs).
    destruct (Sleep (Duration_mul (Duration b) Millisecond) s1) as [[[] s2]|] eqn:Hsl;
      [|rewrite Sleep_runs in Hsl; discriminate].
    destruct (IH (next_backoff b) s2) as (e' & st' & Hrun & Hs').
    exists e', st'. split.
    + change (retry_loop function file message (S (S n)) b st)
        with (bind (function file message) (fun err =>
                match err with
                | None => ret None
                | Some e0 =>
                  bind (Sleep (Duration_mul (Duration b) Millisecond)) (fun _ =>
                    retry_loop function file message (S n) (next_backoff b))
                end) st).
      unfold bind at 1. rewrite He. unfold bind at 1. rewrite Hsl. exact Hrun.
    + rewrite Hs', (sleeps_after_Sleep _ _ _ Hsl), Hs. cbn [backoffs].
      rewrite fmap_cons, <- app_assoc. reflexivity.
Qed.

Lemma backoffs_length b n : length (backoffs b n) = n.
Proof. revert b. induction n as [|n IH]; intros b; cbn; [reflexivity | rewrite IH; reflexivity]. Qed.

Lemma backoffs_lookup n : forall b i,
  (i < n)%nat -> backoffs b n !! i = Some (Nat.iter i next_backoff b).
Proof.
  induction n as [|n IH]; intros b i Hi; [lia|].
  destruct i as [|i]; [reflexivity|].
  cbn [backoffs]. rewrite lookup_cons.
  rewrite IH by lia. rewrite Nat.iter_succ_r. reflexivity.
Qed.

Section BackoffValues.
Variable base : Z.
Hypothesis Hbase : 0 <= base < uint64_modulus.

Lemma next_backoff_double b : 0 <= b < 1000 -> next_backoff b = b * 2.
Proof.
  intros Hb. unfold next_backoff, wrap_uint64, uint64_modulus.
  destruct (b <? 1000) eqn:E; [|apply Z.ltb_ge in E; lia].
  apply Z.mod_small. lia.
Qed.

Lemma next_backoff_keep b : 1000 <= b -> next_backoff b = b.
Proof.
  intros Hb. unfold next_backoff.
  destruct (b <? 1000) eqn:E; [apply Z.ltb_lt in E; lia | reflexivity].
Qed.

Lemma iter_backoff_inv i :
  0 <= Nat.iter i next_backoff base /\
  Nat.iter i next_backoff base <= Z.max base 1998 /\
  (Nat.iter i next_backoff base = base * 2 ^ Z.of_nat i \/
   1000 <= Nat.iter i next_backoff base).
Proof.
  induction i as [|i (Hge & Hle & Hshape)].
  - cbn. split; [lia|]. split; [lia|]. left. lia.
  - rewrite Nat.iter_succ. set (b := Nat.iter i next_backoff base) in *.
    destruct (Z_lt_ge_dec b 1000) as [Hlt|Hbig].
    + rewrite next_backoff_double by lia.
      split; [lia|]. split; [lia|].
      destruct Hshape as [Heq|Hb]; [|lia]. left.
      rewrite Heq, Nat2Z.inj_succ, Z.pow_succ_r by lia. lia.
    + rewrite next_backoff_keep by lia.
      split; [lia|]. split; [lia|]. right. lia.
Qed.

Lemma iter_backoff_doubles i :
  (i = 0%nat \/ base * 2 ^ (Z.of_nat i - 1) < 1000) ->
  Nat.iter i next_backoff base = base * 2 ^ Z.of_nat i.
Proof.
  induction i as [|i IH]; intros Hi.
  - cbn. lia.
  - destruct Hi as [Hi|Hi]; [discriminate|].
    replace (Z.of_nat (S i) - 1) with (Z.of_nat i) in Hi by lia.
    rewrite Nat.iter_succ. rewrite IH.
    + rewrite next_backoff_double.
      * rewrite Nat2Z.inj_succ, Z.pow_succ_r by lia. lia.
      * split; [|exact Hi]. apply Z.mul_nonneg_nonneg; [lia|]. apply Z.pow_nonneg. lia.
    + destruct i as [|i]; [left; reflexivity | right].
      replace (Z.of_nat (S i)) with (Z.succ (Z.of_nat (S i) - 1)) in Hi by lia.
      rewrite Z.pow_succ_r in Hi by lia.
      assert (0 <= 2 ^ (Z.of_nat (S i) - 1)) by (apply Z.pow_nonneg; lia).
      nia.
Qed.

Lemma iter_backoff_stays i :
  1000 <= base * 2 ^ Z.of_nat i ->
  Nat.iter (S i) next_backoff base = Nat.iter i next_backoff base.
Proof.
  intros Hbig. rewrite Nat.iter_succ. apply next_backoff_keep.
  destruct (iter_backoff_inv i) as (_ & _ & [Heq|Hb]); lia.
Qed.
End BackoffValues.

Lemma pause_small b :
  0 <= b -> b * Millisecond <= MaxInt -> pause b = b * Millisecond.
Proof.
  unfold pause, Duration_mul, Duration, wrap_int64, Millisecond, MaxInt. intros H0 Hb.
  rewrite (Z.mod_small (b + 2 ^ 63)) by lia.
  replace (b + 2 ^ 63 - 2 ^ 63) with b by lia.
  rewrite Z.mod_small by lia. lia.
Qed.

(** C4. With [retries = R >= 1], base backoff [base] (any uint64) and an
    operation that fails at every attempt, [retry] pauses [R - 1] times,
    once between attempt [i] and attempt [i + 1], each time for the value
    [b] its variable [backoff] holds then: [pause b] nanoseconds, which is
    [b] milliseconds whenever that many nanoseconds fit an int64.  The
    value after attempt [i] is [base * 2^i] as long as [i = 0] or
    [base * 2^(i-1) < 1000]; once [base * 2^(i-1)] has reached 1000 it is
    the same as the one before.  So it is [min (base * 2^i) 1000] only
    while [base * 2^i <= 1000]: the guard [backoff < 1000] stops the
    doubling but does not clamp, and the doubling that crosses 1000 gives a
    pause of more than 1000 ms (the value is never more than
    [max base 1998]). *)
Theorem retry_backoff_delays
    (function : option File -> string -> M (option error))
    (file : option File) (message : string) (st : State) :
  fails_without_sleeping function file message ->
  1 <= retries (wr st) ->
  0 <= backoff (wr st) < uint64_modulus ->
  exists e st' bs,
    retry function file message st = Ret (Some e, st') /\
    sleeps st' = sleeps st ++ (pause <$> bs) /\
    Z.of_nat (length bs) = retries (wr st) - 1 /\
    forall (i : nat) (b : Z), bs !! i = Some b ->
      (b * Millisecond <= MaxInt -> pause b = b * Millisecond) /\
      (i = 0%nat \/ backoff (wr st) * 2 ^ (Z.of_nat i - 1) < 1000 ->
       b = backoff (wr st) * 2 ^ Z.of_nat i) /\
      (i <> 0%nat -> 1000 <= backoff (wr st) * 2 ^ (Z.of_nat i - 1) ->
       bs !! (i - 1)%nat = Some b) /\
      (backoff (wr st) * 2 ^ Z.of_nat i <= 1000 ->
       b = Z.min (backoff (wr st) * 2 ^ Z.of_nat i) 1000) /\
      (i <> 0%nat ->
       backoff (wr st) * 2 ^ (Z.of_nat i - 1) < 1000 < backoff (wr st) * 2 ^ Z.of_nat i ->
       1000 * Millisecond < pause b) /\
      0 <= b <= Z.max (backoff (wr st)) 1998.
Proof.
  intros Hf HR Hb.
  set (base := backoff (wr st)) in *.
  destruct (Z.to_nat (retries (wr st))) as [|n] eqn:En; [lia|].
  destruct (retry_loop_sleeps function file message Hf n base st) as (e & st' & Hrun & Hs).
  exists e, st', (backoffs base n).
  split.
  { unfold retry, bind, get.
    destruct (retries (wr st) =? 0) eqn:E; [apply Z.eqb_eq in E; lia|].
    rewrite En. exact Hrun. }
  split; [exact Hs|]. split; [rewrite backoffs_length; lia|].
  intros i d Hi.
  assert (Hin : (i < n)%nat).
  { apply lookup_lt_Some in Hi. rewrite backoffs_length in Hi. exact Hi. }
  rewrite backoffs_lookup in Hi by exact Hin. injection Hi as <-.
  assert (Hdbl := iter_backoff_doubles base Hb i).
  destruct (iter_backoff_inv base Hb i) as (Hge & Hle & _).
  split; [apply pause_small; exact Hge|].
  split; [exact Hdbl|]. split; [|split; [|split; [|split; [exact Hge | exact Hle]]]].
  - intros Hi0 Hbig. destruct i as [|j]; [congruence|].
    replace (Z.of_nat (S j) - 1) with (Z.of_nat j) in Hbig by lia.
    replace (S j - 1)%nat with j by lia.
    rewrite backoffs_lookup by lia.
    rewrite (iter_backoff_stays base Hb j Hbig). reflexivity.
  - intros Hsmall. rewrite Z.min_l by exact Hsmall. apply Hdbl.
    destruct i as [|j]; [left; reflexivity | right].
    replace (Z.of_nat (S j)) with (Z.succ (Z.of_nat (S j) - 1)) in Hsmall by lia.
    rewrite Z.pow_succ_r in Hsmall by lia.
    assert (0 <= 2 ^ (Z.of_nat (S j) - 1)) by (apply Z.pow_nonneg; lia).
    destruct (Z.eq_dec base 0) as [->|Hn0]; [lia|].
    assert (0 < 2 ^ (Z.of_nat (S j) - 1)) by (apply Z.pow_pos_nonneg; lia).
    nia.
  - intros Hi0 [Hlow Hhigh].
    rewrite pause_small; [| exact Hge |].
    + rewrite Hdbl by (right; exact Hlow). unfold Millisecond. lia.
    + rewrite Hdbl by (right; exact Hlow).
      destruct i as [|j]; [congruence|].
      replace (Z.of_nat (S j)) with (Z.succ (Z.of_nat (S j) - 1)) by lia.
      rewrite Z.pow_succ_r by lia. unfold Millisecond, MaxInt. lia.
Qed.

Lemma retry_backoff_delays_witness :
  exists e st' bs,
    retry always_fails None "m" (state_of (test_writer [] 1 7 100)) = Ret (Some e, st') /\
    sleeps st' = pause <$> bs /\ length bs = 6%nat /\
    bs !! 2%nat = Some 400 /\ bs !! 4%nat = bs !! 5%nat /\
    (forall b, bs !! 4%nat = Some b -> 1000 * Millisecond < pause b).
Proof.
  destruct (retry_backoff_delays always_fails None "m" (state_of (test_writer [] 1 7 100)))
    as (e & st' & bs & Hrun & Hs & Hlen & Hbs).
  - intros s. eexists _, _. split; reflexivity.
  - cbn. lia.
  - cbn. unfold uint64_modulus. lia.
  - exists e, st', bs. split; [exact Hrun|]. split; [exact Hs|].
    cbn in Hlen. split; [lia|].
    destruct bs as [|d0 [|d1 [|d2 [|d3 [|d4 [|d5 [|d6 bs]]]]]]]; cbn in Hlen; try lia.
    split; [|split].
    + destruct (Hbs 2%nat d2 eq_refl) as (_ & H2 & _).
      assert (H2' := H2 ltac:(right; vm_compute; reflexivity)).
      rewrite H2'. reflexivity.
    + destruct (Hbs 5%nat d5 eq_refl) as (_ & _ & H5 & _).
      exact (H5 ltac:(discriminate) ltac:(vm_compute; discriminate)).
    + intros b [= <-].
      destruct (Hbs 4%nat d4 eq_refl) as (_ & _ & _ & _ & H4 & _).
      apply H4; [discriminate|]. cbn. lia.
Defined.

(** C4 as stated fails: with base 100 and six attempts that all fail, the
    pause after attempt 4 is 1600 ms, which is neither
    [min (100 * 2^4) 1000] ms nor at most 1000 ms.  (And with a base of
    9223372036855 ms the nanoseconds wrap around to a negative int64:
    there is no pause at all.) *)
Lemma retry_backoff_cap_counterexample :
  (exists e st',
     retry always_fails None "m" (state_of (test_writer [] 1 6 100)) = Ret (Some e, st') /\
     sleeps st' = (fun ms => ms * Millisecond) <$> [100; 200; 400; 800; 1600] /\
     sleeps st' !! 4%nat <> Some (Z.min (100 * 2 ^ 4) 1000 * Millisecond) /\
     (exists d, d ∈ sleeps st' /\ 1000 * Millisecond < d)) /\
  (exists e st',
     retry always_fails None "m" (state_of (test_writer [] 1 2 9223372036855))
       = Ret (Some e, st') /\
     sleeps st' = [0]).
Proof.
  split.
  - eexists _, _. split; [vm_compute; reflexivity|].
    split; [vm_compute; reflexivity|]. split.
    + vm_compute. discriminate.
    + exists (1600 * Millisecond). split; [|unfold Millisecond; lia].
      vm_compute. repeat constructor.
  - eexists _, _. split; vm_compute; reflexivity.
Qed.

(** ** The batcher *)

Lemma wrap_int_small z : MinInt <= z <= MaxInt -> wrap_int z = z.
Proof.
  unfold wrap_int, int_modulus, MinInt, MaxInt. intros H.
  rewrite Z.mod_small by lia. lia.
Qed.

Lemma wrap_int_add_l x y : wrap_int (wrap_int x + y) = wrap_int (x + y).
Proof.
  unfold wrap_int, int_modulus.
  replace ((x + 2 ^ 63) mod 2 ^ 64 - 2 ^ 63 + y + 2 ^ 63)
    with ((x + 2 ^ 63) mod 2 ^ 64 + y) by lia.
  rewrite Zplus_mod_idemp_l. f_equal. f_equal. lia.
Qed.

Lemma slice_in_range {A} (s : list A) low high :
  0 <= low <= high -> high <= Z.of_nat (length s) ->
  slice s low high = Ret (take (Z.to_nat (high - low)) (drop (Z.to_nat low) s)).
Proof.
  intros H1 H2. unfold slice.
  destruct (0 <=? low) eqn:E1; [|apply Z.leb_gt in E1; lia].
  destruct (low <=? high) eqn:E2; [|apply Z.leb_gt in E2; lia].
  destruct (high <=? Z.of_nat (length s)) eqn:E3; [|apply Z.leb_gt in E3; lia].
  reflexivity.
Qed.

Section BatcherLoop.
Variable fs : list (option File).
Variables b N : Z.
Let n : Z := Z.of_nat (length fs).
Hypothesis Hb : 0 < b.
Hypothesis HN_lo : (N - 1) * b < n.
Hypothesis HN_hi : n <= N * b.
Hypothesis Hmax : N * b <= MaxInt.

Lemma batcher_loop_spec (k : nat) : forall i : Z,
  0 <= i -> Z.of_nat k + i = N ->
  exists bs,
    batcher_loop fs b n k i = Ret bs /\
    concat bs = drop (Z.to_nat (i * b)) fs /\
    length bs = k /\
    forall (j : nat) batch, bs !! j = Some batch ->
      Z.of_nat (length batch) = if i + Z.of_nat j + 1 <? N then b else n - (N - 1) * b.
Proof.
  induction k as [|k IH]; intros i Hi HiN.
  - exists []. split; [reflexivity|]. split.
    + cbn. symmetry. apply drop_ge. subst n. nia.
    + split; [reflexivity|]. intros j batch Hj. rewrite lookup_nil in Hj. discriminate.
  - assert (HiN' : i + 1 <= N) by lia.
    assert (Hstart : wrap_int (i * b) = i * b).
    { apply wrap_int_small. unfold MinInt. split; [nia|nia]. }
    assert (Hend : wrap_int (i * b + b) = i * b + b).
    { apply wrap_int_small. unfold MinInt. split; [nia|nia]. }
    assert (Hnext : wrap_int (i + 1) = i + 1).
    { apply wrap_int_small. unfold MinInt. split; [lia|nia]. }
    destruct (IH (i + 1)) as (rest & Hrest & Hcat & Hlen & Hsizes); [lia | lia |].
    cbn [batcher_loop]. rewrite Hstart, Hend, Hnext.
    set (end_ := if n <? i * b + b then n else i * b + b).
    assert (Hend_ : end_ = Z.min n (i * b + b)).
    { subst end_. destruct (n <? i * b + b) eqn:E;
        [apply Z.ltb_lt in E | apply Z.ltb_ge in E]; lia. }
    rewrite slice_in_range by (subst n; nia).
    cbn [Go_bind]. rewrite Hrest. cbn [Go_bind].
    eexists. split; [reflexivity|].
    assert (Hdrop_len : Z.of_nat (length (drop (Z.to_nat (i * b)) fs)) = n - i * b).
    { rewrite length_drop. subst n. nia. }
    split; [|split].
    + cbn [concat]. rewrite Hcat.
      destruct (Z_lt_ge_dec n (i * b + b)) as [Hlast|Hfull].
      * rewrite (drop_ge fs (Z.to_nat ((i + 1) * b))) by (subst n; nia).
        rewrite app_nil_r. apply take_ge. lia.
      * replace (Z.to_nat (end_ - i * b)) with (Z.to_nat b) by lia.
        replace (Z.to_nat ((i + 1) * b)) with (Z.to_nat (i * b) + Z.to_nat b)%nat by nia.
        rewrite <- drop_drop. apply take_drop.
    + cbn. rewrite Hlen. reflexivity.
    + intros [|j] batch Hj.
      * cbn in Hj. injection Hj as <-. rewrite length_take.
        replace (i + Z.of_nat 0 + 1) with (i + 1) by lia.
        destruct (i + 1 <? N) eqn:E; [apply Z.ltb_lt in E | apply Z.ltb_ge in E]; nia.
      * cbn in Hj. rewrite (Hsizes j batch Hj).
        replace (i + 1 + Z.of_nat j + 1) with (i + Z.of_nat (S j) + 1) by lia.
        reflexivity.
Qed.
End BatcherLoop.

Section BatcherTheorem.
Context {rt : Runtime}.

Lemma effectiveBatchSize_pos numFiles batchSize :
  0 <= numFiles -> 0 < effectiveBatchSize numFiles batchSize.
Proof.
  intros Hn. unfold effectiveBatchSize.
  destruct (batchSize <=? 0) eqn:E; [|apply Z.leb_gt in E; lia].
  pose proof NumCPU_range as Hcpu.
  assert (0 <= numFiles ÷ NumCPU) by (apply Z.quot_pos; lia).
  destruct (numFiles ÷ NumCPU =? 0) eqn:E0; [lia|]. apply Z.eqb_neq in E0. lia.
Qed.

(** C7 (as amended). For a non-empty file list and a [batchSize] for which
    [len(files) + b - 1] does not overflow [int], where [b] is the
    effective batch size, [batcher] returns a non-empty list of batches
    whose concatenation is the file list; every batch but the last has
    length [b] and the last has between 1 and [b] files.  The effective
    batch size is [batchSize] when that is positive and otherwise
    [len(files) / NumCPU], or 1 when that is 0. *)
Theorem batcher_partitions (w : Writer) (fs : list (option File)) (batchSize : Z) :
  files w = Some fs ->
  fs <> [] ->
  Z.of_nat (length fs) + effectiveBatchSize (Z.of_nat (length fs)) batchSize - 1 <= MaxInt ->
  exists batches,
    batcher w batchSize = Ret batches /\
    concat batches = fs /\
    batches <> [] /\
    (forall (i : nat) batch, batches !! i = Some batch -> (S i < length batches)%nat ->
       Z.of_nat (length batch) = effectiveBatchSize (Z.of_nat (length fs)) batchSize) /\
    (forall batch, last batches = Some batch ->
       1 <= Z.of_nat (length batch) <= effectiveBatchSize (Z.of_nat (length fs)) batchSize) /\
    (0 < batchSize -> effectiveBatchSize (Z.of_nat (length fs)) batchSize = batchSize) /\
    (batchSize <= 0 ->
       effectiveBatchSize (Z.of_nat (length fs)) batchSize
       = Z.max 1 (Z.of_nat (length fs) / NumCPU)).
Proof.
  intros Hfiles Hne Hmax.
  set (n := Z.of_nat (length fs)) in *.
  set (b := effectiveBatchSize n batchSize) in *.
  assert (Hn : 1 <= n) by (subst n; destruct fs; [congruence | cbn; lia]).
  assert (Hb : 0 < b) by (apply effectiveBatchSize_pos; lia).
  set (N := (n + b - 1) / b).
  assert (HN : n + b - 1 = b * N + (n + b - 1) mod b) by (apply Z.div_mod; lia).
  assert (Hr : 0 <= (n + b - 1) mod b < b) by (apply Z.mod_pos_bound; lia).
  assert (HN1 : 1 <= N) by (subst N; apply Z.div_le_lower_bound; lia).
  assert (Hnum : Z.quot (wrap_int (wrap_int (n + b) - 1)) b = N).
  { replace (wrap_int (n + b) - 1) with (wrap_int (n + b) + (-1)) by lia.
    rewrite wrap_int_add_l.
    rewrite wrap_int_small by (unfold MinInt; lia).
    replace (n + b + -1) with (n + b - 1) by lia.
    apply Z.quot_div_nonneg; lia. }
  destruct (batcher_loop_spec fs b N Hb) with (k := Z.to_nat N) (i := 0)
    as (bs & Hrun & Hcat & Hlen & Hsizes); [fold n; nia | fold n; nia | nia | lia | lia |].
  fold n in Hrun, Hsizes.
  exists bs. split.
  { unfold batcher. rewrite Hfiles. fold n. fold b. rewrite Hnum.
    destruct (N <? 0) eqn:E; [apply Z.ltb_lt in E; lia | exact Hrun]. }
  split; [rewrite Hcat; reflexivity|].
  split; [intros ->; cbn in Hlen; lia|].
  split; [|split].
  - intros i batch Hi Hlt. rewrite (Hsizes i batch Hi).
    destruct (0 + Z.of_nat i + 1 <? N) eqn:E; [reflexivity|]. apply Z.ltb_ge in E. lia.
  - intros batch Hlast. rewrite last_lookup in Hlast.
    rewrite (Hsizes _ batch Hlast), Hlen.
    destruct (0 + Z.of_nat (pred (Z.to_nat N)) + 1 <? N) eqn:E;
      [apply Z.ltb_lt in E; lia | nia].
  - split.
    + intros Hpos. subst b. unfold effectiveBatchSize.
      destruct (batchSize <=? 0) eqn:E; [apply Z.leb_le in E; lia | reflexivity].
    + intros Hnp. subst b. unfold effectiveBatchSize.
      destruct (batchSize <=? 0) eqn:E; [|apply Z.leb_gt in E; lia].
      pose proof NumCPU_range as Hcpu.
      rewrite Z.quot_div_nonneg by lia.
      assert (0 <= n / NumCPU) by (apply Z.div_pos; lia).
      destruct (n / NumCPU =? 0) eqn:E0;
        [apply Z.eqb_eq in E0 | apply Z.eqb_neq in E0]; lia.
Qed.
End BatcherTheorem.

Lemma batcher_partitions_witness :
  exists batches,
    batcher (rt := quiet) (test_writer [Some file1; None; Some file2] 1 3 100) 2 = Ret batches /\
    concat batches = [Some file1; None; Some file2] /\
    batches <> [].
Proof.
  destruct (batcher_partitions (rt := quiet)
              (test_writer [Some file1; None; Some file2] 1 3 100)
              [Some file1; None; Some file2] 2)
    as (batches & Hrun & Hcat & Hne & _).
  - reflexivity.
  - discriminate.
  - vm_compute. discriminate.
  - exists batches. split; [exact Hrun|]. split; [exact Hcat | exact Hne].
Defined.

(** C7 as stated fails for batch sizes close to the largest [int]: with
    two files or more and [batchSize = MaxInt] the sum
    [numFiles + batchSize - 1] wraps around, the number of batches comes out
    negative and [make] panics. *)
Lemma batcher_overflow_counterexample :
  batcher (rt := quiet) (test_writer [Some file1; Some file2] 1 3 100) MaxInt
  = Panic "runtime error: makeslice: len out of range".
Proof. vm_compute. reflexivity. Qed.

(** ** The connection pool *)

Section PoolFacts.
Context {rt : Runtime}.

Lemma Stat_runs f st :
  exists r o', Stat f st = Ret (r, {| wr := wr st; res := res st; os := o' |}).
Proof.
  unfold Stat, bind, advance, is_closed, get, ret. cbn.
  destruct (bool_decide _); eexists _, _; reflexivity.
Qed.

Lemma Now_runs st :
  exists t o', Now st = Ret (t, {| wr := wr st; res := res st; os := o' |}) /\
               closed o' = closed (os st).
Proof. eexists _, _. split; reflexivity. Qed.

Lemma Close_runs f st :
  exists r o', Close f st = Ret (r, {| wr := wr st; res := res st; os := o' |}) /\
               fd f ∈ closed o'.
Proof.
  unfold Close, bind, advance, is_closed, get, ret, set_os, modify. cbn.
  destruct (bool_decide (fd f ∈ closed (os st))) eqn:E.
  - apply bool_decide_eq_true in E. eexists _, _. split; [reflexivity|]. exact E.
  - eexists _, _. split; [reflexivity|]. cbn. set_solver.
Qed.

(** [count] in [GetConn] is the size of the pool, modulo [2^64]. *)
Lemma count_entries_size (pool : gmap string File) :
  wrap_uint64 (count_entries pool) = Z.of_nat (size pool) mod uint64_modulus.
Proof.
  unfold count_entries.
  assert (Hgen : forall (l : list (string * File)) c,
             wrap_uint64 (fold_left (fun count _ => wrap_int (count + 1)) l c)
             = (c + Z.of_nat (length l)) mod uint64_modulus).
  { induction l as [|x l IH]; intros c.
    - cbn. unfold wrap_uint64. f_equal. lia.
    - cbn [fold_left length]. rewrite IH.
      unfold wrap_int, int_modulus, uint64_modulus.
      replace ((c + 1 + 2 ^ 63) mod 2 ^ 64 - 2 ^ 63 + Z.of_nat (length l))
        with ((c + 1 + 2 ^ 63) mod 2 ^ 64 + (Z.of_nat (length l) - 2 ^ 63)) by lia.
      rewrite Zplus_mod_idemp_l. f_equal. lia. }
  rewrite Hgen. rewrite (Permutation_length (Range_perm _ pool)).
  rewrite length_map_to_list. f_equal.
Qed.

(** The scan for the oldest entry, over entries none of which has the
    empty name. *)
Lemma oldest_scan (l : list (string * Z)) : forall acc,
  (forall k t, (k, t) ∈ l -> k <> EmptyString) ->
  (fst acc <> EmptyString \/ l <> []) ->
  let r := fold_left oldest_step l acc in
  fst r <> EmptyString /\
  (r ∈ l \/ (r = acc /\ fst acc <> EmptyString)) /\
  (forall k t, (k, t) ∈ l -> snd r <= t) /\
  (fst acc <> EmptyString -> snd r <= snd acc).
Proof.
  induction l as [|[k t] l IH]; intros [k0 t0] Hkeys Hne.
  - cbn in *. destruct Hne as [Hne|Hne]; [|congruence].
    split; [exact Hne|]. split; [right; split; [reflexivity | exact Hne]|].
    split; [|lia]. intros k' t' Hin. inversion Hin.
  - cbn [fold_left].
    assert (Hk : k <> EmptyString) by (apply (Hkeys k t); left).
    assert (Hkeys' : forall k' t', (k', t') ∈ l -> k' <> EmptyString).
    { intros k' t' Hin. apply (Hkeys k' t'). right. exact Hin. }
    change (oldest_step (k0, t0) (k, t))
      with (if String.eqb k0 "" || (t <? t0) then (k, t) else (k0, t0)).
    destruct (String.eqb k0 "" || (t <? t0)) eqn:E.
    + destruct (IH (k, t) Hkeys' (or_introl Hk)) as (H1 & H2 & H3 & H4).
      cbn [fst snd] in *. split; [exact H1|]. split.
      { left. destruct H2 as [H2|[H2 _]]; [right; exact H2 | rewrite H2; left]. }
      split.
      { intros k' t' Hin. apply elem_of_cons in Hin as [Heq|Hin];
          [injection Heq as -> ->; apply H4, Hk | apply (H3 k' t' Hin)]. }
      intros Hk0. apply orb_true_iff in E as [E|E].
      * apply String.eqb_eq in E. cbn in Hk0. congruence.
      * apply Z.ltb_lt in E. specialize (H4 Hk). lia.
    + apply orb_false_iff in E as [E1 E2].
      apply String.eqb_neq in E1. apply Z.ltb_ge in E2.
      destruct (IH (k0, t0) Hkeys' (or_introl E1)) as (H1 & H2 & H3 & H4).
      cbn [fst snd] in *. split; [exact H1|]. split.
      { destruct H2 as [H2|H2]; [left; right; exact H2 | right; exact H2]. }
      split.
      { intros k' t' Hin. apply elem_of_cons in Hin as [Heq|Hin];
          [injection Heq as -> ->; specialize (H4 E1); lia | apply (H3 k' t' Hin)]. }
      intros _. apply H4, E1.
Qed.

Lemma find_oldest_min (lastUsed : gmap string Z) :
  EmptyString ∉ dom lastUsed ->
  lastUsed <> ∅ ->
  exists victim t,
    find_oldest lastUsed = (victim, t) /\
    victim <> EmptyString /\
    lastUsed !! victim = Some t /\
    forall k t', lastUsed !! k = Some t' -> t <= t'.
Proof.
  intros Hno Hne. unfold find_oldest.
  assert (Hin : forall k t, (k, t) ∈ Range lastUsed <-> lastUsed !! k = Some t).
  { intros k t. rewrite (Range_perm _ lastUsed). apply elem_of_map_to_list. }
  destruct (oldest_scan (Range lastUsed) (EmptyString, zeroTime)) as (H1 & H2 & H3 & _).
  - intros k t Hk ->. apply Hin in Hk. apply Hno. apply elem_of_dom. eauto.
  - right. intros Hnil. apply Hne. apply map_eq. intros k. rewrite lookup_empty.
    destruct (lastUsed !! k) as [t|] eqn:E; [|reflexivity].
    apply Hin in E. rewrite Hnil in E. inversion E.
  - destruct (fold_left oldest_step (Range lastUsed) (EmptyString, zeroTime))
      as [victim t] eqn:E.
    exists victim, t. cbn [fst snd] in *. split; [reflexivity|]. split; [exact H1|].
    split.
    + destruct H2 as [H2|[_ H2]]; [apply Hin, H2 | cbn in H2; congruence].
    + intros k t' Hk. apply (H3 k t'). apply Hin, Hk.
Qed.
End PoolFacts.

Section PoolSteps.
Context {rt : Runtime}.

(** What [lookup_live] does to the writer. *)
Lemma lookup_live_cases name st :
  exists r st',
    lookup_live name st = Ret (r, st') /\
    res st' = res st /\
    ((openFilesPool (wr st) !! name = None /\ r = None /\ st' = st) \/
     (exists h t, live_in_pool st name h /\ r = Some h /\
        wr st' = with_lastUsed (<[name := t]> (connLastUsed (wr st))) (wr st)) \/
     (exists h, openFilesPool (wr st) !! name = Some h /\
        ~ live_in_pool st name h /\ r = None /\
        wr st' = with_lastUsed (delete name (connLastUsed (wr st)))
                   (with_pool (delete name (openFilesPool (wr st))) (wr st)))).
Proof.
  unfold lookup_live, bind, get.
  destruct (openFilesPool (wr st) !! name) as [h|] eqn:Hp.
  - destruct (Stat_runs h st) as (r & o' & HS). rewrite HS.
    destruct r as [e|].
    + eexists _, _. split; [reflexivity|]. split; [reflexivity|].
      right. right. exists h. split; [reflexivity|]. split; [|split; reflexivity].
      intros [_ (st1 & Hst1)]. rewrite HS in Hst1. discriminate.
    + eexists _, _. split; [reflexivity|]. split; [reflexivity|].
      right. left. exists h, (clock (tick o')). split; [|split; reflexivity].
      split; [exact Hp | eexists; exact HS].
  - eexists _, _. split; [reflexivity|]. split; [reflexivity|].
    left. repeat split.
Qed.

(** What [evict_if_full] does to the writer when the pool is in order. *)
Lemma evict_if_full_cases st :
  0 <= maxConns (wr st) < uint64_modulus ->
  Z.of_nat (size (openFilesPool (wr st))) < uint64_modulus ->
  dom (openFilesPool (wr st)) = dom (connLastUsed (wr st)) ->
  (EmptyString ∉ dom (openFilesPool (wr st))) ->
  exists st',
    evict_if_full st = Ret (tt, st') /\
    res st' = res st /\
    ((wr st' = wr st /\
      (Z.of_nat (size (openFilesPool (wr st))) < maxConns (wr st) \/
       openFilesPool (wr st) = ∅)) \/
     (exists victim h t,
        maxConns (wr st) <= Z.of_nat (size (openFilesPool (wr st))) /\
        openFilesPool (wr st) !! victim = Some h /\
        connLastUsed (wr st) !! victim = Some t /\
        (forall k t', connLastUsed (wr st) !! k = Some t' -> t <= t') /\
        wr st' = with_lastUsed (delete victim (connLastUsed (wr st)))
                   (with_pool (delete victim (openFilesPool (wr st))) (wr st)) /\
        fd h ∈ closed (os st'))).
Proof.
  intros Hmax Hsize Hdom Hno.
  unfold evict_if_full, bind, get.
  rewrite count_entries_size, Z.mod_small by lia.
  destruct (maxConns (wr st) <=? Z.of_nat (size (openFilesPool (wr st)))) eqn:Hfull.
  2:{ apply Z.leb_gt in Hfull. eexists. split; [reflexivity|]. split; [reflexivity|].
      left. split; [reflexivity | left; exact Hfull]. }
  apply Z.leb_le in Hfull.
  destruct (decide (connLastUsed (wr st) = ∅)) as [Hempty|Hnonempty].
  - assert (Hpool : openFilesPool (wr st) = ∅).
    { apply dom_empty_iff_L. rewrite Hdom, Hempty. apply dom_empty_L. }
    assert (Hold : find_oldest (connLastUsed (wr st)) = (EmptyString, zeroTime)).
    { unfold find_oldest.
      assert (Hnil : Range (connLastUsed (wr st)) = []).
      { pose proof (Range_perm _ (connLastUsed (wr st))) as HP.
        rewrite Hempty in HP |- *. rewrite map_to_list_empty in HP.
        apply Permutation_nil_r in HP. exact HP. }
      rewrite Hnil. reflexivity. }
    rewrite Hold. cbn. eexists. split; [reflexivity|]. split; [reflexivity|].
    left. split; [reflexivity | right; exact Hpool].
  - destruct (find_oldest_min (connLastUsed (wr st))) as (victim & t & Hold & Hv & Ht & Hmin);
      [rewrite <- Hdom; exact Hno | exact Hnonempty |].
    rewrite Hold. cbn [fst].
    destruct (String.eqb victim "") eqn:E; [apply String.eqb_eq in E; congruence|].
    cbn [negb].
    assert (Hin : is_Some (openFilesPool (wr st) !! victim)).
    { apply elem_of_dom. rewrite Hdom. apply elem_of_dom. eauto. }
    destruct Hin as [h Hh]. rewrite Hh.
    destruct (Close_runs h st) as (r & o' & HC & Hcl). rewrite HC.
    eexists. split; [reflexivity|]. split; [reflexivity|].
    right. exists victim, h, t. repeat split; try assumption.
Qed.
End PoolSteps.

Section Admission.
Context {rt : Runtime}.

(** The tail of [GetConn], run when no live pooled handle was found. *)
Let admission (file : File) : M (option File * option error) :=
  bind evict_if_full (fun _ =>
  bind (pool_Store (Name file) file) (fun _ =>
  bind Now (fun now =>
  bind (lastUsed_Store (Name file) now) (fun _ =>
  ret (Some file, None))))).

Lemma GetConn_unfold (file : File) :
  GetConn (Some file)
  = bind (lookup_live (Name file)) (fun pooled =>
      match pooled with
      | Some fileObj => ret (Some fileObj, None)
      | None => admission file
      end).
Proof. reflexivity. Qed.

Lemma admission_cases (file : File) st :
  0 <= maxConns (wr st) < uint64_modulus ->
  Z.of_nat (size (openFilesPool (wr st))) < uint64_modulus ->
  dom (openFilesPool (wr st)) = dom (connLastUsed (wr st)) ->
  (EmptyString ∉ dom (openFilesPool (wr st))) ->
  Name file <> EmptyString ->
  openFilesPool (wr st) !! Name file = None ->
  exists st',
    admission file st = Ret ((Some file, None), st') /\
    res st' = res st /\
    maxConns (wr st') = maxConns (wr st) /\
    dom (openFilesPool (wr st')) = dom (connLastUsed (wr st')) /\
    (EmptyString ∉ dom (openFilesPool (wr st'))) /\
    ((openFilesPool (wr st') = <[Name file := file]> (openFilesPool (wr st)) /\
      size (openFilesPool (wr st')) = S (size (openFilesPool (wr st))) /\
      (Z.of_nat (size (openFilesPool (wr st))) < maxConns (wr st) \/
       openFilesPool (wr st) = ∅)) \/
     (exists victim h t,
        maxConns (wr st) <= Z.of_nat (size (openFilesPool (wr st))) /\
        openFilesPool (wr st) !! victim = Some h /\
        connLastUsed (wr st) !! victim = Some t /\
        (forall k t', connLastUsed (wr st) !! k = Some t' -> t <= t') /\
        openFilesPool (wr st')
          = <[Name file := file]> (delete victim (openFilesPool (wr st))) /\
        size (openFilesPool (wr st')) = size (openFilesPool (wr st)) /\
        fd h ∈ closed (os st'))).
Proof.
  intros Hmax Hsize Hdom Hno Hname Hnew.
  destruct (evict_if_full_cases st Hmax Hsize Hdom Hno) as (st1 & Hev & Hres & Hcases).
  unfold admission. unfold bind at 1. rewrite Hev.
  unfold bind, pool_Store, lastUsed_Store, set_wr, modify, Now, advance, ret. cbn.
  eexists. split; [reflexivity|]. cbn. split; [exact Hres|].
  destruct Hcases as [[Hwr Hwhy]|(victim & h & t & Hfull & Hh & Ht & Hmin & Hwr & Hcl)].
  - rewrite Hwr. split; [reflexivity|]. split; [rewrite !dom_insert_L, Hdom; reflexivity|].
    split; [rewrite dom_insert_L; set_solver|].
    left. split; [reflexivity|]. split; [apply map_size_insert_None, Hnew | exact Hwhy].
  - rewrite Hwr. cbn. split; [reflexivity|].
    split; [rewrite !dom_insert_L, !dom_delete_L, Hdom; reflexivity|].
    split; [rewrite dom_insert_L, dom_delete_L; set_solver|].
    right. exists victim, h, t. repeat split; try assumption.
    rewrite map_size_insert_None by (rewrite lookup_delete_None; right; exact Hnew).
    rewrite map_size_delete_Some by eauto.
    assert (size (openFilesPool (wr st)) <> 0%nat); [|lia].
    apply map_size_non_empty_iff. intros He. rewrite He, lookup_empty in Hh. discriminate.
Qed.

(** One acquisition of a file with a name keeps the pool in order. *)
Lemma GetConn_step (file : File) st :
  0 <= maxConns (wr st) < uint64_modulus ->
  pool_ok (wr st) ->
  Name file <> EmptyString ->
  exists r st',
    GetConn (Some file) st = Ret ((Some r, None), st') /\
    res st' = res st /\
    maxConns (wr st') = maxConns (wr st) /\
    pool_ok (wr st') /\
    ((exists h, live_in_pool st (Name file) h /\ r = h) \/
     ((forall h, ~ live_in_pool st (Name file) h) /\ r = file)) /\
    (openFilesPool (wr st) !! Name file = None ->
     maxConns (wr st) <= Z.of_nat (size (openFilesPool (wr st))) ->
     openFilesPool (wr st) <> ∅ ->
     exists victim h t,
       openFilesPool (wr st) !! victim = Some h /\
       connLastUsed (wr st) !! victim = Some t /\
       (forall k t', connLastUsed (wr st) !! k = Some t' -> t <= t') /\
       openFilesPool (wr st')
         = <[Name file := file]> (delete victim (openFilesPool (wr st))) /\
       fd h ∈ closed (os st')).
Proof.
  intros Hmax (Hdom & Hno & Hsize) Hname.
  assert (Hbound : Z.max (maxConns (wr st)) 1 < uint64_modulus)
    by (unfold uint64_modulus in *; lia).
  rewrite GetConn_unfold.
  destruct (lookup_live_cases (Name file) st) as (r0 & st1 & Hlook & Hres1 & Hcases).
  unfold bind at 1. rewrite Hlook.
  destruct Hcases as [(Hnone & -> & ->)|[(h & t & Hlive & -> & Hwr)|(h & Hh & Hdead & -> & Hwr)]].
  - destruct (admission_cases file st) as (st' & Hrun & Hres & Hmc & Hdom' & Hno' & Hsz);
      [exact Hmax | lia | exact Hdom | exact Hno | exact Hname | exact Hnone |].
    exists file, st'. split; [exact Hrun|]. split; [exact Hres|]. split; [exact Hmc|].
    split; [|split].
    + split; [exact Hdom'|]. split; [exact Hno'|]. rewrite Hmc.
      destruct Hsz as [(_ & Hs & [Hlt|He])|(victim & h & t & _ & _ & _ & _ & _ & Hs & _)].
      * lia.
      * rewrite Hs, He, map_size_empty. lia.
      * lia.
    + right. split; [|reflexivity]. intros h [Hh _]. congruence.
    + intros _ Hfull Hne.
      destruct Hsz as [(_ & _ & [Hlt|He])|(victim & h & t & _ & Hh & Ht & Hmin & Hp & _ & Hcl)];
        [lia | contradiction |].
      exists victim, h, t. repeat split; assumption.
  - exists h, st1. split; [reflexivity|]. split; [exact Hres1|].
    rewrite Hwr. unfold pool_ok. cbn. split; [reflexivity|]. split; [|split].
    + split; [|split; [exact Hno | exact Hsize]].
      rewrite dom_insert_L, <- Hdom.
      destruct Hlive as [Hh _].
      assert (Name file ∈ dom (openFilesPool (wr st))) by (apply elem_of_dom; eauto).
      set_solver.
    + left. exists h. split; [exact Hlive | reflexivity].
    + intros Hnone. destruct Hlive as [Hh _]. congruence.
  - assert (Hsz1 : size (openFilesPool (wr st1)) = pred (size (openFilesPool (wr st)))).
    { rewrite Hwr. cbn. apply map_size_delete_Some. eauto. }
    destruct (admission_cases file st1) as (st' & Hrun & Hres & Hmc & Hdom' & Hno' & Hsz).
    + rewrite Hwr. exact Hmax.
    + lia.
    + rewrite Hwr. cbn. rewrite !dom_delete_L, Hdom. reflexivity.
    + rewrite Hwr. cbn. rewrite dom_delete_L. set_solver.
    + exact Hname.
    + rewrite Hwr. cbn. apply lookup_delete_eq.
    + assert (Hmc1 : maxConns (wr st1) = maxConns (wr st)) by (rewrite Hwr; reflexivity).
      exists file, st'. split; [exact Hrun|]. split; [congruence|]. split; [congruence|].
      split; [|split].
      * split; [exact Hdom'|]. split; [exact Hno'|]. rewrite Hmc, Hmc1.
        destruct Hsz as [(_ & Hs & [Hlt|He])|(victim & h' & t & _ & _ & _ & _ & _ & Hs & _)].
        -- lia.
        -- rewrite Hs, He, map_size_empty. lia.
        -- lia.
      * right. split; [|reflexivity]. intros h' Hlive'.
        destruct Hlive' as [Hh' Hst]. rewrite Hh in Hh'. injection Hh' as <-.
        apply Hdead. split; assumption.
      * intros Hnone. congruence.
Qed.
End Admission.

Section PoolTheorem.
Context {rt : Runtime}.

Lemma GetConn_nil st :
  GetConn None st = Ret ((None, Some "nil file pointer received"), st).
Proof. reflexivity. Qed.

Lemma acquiring_pool_ok capacity st :
  0 <= capacity < uint64_modulus ->
  acquiring capacity st ->
  pool_ok (wr st) /\ maxConns (wr st) = capacity.
Proof.
  intros Hcap Hacq. induction Hacq as [st Hp Hl Hc|st file r st' Hacq IH Hname Hrun|st o Hacq IH].
  - split; [|exact Hc]. unfold pool_ok. rewrite Hp, Hl, map_size_empty.
    split; [reflexivity|]. split; [set_solver | lia].
  - destruct IH as [Hok Hc]. destruct file as [file|].
    + destruct (GetConn_step file st) as (r' & st'' & Hrun' & _ & Hmc & Hok' & _);
        [rewrite Hc; exact Hcap | exact Hok | exact Hname |].
      rewrite Hrun in Hrun'. injection Hrun' as _ Hst. rewrite Hst.
      split; [exact Hok' | congruence].
    + rewrite GetConn_nil in Hrun. injection Hrun as _ Hst. rewrite <- Hst.
      split; assumption.
  - exact IH.
Qed.

(** C5 (as amended). Along every sequence of [GetConn] calls on a writer
    with capacity [capacity] whose pools start empty, with targets whose
    names are not empty, the pool never holds more than
    [max capacity 1] entries, hence never more than [capacity] when
    [capacity >= 1].  When an acquisition of an unpooled target finds the
    (non-empty) pool at capacity, one entry is closed and removed to admit
    the target, and its last-used timestamp is the smallest among the
    current entries. *)
Theorem pool_bound_and_lru (capacity : Z) (st : State) :
  0 <= capacity < uint64_modulus ->
  acquiring capacity st ->
  Z.of_nat (size (openFilesPool (wr st))) <= Z.max capacity 1 /\
  (1 <= capacity -> Z.of_nat (size (openFilesPool (wr st))) <= capacity) /\
  forall file : File,
    Name file <> EmptyString ->
    openFilesPool (wr st) !! Name file = None ->
    capacity <= Z.of_nat (size (openFilesPool (wr st))) ->
    openFilesPool (wr st) <> ∅ ->
    exists victim h t st',
      GetConn (Some file) st = Ret ((Some file, None), st') /\
      openFilesPool (wr st) !! victim = Some h /\
      connLastUsed (wr st) !! victim = Some t /\
      (forall k t', connLastUsed (wr st) !! k = Some t' -> t <= t') /\
      openFilesPool (wr st')
        = <[Name file := file]> (delete victim (openFilesPool (wr st))) /\
      fd h ∈ closed (os st').
Proof.
  intros Hcap Hacq.
  destruct (acquiring_pool_ok capacity st Hcap Hacq) as [Hok Hmc].
  assert (Hsize : Z.of_nat (size (openFilesPool (wr st))) <= Z.max capacity 1).
  { destruct Hok as (_ & _ & Hs). rewrite Hmc in Hs. exact Hs. }
  split; [exact Hsize|]. split; [lia|].
  intros file Hname Hnew Hfull Hne.
  destruct (GetConn_step file st) as (r & st' & Hrun & _ & _ & _ & Hwho & Hevict);
    [rewrite Hmc; exact Hcap | exact Hok | exact Hname |].
  destruct (Hevict Hnew) as (victim & h & t & Hh & Ht & Hmin & Hp & Hcl);
    [rewrite Hmc; exact Hfull | exact Hne |].
  assert (r = file) as ->.
  { destruct Hwho as [(h' & [Hh' _] & _)|[_ Hr]]; [congruence | exact Hr]. }
  exists victim, h, t, st'. repeat split; assumption.
Qed.
End PoolTheorem.

Lemma pool_bound_and_lru_witness :
  Z.of_nat (size (openFilesPool (wr after_first_acquisition))) <= 1 /\
  exists victim st',
    GetConn (rt := quiet) (Some file2) after_first_acquisition
      = Ret ((Some file2, None), st') /\
    victim = Name file1 /\
    openFilesPool (wr st') = <[Name file2 := file2]> (delete victim
                               (openFilesPool (wr after_first_acquisition))).
Proof.
  assert (Hacq : acquiring (H := quiet) 1 after_first_acquisition).
  { apply (acquiring_GetConn (H := quiet) 1 (state_of (test_writer [] 1 3 100))
             (Some file1) (Some file1, None)).
    - apply acquiring_fresh; reflexivity.
    - discriminate.
    - vm_compute. reflexivity. }
  destruct (pool_bound_and_lru (rt := quiet) 1 after_first_acquisition) as (Hsz & _ & Hev).
  - unfold uint64_modulus. lia.
  - exact Hacq.
  - split; [exact Hsz|].
    destruct (Hev file2) as (victim & h & t & st' & Hrun & Hh & _ & _ & Hp & _).
    + discriminate.
    + vm_compute. reflexivity.
    + vm_compute. discriminate.
    + vm_compute. discriminate.
    + exists victim, st'. split; [exact Hrun|]. split; [|exact Hp].
      destruct (decide (victim = Name file1)) as [->|Hne]; [reflexivity|].
      exfalso.
      assert (Hpool : openFilesPool (wr after_first_acquisition)
                      = <[Name file1 := file1]> ∅) by (vm_compute; reflexivity).
      rewrite Hpool, lookup_insert_ne, lookup_empty in Hh by congruence. discriminate.
Defined.

(** C5 as stated fails in two ways.  With capacity 0 the first acquisition
    leaves one entry in the pool.  And a pooled handle with the empty name
    is never chosen for eviction, so with capacity 1 the pool grows to two
    entries. *)
Lemma pool_bound_counterexample :
  (exists r st',
     GetConn (rt := quiet) (Some file1) (state_of (test_writer [] 0 3 100)) = Ret (r, st') /\
     maxConns (wr st') = 0 /\
     size (openFilesPool (wr st')) = 1%nat) /\
  (exists r1 st1 r2 st2,
     GetConn (rt := quiet) (Some unnamed_file) (state_of (test_writer [] 1 3 100))
       = Ret (r1, st1) /\
     GetConn (rt := quiet) (Some file1) st1 = Ret (r2, st2) /\
     maxConns (wr st2) = 1 /\
     size (openFilesPool (wr st2)) = 2%nat).
Proof.
  split.
  - eexists _, _. split; [vm_compute; reflexivity|]. split; vm_compute; reflexivity.
  - eexists _, _, _, _. split; [vm_compute; reflexivity|].
    split; [vm_compute; reflexivity|]. split; vm_compute; reflexivity.
Qed.

(** ** Frames: what the methods leave alone *)

Lemma same_settings_refl w : same_settings w w.
Proof. repeat split. Qed.

Lemma same_settings_trans w1 w2 w3 :
  same_settings w1 w2 -> same_settings w2 w3 -> same_settings w1 w3.
Proof.
  unfold same_settings. intros (A1 & A2 & A3 & A4 & A5 & A6 & A7) (B1 & B2 & B3 & B4 & B5 & B6 & B7).
  repeat split; congruence.
Qed.

Lemma same_counts_refl r : same_counts r r.
Proof. repeat split. Qed.

Lemma same_counts_trans r1 r2 r3 :
  same_counts r1 r2 -> same_counts r2 r3 -> same_counts r1 r3.
Proof.
  unfold same_counts. intros (A1 & A2 & A3 & A4 & A5 & A6) (B1 & B2 & B3 & B4 & B5 & B6).
  repeat split; congruence.
Qed.

Lemma runnable_same w w' : same_settings w w' -> runnable w -> runnable w'.
Proof.
  intros (_ & Hm & Hmsg & _ & _ & _ & Hc) (H1 & (m & s & H2 & H3) & H4).
  unfold runnable. rewrite Hc, Hm, Hmsg. split; [exact H1|]. split; [eauto | exact H4].
Qed.

Section Frames.
Context {rt : Runtime}.

Lemma evict_if_full_returns st :
  exists st', evict_if_full st = Ret (tt, st') /\
              same_settings (wr st) (wr st') /\ res st' = res st.
Proof.
  unfold evict_if_full, bind, get.
  destruct (maxConns (wr st) <=? _); [|eexists; repeat split].
  destruct (negb _); [|eexists; repeat split].
  destruct (openFilesPool (wr st) !! _) as [h|]; [|eexists; repeat split].
  destruct (Close_runs h st) as (r & o' & HC & _). rewrite HC.
  eexists. repeat split.
Qed.

Lemma GetConn_returns (file : File) st :
  exists r st',
    GetConn (Some file) st = Ret ((Some r, None), st') /\
    same_settings (wr st) (wr st') /\
    res st' = res st /\
    ((exists h, live_in_pool st (Name file) h /\ r = h) \/
     ((forall h, ~ live_in_pool st (Name file) h) /\ r = file)).
Proof.
  unfold GetConn.
  destruct (lookup_live_cases (Name file) st) as (r0 & st1 & Hlook & Hres1 & Hcases).
  unfold bind at 1. rewrite Hlook.
  assert (Hset1 : same_settings (wr st) (wr st1)).
  { destruct Hcases as [(_ & _ & ->)|[(h & t & _ & _ & ->)|(h & _ & _ & _ & ->)]];
      repeat split. }
  assert (Htail : r0 = None ->
            exists st', bind evict_if_full (fun _ =>
                          bind (pool_Store (Name file) file) (fun _ =>
                          bind Now (fun now =>
                          bind (lastUsed_Store (Name file) now) (fun _ =>
                          ret (Some file, @None error))))) st1
                        = Ret ((Some file, None), st') /\
                        same_settings (wr st) (wr st') /\ res st' = res st).
  { intros _. destruct (evict_if_full_returns st1) as (st2 & Hev & Hset2 & Hres2).
    unfold bind at 1. rewrite Hev.
    eexists. split; [reflexivity|]. cbn. split; [|congruence].
    apply (same_settings_trans _ _ _ Hset1), (same_settings_trans _ _ _ Hset2).
    repeat split. }
  destruct Hcases as [(Hnone & -> & ->)|[(h & t & Hlive & -> & Hwr)|(h & Hh & Hdead & -> & Hwr)]].
  - destruct (Htail eq_refl) as (st' & Hrun & Hset & Hres).
    exists file, st'. split; [exact Hrun|]. split; [exact Hset|]. split; [exact Hres|].
    right. split; [|reflexivity]. intros h [Hh _]. congruence.
  - exists h, st1. split; [reflexivity|]. split; [exact Hset1|]. split; [exact Hres1|].
    left. exists h. split; [exact Hlive | reflexivity].
  - destruct (Htail eq_refl) as (st' & Hrun & Hset & Hres).
    exists file, st'. split; [exact Hrun|]. split; [exact Hset|]. split; [exact Hres|].
    right. split; [|reflexivity]. intros h' [Hh' Hst]. rewrite Hh in Hh'.
    injection Hh' as <-. apply Hdead. split; assumption.
Qed.

Lemma Info_set_runs key value st :
  exists r', Info_set key value st = Ret (tt, {| wr := wr st; res := r'; os := os st |}) /\
             same_counts (res st) r'.
Proof. eexists. split; [reflexivity|]. repeat split. Qed.

Lemma OpenFile_runs name flag perm st :
  exists o',
    (exists f, OpenFile name flag perm st
               = Ret ((Some f, None), {| wr := wr st; res := res st; os := o' |})) \/
    (exists e, OpenFile name flag perm st
               = Ret ((None, Some e), {| wr := wr st; res := res st; os := o' |})).
Proof.
  unfold OpenFile, bind, advance. cbn.
  destruct (fault (tick (os st)) (SysOpenFile name flag perm)) as [e|].
  - eexists. right. eexists. reflexivity.
  - eexists. left. eexists. reflexivity.
Qed.

Lemma file_Write_runs f data st :
  exists r o', file_Write f data st = Ret (r, {| wr := wr st; res := res st; os := o' |}).
Proof.
  unfold file_Write, bind, advance, is_closed, get, ret, emit, set_os, modify. cbn.
  destruct (bool_decide _); [eexists _, _; reflexivity|].
  destruct (fault _ _); eexists _, _; reflexivity.
Qed.

Lemma CheckConnStatus_runs file st :
  exists b o', CheckConnStatus file st = Ret (b, {| wr := wr st; res := res st; os := o' |}).
Proof.
  unfold CheckConnStatus.
  destruct file as [file|]; [|exists false, (os st); destruct st; reflexivity].
  unfold bind, get. destruct (openFilesPool (wr st) !! Name file) as [h|].
  - destruct (Stat_runs h st) as (r & o' & HS). rewrite HS.
    destruct r; eexists _, _; reflexivity.
  - exists false, (os st). destruct st. reflexivity.
Qed.
End Frames.

Section WriteToFileFrame.
Context {rt : Runtime}.

Lemma reopen_if_needed_returns file fileMode st :
  exists r st',
    reopen_if_needed file fileMode st = Ret (r, st') /\
    same_settings (wr st) (wr st') /\ same_counts (res st) (res st').
Proof.
  unfold reopen_if_needed.
  destruct (CheckConnStatus_runs (Some file) st) as (live & o1 & HC).
  unfold bind at 1. rewrite HC.
  destruct live; cbn [negb].
  - eexists _, _. split; [reflexivity|]. split; [apply same_settings_refl | apply same_counts_refl].
  - set (st1 := {| wr := wr st; res := res st; os := o1 |}).
    destruct (OpenFile_runs (Name file) fileMode 438 st1) as (o2 & [(f & HO)|(e & HO)]);
      unfold bind at 1; rewrite HO.
    + eexists _, _. split; [reflexivity|]. split; [repeat split | apply same_counts_refl].
    + eexists _, _. split; [reflexivity|]. split; [apply same_settings_refl | repeat split].
Qed.

Lemma bufio_WriteString_runs b s st :
  exists b' r o',
    bufio_WriteString b s st = Ret ((b', r), {| wr := wr st; res := res st; os := o' |}) /\
    wr_file b' = wr_file b.
Proof.
  unfold bufio_WriteString.
  destruct (bufio_defaultBufSize <? String.length s)%nat.
  - destruct (file_Write_runs (wr_file b) s st) as (r & o' & HW).
    unfold bind. rewrite HW. eexists _, _, _. split; reflexivity.
  - exists {| wr_file := wr_file b; buffered := s |}, None, (os st).
    split; [destruct st; reflexivity | reflexivity].
Qed.

Lemma bufio_Flush_runs b st :
  exists r o', bufio_Flush b st = Ret (r, {| wr := wr st; res := res st; os := o' |}).
Proof.
  unfold bufio_Flush. destruct (buffered b) as [|c s].
  - exists None, (os st). destruct st. reflexivity.
  - apply file_Write_runs.
Qed.

(** On a runnable writer [writeToFile] returns, and it changes neither the
    settings of the writer nor the counters of the results. *)
Lemma writeToFile_returns file message st :
  runnable (wr st) ->
  exists r st',
    writeToFile file message st = Ret (r, st') /\
    same_settings (wr st) (wr st') /\ same_counts (res st) (res st').
Proof.
  intros ([c Hc] & (m & s & Hm & Hs) & _).
  unfold writeToFile. unfold bind at 1. unfold get at 1. rewrite Hc.
  destruct (Err c (tick (os st))) as [e|].
  { eexists _, _. split; [reflexivity|]. split; [apply same_settings_refl | apply same_counts_refl]. }
  destruct file as [file|].
  2:{ eexists _, _. split; [reflexivity|]. split; [apply same_settings_refl | repeat split]. }
  rewrite Hm, Hs.
  destruct (getFileMode s) as [fileMode [e|]].
  { eexists _, _. split; [reflexivity|]. split; [apply same_settings_refl | repeat split]. }
  destruct (reopen_if_needed_returns file fileMode st) as (target & st1 & HR & Hset1 & Hcnt1).
  unfold bind at 1. rewrite HR.
  destruct target as [f|e].
  2:{ eexists _, _. split; [reflexivity|]. split; assumption. }
  destruct (bufio_WriteString_runs (bufio_NewWriter f) message st1) as (b' & r & o2 & HW & _).
  unfold bind at 1. rewrite HW.
  destruct r as [e|].
  - unfold bind at 1. cbn [Info_set set_res modify].
    match goal with |- exists _ _, _ ?s = _ /\ _ => set (s2 := s) end.
    assert (Hs2 : same_settings (wr st) (wr s2) /\ same_counts (res st) (res s2)).
    { subst s2. cbn. split; [exact Hset1|].
      apply (same_counts_trans _ _ _ Hcnt1). repeat split. }
    clearbody s2. destruct Hs2 as [Hset2 Hcnt2].
    destruct (negb (Contains e "already closed")).
    + destruct (Close_runs f s2) as (rc & o3 & HCl & _).
      unfold bind. rewrite HCl.
      eexists _, _. split; [reflexivity|]. cbn. split; assumption.
    + eexists _, _. split; [reflexivity|]. split; assumption.
  - match goal with |- exists _ _, _ ?s = _ /\ _ => set (s2 := s) end.
    destruct (bufio_Flush_runs b' s2) as (rf & o3 & HF).
    unfold bind at 1. rewrite HF.
    destruct rf as [e|].
    + unfold bind at 1. cbn [Info_set set_res modify].
      match goal with |- exists _ _, _ ?s = _ /\ _ => set (s3 := s) end.
      assert (Hs3 : same_settings (wr st) (wr s3) /\ same_counts (res st) (res s3)).
      { subst s3 s2. cbn. split; [exact Hset1|].
        apply (same_counts_trans _ _ _ Hcnt1). repeat split. }
      clearbody s3. destruct Hs3 as [Hset3 Hcnt3].
      destruct (Close_runs f s3) as (rc & o4 & HCl & _).
      unfold bind. rewrite HCl.
      eexists _, _. split; [reflexivity|]. cbn. split; assumption.
    + eexists _, _. split; [reflexivity|]. subst s2. cbn. split; assumption.
Qed.
End WriteToFileFrame.

(** ** The worker loop *)

Lemma retry_loop_returns function file message :
  well_behaved function file message ->
  forall i b st, runnable (wr st) ->
  exists r st',
    retry_loop function file message i b st = Ret (r, st') /\
    same_settings (wr st) (wr st') /\ same_counts (res st) (res st').
Proof.
  intros Hwb. induction i as [|i IH]; intros b st Hrun.
  - eexists _, _. split; [reflexivity|]. split; [apply same_settings_refl | apply same_counts_refl].
  - destruct (Hwb st Hrun) as (r & s1 & Hf & Hset1 & Hcnt1).
    cbn [retry_loop]. unfold bind at 1. rewrite Hf.
    destruct r as [e|]; [|eexists _, _; split; [reflexivity | split; assumption]].
    destruct i as [|i]; [eexists _, _; split; [reflexivity | split; assumption]|].
    unfold bind at 1. rewrite Sleep_runs.
    match goal with |- exists _ _, _ ?b' ?s = _ /\ _ =>
      destruct (IH b' s) as (r & st' & Hrun' & Hset2 & Hcnt2) end.
    { cbn. apply (runnable_same _ _ Hset1 Hrun). }
    exists r, st'. split; [exact Hrun'|]. cbn in Hset2, Hcnt2. split.
    + apply (same_settings_trans _ _ _ Hset1 Hset2).
    + apply (same_counts_trans _ _ _ Hcnt1 Hcnt2).
Qed.

Lemma retry_returns function file message st :
  well_behaved function file message ->
  runnable (wr st) ->
  exists r st',
    retry function file message st = Ret (r, st') /\
    same_settings (wr st) (wr st') /\ same_counts (res st) (res st').
Proof.
  intros Hwb Hrun. unfold retry, bind, get.
  destruct (retries (wr st) =? 0).
  - apply (Hwb st Hrun).
  - apply (retry_loop_returns function file message Hwb _ _ st Hrun).
Qed.

Section WorkerLoop.
Context {rt : Runtime}.

Lemma writeToFile_well_behaved file message : well_behaved writeToFile file message.
Proof. intros s Hs. apply writeToFile_returns, Hs. Qed.

(** A job is counted once: as a success, or as a failure with its error. *)
Lemma worker_job_counts file st :
  runnable (wr st) ->
  exists o st',
    worker_job file st = Ret (o, st') /\
    same_settings (wr st) (wr st') /\
    Total (res st') = Total (res st) /\
    (o = AcquisitionFailed <-> file = None) /\
    ((o = Written /\
      Success (res st') = wrap_uint64 (Success (res st) + 1) /\
      Failure (res st') = Failure (res st) /\
      ErrSlice (res st') = ErrSlice (res st)) \/
     (o <> Written /\
      Success (res st') = Success (res st) /\
      Failure (res st') = wrap_uint64 (Failure (res st) + 1) /\
      exists e, ErrSlice (res st') = ErrSlice (res st) ++ [e])).
Proof.
  intros Hrun. unfold worker_job. destruct file as [file|].
  - destruct (GetConn_returns file st) as (r & st1 & HG & Hset1 & Hres1 & _).
    unfold bind at 1. rewrite HG.
    assert (Hrun1 : runnable (wr st1)) by apply (runnable_same _ _ Hset1 Hrun).
    unfold bind at 1. unfold get at 1.
    destruct Hrun1 as (Hc & Hm & [msg Hmsg]). rewrite Hmsg.
    destruct (retry_returns writeToFile (Some r) msg st1
                (writeToFile_well_behaved (Some r) msg))
      as (err & st2 & HR & Hset2 & Hcnt2).
    { split; [exact Hc|]. split; [exact Hm | eauto]. }
    unfold bind at 1. rewrite HR.
    destruct Hcnt2 as (Ht & He & Hs & Hf & _).
    destruct err as [e|].
    + eexists _, _. split; [reflexivity|]. cbn.
      split; [apply (same_settings_trans _ _ _ Hset1 Hset2)|].
      split; [congruence|]. split; [split; discriminate|].
      right. split; [discriminate|]. split; [congruence|]. split; [congruence|].
      exists e. congruence.
    + eexists _, _. split; [reflexivity|]. cbn.
      split; [apply (same_settings_trans _ _ _ Hset1 Hset2)|].
      split; [congruence|]. split; [split; discriminate|].
      left. split; [reflexivity|]. split; [congruence|]. split; congruence.
  - eexists _, _. split; [reflexivity|]. cbn.
    split; [apply same_settings_refl|]. split; [reflexivity|].
    split; [split; reflexivity|].
    right. split; [discriminate|]. split; [reflexivity|]. split; [reflexivity|].
    eexists. reflexivity.
Qed.

Lemma run_jobs_counts jobs : forall st n,
  runnable (wr st) ->
  tally (res st) n ->
  n + Z.of_nat (length jobs) < uint64_modulus ->
  exists outs st',
    run_jobs jobs st = Ret (outs, st') /\
    same_settings (wr st) (wr st') /\
    Total (res st') = Total (res st) /\
    tally (res st') (n + Z.of_nat (length jobs)) /\
    length outs = length jobs /\
    occurrences AcquisitionFailed outs = occurrences None jobs.
Proof.
  induction jobs as [|job jobs IH]; intros st n Hrun Htally Hn.
  - eexists _, _. split; [reflexivity|]. split; [apply same_settings_refl|].
    split; [reflexivity|]. cbn. rewrite Z.add_0_r. repeat split; apply Htally.
  - destruct (worker_job_counts job st Hrun)
      as (o & st1 & Hjob & Hset1 & Htot1 & Hacq & Hcount).
    cbn [run_jobs]. unfold bind at 1. rewrite Hjob.
    assert (Htally1 : tally (res st1) (n + 1)).
    { destruct Htally as (Hs & Hf & Hsum & Hlen). cbn [length] in Hn.
      unfold tally, wrap_uint64 in *.
      destruct Hcount as [(_ & HS & HF & HE)|(_ & HS & HF & e & HE)];
        rewrite HS, HF, HE.
      - rewrite Z.mod_small by lia. repeat split; lia.
      - rewrite Z.mod_small by lia. rewrite length_app. cbn. repeat split; lia. }
    destruct (IH st1 (n + 1)) as (outs & st' & Hrest & Hset2 & Htot2 & Htally2 & Hlen & Hocc).
    { apply (runnable_same _ _ Hset1 Hrun). }
    { exact Htally1. }
    { cbn [length] in Hn. lia. }
    unfold bind at 1. rewrite Hrest.
    eexists _, _. split; [reflexivity|].
    split; [apply (same_settings_trans _ _ _ Hset1 Hset2)|].
    split; [congruence|]. split.
    { replace (n + Z.of_nat (length (job :: jobs))) with (n + 1 + Z.of_nat (length jobs))
        by (cbn [length]; lia). exact Htally2. }
    split; [cbn; congruence|].
    unfold occurrences in *. rewrite !filter_cons.
    destruct (decide (o = AcquisitionFailed)) as [Ho|Ho];
      destruct (decide (job = None)) as [Hj|Hj]; cbn; try congruence.
    + exfalso. apply Hj, Hacq, Ho.
    + exfalso. apply Ho, Hacq, Hj.
Qed.
End WorkerLoop.

(** ** Write *)

Section WriteFacts.
Context {rt : Runtime}.

Lemma occurrences_Permutation {A} `{EqDecision A} (x : A) (l l' : list A) :
  l ≡ₚ l' -> occurrences x l = occurrences x l'.
Proof. intros Hp. unfold occurrences. rewrite Hp. reflexivity. Qed.

Lemma queued_jobs_all (w : Writer) (fs : list (option File)) :
  files w = Some fs -> fs <> [] -> Z.of_nat (length fs) <= maxSliceLen ->
  queued_jobs w fs = Ret fs.
Proof.
  intros Hf Hne Hlen. unfold queued_jobs.
  destruct (1000 <? Z.of_nat (length fs)) eqn:E; [|reflexivity].
  destruct (batcher_partitions w fs 0 Hf Hne) as (batches & Hrun & Hcat & _).
  - assert (Hn : 1 <= Z.of_nat (length fs)) by (destruct fs; [congruence | cbn; lia]).
    pose proof NumCPU_range as Hcpu.
    assert (effectiveBatchSize (Z.of_nat (length fs)) 0 <= Z.of_nat (length fs)).
    { unfold effectiveBatchSize. cbn.
      rewrite Z.quot_div_nonneg by lia.
      assert (Z.of_nat (length fs) / NumCPU <= Z.of_nat (length fs))
        by (apply Z.div_le_upper_bound; nia).
      destruct (_ =? 0); lia. }
    unfold maxSliceLen, MaxInt in *. lia.
  - rewrite Hrun. cbn. rewrite Hcat. reflexivity.
Qed.

(** On a validly configured writer [Write] returns results in which every
    target was counted once. *)
Lemma Write_valid (w : Writer) (maxWorkers : Z) (o : OS) (fs : list (option File)) :
  validly_configured w o fs ->
  exists r outs st',
    Write (Some w) maxWorkers o = Ret ((Some r, None, outs), st') /\
    res st' = r /\
    SuccessRate r = float64_div (float64_of_uint64 (Success r)) (float64_of_uint64 (Total r)) /\
    FailureRate r = float64_div (float64_of_uint64 (Failure r)) (float64_of_uint64 (Total r)) /\
    Total r = Z.of_nat (length fs) /\
    tally r (Z.of_nat (length fs)) /\
    length outs = length fs /\
    occurrences AcquisitionFailed outs = occurrences None fs.
Proof.
  intros (Hf & Hne & Hlen & Hrun & Hctx).
  assert (Hn : 1 <= Z.of_nat (length fs)) by (destruct fs; [congruence | cbn; lia]).
  destruct Hrun as ([c Hc] & (m & s & Hm & Hs) & [msg Hmsg]).
  unfold Write, Write_body. unfold bind at 1. unfold get at 1. cbn [wr os].
  rewrite Hc, (Hctx c Hc). unfold fullWriteCheck. rewrite Hf, Hm, Hmsg.
  destruct (Z.of_nat (length fs) =? 0) eqn:E0; [apply Z.eqb_eq in E0; lia|].
  unfold bind at 1. cbn [set_res modify wr res os].
  rewrite (queued_jobs_all w fs Hf Hne Hlen).
  unfold bind at 1. cbn [lift].
  set (workers := if Z.of_nat (length fs) <? _ then _ else _).
  assert (Hw : 1 <= workers).
  { subst workers. pose proof NumCPU_range as Hcpu.
    destruct (maxWorkers <=? 0) eqn:E1;
      [|apply Z.leb_gt in E1];
      match goal with |- context [?a <? ?b] => destruct (a <? b) eqn:E2 end;
      try apply Z.ltb_ge in E2; lia. }
  unfold run_workers.
  destruct (workers <=? 0) eqn:E3; [apply Z.leb_le in E3; lia|].
  set (st0 := {| wr := w; res := NewResults; os := o |}).
  destruct (run_jobs_counts (Schedule workers fs) st0 0)
    as (outs & st1 & Hjobs & Hset & Htot & Htally & Hlenouts & Hocc).
  { cbn. split; [eauto|]. split; eauto. }
  { repeat split; cbn; lia. }
  { rewrite (Permutation_length (Schedule_perm workers fs)).
    unfold maxSliceLen, uint64_modulus in *. lia. }
  rewrite (Permutation_length (Schedule_perm workers fs)) in Htally, Hlenouts.
  rewrite (occurrences_Permutation None _ _ (Schedule_perm workers fs)) in Hocc.
  unfold bind at 1. rewrite Hjobs.
  assert (Hwrap : wrap_uint64 (Z.of_nat (length fs)) = Z.of_nat (length fs)).
  { unfold wrap_uint64. apply Z.mod_small. unfold maxSliceLen, uint64_modulus in *. lia. }
  rewrite Hwrap.
  eexists _, _, _. split; [reflexivity|]. cbn [res].
  assert (Hpos : (0 <? Z.of_nat (length fs)) = true) by (apply Z.ltb_lt; lia).
  unfold finalize. rewrite Hpos. cbn.
  split; [reflexivity|]. split; [reflexivity|]. split; [reflexivity|].
  split; [reflexivity|].
  split; [exact Htally|]. split; [exact Hlenouts | exact Hocc].
Qed.
End WriteFacts.

Section WriteTheorems.
Context {rt : Runtime}.

(** C1, at the input where the code departs from it: on a [nil] receiver
    [Write] reads [w.ctx] before [fullWriteCheck] can report "writer is nil",
    and panics. *)
Theorem Write_nil_receiver_panics (maxWorkers : Z) (o : OS) :
  Write None maxWorkers o = Panic nil_dereference /\
  fullWriteCheck None = Some "writer is nil".
Proof. split; reflexivity. Qed.

(** The jobs of [Write] on a writer whose mode holds no string (a
    [&Mode{}]): the first job on a file panics, in [writeToFile], which
    dereferences the string. *)
Lemma run_jobs_no_mode_string (c : Context) (m : Mode.t) :
  forall (jobs : list (option File)) st,
  ctx (wr st) = Some c -> (forall t, Err c t = None) ->
  mode (wr st) = Some m -> Mode.mode m = None ->
  is_Some (message (wr st)) -> 0 <= retries (wr st) ->
  (exists f, Some f ∈ jobs) ->
  run_jobs jobs st = Panic nil_dereference.
Proof.
  induction jobs as [|job jobs IH]; intros st Hc Hlive Hm Hs Hmsg Hret [f Hin].
  - inversion Hin.
  - destruct job as [f0|].
    + cbn [run_jobs]. unfold bind at 1. unfold worker_job. unfold bind at 1.
      destruct (GetConn_returns f0 st) as (r & st1 & Hrun & Hsame & _).
      rewrite Hrun. unfold bind at 1. unfold get at 1.
      destruct Hsame as (_ & Hm1 & Hmsg1 & _ & Hr1 & _ & Hc1).
      destruct Hmsg as [msg Hmsg]. rewrite Hmsg1, Hmsg.
      unfold bind at 1.
      assert (Hw : writeToFile (Some r) msg st1 = Panic nil_dereference).
      { unfold writeToFile. unfold bind at 1. unfold get at 1.
        rewrite Hc1, Hc, Hlive, Hm1, Hm, Hs. reflexivity. }
      assert (Hretry : retry writeToFile (Some r) msg st1 = Panic nil_dereference).
      { unfold retry. unfold bind at 1. unfold get at 1.
        destruct (retries (wr st1) =? 0) eqn:E; [exact Hw|].
        apply Z.eqb_neq in E.
        destruct (Z.to_nat (retries (wr st1))) as [|n] eqn:En; [lia|].
        cbn [retry_loop]. unfold bind at 1. rewrite Hw. reflexivity. }
      rewrite Hretry. reflexivity.
    + cbn [run_jobs]. unfold bind at 1.
      unfold worker_job, GetConn. unfold bind at 1. unfold ret at 1.
      unfold bind at 1. unfold record_failure, set_res, modify. unfold ret at 1.
      unfold bind at 1.
      rewrite IH; [reflexivity | exact Hc | exact Hlive | exact Hm | exact Hs
                  | exact Hmsg | exact Hret |].
      exists f. apply elem_of_cons in Hin as [Hin|Hin]; [discriminate | exact Hin].
Qed.

(** What holds of C1 on a receiver that is not [nil] and has a context:
    when a precondition is violated, [Write] returns an error and no
    results and leaves the writer as it was.  Otherwise, when the mode
    holds a string, it returns results and no error, every target counted
    once and every failure with its error in [ErrSlice]; and when the mode
    holds no string (a [&Mode{}], which [fullWriteCheck] lets through),
    the context is never done and some target is a file, it panics. *)
Theorem Write_error_iff_precondition (w : Writer) (maxWorkers : Z) (o : OS) (c : Context) :
  ctx w = Some c ->
  (precondition_violated w o ->
   exists e, Write (Some w) maxWorkers o
             = Ret ((None, Some e, []), {| wr := w; res := NewResults; os := o |})) /\
  (~ precondition_violated w o ->
   (forall m, mode w = Some m -> is_Some (Mode.mode m)) ->
   (forall fs, files w = Some fs -> Z.of_nat (length fs) <= maxSliceLen) ->
   exists fs r outs st',
     files w = Some fs /\
     Write (Some w) maxWorkers o = Ret ((Some r, None, outs), st') /\
     Total r = Z.of_nat (length fs) /\
     Success r + Failure r = Total r /\
     Z.of_nat (length (ErrSlice r)) = Failure r) /\
  (~ precondition_violated w o ->
   (exists m, mode w = Some m /\ Mode.mode m = None) ->
   (forall t, Err c t = None) ->
   0 <= retries w ->
   (exists fs f, files w = Some fs /\ Some f ∈ fs /\
                 Z.of_nat (length fs) <= maxSliceLen) ->
   Write (Some w) maxWorkers o = Panic nil_dereference).
Proof.
  intros Hc. split; [|split].
  - intros Hv. unfold Write, Write_body, bind, get. cbn [wr os]. rewrite Hc.
    destruct (Err c (tick o)) as [e|] eqn:He; [eexists; reflexivity|].
    unfold fullWriteCheck.
    destruct (files w) as [fs|] eqn:Hf; [|eexists; reflexivity].
    destruct (mode w) as [m|] eqn:Hm; [|eexists; reflexivity].
    destruct (message w) as [msg|] eqn:Hmsg; [|eexists; reflexivity].
    destruct fs as [|f fs]; [eexists; reflexivity|].
    exfalso. destruct Hv as [Hv|[Hv|[Hv|[Hv|(c' & e & Hc' & He')]]]]; try congruence.
  - intros Hnv Hmode Hlen.
    destruct (files w) as [fs|] eqn:Hf; [|exfalso; apply Hnv; left; exact Hf].
    destruct (mode w) as [m|] eqn:Hm; [|exfalso; apply Hnv; right; left; exact Hm].
    destruct (message w) as [msg|] eqn:Hmsg;
      [|exfalso; apply Hnv; right; right; left; exact Hmsg].
    destruct (Hmode m eq_refl) as [s Hs].
    destruct (Write_valid w maxWorkers o fs)
      as (r & outs & st' & Hrun & _ & _ & _ & Htot & (_ & _ & Hsum & Herr) & _).
    { split; [exact Hf|]. split.
      { intros ->. apply Hnv. right. right. right. left. exact Hf. }
      split; [apply Hlen; reflexivity|]. split.
      { split; [eauto|]. split; [exists m, s; split; assumption | eauto]. }
      intros c' Hc'. destruct (Err c' (tick o)) as [e|] eqn:He; [|reflexivity].
      exfalso. apply Hnv. right. right. right. right. exists c', e. split; assumption. }
    exists fs, r, outs, st'. split; [reflexivity|]. split; [exact Hrun|].
    split; [exact Htot|]. split; [lia | exact Herr].
  - intros Hnv (m & Hm & Hs) Hlive Hret (fs & f & Hf & Hin & Hlen).
    destruct (message w) as [msg|] eqn:Hmsg;
      [|exfalso; apply Hnv; right; right; left; exact Hmsg].
    assert (Hne : fs <> []) by (intros ->; inversion Hin).
    assert (Hn : 1 <= Z.of_nat (length fs)) by (destruct fs; [congruence | cbn; lia]).
    unfold Write, Write_body. unfold bind at 1. unfold get at 1. cbn [wr os].
    rewrite Hc, Hlive. unfold fullWriteCheck. rewrite Hf, Hm, Hmsg.
    destruct (Z.of_nat (length fs) =? 0) eqn:E0; [apply Z.eqb_eq in E0; lia|].
    unfold bind at 1. cbn [set_res modify wr res os].
    rewrite (queued_jobs_all w fs Hf Hne Hlen).
    unfold bind at 1. cbn [lift].
    set (workers := if Z.of_nat (length fs) <? _ then _ else _).
    assert (Hw : 1 <= workers).
    { subst workers. pose proof NumCPU_range as Hcpu.
      destruct (maxWorkers <=? 0) eqn:E1;
        [|apply Z.leb_gt in E1];
        match goal with |- context [?a <? ?b] => destruct (a <? b) eqn:E2 end;
        try apply Z.ltb_ge in E2; lia. }
    unfold run_workers.
    destruct (workers <=? 0) eqn:E3; [apply Z.leb_le in E3; lia|].
    unfold bind at 1.
    rewrite (run_jobs_no_mode_string c m); [reflexivity | exact Hc | exact Hlive | exact Hm
                                           | exact Hs | cbn; eauto | exact Hret |].
    exists f. rewrite (Schedule_perm workers fs). exact Hin.
Qed.

(** C2. On a validly configured writer, [Write] returns results with
    [Success + Failure = Total], where [Total] is the number of files in the
    target list; the jobs are the targets themselves, also when they are
    queued batch by batch. *)
Theorem Write_success_plus_failure (w : Writer) (maxWorkers : Z) (o : OS)
    (fs : list (option File)) :
  validly_configured w o fs ->
  exists r outs st',
    Write (Some w) maxWorkers o = Ret ((Some r, None, outs), st') /\
    Success r + Failure r = Total r /\
    Total r = Z.of_nat (length fs) /\
    queued_jobs w fs = Ret fs /\
    length outs = length fs.
Proof.
  intros Hv.
  destruct (Write_valid w maxWorkers o fs Hv)
    as (r & outs & st' & Hrun & _ & _ & _ & Htot & (_ & _ & Hsum & _) & Hlen & _).
  exists r, outs, st'. split; [exact Hrun|]. split; [lia|]. split; [exact Htot|].
  split; [|exact Hlen].
  destruct Hv as (Hf & Hne & Hl & _). apply queued_jobs_all; assumption.
Qed.

End WriteTheorems.

Lemma test_writer_valid fs maxPool retries backoff :
  fs <> [] -> Z.of_nat (length fs) <= maxSliceLen ->
  validly_configured (test_writer fs maxPool retries backoff) fresh_OS fs.
Proof.
  intros Hne Hlen. split; [reflexivity|]. split; [exact Hne|]. split; [exact Hlen|].
  split.
  - split; [eexists; reflexivity|]. split; [|eexists; reflexivity].
    exists modeA, "a"%string. split; reflexivity.
  - intros c Hc. cbn in Hc. injection Hc as <-. reflexivity.
Qed.

Lemma Write_success_plus_failure_witness :
  exists r outs st',
    Write (rt := quiet) (Some (test_writer [Some file1; None; Some file2] 1 3 100)) 2 fresh_OS
      = Ret ((Some r, None, outs), st') /\
    Success r + Failure r = 3.
Proof.
  destruct (Write_success_plus_failure (rt := quiet)
              (test_writer [Some file1; None; Some file2] 1 3 100) 2 fresh_OS
              [Some file1; None; Some file2])
    as (r & outs & st' & Hrun & Hsum & Htot & _).
  - apply test_writer_valid; [discriminate | vm_compute; discriminate].
  - exists r, outs, st'. split; [exact Hrun|]. rewrite Hsum, Htot. reflexivity.
Defined.

Lemma Write_error_iff_precondition_witness :
  (exists e, Write (rt := quiet) (Some (test_writer [] 1 3 100)) 2 fresh_OS
             = Ret ((None, Some e, []), state_of (test_writer [] 1 3 100))) /\
  (exists r outs st',
     Write (rt := quiet) (Some (test_writer [Some file1; None] 1 3 100)) 2 fresh_OS
       = Ret ((Some r, None, outs), st') /\
     Success r + Failure r = 2) /\
  Write (rt := quiet)
    (Some (NewWriter (Some [None; Some file1]) (Some (Mode.mk None)) (Some "m"%string) 1 3 100))
    2 fresh_OS
  = Panic nil_dereference.
Proof.
  split; [|split].
  - destruct (Write_error_iff_precondition (rt := quiet)
                (test_writer [] 1 3 100) 2 fresh_OS Background eq_refl) as [Hviol _].
    apply Hviol. right. right. right. left. reflexivity.
  - destruct (Write_error_iff_precondition (rt := quiet)
                (test_writer [Some file1; None] 1 3 100) 2 fresh_OS Background eq_refl)
      as (_ & Hok & _).
    destruct Hok as (fs & r & outs & st' & Hf & Hrun & Htot & Hsum & _).
    + intros [Hv|[Hv|[Hv|[Hv|(c & e & Hc & He)]]]]; try discriminate.
      cbn in Hc. injection Hc as <-. discriminate.
    + intros m Hm. cbn in Hm. injection Hm as <-. eexists. reflexivity.
    + intros fs Hf. cbn in Hf. injection Hf as <-. vm_compute. discriminate.
    + exists r, outs, st'. split; [exact Hrun|]. rewrite Hsum, Htot.
      cbn in Hf. injection Hf as <-. reflexivity.
  - destruct (Write_error_iff_precondition (rt := quiet)
                (NewWriter (Some [None; Some file1]) (Some (Mode.mk None))
                   (Some "m"%string) 1 3 100) 2 fresh_OS Background eq_refl)
      as (_ & _ & Hpanic).
    apply Hpanic.
    + intros [Hv|[Hv|[Hv|[Hv|(c & e & Hc & He)]]]]; try discriminate.
      cbn in Hc. injection Hc as <-. discriminate.
    + eexists. split; reflexivity.
    + intros t. reflexivity.
    + cbn. lia.
    + exists [None; Some file1], file1. split; [reflexivity|].
      split; [set_solver | vm_compute; discriminate].
Defined.

(** ** Reset *)

Section ResetFacts.
Context {rt : Runtime}.

Lemma Stat_spec f st :
  exists r o',
    Stat f st = Ret (r, {| wr := wr st; res := res st; os := o' |}) /\
    closed o' = closed (os st) /\
    (fd f ∈ closed (os st) -> is_Some r) /\
    ((forall t g, fault t (SysStat g) = None) -> fd f ∉ closed (os st) -> r = None).
Proof.
  unfold Stat, bind, advance, is_closed, get, ret. cbn.
  destruct (bool_decide (fd f ∈ closed (os st))) eqn:E.
  - apply bool_decide_eq_true in E. eexists _, _. split; [reflexivity|].
    split; [reflexivity|]. split; [eauto | intros _ Hn; contradiction].
  - apply bool_decide_eq_false in E. eexists _, _. split; [reflexivity|].
    split; [reflexivity|]. split; [intros Hc; contradiction | intros Hq _; apply Hq].
Qed.

Lemma Close_spec f st :
  exists r o',
    Close f st = Ret (r, {| wr := wr st; res := res st; os := o' |}) /\
    closed o' = {[fd f]} ∪ closed (os st).
Proof.
  unfold Close, bind, advance, is_closed, get, ret, set_os, modify. cbn.
  destruct (bool_decide (fd f ∈ closed (os st))) eqn:E.
  - apply bool_decide_eq_true in E. eexists _, _. split; [reflexivity|]. cbn. set_solver.
  - eexists _, _. split; [reflexivity|]. reflexivity.
Qed.

(** The loop of [CloseAllConns]: it returns, removes the names it visits
    from both maps whatever closing them gives, and touches nothing else of
    the writer. *)
Lemma closeAll_loop_spec (l : list (string * File)) : forall errSlice st,
  exists errs st',
    closeAll_loop l errSlice st = Ret (errs, st') /\
    same_settings (wr st) (wr st') /\
    res st' = res st /\
    (forall k, openFilesPool (wr st') !! k
               = if decide (k ∈ l.*1) then None else openFilesPool (wr st) !! k) /\
    (forall k, connLastUsed (wr st') !! k
               = if decide (k ∈ l.*1) then None else connLastUsed (wr st) !! k) /\
    closed (os st) ⊆ closed (os st') /\
    ((forall t g, fault t (SysStat g) = None) ->
     forall name h, (name, h) ∈ l -> fd h ∈ closed (os st')) /\
    ((forall name h, (name, h) ∈ l -> fd h ∈ closed (os st)) -> errs = errSlice).
Proof.
  induction l as [|[name file] l IH]; intros errSlice st.
  - exists errSlice, st. split; [reflexivity|]. split; [apply same_settings_refl|].
    split; [reflexivity|]. split; [intros k; reflexivity|]. split; [intros k; reflexivity|].
    split; [reflexivity|]. split; [|reflexivity].
    intros _ n h Hin. inversion Hin.
  - cbn [closeAll_loop].
    destruct (Stat_spec file st) as (r & o1 & HS & Hcl1 & Hclosed & Hlive).
    unfold bind at 1. rewrite HS.
    set (deleted := fun (st0 : State) (o0 : OS) =>
           {| wr := with_lastUsed (delete name (connLastUsed (wr st0)))
                      (with_pool (delete name (openFilesPool (wr st0))) (wr st0));
              res := res st0; os := o0 |}).
    assert (Hlook : forall (A : Type) (m m' : gmap string A) k,
              (forall k', m' !! k' = if decide (k' ∈ l.*1) then None else delete name m !! k') ->
              m' !! k = if decide (k ∈ ((name, file) :: l).*1) then None else m !! k).
    { intros A m m' k Hm. rewrite Hm. cbn [fmap list_fmap fst].
      destruct (decide (k ∈ l.*1)) as [Hin|Hnin].
      - rewrite decide_True by (right; exact Hin). reflexivity.
      - destruct (decide (k = name)) as [->|Hne].
        + rewrite decide_True by left. apply lookup_delete_eq.
        + rewrite decide_False by (intros Hc; apply elem_of_cons in Hc as [?|?]; contradiction).
          apply lookup_delete_ne. congruence. }
    destruct r as [e|].
    + destruct (IH errSlice (deleted st o1))
        as (errs & st' & Hrun & Hset & Hres & Hp & Hl & Hsub & Hall & Hnone).
      exists errs, st'. split; [exact Hrun|].
      split; [apply (same_settings_trans _ (wr (deleted st o1))); [repeat split | exact Hset]|].
      split; [exact Hres|].
      split; [intros k; apply Hlook, Hp|]. split; [intros k; apply Hlook, Hl|].
      cbn in Hsub. rewrite Hcl1 in Hsub. split; [exact Hsub|]. split.
      * intros Hq n h Hin. apply elem_of_cons in Hin as [Heq|Hin]; [|apply (Hall Hq n h Hin)].
        injection Heq as -> ->. apply Hsub.
        destruct (decide (fd file ∈ closed (os st))) as [Hc|Hc]; [exact Hc|].
        specialize (Hlive Hq Hc). discriminate.
      * intros Hc. apply Hnone. intros n h Hin. cbn. rewrite Hcl1.
        apply (Hc n h). right. exact Hin.
    + set (st1 := {| wr := wr st; res := res st; os := o1 |}).
      destruct (Close_spec file st1) as (rc & o2 & HC & Hcl2).
      unfold bind at 1. rewrite HC.
      match goal with |- context [closeAll_loop l ?e] =>
        destruct (IH e (deleted st o2))
          as (errs & st' & Hrun & Hset & Hres & Hp & Hl & Hsub & Hall & Hnone) end.
      exists errs, st'. split; [exact Hrun|].
      split; [apply (same_settings_trans _ (wr (deleted st o2))); [repeat split | exact Hset]|].
      split; [exact Hres|].
      split; [intros k; apply Hlook, Hp|]. split; [intros k; apply Hlook, Hl|].
      cbn in Hsub, Hcl2. rewrite Hcl2, Hcl1 in Hsub.
      split; [set_solver|]. split.
      * intros Hq n h Hin. apply elem_of_cons in Hin as [Heq|Hin]; [|apply (Hall Hq n h Hin)].
        injection Heq as -> ->. apply Hsub. set_solver.
      * intros Hc. exfalso.
        assert (Hin : fd file ∈ closed (os st)) by (apply (Hc name file); left).
        destruct (Hclosed Hin) as [e He]. discriminate.
Qed.
End ResetFacts.

Section ResetTheorem.
Context {rt : Runtime}.

Lemma Range_elem {A} (m : gmap string A) k x : (k, x) ∈ Range m <-> m !! k = Some x.
Proof. rewrite (Range_perm _ m). apply elem_of_map_to_list. Qed.

Lemma Range_keys {A} (m : gmap string A) k : k ∈ (Range m).*1 <-> k ∈ dom m.
Proof.
  rewrite elem_of_dom. split.
  - intros Hin. apply list_elem_of_fmap in Hin as ([k' x] & -> & Hin).
    apply Range_elem in Hin. eauto.
  - intros [x Hx]. apply list_elem_of_fmap. exists (k, x). split; [reflexivity|].
    apply Range_elem, Hx.
Qed.

Lemma list_to_map_Range {A} (m : gmap string A) : list_to_map (Range m) = m.
Proof.
  rewrite <- (list_to_map_to_list m) at 2.
  apply list_to_map_proper; [|apply Range_perm].
  rewrite (Range_perm _ m). apply NoDup_fst_map_to_list.
Qed.

(** C9 (as amended). [FactoryReset] always returns, and when it returns
    the pool is empty and the last-used entries of the pooled names are
    gone, whether closing the handles worked or not.  When it returns no
    error the whole last-used index and the target list are empty as well.
    When it returns an error (closing some handle failed with something
    other than "already closed") the target list is what it was, and so
    are the last-used entries of names that were not in the pool.  Unless
    [Stat] itself fails, every pooled handle is closed afterwards; handles
    that were closed already are not errors. *)
Theorem FactoryReset_teardown (st : State) :
  exists r st',
    FactoryReset st = Ret (r, st') /\
    openFilesPool (wr st') = ∅ /\
    (forall k, k ∈ dom (openFilesPool (wr st)) -> connLastUsed (wr st') !! k = None) /\
    (r = None -> connLastUsed (wr st') = ∅ /\ files (wr st') = Some []) /\
    (r <> None ->
       files (wr st') = files (wr st) /\
       forall k, k ∉ dom (openFilesPool (wr st)) ->
                 connLastUsed (wr st') !! k = connLastUsed (wr st) !! k) /\
    ((forall t g, fault t (SysStat g) = None) ->
     forall name h, openFilesPool (wr st) !! name = Some h -> fd h ∈ closed (os st')) /\
    ((forall name h, openFilesPool (wr st) !! name = Some h -> fd h ∈ closed (os st)) ->
     r = None).
Proof.
  unfold FactoryReset. unfold bind at 1. unfold CloseAllConns. unfold bind at 1.
  unfold get at 1. cbv beta zeta.
  rewrite list_to_map_Range.
  destruct (closeAll_loop_spec (Range (openFilesPool (wr st))) [] st)
    as (errs & st1 & Hrun & Hset & Hres & Hp & Hl & Hsub & Hall & Hnone).
  unfold bind at 1. rewrite Hrun.
  assert (Hpool : openFilesPool (wr st1) = ∅).
  { apply map_eq. intros k. rewrite Hp, lookup_empty.
    destruct (decide _) as [Hin|Hnin]; [reflexivity|].
    destruct (openFilesPool (wr st) !! k) as [x|] eqn:E; [|reflexivity].
    exfalso. apply Hnin, Range_keys, elem_of_dom. eauto. }
  assert (Hgone : forall k, k ∈ dom (openFilesPool (wr st)) ->
                            connLastUsed (wr st1) !! k = None).
  { intros k Hk. rewrite Hl. rewrite decide_True by (apply Range_keys, Hk). reflexivity. }
  assert (Hkept : forall k, k ∉ dom (openFilesPool (wr st)) ->
                            connLastUsed (wr st1) !! k = connLastUsed (wr st) !! k).
  { intros k Hk. rewrite Hl. rewrite decide_False; [reflexivity|].
    intros Hin. apply Hk, Range_keys, Hin. }
  assert (Hclosed : (forall t g, fault t (SysStat g) = None) ->
                    forall name h, openFilesPool (wr st) !! name = Some h ->
                                   fd h ∈ closed (os st1)).
  { intros Hq name h Hh. apply (Hall Hq name h). apply Range_elem, Hh. }
  assert (Herrs : (forall name h, openFilesPool (wr st) !! name = Some h ->
                                  fd h ∈ closed (os st)) -> errs = []).
  { intros Hc. apply Hnone. intros name h Hin. apply (Hc name h), Range_elem, Hin. }
  destruct errs as [|e errs].
  - cbn. eexists _, _. split; [reflexivity|]. cbn.
    split; [reflexivity|]. split; [intros k _; apply lookup_empty|].
    split; [split; reflexivity|]. split; [congruence|]. split; [exact Hclosed|].
    reflexivity.
  - cbn. eexists _, _. split; [reflexivity|].
    split; [exact Hpool|]. split; [exact Hgone|]. split; [discriminate|].
    split; [intros _; split; [apply Hset | exact Hkept]|]. split; [exact Hclosed|].
    intros Hc. specialize (Herrs Hc). discriminate.
Qed.
End ResetTheorem.

(** C9 as stated fails when closing a pooled handle fails: [FactoryReset]
    returns the error before it clears the target list. *)
Lemma FactoryReset_keeps_files_counterexample :
  exists e st',
    FactoryReset (rt := close_fails) pooled_state = Ret (Some e, st') /\
    files (wr st') = Some [Some file1] /\
    files (wr st') <> Some [].
Proof.
  eexists _, _. split; [vm_compute; reflexivity|].
  split; [vm_compute; reflexivity | vm_compute; discriminate].
Qed.

(** ** Construction from a map *)

Lemma validateEntries_None (l : list (string * Value)) :
  validateEntries l = None <-> forall k v, (k, v) ∈ l -> validateEntry k v = None.
Proof.
  induction l as [|[k v] l IH]; cbn [validateEntries].
  - split; [intros _ k v Hin; inversion Hin | reflexivity].
  - destruct (validateEntry k v) as [e|] eqn:E.
    + split; [discriminate|]. intros H. rewrite <- E. apply H. left.
    + rewrite IH. split.
      * intros H k' v' Hin. apply elem_of_cons in Hin as [Heq|Hin];
          [injection Heq as -> ->; exact E | apply H, Hin].
      * intros H k' v' Hin. apply H. right. exact Hin.
Qed.

Lemma validateEntry_known k v :
  validateEntry k v = None -> k ∈ required_keys.
Proof.
  unfold validateEntry, required_keys.
  destruct (String.eqb_spec k "files") as [->|?]; [intros _; set_solver|].
  destruct (String.eqb_spec k "mode") as [->|?]; [intros _; set_solver|].
  destruct (String.eqb_spec k "message") as [->|?]; [intros _; set_solver|].
  destruct (String.eqb_spec k "retries") as [->|?]; [intros _; set_solver|].
  destruct (String.eqb_spec k "backoff") as [->|?]; [intros _; set_solver|].
  destruct (String.eqb_spec k "maxPool") as [->|?]; [intros _; set_solver|].
  discriminate.
Qed.

Section FromMap.
Context {rt : Runtime}.

Lemma validateMap_None (m : gmap string Value) :
  validateMap (Some m) = None <-> forall k v, m !! k = Some v -> validateEntry k v = None.
Proof.
  unfold validateMap. rewrite validateEntries_None. split.
  - intros H k v Hk. apply H, Range_elem, Hk.
  - intros H k v Hin. apply H, Range_elem, Hin.
Qed.

Lemma Operands_all (op : operand) : op ∈ Operands.
Proof. rewrite Operands_perm. unfold operands. destruct op; set_solver. Qed.

(** When an assertion fails, [NewWriterFromMap] panics on a failing
    assertion: the first one in the order of evaluation. *)
Lemma first_panic_Some (m : gmap string Value) (op : operand) (msg0 : string) :
  operand_panic m op = Some msg0 ->
  exists op' msg,
    operand_panic m op' = Some msg /\
    head (omap (operand_panic m) Operands) = Some msg.
Proof.
  intros Hop.
  assert (Hin : msg0 ∈ omap (operand_panic m) Operands).
  { apply list_elem_of_omap. exists op. split; [apply Operands_all | exact Hop]. }
  destruct (omap (operand_panic m) Operands) as [|msg rest] eqn:E; [inversion Hin|].
  assert (Hmsg : msg ∈ omap (operand_panic m) Operands) by (rewrite E; left).
  apply list_elem_of_omap in Hmsg as (op' & _ & Hop').
  exists op', msg. split; [exact Hop' | reflexivity].
Qed.

Lemma first_panic_None (m : gmap string Value) :
  (forall op, operand_panic m op = None) ->
  head (omap (operand_panic m) Operands) = None.
Proof.
  intros Hall.
  destruct (omap (operand_panic m) Operands) as [|msg rest] eqn:E; [reflexivity|].
  assert (Hmsg : msg ∈ omap (operand_panic m) Operands) by (rewrite E; left).
  apply list_elem_of_omap in Hmsg as (op' & _ & Hop').
  rewrite Hall in Hop'. discriminate.
Qed.

(** C6, at the input where the code departs from it (and from the comment
    on [NewWriterFromMap]): an empty map passes [validateMap], and a type
    assertion on an absent key panics.  All six assertions fail on the
    empty map; which of them panics is the choice of the compiler, so the
    type the message ends with is one of the four asserted. *)
Theorem NewWriterFromMap_empty_map_panics :
  validateMap (Some ∅) = None /\
  exists T : string,
    T ∈ ["*[]*os.File"; "*writer.Mode"; "*string"; "uint64"]%string /\
    NewWriterFromMap (Some ∅)
    = Panic ("interface conversion: interface {} is nil, not " +:+ T).
Proof.
  assert (Hv : validateMap (Some ∅) = None).
  { apply validateMap_None. intros k v Hk. rewrite lookup_empty in Hk. discriminate. }
  split; [exact Hv|].
  assert (Hnil : forall key, index (∅ : gmap string Value) key = VNil)
    by (intros key; unfold index; rewrite lookup_empty; reflexivity).
  destruct (first_panic_Some ∅ OpFiles
              "interface conversion: interface {} is nil, not *[]*os.File")
    as (op & msg & Hop & Hhead).
  { unfold operand_panic. rewrite Hnil. reflexivity. }
  unfold NewWriterFromMap. rewrite Hv.
  change (default ∅ (Some (∅ : gmap string Value))) with (∅ : gmap string Value).
  rewrite Hhead.
  destruct op; unfold operand_panic in Hop; rewrite Hnil in Hop; injection Hop as <-.
  - exists "*[]*os.File"%string. split; [set_solver | reflexivity].
  - exists "*writer.Mode"%string. split; [set_solver | reflexivity].
  - exists "*string"%string. split; [set_solver | reflexivity].
  - exists "uint64"%string. split; [set_solver | reflexivity].
  - exists "uint64"%string. split; [set_solver | reflexivity].
  - exists "uint64"%string. split; [set_solver | reflexivity].
Qed.

(** What holds of C6: a [nil] map, an unknown key and a value of the wrong
    type each give a construction error and no writer; a map with exactly
    the six keys and values of the right types gives a writer that carries
    the values; and a map whose entries are all valid but which lacks one
    of the six keys makes [NewWriterFromMap] panic. *)
Theorem NewWriterFromMap_cases (m : gmap string Value) :
  NewWriterFromMap None = Ret (None, Some "config is nil"%string) /\
  (forall k v, m !! k = Some v -> validateEntry k v <> None ->
     exists e, NewWriterFromMap (Some m) = Ret (None, Some e)) /\
  (forall fs md msg r b mp,
     m !! "files"%string = Some (VFiles fs) -> m !! "mode"%string = Some (VMode md) ->
     m !! "message"%string = Some (VStringPtr msg) ->
     m !! "retries"%string = Some (VUint64 r) -> m !! "backoff"%string = Some (VUint64 b) ->
     m !! "maxPool"%string = Some (VUint64 mp) ->
     (forall k, k ∉ required_keys -> m !! k = None) ->
     NewWriterFromMap (Some m)
     = Ret (Some {| files := fs; mode := md; message := msg;
                    openFilesPool := ∅; connLastUsed := ∅;
                    maxConns := mp; retries := r; backoff := b;
                    ctx := Some Background |}, None)) /\
  ((forall k v, m !! k = Some v -> validateEntry k v = None) ->
   (exists k, k ∈ required_keys /\ m !! k = None) ->
   exists msg, NewWriterFromMap (Some m) = Panic msg).
Proof.
  split; [reflexivity|]. split; [|split].
  - intros k v Hk Hbad. unfold NewWriterFromMap.
    destruct (validateMap (Some m)) as [e|] eqn:E; [eexists; reflexivity|].
    exfalso. apply Hbad. apply (proj1 (validateMap_None m) E k v Hk).
  - intros fs md msg r b mp Hf Hm Hmsg Hr Hb Hmp Hother.
    assert (Hv : validateMap (Some m) = None).
    { apply validateMap_None. intros k v Hk.
      unfold validateEntry.
      destruct (String.eqb_spec k "files") as [->|?]; [rewrite Hf in Hk; injection Hk as <-; reflexivity|].
      destruct (String.eqb_spec k "mode") as [->|?]; [rewrite Hm in Hk; injection Hk as <-; reflexivity|].
      destruct (String.eqb_spec k "message") as [->|?]; [rewrite Hmsg in Hk; injection Hk as <-; reflexivity|].
      destruct (String.eqb_spec k "retries") as [->|?]; [rewrite Hr in Hk; injection Hk as <-; reflexivity|].
      destruct (String.eqb_spec k "backoff") as [->|?]; [rewrite Hb in Hk; injection Hk as <-; reflexivity|].
      destruct (String.eqb_spec k "maxPool") as [->|?]; [rewrite Hmp in Hk; injection Hk as <-; reflexivity|].
      exfalso. rewrite Hother in Hk; [discriminate|]. unfold required_keys. set_solver. }
    unfold NewWriterFromMap. rewrite Hv.
    change (default ∅ (Some m)) with m.
    rewrite first_panic_None.
    + unfold index. rewrite Hf, Hm, Hmsg, Hr, Hb, Hmp. reflexivity.
    + intros op. destruct op; unfold operand_panic, index;
        rewrite ?Hf, ?Hm, ?Hmsg, ?Hr, ?Hb, ?Hmp; reflexivity.
  - intros Hvalid (k & Hk & Hmiss).
    assert (Hv : validateMap (Some m) = None) by (apply validateMap_None, Hvalid).
    unfold NewWriterFromMap. rewrite Hv.
    change (default ∅ (Some m)) with m.
    assert (Hfail : exists op msg0, operand_panic m op = Some msg0).
    { unfold required_keys in Hk.
      repeat (apply elem_of_cons in Hk as [->|Hk];
              [first [ exists OpFiles; eexists; unfold operand_panic, index;
                       rewrite Hmiss; reflexivity
                     | exists OpMode; eexists; unfold operand_panic, index;
                       rewrite Hmiss; reflexivity
                     | exists OpMessage; eexists; unfold operand_panic, index;
                       rewrite Hmiss; reflexivity
                     | exists OpRetries; eexists; unfold operand_panic, index;
                       rewrite Hmiss; reflexivity
                     | exists OpBackoff; eexists; unfold operand_panic, index;
                       rewrite Hmiss; reflexivity
                     | exists OpMaxPool; eexists; unfold operand_panic, index;
                       rewrite Hmiss; reflexivity ]|]).
      inversion Hk. }
    destruct Hfail as (op & msg0 & Hop).
    destruct (first_panic_Some m op msg0 Hop) as (op' & msg & _ & Hhead).
    rewrite Hhead. exists msg. reflexivity.
Qed.
End FromMap.

(** The text of the panic on the empty map depends on the order of
    evaluation: the first assertion of the source is the one to [*[]*os.File],
    a compiler that evaluates the assertions to [uint64] first gives
    another text. *)
Lemma NewWriterFromMap_panic_order :
  NewWriterFromMap (rt := quiet) (Some ∅)
  = Panic "interface conversion: interface {} is nil, not *[]*os.File" /\
  NewWriterFromMap (rt := uint64_first) (Some ∅)
  = Panic "interface conversion: interface {} is nil, not uint64".
Proof. split; vm_compute; reflexivity. Qed.

Lemma NewWriterFromMap_cases_witness :
  (exists e, NewWriterFromMap (rt := quiet) (Some {[ "colour"%string := VString "red" ]})
             = Ret (None, Some e)) /\
  (exists msg, NewWriterFromMap (rt := quiet) (Some {[ "retries"%string := VUint64 3 ]})
               = Panic msg).
Proof.
  split.
  - destruct (NewWriterFromMap_cases (rt := quiet) {[ "colour"%string := VString "red" ]})
      as (_ & Hbad & _).
    apply (Hbad "colour"%string (VString "red")); [reflexivity | discriminate].
  - destruct (NewWriterFromMap_cases (rt := quiet) {[ "retries"%string := VUint64 3 ]})
      as (_ & _ & _ & Hmiss).
    apply Hmiss.
    + intros k v Hk. apply lookup_singleton_Some in Hk as [<- <-]. reflexivity.
    + exists "files"%string. split; [unfold required_keys; set_solver | reflexivity].
Defined.

(** * Binary64 arithmetic of the rates *)

Lemma digits2_pos_size p : digits2_pos p = Pos.size p.
Proof. induction p as [p IH|p IH|]; cbn; [rewrite IH | rewrite IH |]; reflexivity. Qed.

Lemma digits2_pos_bounds p :
  2 ^ (Z.pos (digits2_pos p) - 1) <= Z.pos p < 2 ^ Z.pos (digits2_pos p).
Proof.
  induction p as [p IH|p IH|].
  - cbn [digits2_pos]. rewrite Pos2Z.inj_succ.
    replace (Z.succ (Z.pos (digits2_pos p)) - 1) with (Z.succ (Z.pos (digits2_pos p) - 1)) by lia.
    rewrite !Z.pow_succ_r by lia. lia.
  - cbn [digits2_pos]. rewrite Pos2Z.inj_succ.
    replace (Z.succ (Z.pos (digits2_pos p)) - 1) with (Z.succ (Z.pos (digits2_pos p) - 1)) by lia.
    rewrite !Z.pow_succ_r by lia. lia.
  - cbn. lia.
Qed.

Lemma Zdigits2_unique m d :
  0 < d -> 2 ^ (d - 1) <= m < 2 ^ d -> Zdigits2 m = d.
Proof.
  intros Hd [Hlo Hhi].
  assert (Hm : 0 < m) by (pose proof (Z.pow_pos_nonneg 2 (d - 1)); lia).
  destruct m as [|p|p]; try lia. cbn [Zdigits2].
  pose proof (digits2_pos_bounds p) as [Hl Hh].
  set (d' := Z.pos (digits2_pos p)) in *.
  destruct (Z.lt_trichotomy d d') as [Hlt|[Heq|Hgt]]; [|lia|].
  - assert (2 ^ d <= 2 ^ (d' - 1)) by (apply Z.pow_le_mono_r; lia). lia.
  - assert (2 ^ d' <= 2 ^ (d - 1)) by (apply Z.pow_le_mono_r; lia). lia.
Qed.

Lemma shr_1_spec m r s :
  0 <= m -> shr_1 (Build_shr_record m r s) = Build_shr_record (m / 2) (Z.odd m) (r || s).
Proof.
  intros Hm. rewrite <- Z.div2_div.
  destruct m as [|[p|p|]|p]; try lia; reflexivity.
Qed.

Lemma iter_pos_nat {A} (f : A -> A) p x : SpecFloat.iter_pos f p x = Nat.iter (Pos.to_nat p) f x.
Proof.
  revert x. induction p as [p IH|p IH|]; intros x; cbn [SpecFloat.iter_pos].
  - rewrite !IH. rewrite Pos2Nat.inj_xI.
    replace (S (2 * Pos.to_nat p))%nat with (Pos.to_nat p + (Pos.to_nat p + 1))%nat by lia.
    rewrite !Nat.iter_add. reflexivity.
  - rewrite !IH. rewrite Pos2Nat.inj_xO.
    replace (2 * Pos.to_nat p)%nat with (Pos.to_nat p + Pos.to_nat p)%nat by lia.
    rewrite Nat.iter_add. reflexivity.
  - reflexivity.
Qed.

Lemma record_loc_m m l : shr_m (shr_record_of_loc m l) = m.
Proof. destruct l as [|[]]; reflexivity. Qed.

Lemma record_loc_loc m l : loc_of_shr_record (shr_record_of_loc m l) = l.
Proof. destruct l as [|[]]; reflexivity. Qed.

Lemma round_nearest_even_rne a b :
  0 < b -> round_nearest_even (a / b) (loc_of a b) = rne_div a b.
Proof.
  intros Hb. unfold loc_of, rne_div.
  pose proof (Z.mod_pos_bound a b Hb) as Hr.
  destruct (a mod b =? 0) eqn:E.
  - apply Z.eqb_eq in E. rewrite E. cbn [round_nearest_even].
    destruct (2 * 0 ?= b) eqn:C; try reflexivity.
    + apply Z.compare_eq in C. lia.
    + apply Z.compare_gt_iff in C. lia.
  - cbn [round_nearest_even]. destruct (2 * (a mod b) ?= b); reflexivity.
Qed.

(** Halving the scale: one step of [shr_1]. *)
Lemma shr_1_loc a b :
  0 <= a -> 0 < b ->
  shr_1 (shr_record_of_loc (a / b) (loc_of a b))
  = shr_record_of_loc (a / (b * 2)) (loc_of a (b * 2)).
Proof.
  intros Ha Hb.
  pose proof (Z.mod_pos_bound a b Hb) as Hr.
  pose proof (Z.div_mod a b ltac:(lia)) as Hab.
  assert (Hq : 0 <= a / b) by (apply Z.div_pos; lia).
  pose proof (Z.div_mod (a / b) 2 ltac:(lia)) as Hq2.
  pose proof (Z.mod_pos_bound (a / b) 2 ltac:(lia)) as Hr2.
  assert (Hdiv : a / (b * 2) = a / b / 2) by (rewrite Z.div_div by lia; reflexivity).
  assert (Hmod : a mod (b * 2) = b * ((a / b) mod 2) + a mod b).
  { symmetry. apply (Z.mod_unique_pos a (b * 2) (a / b / 2)); [nia | nia]. }
  assert (Hodd : Z.odd (a / b) = negb ((a / b) mod 2 =? 0)).
  { rewrite Zmod_odd. destruct (Z.odd (a / b)); reflexivity. }
  assert (Hrec : forall l, shr_record_of_loc (a / b) l
                 = Build_shr_record (a / b)
                     (match l with loc_Inexact Eq | loc_Inexact Gt => true | _ => false end)
                     (match l with loc_Inexact Lt | loc_Inexact Gt => true | _ => false end)).
  { intros [|[]]; reflexivity. }
  rewrite Hrec, shr_1_spec by exact Hq. rewrite Hdiv.
  unfold loc_of at 3. rewrite Hmod.
  unfold loc_of.
  destruct (a mod b =? 0) eqn:E0; [apply Z.eqb_eq in E0 | apply Z.eqb_neq in E0].
  - rewrite E0, Z.add_0_r. rewrite Hodd.
    destruct ((a / b) mod 2 =? 0) eqn:E2; [apply Z.eqb_eq in E2 | apply Z.eqb_neq in E2].
    + rewrite E2, Z.mul_0_r. reflexivity.
    + assert (Hone : (a / b) mod 2 = 1) by lia. rewrite Hone, Z.mul_1_r.
      destruct (b =? 0) eqn:Eb; [apply Z.eqb_eq in Eb; lia|].
      rewrite (proj2 (Z.compare_eq_iff (2 * b) (b * 2))) by lia. reflexivity.
  - rewrite Hodd.
    assert (Hs : (match 2 * (a mod b) ?= b with Eq | Gt => true | Lt => false end
                  || match 2 * (a mod b) ?= b with Lt | Gt => true | Eq => false end) = true)
      by (destruct (2 * (a mod b) ?= b); reflexivity).
    cbn [orb] in Hs |- *. rewrite Hs.
    destruct ((a / b) mod 2 =? 0) eqn:E2; [apply Z.eqb_eq in E2 | apply Z.eqb_neq in E2].
    + rewrite E2, Z.mul_0_r, Z.add_0_l.
      destruct (a mod b =? 0) eqn:E0'; [apply Z.eqb_eq in E0'; lia|].
      rewrite (proj2 (Z.compare_lt_iff (2 * (a mod b)) (b * 2))) by lia. reflexivity.
    + assert (Hone : (a / b) mod 2 = 1) by lia. rewrite Hone, Z.mul_1_r.
      destruct (b + a mod b =? 0) eqn:Eb; [apply Z.eqb_eq in Eb; lia|].
      rewrite (proj2 (Z.compare_gt_iff (2 * (b + a mod b)) (b * 2))) by lia. reflexivity.
Qed.

Lemma shr_iter_loc a b (n : nat) :
  0 <= a -> 0 < b ->
  Nat.iter n shr_1 (shr_record_of_loc (a / b) (loc_of a b))
  = shr_record_of_loc (a / (b * 2 ^ Z.of_nat n)) (loc_of a (b * 2 ^ Z.of_nat n)).
Proof.
  intros Ha Hb. induction n as [|n IH].
  - cbn [Nat.iter]. rewrite Z.pow_0_r, Z.mul_1_r. reflexivity.
  - rewrite Nat.iter_succ, IH.
    rewrite shr_1_loc by (try apply Z.mul_pos_pos; try apply Z.pow_pos_nonneg; lia).
    rewrite Nat2Z.inj_succ, Z.pow_succ_r by lia.
    replace (b * 2 ^ Z.of_nat n * 2) with (b * (2 * 2 ^ Z.of_nat n)) by lia.
    reflexivity.
Qed.

Lemma shr_loc a b e n :
  0 <= a -> 0 < b -> 0 <= n ->
  shr (shr_record_of_loc (a / b) (loc_of a b)) e n
  = (shr_record_of_loc (a / (b * 2 ^ n)) (loc_of a (b * 2 ^ n)), e + n).
Proof.
  intros Ha Hb Hn. destruct n as [|p|p]; [| |lia].
  - cbn [shr]. rewrite Z.pow_0_r, Z.mul_1_r, Z.add_0_r. reflexivity.
  - cbn [shr]. rewrite iter_pos_nat, shr_iter_loc by assumption.
    rewrite positive_nat_Z. reflexivity.
Qed.

Lemma fexp64 e : -1074 <= e - 53 -> fexp 53 1024 e = e - 53.
Proof. intros H. unfold fexp, emin. lia. Qed.

Lemma shr_fexp_loc a b e :
  0 <= a -> 0 < b ->
  53 <= Zdigits2 (a / b) ->
  -1074 <= Zdigits2 (a / b) + e - 53 ->
  shr_fexp 53 1024 (a / b) e (loc_of a b)
  = (shr_record_of_loc (a / (b * 2 ^ (Zdigits2 (a / b) - 53)))
       (loc_of a (b * 2 ^ (Zdigits2 (a / b) - 53))),
     e + (Zdigits2 (a / b) - 53)).
Proof.
  intros Ha Hb Hd He. unfold shr_fexp.
  rewrite fexp64 by lia.
  replace (Zdigits2 (a / b) + e - 53 - e) with (Zdigits2 (a / b) - 53) by lia.
  apply shr_loc; lia.
Qed.

Lemma rne_div_between a b lo hi :
  0 < b -> lo * b <= a <= hi * b -> lo <= rne_div a b <= hi.
Proof.
  intros Hb [Hlo Hhi].
  pose proof (Z.mod_pos_bound a b Hb) as Hr.
  pose proof (Z.div_mod a b ltac:(lia)) as Hab.
  assert (Hq : lo <= a / b) by (apply Z.div_le_lower_bound; lia).
  assert (Hq' : a / b <= hi) by (apply Z.div_le_upper_bound; lia || nia).
  unfold rne_div.
  destruct (2 * (a mod b) ?= b) eqn:C.
  - apply Z.compare_eq in C.
    destruct (Z.even (a / b)); [lia|].
    destruct (Z.eq_dec (a / b) hi) as [E|E]; [|lia]. nia.
  - lia.
  - apply Z.compare_gt_iff in C.
    destruct (Z.eq_dec (a / b) hi) as [E|E]; [|lia]. nia.
Qed.

Lemma rne_div_scale a b c : 0 < b -> 0 < c -> rne_div (a * c) (b * c) = rne_div a b.
Proof.
  intros Hb Hc. unfold rne_div.
  rewrite Z.div_mul_cancel_r by lia.
  rewrite Zmult_mod_distr_r.
  replace (2 * (a mod b * c)) with (2 * (a mod b) * c) by lia.
  rewrite <- (Zmult_compare_compat_r (2 * (a mod b)) b c) by lia. reflexivity.
Qed.

Lemma rne_div_exact q b : 0 < b -> rne_div (q * b) b = q.
Proof.
  intros Hb. unfold rne_div. rewrite Z.mod_mul, Z.div_mul by lia.
  rewrite (proj2 (Z.compare_lt_iff (2 * 0) b)) by lia. reflexivity.
Qed.

Lemma loc_of_one m : loc_of m 1 = loc_Exact.
Proof. unfold loc_of. rewrite Z.mod_1_r. reflexivity. Qed.

Lemma Zdigits2_bounds m : 0 < m -> 2 ^ (Zdigits2 m - 1) <= m < 2 ^ Zdigits2 m.
Proof. destruct m as [|p|p]; try lia. intros _. apply digits2_pos_bounds. Qed.

Lemma Zdigits2_pos m : 0 < m -> 0 < Zdigits2 m.
Proof. destruct m as [|p|p]; try lia. intros _. cbn. lia. Qed.

(** [binary_round_aux] on a mantissa of at least 53 bits, as rounding to
    nearest-even of the number [a / b] that the mantissa and the location
    stand for. *)
Lemma binary_round_aux_rne a b e :
  0 <= a -> 0 < b -> 2 ^ 52 <= a / b ->
  -1074 <= Zdigits2 (a / b) + e - 53 ->
  e + (Zdigits2 (a / b) - 53) + 1 <= 971 ->
  2 ^ 52 <= rne_div a (b * 2 ^ (Zdigits2 (a / b) - 53)) <= 2 ^ 53 /\
  binary_round_aux 53 1024 false (a / b) e (loc_of a b)
  = if rne_div a (b * 2 ^ (Zdigits2 (a / b) - 53)) =? 2 ^ 53
    then S754_finite false (Z.to_pos (2 ^ 52)) (e + (Zdigits2 (a / b) - 53) + 1)
    else S754_finite false (Z.to_pos (rne_div a (b * 2 ^ (Zdigits2 (a / b) - 53))))
           (e + (Zdigits2 (a / b) - 53)).
Proof.
  intros Ha Hb Hm He Hmax.
  set (d := Zdigits2 (a / b)) in *.
  assert (Hmpos : 0 < a / b) by (pose proof (Z.pow_pos_nonneg 2 52); lia).
  pose proof (Zdigits2_bounds (a / b) Hmpos) as [Hdlo Hdhi]. fold d in Hdlo, Hdhi.
  assert (Hd : 53 <= d).
  { destruct (Z_lt_ge_dec d 53) as [Hlt|Hge]; [|lia].
    assert (2 ^ d <= 2 ^ 52) by (apply Z.pow_le_mono_r; lia). lia. }
  set (n := d - 53) in *.
  assert (Hpn : 0 < 2 ^ n) by (apply Z.pow_pos_nonneg; lia).
  assert (Hsplit : 2 ^ (d - 1) = 2 ^ 52 * 2 ^ n /\ 2 ^ d = 2 ^ 53 * 2 ^ n).
  { split; rewrite <- Z.pow_add_r by lia; f_equal; lia. }
  destruct Hsplit as [Hs1 Hs2].
  pose proof (Z.mod_pos_bound a b Hb) as Hr.
  pose proof (Z.div_mod a b ltac:(lia)) as Hab.
  set (M1 := rne_div a (b * 2 ^ n)).
  assert (HM1 : 2 ^ 52 <= M1 <= 2 ^ 53).
  { apply rne_div_between; [nia|]. split; nia. }
  split; [exact HM1|].
  unfold binary_round_aux.
  rewrite shr_fexp_loc by (fold d; lia). fold d. fold n.
  rewrite record_loc_m, record_loc_loc.
  rewrite round_nearest_even_rne by nia. fold M1.
  replace M1 with (M1 / 1) at 1 by apply Z.div_1_r.
  rewrite <- (loc_of_one M1).
  destruct (M1 =? 2 ^ 53) eqn:E; [apply Z.eqb_eq in E | apply Z.eqb_neq in E].
  - assert (Hd1 : Zdigits2 (M1 / 1) = 54).
    { rewrite Z.div_1_r, E. reflexivity. }
    rewrite shr_fexp_loc; rewrite ?Hd1; try lia.
    rewrite record_loc_m. rewrite E.
    change (2 ^ 53 / (1 * 2 ^ (54 - 53))) with (2 ^ 52).
    change (2 ^ 52) with (Z.pos (Z.to_pos (2 ^ 52))) at 1.
    cbv iota beta.
    destruct (e + n + (54 - 53) <=? 1024 - 53) eqn:L; [|apply Z.leb_gt in L; lia].
    f_equal; lia.
  - assert (Hd1 : Zdigits2 (M1 / 1) = 53).
    { rewrite Z.div_1_r. apply Zdigits2_unique; [lia|]. change (53 - 1) with 52. lia. }
    rewrite shr_fexp_loc; rewrite ?Hd1; try lia.
    rewrite record_loc_m.
    change (1 * 2 ^ (53 - 53)) with 1. rewrite Z.div_1_r.
    destruct M1 as [|p|p] eqn:EM; try lia.
    destruct (e + n + (53 - 53) <=? 1024 - 53) eqn:L; [|apply Z.leb_gt in L; lia].
    cbn [Z.to_pos]. f_equal; lia.
Qed.


Lemma iter_xO p q : Z.pos (Pos.iter xO p q) = Z.pos p * 2 ^ Z.pos q.
Proof.
  induction q as [|q IH] using Pos.peano_ind.
  - cbn [Pos.iter]. lia.
  - rewrite Pos.iter_succ, Pos2Z.inj_xO, IH, Pos2Z.inj_succ, Z.pow_succ_r by lia. lia.
Qed.

Lemma shl_align_spec mx ex ex' :
  ex' <= ex ->
  Z.pos (fst (shl_align mx ex ex')) = Z.pos mx * 2 ^ (ex - ex') /\
  snd (shl_align mx ex ex') = ex'.
Proof.
  intros H. unfold shl_align.
  destruct (ex' - ex) as [|d|d] eqn:E; try lia.
  - assert (ex' = ex) by lia. subst ex'. cbn [fst snd]. rewrite Z.sub_diag. split; lia.
  - cbn [fst snd]. rewrite iter_xO. split; [|reflexivity].
    f_equal. f_equal. lia.
Qed.

Lemma shl_align_keep mx ex ex' : ex <= ex' -> shl_align mx ex ex' = (mx, ex).
Proof.
  intros H. unfold shl_align. destruct (ex' - ex) as [|d|d] eqn:E; try lia; reflexivity.
Qed.

Lemma rne_div_pow0 m : rne_div m (1 * 2 ^ 0) = m.
Proof. change (1 * 2 ^ 0) with 1. rewrite <- (Z.mul_1_r m) at 1. apply rne_div_exact. lia. Qed.

(** [binary_round] on a mantissa [m] of at least 53 bits: round [m] to 53
    bits. *)
Lemma binary_round_rne (m : positive) e :
  53 <= Zdigits2 (Z.pos m) ->
  -1074 <= Zdigits2 (Z.pos m) + e - 53 ->
  e + (Zdigits2 (Z.pos m) - 53) + 1 <= 971 ->
  binary_round 53 1024 false m e
  = if rne_div (Z.pos m) (2 ^ (Zdigits2 (Z.pos m) - 53)) =? 2 ^ 53
    then S754_finite false (Z.to_pos (2 ^ 52)) (e + (Zdigits2 (Z.pos m) - 53) + 1)
    else S754_finite false (Z.to_pos (rne_div (Z.pos m) (2 ^ (Zdigits2 (Z.pos m) - 53))))
           (e + (Zdigits2 (Z.pos m) - 53)).
Proof.
  intros Hd He Hmax. unfold binary_round.
  change (Z.pos (digits2_pos m)) with (Zdigits2 (Z.pos m)).
  rewrite fexp64 by lia.
  rewrite shl_align_keep by lia.
  pose proof (Zdigits2_bounds (Z.pos m) ltac:(lia)) as [Hlo Hhi].
  assert (Hm : 2 ^ 52 <= Z.pos m).
  { assert (2 ^ 52 <= 2 ^ (Zdigits2 (Z.pos m) - 1)) by (apply Z.pow_le_mono_r; lia). lia. }
  destruct (binary_round_aux_rne (Z.pos m) 1 e) as [_ Hrun];
    rewrite ?Z.div_1_r; try lia.
  rewrite Z.div_1_r, loc_of_one, Z.mul_1_l in Hrun. exact Hrun.
Qed.

(** The conversion of a positive integer below [2^53]: exact. *)
Lemma float64_of_uint64_exact n :
  0 < n < 2 ^ 53 ->
  float64_of_uint64 n
  = S754_finite false (Z.to_pos (n * 2 ^ (53 - Zdigits2 n))) (Zdigits2 n - 53).
Proof.
  intros [Hn Hlt]. destruct n as [|p|p]; try lia.
  unfold float64_of_uint64, prec64, emax64, binary_normalize, binary_round.
  change (Z.pos (digits2_pos p)) with (Zdigits2 (Z.pos p)).
  set (d := Zdigits2 (Z.pos p)).
  pose proof (Zdigits2_bounds (Z.pos p) ltac:(lia)) as [Hlo Hhi]. fold d in Hlo, Hhi.
  pose proof (Zdigits2_pos (Z.pos p) ltac:(lia)) as Hdpos. fold d in Hdpos.
  assert (Hd : d <= 53).
  { destruct (Z_le_gt_dec d 53) as [H|H]; [exact H|].
    assert (2 ^ 53 <= 2 ^ (d - 1)) by (apply Z.pow_le_mono_r; lia). lia. }
  rewrite Z.add_0_r, fexp64 by lia.
  destruct (shl_align_spec p 0 (d - 53) ltac:(lia)) as [Hm He].
  destruct (shl_align p 0 (d - 53)) as [mz ez]. cbn [fst snd] in Hm, He. subst ez.
  replace (0 - (d - 53)) with (53 - d) in Hm by lia.
  assert (Hp2 : 2 ^ (d - 1) * 2 ^ (53 - d) = 2 ^ 52 /\ 2 ^ d * 2 ^ (53 - d) = 2 ^ 53).
  { split; rewrite <- Z.pow_add_r by lia; f_equal; lia. }
  assert (Hpp : 0 < 2 ^ (53 - d)) by (apply Z.pow_pos_nonneg; lia).
  assert (Hmz : 2 ^ 52 <= Z.pos mz < 2 ^ 53) by (rewrite Hm; nia).
  assert (Hdz : Zdigits2 (Z.pos mz) = 53).
  { apply Zdigits2_unique; [lia|]. change (53 - 1) with 52. exact Hmz. }
  destruct (binary_round_aux_rne (Z.pos mz) 1 (d - 53)) as [_ Hrun];
    rewrite ?Z.div_1_r, ?Hdz; try lia.
  rewrite Z.div_1_r, loc_of_one, Hdz in Hrun. rewrite Hrun.
  change (53 - 53) with 0. rewrite rne_div_pow0.
  destruct (Z.pos mz =? 2 ^ 53) eqn:E; [apply Z.eqb_eq in E; lia|].
  rewrite <- Hm. cbn [Z.to_pos]. f_equal. lia.
Qed.

Lemma new_location_loc a b : 0 < b -> new_location b (a mod b) = loc_of a b.
Proof.
  intros Hb. pose proof (Z.mod_pos_bound a b Hb) as Hr.
  unfold new_location, new_location_even, new_location_odd, loc_of.
  destruct (Z.even b) eqn:Ev; [reflexivity|].
  destruct (a mod b =? 0); [reflexivity|]. f_equal.
  assert (Hodd : Z.odd b = true) by (rewrite <- Z.negb_even, Ev; reflexivity).
  apply Z.odd_spec in Hodd as [c Hc].
  generalize dependent (a mod b). intros r Hr.
  destruct (2 * r ?= b) eqn:C.
  - apply Z.compare_eq in C. exfalso. lia.
  - destruct (2 * r + 1 ?= b) eqn:C'; try reflexivity.
    change (2 * r < b) in C. apply Z.compare_gt_iff in C'. exfalso. lia.
  - apply Z.compare_gt_iff in C.
    rewrite (proj2 (Z.compare_gt_iff (2 * r + 1) b)) by lia. reflexivity.
Qed.

(** Division of two normal numbers with 53-bit mantissas. *)
Lemma float64_div_rne (mx my : positive) ex ey :
  Zdigits2 (Z.pos mx) = 53 -> Zdigits2 (Z.pos my) = 53 ->
  -900 <= ex - ey <= 900 ->
  let a := Z.pos mx * 2 ^ 53 in
  let b := Z.pos my in
  let d := Zdigits2 (a / b) in
  2 ^ 52 <= rne_div a (b * 2 ^ (d - 53)) <= 2 ^ 53 /\
  53 <= d <= 54 /\
  float64_div (S754_finite false mx ex) (S754_finite false my ey)
  = if rne_div a (b * 2 ^ (d - 53)) =? 2 ^ 53
    then S754_finite false (Z.to_pos (2 ^ 52)) (ex - ey - 53 + (d - 53) + 1)
    else S754_finite false (Z.to_pos (rne_div a (b * 2 ^ (d - 53))))
           (ex - ey - 53 + (d - 53)).
Proof.
  intros Hdx Hdy He a b d.
  pose proof (Zdigits2_bounds (Z.pos mx) ltac:(lia)) as [Hxlo Hxhi].
  pose proof (Zdigits2_bounds (Z.pos my) ltac:(lia)) as [Hylo Hyhi].
  rewrite Hdx in Hxlo, Hxhi. rewrite Hdy in Hylo, Hyhi.
  change (53 - 1) with 52 in Hxlo, Hylo.
  assert (Hq : 2 ^ 52 <= a / b < 2 ^ 54).
  { subst a b. split.
    - apply Z.div_le_lower_bound; [lia|]. nia.
    - apply Z.div_lt_upper_bound; [lia|]. nia. }
  assert (Hd : 53 <= d <= 54).
  { subst d. pose proof (Zdigits2_bounds (a / b) ltac:(lia)) as [Hl Hh].
    set (d := Zdigits2 (a / b)) in *.
    split.
    - destruct (Z_lt_ge_dec d 53) as [H|H]; [|lia].
      assert (2 ^ d <= 2 ^ 52) by (apply Z.pow_le_mono_r; lia). lia.
    - destruct (Z_le_gt_dec d 54) as [H|H]; [lia|].
      assert (2 ^ 54 <= 2 ^ (d - 1)) by (apply Z.pow_le_mono_r; lia). lia. }
  assert (Ha0 : 0 <= a) by (subst a; lia).
  assert (Hb0 : 0 < b) by (subst b; lia).
  assert (Hq52 : 2 ^ 52 <= a / b) by lia.
  assert (He1 : -1074 <= Zdigits2 (a / b) + (ex - ey - 53) - 53) by (fold d; lia).
  assert (He2 : ex - ey - 53 + (Zdigits2 (a / b) - 53) + 1 <= 971) by (fold d; lia).
  destruct (binary_round_aux_rne a b (ex - ey - 53) Ha0 Hb0 Hq52 He1 He2) as [HM Hrun].
  fold d in HM, Hrun.
  split; [exact HM|]. split; [exact Hd|].
  refine (eq_trans _ Hrun).
  unfold float64_div, prec64, emax64, SFdiv, SFdiv_core_binary.
  rewrite Hdx, Hdy.
  replace (53 + ex - (53 + ey)) with (ex - ey) by lia.
  rewrite fexp64 by lia.
  rewrite Z.min_l by lia.
  replace (ex - ey - (ex - ey - 53)) with 53 by lia.
  cbv iota beta. rewrite Z.shiftl_mul_pow2 by lia. fold a. fold b.
  pose proof (new_location_loc a b ltac:(subst b; lia)) as Hloc.
  unfold Z.div, Z.modulo in *.
  destruct (Z.div_eucl a b) as [q r]. rewrite Hloc. reflexivity.
Qed.

(** Addition of two positive finite numbers whose exact sum has at least
    53 bits. *)
Lemma float64_add_rne (mx my : positive) ex ey :
  let ez := Z.min ex ey in
  let M := Z.pos mx * 2 ^ (ex - ez) + Z.pos my * 2 ^ (ey - ez) in
  53 <= Zdigits2 M ->
  -1074 <= Zdigits2 M + ez - 53 ->
  ez + (Zdigits2 M - 53) + 1 <= 971 ->
  float64_add (S754_finite false mx ex) (S754_finite false my ey)
  = if rne_div M (2 ^ (Zdigits2 M - 53)) =? 2 ^ 53
    then S754_finite false (Z.to_pos (2 ^ 52)) (ez + (Zdigits2 M - 53) + 1)
    else S754_finite false (Z.to_pos (rne_div M (2 ^ (Zdigits2 M - 53))))
           (ez + (Zdigits2 M - 53)).
Proof.
  intros ez M Hd He Hmax.
  unfold float64_add, prec64, emax64, SFadd. cbn [cond_Zopp]. fold ez.
  destruct (shl_align_spec mx ex ez ltac:(subst ez; lia)) as [Hx _].
  destruct (shl_align_spec my ey ez ltac:(subst ez; lia)) as [Hy _].
  rewrite Hx, Hy. fold M.
  assert (HM : 0 < M).
  { subst M. assert (0 < 2 ^ (ex - ez)) by (apply Z.pow_pos_nonneg; subst ez; lia).
    assert (0 < 2 ^ (ey - ez)) by (apply Z.pow_pos_nonneg; subst ez; lia). nia. }
  destruct M as [|p|p] eqn:EM; try lia.
  cbn [binary_normalize]. apply binary_round_rne; assumption.
Qed.

Lemma float64_add_comm (mx my : positive) ex ey :
  float64_add (S754_finite false mx ex) (S754_finite false my ey)
  = float64_add (S754_finite false my ey) (S754_finite false mx ex).
Proof.
  unfold float64_add, prec64, emax64, SFadd. cbn [cond_Zopp].
  rewrite (Z.min_comm ey ex). f_equal. apply Z.add_comm.
Qed.

Lemma rne_div_down a b q :
  0 < b -> q * b <= a -> 2 * (a - q * b) < b -> rne_div a b = q.
Proof.
  intros Hb Hlo Hhalf.
  assert (Hq : a / b = q).
  { symmetry. apply (Z.div_unique_pos a b q (a - q * b)); lia. }
  assert (Hr : a mod b = a - q * b).
  { symmetry. apply (Z.mod_unique_pos a b q); lia. }
  unfold rne_div. rewrite Hr, Hq.
  rewrite (proj2 (Z.compare_lt_iff _ _) Hhalf). reflexivity.
Qed.

Lemma rne_div_up a b q :
  0 < b -> q * b <= a < (q + 1) * b -> b <= 2 * (a - q * b) -> Z.odd q = true ->
  rne_div a b = q + 1.
Proof.
  intros Hb [Hlo Hhi] Hhalf Hodd.
  assert (Hq : a / b = q).
  { symmetry. apply (Z.div_unique_pos a b q (a - q * b)); lia. }
  assert (Hr : a mod b = a - q * b).
  { symmetry. apply (Z.mod_unique_pos a b q); lia. }
  unfold rne_div. rewrite Hr, Hq.
  destruct (2 * (a - q * b) ?= b) eqn:C.
  - rewrite <- Z.negb_odd, Hodd. reflexivity.
  - change (2 * (a - q * b) < b) in C. lia.
  - reflexivity.
Qed.

(** What [rne_div] may return, with the side of the half it implies. *)
Lemma rne_div_cases a b :
  0 < b ->
  (rne_div a b = a / b /\ 2 * (a mod b) <= b) \/
  (rne_div a b = a / b + 1 /\ b <= 2 * (a mod b)).
Proof.
  intros Hb. unfold rne_div.
  destruct (2 * (a mod b) ?= b) eqn:C.
  - apply Z.compare_eq in C. destruct (Z.even (a / b)); [left | right]; split; lia.
  - change (2 * (a mod b) < b) in C. left. split; lia.
  - apply Z.compare_gt_iff in C. right. split; lia.
Qed.

(** A sum within [2^(j-54)] of [2^j] rounds to one. *)
Lemma sum_rounds_to_one (mx my : positive) ex ey j :
  53 <= j <= 900 ->
  Z.min ex ey = - j ->
  let M := Z.pos mx * 2 ^ (ex - Z.min ex ey) + Z.pos my * 2 ^ (ey - Z.min ex ey) in
  (2 ^ j - M) * 2 ^ 54 <= 2 ^ j ->
  (M - 2 ^ j) * 2 ^ 54 <= 2 ^ j ->
  float64_add (S754_finite false mx ex) (S754_finite false my ey)
  = S754_finite false (Z.to_pos (2 ^ 52)) (-52).
Proof.
  intros Hj Hmin M Hlo Hhi.
  assert (Hpj : 2 ^ j = 2 ^ 53 * 2 ^ (j - 53)).
  { rewrite <- Z.pow_add_r by lia. f_equal. lia. }
  assert (Hpp : 0 < 2 ^ (j - 53)) by (apply Z.pow_pos_nonneg; lia).
  set (u := 2 ^ (j - 53)) in *.
  assert (H53 : 2 ^ 53 = 9007199254740992) by reflexivity.
  assert (H54 : 2 ^ 54 = 18014398509481984) by reflexivity.
  assert (H52 : 2 ^ 52 = 4503599627370496) by reflexivity.
  destruct (Z_lt_ge_dec M (2 ^ j)) as [Hlt|Hge].
  - (* just below: 53 bits at scale u, rounds up to 2^53 *)
    assert (Hd : Zdigits2 M = j).
    { apply Zdigits2_unique; [lia|]. split; [|exact Hlt].
      replace (2 ^ (j - 1)) with (2 ^ 52 * u)
        by (subst u; rewrite <- Z.pow_add_r by lia; f_equal; lia).
      nia. }
    rewrite float64_add_rne; fold M; rewrite ?Hd, ?Hmin; try lia.
    fold u.
    assert (Hr : rne_div M u = (2 ^ 53 - 1) + 1).
    { apply rne_div_up; [lia | nia | nia | reflexivity]. }
    rewrite Hr. change (2 ^ 53 - 1 + 1 =? 2 ^ 53) with true. cbv iota.
    f_equal. lia.
  - (* at or just above: 54 bits at scale 2u, rounds down to 2^52 *)
    assert (Hd : Zdigits2 M = j + 1).
    { apply Zdigits2_unique; [lia|]. replace (j + 1 - 1) with j by lia.
      split; [lia|].
      replace (2 ^ (j + 1)) with (2 * 2 ^ j)
        by (rewrite <- Z.pow_succ_r by lia; f_equal; lia).
      nia. }
    rewrite float64_add_rne; fold M; rewrite ?Hd, ?Hmin; try lia.
    replace (j + 1 - 53) with (Z.succ (j - 53)) by lia.
    rewrite Z.pow_succ_r by lia. fold u.
    assert (Hr : rne_div M (2 * u) = 2 ^ 52).
    { apply rne_div_down; nia. }
    rewrite Hr. change (2 ^ 52 =? 2 ^ 53) with false. cbv iota.
    f_equal. lia.
Qed.

Lemma Zdigits2_mono m n : 0 < m <= n -> Zdigits2 m <= Zdigits2 n.
Proof.
  intros [Hm Hmn].
  pose proof (Zdigits2_bounds m Hm) as [Hlo _].
  pose proof (Zdigits2_bounds n ltac:(lia)) as [_ Hhi].
  destruct (Z_le_gt_dec (Zdigits2 m) (Zdigits2 n)) as [H|H]; [exact H|].
  assert (2 ^ Zdigits2 n <= 2 ^ (Zdigits2 m - 1))
    by (apply Z.pow_le_mono_r; lia).
  lia.
Qed.

(** The quotient of two integers below [2^53], as a float: the
    round-to-nearest-even of [S * 2^k / T] at the scale [k] that gives it
    53 bits. *)
Lemma float64_quotient S T :
  0 < S <= T -> T < 2 ^ 53 ->
  exists k N,
    52 <= k <= 105 /\
    2 ^ 52 * T <= S * 2 ^ k < 2 ^ 53 * T /\
    N = rne_div (S * 2 ^ k) T /\
    2 ^ 52 <= N <= 2 ^ 53 /\
    float64_div (float64_of_uint64 S) (float64_of_uint64 T)
    = if N =? 2 ^ 53
      then S754_finite false (Z.to_pos (2 ^ 52)) (1 - k)
      else S754_finite false (Z.to_pos N) (- k).
Proof.
  intros [HS HST] HT.
  set (dS := Zdigits2 S). set (dT := Zdigits2 T).
  pose proof (Zdigits2_bounds S HS) as [HSlo HShi]. fold dS in HSlo, HShi.
  pose proof (Zdigits2_bounds T ltac:(lia)) as [HTlo HThi]. fold dT in HTlo, HThi.
  pose proof (Zdigits2_pos S HS) as HdS. fold dS in HdS.
  assert (HdST : dS <= dT) by (apply Zdigits2_mono; lia).
  assert (HdT : dT <= 53).
  { destruct (Z_le_gt_dec dT 53) as [H|H]; [exact H|].
    assert (2 ^ 53 <= 2 ^ (dT - 1)) by (apply Z.pow_le_mono_r; lia). lia. }
  rewrite (float64_of_uint64_exact S) by lia.
  rewrite (float64_of_uint64_exact T) by lia.
  fold dS. fold dT.
  set (pS := 2 ^ (53 - dS)). set (pT := 2 ^ (53 - dT)).
  assert (HpS : 0 < pS) by (apply Z.pow_pos_nonneg; lia).
  assert (HpT : 0 < pT) by (apply Z.pow_pos_nonneg; lia).
  assert (HSp : 2 ^ (dS - 1) * pS = 2 ^ 52 /\ 2 ^ dS * pS = 2 ^ 53).
  { subst pS. split; rewrite <- Z.pow_add_r by lia; f_equal; lia. }
  assert (HTp : 2 ^ (dT - 1) * pT = 2 ^ 52 /\ 2 ^ dT * pT = 2 ^ 53).
  { subst pT. split; rewrite <- Z.pow_add_r by lia; f_equal; lia. }
  assert (HmS : 2 ^ 52 <= S * pS < 2 ^ 53) by nia.
  assert (HmT : 2 ^ 52 <= T * pT < 2 ^ 53) by nia.
  assert (HposS : Z.pos (Z.to_pos (S * pS)) = S * pS) by (apply Z2Pos.id; lia).
  assert (HposT : Z.pos (Z.to_pos (T * pT)) = T * pT) by (apply Z2Pos.id; lia).
  destruct (float64_div_rne (Z.to_pos (S * pS)) (Z.to_pos (T * pT)) (dS - 53) (dT - 53))
    as (HN & Hd & Hrun).
  { rewrite HposS. apply Zdigits2_unique; [lia|]. change (53 - 1) with 52. exact HmS. }
  { rewrite HposT. apply Zdigits2_unique; [lia|]. change (53 - 1) with 52. exact HmT. }
  { lia. }
  rewrite HposS, HposT in HN, Hd, Hrun.
  set (a := S * pS * 2 ^ 53) in *. set (b := T * pT) in *.
  set (d := Zdigits2 (a / b)) in *.
  set (k := 106 + dT - dS - d).
  assert (Hk : 52 <= k <= 105) by lia.
  set (c := 2 ^ (d - dT)).
  assert (Hc : 0 < c) by (apply Z.pow_pos_nonneg; lia).
  assert (Hnum : S * 2 ^ k * c = a).
  { subst a c pS k. rewrite <- !Z.mul_assoc, <- !Z.pow_add_r by lia. f_equal. f_equal. lia. }
  assert (Hden : T * c = b * 2 ^ (d - 53)).
  { subst b c pT. rewrite <- !Z.mul_assoc, <- !Z.pow_add_r by lia. f_equal. f_equal. lia. }
  assert (Hq : 2 ^ (d - 1) <= a / b < 2 ^ d).
  { apply Zdigits2_bounds. pose proof (Z.pow_pos_nonneg 2 52 ltac:(lia) ltac:(lia)).
    assert (2 ^ 52 <= a / b); [|lia].
    apply Z.div_le_lower_bound; [lia|]. subst a b. nia. }
  assert (Hpd : 2 ^ (d - 1) = 2 ^ 52 * 2 ^ (d - 53) /\ 2 ^ d = 2 ^ 53 * 2 ^ (d - 53)).
  { split; rewrite <- Z.pow_add_r by lia; f_equal; lia. }
  assert (Hpd0 : 0 < 2 ^ (d - 53)) by (apply Z.pow_pos_nonneg; lia).
  pose proof (Z.div_mod a b ltac:(lia)) as Hab.
  pose proof (Z.mod_pos_bound a b ltac:(lia)) as Hr.
  assert (Hbound : 2 ^ 52 * (T * c) <= S * 2 ^ k * c < 2 ^ 53 * (T * c)).
  { rewrite Hnum, Hden. destruct Hpd as [Hp1 Hp2]. split; nia. }
  exists k, (rne_div a (b * 2 ^ (d - 53))).
  split; [exact Hk|]. split; [split; nia|]. split.
  { rewrite <- Hnum, <- Hden. apply rne_div_scale; lia. }
  split; [exact HN|].
  rewrite Hrun.
  replace (dS - 53 - (dT - 53) - 53 + (d - 53) + 1) with (1 - k) by lia.
  replace (dS - 53 - (dT - 53) - 53 + (d - 53)) with (- k) by lia.
  reflexivity.
Qed.

(** The two rates of a count split into a smaller and a larger part. *)
Lemma rates_small_big S F T :
  0 < S < F -> S + F = T -> T < 2 ^ 53 ->
  float64_add (float64_div (float64_of_uint64 S) (float64_of_uint64 T))
              (float64_div (float64_of_uint64 F) (float64_of_uint64 T))
  = S754_finite false (Z.to_pos (2 ^ 52)) (-52).
Proof.
  intros HSF Hsum HT.
  destruct (float64_quotient S T) as (kA & NA & HkA & HbA & HNA & HrA & HqA); [lia|lia|].
  destruct (float64_quotient F T) as (kB & NB & HkB & HbB & HNB & HrB & HqB); [lia|lia|].
  rewrite HqA, HqB. clear HqA HqB.
  assert (HkB53 : kB = 53).
  { destruct (Z_le_gt_dec kB 52) as [H|H].
    - assert (2 ^ kB <= 2 ^ 52) by (apply Z.pow_le_mono_r; lia). nia.
    - destruct (Z_le_gt_dec 54 kB) as [H'|H']; [|lia].
      assert (2 ^ 54 <= 2 ^ kB) by (apply Z.pow_le_mono_r; lia). nia. }
  subst kB.
  assert (HNBlt : NB < 2 ^ 53).
  { assert (0 <= NB <= 2 ^ 53 - 1); [|lia].
    rewrite HNB. apply rne_div_between; [lia|]. nia. }
  assert (HkA54 : 54 <= kA).
  { destruct (Z_le_gt_dec 54 kA) as [H|H]; [exact H|].
    assert (2 ^ kA <= 2 ^ 53) by (apply Z.pow_le_mono_r; lia). nia. }
  set (u := 2 ^ (kA - 54)).
  assert (Hu : 0 < u) by (apply Z.pow_pos_nonneg; lia).
  assert (HpkA : 2 ^ kA = 2 ^ 54 * u).
  { subst u. rewrite <- Z.pow_add_r by lia. f_equal. lia. }
  assert (Hpi : 2 ^ (kA - 53) = 2 * u).
  { subst u. replace (kA - 53) with (Z.succ (kA - 54)) by lia.
    rewrite Z.pow_succ_r by lia. reflexivity. }
  set (kk := (F * 2 ^ 53) / T) in *.
  set (rho := (F * 2 ^ 53) mod T) in *.
  pose proof (Z.div_mod (F * 2 ^ 53) T ltac:(lia)) as Hdiv.
  pose proof (Z.mod_pos_bound (F * 2 ^ 53) T ltac:(lia)) as Hrho.
  fold kk in Hdiv. fold rho in Hdiv, Hrho.
  assert (Heq : S * 2 ^ kA = (2 ^ 54 * u - 2 * kk * u) * T - 2 * rho * u).
  { rewrite HpkA. replace S with (T - F) by lia.
    transitivity (T * 2 ^ 54 * u - 2 * u * (F * 2 ^ 53)); [ring|].
    rewrite Hdiv. ring. }
  assert (Hcore : (2 ^ 54 - 1) * u <= NA + NB * (2 * u) <= (2 ^ 54 + 1) * u).
  { destruct (rne_div_cases (F * 2 ^ 53) T ltac:(lia)) as [[Hc Hr]|[Hc Hr]];
      fold kk in Hc; fold rho in Hr; rewrite <- HNB in Hc.
    - assert (2 ^ 54 * u - 2 * kk * u - u <= NA <= 2 ^ 54 * u - 2 * kk * u).
      { rewrite HNA. apply rne_div_between; [lia|]. rewrite Heq. split; nia. }
      rewrite Hc. lia.
    - assert (2 ^ 54 * u - 2 * kk * u - 2 * u <= NA <= 2 ^ 54 * u - 2 * kk * u - u).
      { rewrite HNA. apply rne_div_between; [lia|]. rewrite Heq. split; nia. }
      rewrite Hc. lia. }
  assert (HposB : Z.pos (Z.to_pos NB) = NB) by (apply Z2Pos.id; lia).
  replace (NB =? 2 ^ 53) with false by (symmetry; apply Z.eqb_neq; lia).
  destruct (NA =? 2 ^ 53) eqn:Hren.
  - apply Z.eqb_eq in Hren.
    assert (HkA55 : 55 <= kA).
    { destruct (Z_le_gt_dec 55 kA) as [H|H]; [exact H|].
      assert (kA = 54) by lia. subst kA.
      assert (0 <= NA <= 2 ^ 53 - 1); [|lia].
      rewrite HNA. apply rne_div_between; [lia|].
      change (2 ^ 54) with (2 * 2 ^ 53) in *. nia. }
    pose proof (sum_rounds_to_one (Z.to_pos (2 ^ 52)) (Z.to_pos NB)
                  (1 - kA) (- (53)) (kA - 1)) as Hone.
    cbv zeta in Hone.
    replace (Z.min (1 - kA) (- (53))) with (1 - kA) in Hone by lia.
    replace (1 - kA - (1 - kA)) with 0 in Hone by lia.
    replace (- (53) - (1 - kA)) with (kA - 54) in Hone by lia.
    fold u in Hone. rewrite HposB in Hone.
    assert (Hpj : 2 ^ (kA - 1) = 2 ^ 53 * u).
    { subst u. rewrite <- Z.pow_add_r by lia. f_equal. lia. }
    rewrite Hpj in Hone.
    apply Hone; [lia|lia| |].
    + change (Z.pos (Z.to_pos (2 ^ 52))) with (2 ^ 52). change (2 ^ 0) with 1. lia.
    + change (Z.pos (Z.to_pos (2 ^ 52))) with (2 ^ 52). change (2 ^ 0) with 1. lia.
  - apply Z.eqb_neq in Hren.
    assert (HposA : Z.pos (Z.to_pos NA) = NA) by (apply Z2Pos.id; lia).
    pose proof (sum_rounds_to_one (Z.to_pos NA) (Z.to_pos NB)
                  (- kA) (- (53)) kA) as Hone.
    cbv zeta in Hone.
    replace (Z.min (- kA) (- (53))) with (- kA) in Hone by lia.
    replace (- kA - - kA) with 0 in Hone by lia.
    replace (- (53) - - kA) with (kA - 53) in Hone by lia.
    rewrite Hpi, HposA, HposB, HpkA in Hone.
    apply Hone; [lia|lia| |].
    + change (2 ^ 0) with 1. lia.
    + change (2 ^ 0) with 1. lia.
Qed.

Lemma float64_quotient_self T :
  0 < T < 2 ^ 53 ->
  float64_div (float64_of_uint64 T) (float64_of_uint64 T)
  = S754_finite false (Z.to_pos (2 ^ 52)) (-52).
Proof.
  intros HT.
  destruct (float64_quotient T T) as (k & N & Hk & Hb & HN & Hr & Hq); [lia|lia|].
  rewrite Hq. clear Hq.
  assert (Hk52 : k = 52).
  { assert (2 ^ 52 <= 2 ^ k < 2 ^ 53) as [H1 H2] by (split; nia).
    destruct (Z_le_gt_dec 53 k) as [H|H]; [|lia].
    assert (2 ^ 53 <= 2 ^ k) by (apply Z.pow_le_mono_r; lia). lia. }
  subst k.
  assert (N = 2 ^ 52).
  { rewrite HN, Z.mul_comm. apply rne_div_exact. lia. }
  subst N. rewrite H. reflexivity.
Qed.

Lemma float64_quotient_half S :
  0 < S -> S + S < 2 ^ 53 ->
  float64_div (float64_of_uint64 S) (float64_of_uint64 (S + S))
  = S754_finite false (Z.to_pos (2 ^ 52)) (-53).
Proof.
  intros HS HT.
  destruct (float64_quotient S (S + S)) as (k & N & Hk & Hb & HN & Hr & Hq); [lia|lia|].
  rewrite Hq. clear Hq.
  assert (Hk53 : k = 53).
  { assert (2 ^ 53 <= 2 ^ k < 2 ^ 54) as [H1 H2] by (split; nia).
    destruct (Z_le_gt_dec 54 k) as [H|H].
    - assert (2 ^ 54 <= 2 ^ k) by (apply Z.pow_le_mono_r; lia). lia.
    - destruct (Z_le_gt_dec k 52) as [H'|H']; [|lia].
      assert (2 ^ k <= 2 ^ 52) by (apply Z.pow_le_mono_r; lia). lia. }
  subst k.
  assert (N = 2 ^ 52).
  { rewrite HN. replace (S * 2 ^ 53) with (2 ^ 52 * (S + S)) by lia.
    apply rne_div_exact. lia. }
  subst N. rewrite H. reflexivity.
Qed.

Lemma float64_quotient_zero T :
  0 < T < 2 ^ 53 ->
  float64_div (float64_of_uint64 0) (float64_of_uint64 T) = S754_zero false.
Proof.
  intros HT. rewrite (float64_of_uint64_exact T) by lia. reflexivity.
Qed.

Lemma float64_quotient_finite S T :
  0 < S <= T -> T < 2 ^ 53 ->
  exists m e,
    float64_div (float64_of_uint64 S) (float64_of_uint64 T) = S754_finite false m e.
Proof.
  intros HS HT.
  destruct (float64_quotient S T) as (k & N & _ & _ & _ & _ & Hq); [lia|lia|].
  rewrite Hq. destruct (N =? 2 ^ 53); eauto.
Qed.

(** The success rate and the failure rate of a total below [2^53] add up
    to exactly one. *)
Lemma rates_sum_to_one S F T :
  0 <= S -> 0 <= F -> S + F = T -> 0 < T < 2 ^ 53 ->
  float64_add (float64_div (float64_of_uint64 S) (float64_of_uint64 T))
              (float64_div (float64_of_uint64 F) (float64_of_uint64 T))
  = S754_finite false (Z.to_pos (2 ^ 52)) (-52).
Proof.
  intros HS HF Hsum HT.
  destruct (Z.eq_dec S 0) as [HS0|HS0].
  { subst S. replace F with T by lia.
    rewrite float64_quotient_zero, float64_quotient_self by lia. reflexivity. }
  destruct (Z.eq_dec F 0) as [HF0|HF0].
  { subst F. replace S with T by lia.
    rewrite float64_quotient_zero, float64_quotient_self by lia. reflexivity. }
  destruct (Z.lt_trichotomy S F) as [Hlt|[Heq|Hgt]].
  - apply rates_small_big; lia.
  - subst F. rewrite <- Hsum.
    rewrite float64_quotient_half by lia.
    pose proof (sum_rounds_to_one (Z.to_pos (2 ^ 52)) (Z.to_pos (2 ^ 52))
                  (- (53)) (- (53)) 53) as Hone.
    apply Hone; [lia|reflexivity| |]; vm_compute; discriminate.
  - destruct (float64_quotient_finite S T) as (mS & eS & HqS); [lia|lia|].
    destruct (float64_quotient_finite F T) as (mF & eF & HqF); [lia|lia|].
    rewrite HqS, HqF, float64_add_comm, <- HqS, <- HqF.
    apply rates_small_big; lia.
Qed.

Lemma float64_one_bits : float64_one = S754_finite false (Z.to_pos (2 ^ 52)) (-52).
Proof. vm_compute. reflexivity. Qed.

(** With no targets [finalize] takes the branch without a division. *)
Lemma finalize_zero_total (r : Results) :
  Total (finalize 0 r) = 0 /\
  SuccessRate (finalize 0 r) = float64_zero /\
  FailureRate (finalize 0 r) = float64_zero.
Proof. repeat split. Qed.

(** With targets, the rates [finalize] computes from counts that add up
    to the total add up to one. *)
Lemma finalize_rates (total : Z) (r : Results) :
  0 < total < 2 ^ 53 -> tally r total ->
  float64_add (SuccessRate (finalize total r)) (FailureRate (finalize total r))
  = float64_one.
Proof.
  intros Ht (HS & HF & Hsum & _). unfold finalize.
  replace (0 <? total) with true by (symmetry; apply Z.ltb_lt; lia).
  cbn [SuccessRate FailureRate].
  rewrite float64_one_bits. apply rates_sum_to_one; lia.
Qed.

Section RatesTheorem.
Context {rt : Runtime}.

(** C8. On a validly configured writer, [Write] returns results with a
    positive [Total] in which [SuccessRate] is the binary64 quotient of
    [Success] by [Total] and [FailureRate] that of [Failure] by [Total],
    and the binary64 sum of the two rates is exactly [1.0], also under
    Go's [==].  With a [Total] of zero, the finalization of [Write] sets
    both rates to [0.0] and divides nothing. *)
Theorem Write_rates (w : Writer) (maxWorkers : Z) (o : OS) (fs : list (option File)) :
  validly_configured w o fs ->
  (exists r outs st',
     Write (Some w) maxWorkers o = Ret ((Some r, None, outs), st') /\
     0 < Total r /\
     SuccessRate r
     = float64_div (float64_of_uint64 (Success r)) (float64_of_uint64 (Total r)) /\
     FailureRate r
     = float64_div (float64_of_uint64 (Failure r)) (float64_of_uint64 (Total r)) /\
     float64_add (SuccessRate r) (FailureRate r) = float64_one /\
     float64_eqb (float64_add (SuccessRate r) (FailureRate r)) float64_one = true) /\
  (forall r0,
     Total (finalize 0 r0) = 0 /\
     SuccessRate (finalize 0 r0) = float64_zero /\
     FailureRate (finalize 0 r0) = float64_zero).
Proof.
  intros Hv. split; [|exact finalize_zero_total].
  destruct (Write_valid w maxWorkers o fs Hv)
    as (r & outs & st' & Hrun & _ & HSR & HFR & Htot & (HS & HF & Hsum & _) & _).
  destruct Hv as (_ & Hne & Hlen & _).
  assert (Hn : 1 <= Z.of_nat (length fs)) by (destruct fs; [congruence | cbn; lia]).
  assert (Hmax : maxSliceLen < 2 ^ 53) by (vm_compute; reflexivity).
  assert (Hone : float64_add (SuccessRate r) (FailureRate r) = float64_one).
  { rewrite HSR, HFR, float64_one_bits. apply rates_sum_to_one; lia. }
  exists r, outs, st'. split; [exact Hrun|]. split; [lia|].
  split; [exact HSR|]. split; [exact HFR|]. split; [exact Hone|].
  rewrite Hone. vm_compute. reflexivity.
Qed.

End RatesTheorem.

Lemma Write_rates_witness :
  exists r outs st',
    Write (rt := quiet) (Some (test_writer [Some file1; None; Some file2] 1 3 100)) 2 fresh_OS
      = Ret ((Some r, None, outs), st') /\
    float64_eqb (float64_add (SuccessRate r) (FailureRate r)) float64_one = true.
Proof.
  destruct (Write_rates (rt := quiet)
              (test_writer [Some file1; None; Some file2] 1 3 100) 2 fresh_OS
              [Some file1; None; Some file2])
    as [(r & outs & st' & Hrun & _ & _ & _ & _ & Heq) _].
  - apply test_writer_valid; [discriminate | vm_compute; discriminate].
  - exists r, outs, st'. split; [exact Hrun | exact Heq].
Defined.

(** ** Setters and constructors *)

Lemma call_keeps_check (w : option Writer) (c : setter) :
  exists err w',
    call w c = Ret (err, w') /\
    fullWriteCheck w' = fullWriteCheck w /\
    (forall e, fullWriteCheck w = Some e -> err = Some e /\ w' = w) /\
    (forall w0, w = Some w0 -> exists w1,
       w' = Some w1 /\ openFilesPool w1 = openFilesPool w0 /\
       connLastUsed w1 = connLastUsed w0 /\ ctx w1 = ctx w0).
Proof.
  destruct w as [w|].
  - destruct (fullWriteCheck (Some w)) as [e|] eqn:Hchk.
    + exists (Some e), (Some w).
      split; [destruct c; cbn; unfold SetFiles, AddFiles, SetMode, SetMessage,
                SetRetries, SetBackoff, SetMaxPool; rewrite Hchk; reflexivity|].
      split; [exact Hchk|]. split; [intros e' [= <-]; split; reflexivity|].
      intros w0 [= <-]. exists w. repeat split.
    + assert (Hfields : is_Some (files w) /\ is_Some (mode w) /\ is_Some (message w)).
      { cbn in Hchk. destruct (files w), (mode w), (message w); try discriminate.
        repeat split; eexists; reflexivity. }
      destruct Hfields as ([fs Hfs] & [md Hmd] & [msg Hmsg]).
      destruct c as [[l|]|l|[m|]|[s|]|n|n|n]; cbn;
        unfold SetFiles, AddFiles, SetMode, SetMessage, SetRetries, SetBackoff,
          SetMaxPool; rewrite Hchk; cbn; try rewrite Hfs; cbn;
        (eexists _, _; split; [reflexivity|]);
        (split; [cbn; rewrite ?Hfs, ?Hmd, ?Hmsg; reflexivity|]);
        (split; [discriminate|]);
        intros w0 [= <-]; eexists; repeat split.
  - exists (Some "writer is nil"%string), None.
    split; [destruct c; reflexivity|]. split; [reflexivity|].
    split; [intros e [= <-]; split; reflexivity | discriminate].
Qed.

Lemma calls_keep_check (cs : list setter) (w : option Writer) :
  exists errs w',
    calls w cs = Ret (errs, w') /\
    length errs = length cs /\
    fullWriteCheck w' = fullWriteCheck w /\
    (forall e, fullWriteCheck w = Some e ->
       w' = w /\ Forall (fun err => err = Some e) errs) /\
    (forall w0, w = Some w0 -> exists w1,
       w' = Some w1 /\ openFilesPool w1 = openFilesPool w0 /\
       connLastUsed w1 = connLastUsed w0 /\ ctx w1 = ctx w0).
Proof.
  revert w. induction cs as [|c cs IH]; intros w.
  - exists [], w. split; [reflexivity|]. split; [reflexivity|]. split; [reflexivity|].
    split; [intros e _; split; [reflexivity | constructor]|].
    intros w0 ->. exists w0. repeat split.
  - destruct (call_keeps_check w c) as (err & w1 & Hcall & Hchk1 & Hstuck1 & Hpool1).
    destruct (IH w1) as (errs & w2 & Hcalls & Hlen & Hchk2 & Hstuck2 & Hpool2).
    exists (err :: errs), w2. cbn [calls]. rewrite Hcall. cbn [Go_bind].
    rewrite Hcalls. cbn [Go_bind].
    split; [reflexivity|]. split; [cbn; rewrite Hlen; reflexivity|].
    split; [rewrite Hchk2; exact Hchk1|]. split.
    + intros e He. destruct (Hstuck1 e He) as [-> ->].
      destruct (Hstuck2 e He) as [-> Hall]. split; [reflexivity|].
      constructor; [reflexivity | exact Hall].
    + intros w0 Hw. destruct (Hpool1 w0 Hw) as (wa & -> & Hp & Hl & Hc).
      destruct (Hpool2 wa eq_refl) as (wb & -> & Hp' & Hl' & Hc').
      exists wb. split; [reflexivity|]. split; [congruence|].
      split; congruence.
Qed.

(** The checked setters keep the verdict of [fullWriteCheck]: on a writer
    that fails the check (a [nil] one included) every setter returns the
    error of the check and changes nothing, so no sequence of setter calls
    repairs it; on a writer that passes, every sequence leaves a writer
    that passes.  No setter panics, and none touches the pool, the
    last-used index or the context. *)
Theorem setters_keep_check (cs : list setter) (w : option Writer) :
  exists errs w',
    calls w cs = Ret (errs, w') /\
    length errs = length cs /\
    fullWriteCheck w' = fullWriteCheck w /\
    (forall e, fullWriteCheck w = Some e ->
       w' = w /\ Forall (fun err => err = Some e) errs) /\
    (forall w0, w = Some w0 -> exists w1,
       w' = Some w1 /\ openFilesPool w1 = openFilesPool w0 /\
       connLastUsed w1 = connLastUsed w0 /\ ctx w1 = ctx w0).
Proof. exact (calls_keep_check cs w). Qed.

(** On a writer that passes the check, [AddFiles] appends to the target
    list and changes nothing else; adding nothing changes nothing, and
    adding [a] and then [b] is adding [a ++ b]. *)
Theorem AddFiles_appends (w : Writer) (a b : list (option File)) :
  fullWriteCheck (Some w) = None ->
  exists old,
    files w = Some old /\
    AddFiles (Some w) a = Ret (None, Some (with_files (Some (old ++ a)) w)) /\
    GetFiles (Some (with_files (Some (old ++ a)) w)) = Ret (Some (old ++ a)) /\
    AddFiles (Some w) [] = Ret (None, Some w) /\
    Go_bind (AddFiles (Some w) a) (fun '(_, w') => AddFiles w' b)
    = AddFiles (Some w) (a ++ b).
Proof.
  intros Hchk.
  assert (Hfields : exists old md msg,
            files w = Some old /\ mode w = Some md /\ message w = Some msg).
  { cbn in Hchk. destruct (files w), (mode w), (message w); try discriminate.
    eexists _, _, _. repeat split. }
  destruct Hfields as (old & md & msg & Hfs & Hmd & Hmsg).
  exists old. split; [exact Hfs|].
  assert (Hadd : forall l, AddFiles (Some w) l
                           = Ret (None, Some (with_files (Some (old ++ l)) w))).
  { intros l. unfold AddFiles. rewrite Hchk. cbn. rewrite Hfs. reflexivity. }
  split; [apply Hadd|]. split; [reflexivity|]. split.
  - rewrite Hadd, app_nil_r. destruct w. cbn in Hfs. subst. reflexivity.
  - rewrite !Hadd. cbn [Go_bind]. unfold AddFiles. cbn. rewrite Hmd, Hmsg. cbn.
    rewrite app_assoc. reflexivity.
Qed.

Lemma AddFiles_appends_witness :
  AddFiles (Some (test_writer [Some file1] 2 3 100)) [Some file2; None]
  = Ret (None, Some (test_writer [Some file1; Some file2; None] 2 3 100)).
Proof.
  destruct (AddFiles_appends (test_writer [Some file1] 2 3 100) [Some file2; None] [])
    as (old & Hold & Hadd & _); [reflexivity|].
  injection Hold as <-. exact Hadd.
Defined.

Section Constructors.
Context {rt : Runtime}.

Lemma config_map_valid (c : WriterConfig.t) :
  validateMap (Some (config_map c)) = None.
Proof.
  apply validateMap_None. intros k v Hk. unfold config_map in Hk.
  repeat (apply lookup_insert_Some in Hk as [[<- <-]|[_ Hk]]; [reflexivity|]).
  rewrite lookup_empty in Hk. discriminate.
Qed.

Lemma NewWriterFromMap_config_map (c : WriterConfig.t) :
  NewWriterFromMap (Some (config_map c))
  = Ret (Some {| files := WriterConfig.Files c; mode := WriterConfig.Mode c;
                 message := WriterConfig.Message c;
                 openFilesPool := ∅; connLastUsed := ∅;
                 maxConns := WriterConfig.MaxPool c;
                 retries := WriterConfig.Retries c;
                 backoff := WriterConfig.Backoff c;
                 ctx := Some Background |}, None).
Proof.
  unfold NewWriterFromMap. rewrite config_map_valid.
  change (default ∅ (Some (config_map c))) with (config_map c).
  rewrite first_panic_None; [reflexivity|].
  intros op. destruct op; reflexivity.
Qed.

(** [NewWriterFromStruct] never panics.  It refuses a [nil] configuration
    and one with a [nil] [Files], [Mode] or [Message], reporting the first
    of these that is [nil]; otherwise it returns the writer [NewWriter]
    makes from the six values, which passes [fullWriteCheck], and so does
    [NewWriterFromMap] on the map with the six keys. *)
Theorem NewWriterFromStruct_cases (config : option WriterConfig.t) :
  (config = None ->
   NewWriterFromStruct config = Ret (None, Some "writer is nil"%string)) /\
  (forall c, config = Some c ->
     (WriterConfig.Files c = None ->
      NewWriterFromStruct config = Ret (None, Some "files is nil"%string)) /\
     (WriterConfig.Files c <> None -> WriterConfig.Mode c = None ->
      NewWriterFromStruct config = Ret (None, Some "mode is nil"%string)) /\
     (WriterConfig.Files c <> None -> WriterConfig.Mode c <> None ->
      WriterConfig.Message c = None ->
      NewWriterFromStruct config = Ret (None, Some "message is nil"%string)) /\
     (WriterConfig.Files c <> None -> WriterConfig.Mode c <> None ->
      WriterConfig.Message c <> None ->
      let w := NewWriter (WriterConfig.Files c) (WriterConfig.Mode c)
                 (WriterConfig.Message c) (WriterConfig.MaxPool c)
                 (WriterConfig.Retries c) (WriterConfig.Backoff c) in
      NewWriterFromStruct config = Ret (Some w, None) /\
      NewWriterFromMap (Some (config_map c)) = Ret (Some w, None) /\
      fullWriteCheck (Some w) = None)).
Proof.
  split; [intros ->; reflexivity|].
  intros c ->. destruct c as [fs md msg mp r b]. cbn [WriterConfig.Files
    WriterConfig.Mode WriterConfig.Message WriterConfig.MaxPool
    WriterConfig.Retries WriterConfig.Backoff].
  split; [intros ->; reflexivity|].
  split; [intros Hfs ->; destruct fs; [reflexivity | congruence]|].
  split; [intros Hfs Hmd ->; destruct fs, md; try congruence; reflexivity|].
  intros Hfs Hmd Hmsg. cbv zeta.
  destruct fs as [fs|], md as [md|], msg as [msg|]; try congruence.
  split; [reflexivity|]. split; [|reflexivity].
  rewrite NewWriterFromMap_config_map. reflexivity.
Qed.

(** The three constructors part ways on a [nil] file list: [NewWriter]
    puts an empty list in its place, so that [Write] reports an empty
    list; [NewWriterFromStruct] refuses the configuration; and
    [NewWriterFromMap] accepts the typed [nil] and returns a writer on
    which [Write] and every setter report "files is nil". *)
Theorem constructors_on_nil_files (md : Mode.t) (msg : string) (mp r b : Z)
    (maxWorkers : Z) (o : OS) :
  let c := WriterConfig.mk None (Some md) (Some msg) mp r b in
  (files (NewWriter None (Some md) (Some msg) mp r b) = Some [] /\
   exists st, Write (Some (NewWriter None (Some md) (Some msg) mp r b)) maxWorkers o
              = Ret ((None, Some "files is empty"%string, []), st)) /\
  NewWriterFromStruct (Some c) = Ret (None, Some "files is nil"%string) /\
  exists w,
    NewWriterFromMap (Some (config_map c)) = Ret (Some w, None) /\
    files w = None /\
    (exists st, Write (Some w) maxWorkers o
                = Ret ((None, Some "files is nil"%string, []), st)) /\
    forall cs, exists errs,
      calls (Some w) cs = Ret (errs, Some w) /\
      Forall (fun err => err = Some "files is nil"%string) errs.
Proof.
  intros c. split; [split; [reflexivity | eexists; unfold Write, Write_body, bind, get; cbn; reflexivity]|].
  split; [reflexivity|].
  eexists. split; [apply NewWriterFromMap_config_map|].
  split; [reflexivity|].
  split; [eexists; unfold Write, Write_body, bind, get; cbn; reflexivity|].
  intros cs.
  match goal with |- context [calls (Some ?w0) cs] => set (w := w0) end.
  destruct (calls_keep_check cs (Some w)) as (errs & w' & Hrun & _ & _ & Hstuck & _).
  destruct (Hstuck "files is nil"%string eq_refl) as [-> Hall].
  exists errs. split; [exact Hrun | exact Hall].
Qed.

End Constructors.

(** ** Modes *)

Lemma append_String c l s : String c l +:+ s = String c (l +:+ s).
Proof. reflexivity. Qed.

Lemma trim_left_blank l s : blank l = true -> trim_left (l +:+ s) = trim_left s.
Proof.
  induction l as [|c l IH]; rewrite ?append_String; cbn [blank trim_left]; [reflexivity|].
  intros H. apply andb_true_iff in H as [Hc Hl]. rewrite Hc. apply IH, Hl.
Qed.

Lemma trim_left_split s :
  exists l, s = l +:+ trim_left s /\ blank l = true.
Proof.
  induction s as [|c s (l & IH & Hl)]; [exists EmptyString; split; reflexivity|].
  cbn [trim_left]. destruct (asciiSpace c) eqn:Hc.
  - exists (String c l).
    split; [rewrite append_String; f_equal; exact IH | cbn [blank]; rewrite Hc; exact Hl].
  - exists EmptyString. split; reflexivity.
Qed.

Lemma trim_right_blank r : blank r = true -> trim_right r = EmptyString.
Proof.
  induction r as [|c r IH]; cbn [blank trim_right]; [reflexivity|].
  intros H. apply andb_true_iff in H as [Hc Hr]. rewrite (IH Hr), Hc. reflexivity.
Qed.

Lemma trim_right_empty t : trim_right t = EmptyString -> blank t = true.
Proof.
  induction t as [|c t IH]; cbn [blank trim_right]; [reflexivity|].
  destruct (trim_right t) eqn:E; [|discriminate].
  destruct (asciiSpace c); [intros _; apply IH; reflexivity | discriminate].
Qed.

Lemma trim_right_single t c :
  trim_right t = String c EmptyString ->
  exists r, t = String c r /\ blank r = true /\ asciiSpace c = false.
Proof.
  destruct t as [|c' t]; cbn [trim_right]; [discriminate|].
  destruct (trim_right t) eqn:E.
  - destruct (asciiSpace c') eqn:Hc; [discriminate|].
    intros [= ->]. exists t. split; [reflexivity|].
    split; [apply trim_right_empty, E | exact Hc].
  - discriminate.
Qed.

Lemma is_ascii_app l s : is_ascii (l +:+ s) = is_ascii l && is_ascii s.
Proof.
  induction l as [|c l IH]; rewrite ?append_String; cbn [is_ascii]; [reflexivity|].
  rewrite IH, andb_assoc. reflexivity.
Qed.

Lemma lower_byte_a c :
  lower_byte c = "a"%char -> c = "a"%char \/ c = "A"%char.
Proof.
  destruct c as [[] [] [] [] [] [] [] []]; vm_compute; intros H;
    first [discriminate H | left; reflexivity | right; reflexivity].
Qed.

Lemma lower_byte_w c :
  lower_byte c = "w"%char -> c = "w"%char \/ c = "W"%char.
Proof.
  destruct c as [[] [] [] [] [] [] [] []]; vm_compute; intros H;
    first [discriminate H | left; reflexivity | right; reflexivity].
Qed.

Lemma slices_Contains_modes x :
  slices_Contains GetAvailableModes x = true <-> x = "a"%string \/ x = "w"%string.
Proof.
  unfold slices_Contains, GetAvailableModes, availableModes. cbn [existsb].
  rewrite orb_false_r, orb_true_iff, !String.eqb_eq. reflexivity.
Qed.

Section ModeTheorems.
Context {uc : Unicode}.

Lemma modeValidation_cases (mode : option string) :
  (exists s, (s = "a"%string \/ s = "w"%string) /\ modeValidation mode = (Some s, None)) \/
  (exists e, modeValidation mode = (None, Some e) /\
             (mode = None -> e = "Mode is nil"%string)).
Proof.
  destruct mode as [m|]; [|right; eexists; split; [reflexivity | reflexivity]].
  unfold modeValidation.
  destruct (slices_Contains GetAvailableModes (ToLower (TrimSpace m))) eqn:E; cbn [negb].
  - left. eexists. split; [apply slices_Contains_modes, E | reflexivity].
  - right. eexists. split; [reflexivity | discriminate].
Qed.

Lemma modeValidation_fixed s :
  s = "a"%string \/ s = "w"%string -> modeValidation (Some s) = (Some s, None).
Proof. intros [-> | ->]; reflexivity. Qed.

(** [NewMode] either refuses its argument or returns a [Mode] that holds
    exactly "a" or "w": [getFileMode] has flags for it, the append flag
    for the one and the truncate flag for the other, and [SetMode] on the
    [Mode] succeeds and leaves it as it is. *)
Theorem NewMode_cases (mode : option string) :
  (exists s,
     (s = "a"%string \/ s = "w"%string) /\
     NewMode mode = (Some (Mode.mk (Some s)), None) /\
     getFileMode s
     = (Z.lor (Z.lor O_RDWR O_CREATE) (if String.eqb s "a" then O_APPEND else O_TRUNC),
        None) /\
     Mode_SetMode (Some (Mode.mk (Some s))) = Ret (None, Some (Mode.mk (Some s))) /\
     Mode_GetMode (Some (Mode.mk (Some s))) = Ret (Some s)) \/
  (exists e, NewMode mode = (None, Some e) /\
             (mode = None -> e = "Mode is nil"%string)).
Proof.
  destruct (modeValidation_cases mode) as [(s & Hs & Hv)|(e & Hv & Hnil)].
  - left. exists s. split; [exact Hs|]. unfold NewMode. rewrite Hv.
    split; [reflexivity|]. split; [destruct Hs as [-> | ->]; reflexivity|].
    split; [|reflexivity].
    unfold Mode_SetMode. cbn [Mode.mode]. rewrite (modeValidation_fixed s Hs).
    reflexivity.
  - right. exists e. unfold NewMode. rewrite Hv. split; [reflexivity | exact Hnil].
Qed.

(** On a string of ASCII bytes, [NewMode] accepts exactly the strings
    that consist of one of the letters [a], [A], [w], [W] with white
    space before and after it, and the [Mode] holds the letter in lower
    case. *)
Theorem NewMode_ascii (s : string) :
  is_ascii s = true ->
  (forall l c t,
     s = l +:+ String c t -> blank l = true -> blank t = true ->
     lower_byte c = "a"%char \/ lower_byte c = "w"%char ->
     NewMode (Some s) = (Some (Mode.mk (Some (String (lower_byte c) EmptyString))), None)) /\
  (forall m,
     NewMode (Some s) = (Some m, None) ->
     exists l c t,
       s = l +:+ String c t /\ blank l = true /\ blank t = true /\
       (c = "a"%char \/ c = "A"%char \/ c = "w"%char \/ c = "W"%char) /\
       Mode.mode m = Some (String (lower_byte c) EmptyString)).
Proof.
  intros Hascii. split.
  - intros l c t -> Hl Ht Hc.
    assert (Hns : asciiSpace c = false).
    { destruct Hc as [Hc|Hc]; [apply lower_byte_a in Hc | apply lower_byte_w in Hc];
        destruct Hc as [-> | ->]; reflexivity. }
    assert (Htrim : trim_right (trim_left (l +:+ String c t)) = String c EmptyString).
    { rewrite trim_left_blank by exact Hl. cbn [trim_left]. rewrite Hns.
      cbn [trim_right]. rewrite (trim_right_blank t Ht), Hns. reflexivity. }
    assert (Hac : is_ascii (String c EmptyString) = true).
    { rewrite is_ascii_app in Hascii. apply andb_true_iff in Hascii as [_ H].
      cbn [is_ascii] in H |- *. apply andb_true_iff in H as [-> _]. reflexivity. }
    unfold NewMode, modeValidation, TrimSpace. rewrite Hascii, Htrim.
    unfold ToLower. rewrite Hac. cbn [lower].
    destruct Hc as [-> | ->]; reflexivity.
  - intros m Hm. unfold NewMode, modeValidation, TrimSpace in Hm.
    rewrite Hascii in Hm.
    destruct (trim_left_split s) as (l & Hsplit & Hl).
    set (u := trim_right (trim_left s)) in *.
    assert (Hau : is_ascii u = true).
    { assert (Hgen : forall x, is_ascii x = true -> is_ascii (trim_right x) = true).
      { induction x as [|c x IH]; cbn [is_ascii trim_right]; [reflexivity|].
        intros H. apply andb_true_iff in H as [Hc Hx].
        destruct (trim_right x) eqn:E.
        - destruct (asciiSpace c); [reflexivity | cbn [is_ascii]; rewrite Hc; reflexivity].
        - cbn [is_ascii]. rewrite Hc. exact (IH Hx). }
      apply Hgen. rewrite Hsplit, is_ascii_app in Hascii.
      apply andb_true_iff in Hascii as [_ H]. exact H. }
    unfold ToLower in Hm. rewrite Hau in Hm.
    destruct (slices_Contains GetAvailableModes (lower u)) eqn:E;
      cbn [negb] in Hm; [|discriminate].
    injection Hm as <-. cbn [Mode.mode].
    apply slices_Contains_modes in E.
    assert (Hu : exists c, u = String c EmptyString /\
                           (lower_byte c = "a"%char \/ lower_byte c = "w"%char)).
    { destruct u as [|c [|c' u']]; cbn in E.
      - destruct E; discriminate.
      - exists c. split; [reflexivity|]. destruct E as [[= ->]|[= ->]]; [left | right]; reflexivity.
      - destruct E; discriminate. }
    destruct Hu as (c & Hu & Hc).
    destruct (trim_right_single (trim_left s) c Hu) as (t & Ht & Hbt & _).
    exists l, c, t. split; [rewrite Hsplit at 1; rewrite Ht; reflexivity|].
    split; [exact Hl|]. split; [exact Hbt|]. split.
    + destruct Hc as [Hc|Hc]; [apply lower_byte_a in Hc | apply lower_byte_w in Hc];
        destruct Hc as [-> | ->]; auto.
    + rewrite Hu. reflexivity.
Qed.

End ModeTheorems.

Lemma NewMode_ascii_witness :
  NewMode (uc := bytewise) (Some (String " " (String "W" (String "010" EmptyString))))
  = (Some (Mode.mk (Some "w"%string)), None).
Proof.
  destruct (NewMode_ascii (uc := bytewise)
              (String " " (String "W" (String "010" EmptyString))) eq_refl) as [Hacc _].
  apply (Hacc (String " " EmptyString) "W"%char (String "010" EmptyString));
    [reflexivity | reflexivity | reflexivity | right; reflexivity].
Defined.

(** ** The pool methods one by one *)

Section PoolMethods.
Context {rt : Runtime}.

(** [AddConn] refuses [nil]; for a name that is pooled already it does
    nothing at all (the pooled handle stays, its timestamp too); otherwise
    it stores the handle and the time, and the pool grows by one whatever
    [maxConns] is: nothing is evicted or closed. *)
Theorem AddConn_cases (st : State) :
  AddConn None st = Ret (Some "nil file pointer received"%string, st) /\
  forall f : File,
    (is_Some (openFilesPool (wr st) !! Name f) -> AddConn (Some f) st = Ret (None, st)) /\
    (openFilesPool (wr st) !! Name f = None ->
     exists st',
       AddConn (Some f) st = Ret (None, st') /\
       openFilesPool (wr st') = <[Name f := f]> (openFilesPool (wr st)) /\
       connLastUsed (wr st')
       = <[Name f := clock (tick (os st))]> (connLastUsed (wr st)) /\
       size (openFilesPool (wr st')) = S (size (openFilesPool (wr st))) /\
       same_settings (wr st) (wr st') /\
       res st' = res st /\
       closed (os st') = closed (os st) /\
       trace (os st') = trace (os st)).
Proof.
  split; [reflexivity|]. intros f. split.
  - intros [h Hh]. unfold AddConn, bind, get. rewrite Hh. reflexivity.
  - intros Hnone. unfold AddConn, bind, get. rewrite Hnone.
    eexists. split; [reflexivity|]. cbn.
    split; [reflexivity|]. split; [reflexivity|].
    split; [apply map_size_insert_None, Hnone|].
    repeat split.
Qed.

(** [RemoveConn] panics on [nil].  For a pooled name it removes the entry
    of the pool and nothing else: the handle is not closed and the
    last-used entry stays.  For a name that is not pooled it returns an
    error and changes nothing. *)
Theorem RemoveConn_cases (st : State) :
  RemoveConn None st = Panic nil_dereference /\
  forall f : File,
    (is_Some (openFilesPool (wr st) !! Name f) ->
     exists st',
       RemoveConn (Some f) st = Ret (None, st') /\
       openFilesPool (wr st') = delete (Name f) (openFilesPool (wr st)) /\
       connLastUsed (wr st') = connLastUsed (wr st) /\
       same_settings (wr st) (wr st') /\
       res st' = res st /\ os st' = os st) /\
    (openFilesPool (wr st) !! Name f = None ->
     RemoveConn (Some f) st
     = Ret (Some ("file " +:+ Name f +:+ " not found"), st)).
Proof.
  split; [reflexivity|]. intros f. split.
  - intros [h Hh]. unfold RemoveConn, bind, get. rewrite Hh.
    eexists. split; [reflexivity|]. cbn. repeat split.
  - intros Hnone. unfold RemoveConn, bind, get. rewrite Hnone. reflexivity.
Qed.

(** [CloseConn] refuses [nil] and a name that is not pooled, changing
    nothing.  For a pooled name it removes the entry from the pool and
    from the last-used index and closes the pooled handle (which need not
    be the argument); the entries are gone also when closing reports an
    error, which happens exactly when [Close] does. *)
Theorem CloseConn_cases (st : State) :
  CloseConn None st = Ret (Some "file is nil"%string, st) /\
  forall f : File,
    (openFilesPool (wr st) !! Name f = None ->
     CloseConn (Some f) st
     = Ret (Some ("file " +:+ Name f +:+ " not found in pool"), st)) /\
    (forall h, openFilesPool (wr st) !! Name f = Some h ->
     exists r st',
       CloseConn (Some f) st = Ret (r, st') /\
       openFilesPool (wr st') = delete (Name f) (openFilesPool (wr st)) /\
       connLastUsed (wr st') = delete (Name f) (connLastUsed (wr st)) /\
       same_settings (wr st) (wr st') /\
       res st' = res st /\
       fd h ∈ closed (os st') /\
       closed (os st') ⊆ {[fd h]} ∪ closed (os st) /\
       (pool_ok (wr st) -> pool_ok (wr st')) /\
       (r = None <->
        (fd h ∉ closed (os st)) /\ fault (tick (os st)) (SysClose h) = None)).
Proof.
  split; [reflexivity|]. intros f. split.
  - intros Hnone. unfold CloseConn, bind, get. rewrite Hnone. reflexivity.
  - intros h Hh. unfold CloseConn. unfold bind at 1. unfold get at 1. rewrite Hh.
    unfold bind, pool_Delete, lastUsed_Delete, set_wr, modify, Close, advance,
      is_closed, get, ret, set_os. cbn.
    assert (Hok : pool_ok (wr st) ->
                  pool_ok (with_lastUsed (delete (Name f) (connLastUsed (wr st)))
                             (with_pool (delete (Name f) (openFilesPool (wr st))) (wr st)))).
    { intros (Hdom & Hne & Hsz). unfold pool_ok. cbn.
      split; [rewrite !dom_delete_L, Hdom; reflexivity|].
      split; [set_solver|].
      rewrite map_size_delete_Some by (eexists; exact Hh).
      assert (0 < size (openFilesPool (wr st)))%nat; [|lia].
      destruct (size (openFilesPool (wr st))) eqn:E; [|lia].
      apply map_size_empty_inv in E. rewrite E, lookup_empty in Hh. discriminate. }
    destruct (bool_decide (fd h ∈ closed (os st))) eqn:Hc.
    + apply bool_decide_eq_true in Hc.
      eexists _, _. split; [reflexivity|]. cbn.
      split; [reflexivity|]. split; [reflexivity|]. split; [repeat split|].
      split; [reflexivity|]. split; [exact Hc|]. split; [set_solver|].
      split; [exact Hok|]. split; [discriminate | intros [Hn _]; contradiction].
    + apply bool_decide_eq_false in Hc. cbn.
      destruct (fault (tick (os st)) (SysClose h)) as [e|] eqn:Hf.
      * eexists _, _. split; [reflexivity|]. cbn.
        split; [reflexivity|]. split; [reflexivity|]. split; [repeat split|].
        split; [reflexivity|]. split; [set_solver|]. split; [set_solver|].
        split; [exact Hok|]. split; [discriminate | intros [_ H]; discriminate].
      * eexists _, _. split; [reflexivity|]. cbn.
        split; [reflexivity|]. split; [reflexivity|]. split; [repeat split|].
        split; [reflexivity|]. split; [set_solver|]. split; [set_solver|].
        split; [exact Hok|]. split; [intros _; split; [exact Hc | reflexivity] | reflexivity].
Qed.

End PoolMethods.

(** ** What the system calls and the pool steps compute *)

Section Exec.
Context {rt : Runtime}.

Lemma Stat_exec f st :
  Stat f st
  = Ret (if bool_decide (fd f ∈ closed (os st))
         then Some ("stat " +:+ Name f +:+ ": use of closed file")
         else fault (tick (os st)) (SysStat f),
         on_os (later 1 (os st)) st).
Proof.
  unfold Stat, bind, advance, is_closed, get, ret. cbn.
  destruct (bool_decide (fd f ∈ closed (os st))); reflexivity.
Qed.

Lemma Now_exec st :
  Now st = Ret (clock (tick (os st)), on_os (later 1 (os st)) st).
Proof. reflexivity. Qed.

Lemma Close_exec f st :
  Close f st
  = if bool_decide (fd f ∈ closed (os st))
    then Ret (Some ("close " +:+ Name f +:+ ": file already closed"),
              on_os (later 1 (os st)) st)
    else Ret (fault (tick (os st)) (SysClose f),
              on_os {| tick := S (tick (os st)); closed := {[fd f]} ∪ closed (os st);
                       next_fd := next_fd (os st);
                       trace := EvClose f :: trace (os st) |} st).
Proof.
  unfold Close, bind, advance, is_closed, get, ret, set_os, modify. cbn.
  destruct (bool_decide (fd f ∈ closed (os st))); reflexivity.
Qed.

Lemma OpenFile_exec name flag perm st :
  OpenFile name flag perm st
  = match fault (tick (os st)) (SysOpenFile name flag perm) with
    | Some e => Ret ((None, Some e), on_os (later 1 (os st)) st)
    | None =>
      Ret ((Some {| Name := name; fd := next_fd (os st) |}, None),
           on_os {| tick := S (tick (os st)); closed := closed (os st);
                    next_fd := S (next_fd (os st));
                    trace := EvOpen {| Name := name; fd := next_fd (os st) |} flag
                               :: trace (os st) |} st)
    end.
Proof.
  unfold OpenFile, bind, advance, get, ret, set_os, modify. cbn.
  destruct (fault (tick (os st)) (SysOpenFile name flag perm)); reflexivity.
Qed.

Lemma file_Write_exec f data st :
  file_Write f data st
  = if bool_decide (fd f ∈ closed (os st))
    then Ret (Some ("write " +:+ Name f +:+ ": file already closed"),
              on_os (later 1 (os st)) st)
    else match fault (tick (os st)) (SysWrite f data) with
         | Some e => Ret (Some e, on_os (later 1 (os st)) st)
         | None =>
           Ret (None,
                on_os {| tick := S (tick (os st)); closed := closed (os st);
                         next_fd := next_fd (os st);
                         trace := EvWrite f data :: trace (os st) |} st)
         end.
Proof.
  unfold file_Write, bind, advance, is_closed, get, ret, emit, set_os, modify. cbn.
  destruct (bool_decide (fd f ∈ closed (os st))); [reflexivity|].
  destruct (fault (tick (os st)) (SysWrite f data)); reflexivity.
Qed.

(** [lookup_live], computed. *)
Lemma lookup_live_exec name st :
  lookup_live name st
  = match openFilesPool (wr st) !! name with
    | None => Ret (None, st)
    | Some h =>
      if bool_decide (fd h ∈ closed (os st)) || bool_decide (is_Some (fault (tick (os st)) (SysStat h)))
      then Ret (None,
                {| wr := with_lastUsed (delete name (connLastUsed (wr st)))
                           (with_pool (delete name (openFilesPool (wr st))) (wr st));
                   res := res st; os := later 1 (os st) |})
      else Ret (Some h,
                {| wr := with_lastUsed
                           (<[name := clock (S (tick (os st)))]> (connLastUsed (wr st)))
                           (wr st);
                   res := res st; os := later 2 (os st) |})
    end.
Proof.
  unfold lookup_live. unfold bind at 1. unfold get at 1.
  destruct (openFilesPool (wr st) !! name) as [h|]; [|destruct st; reflexivity].
  unfold bind at 1. rewrite Stat_exec.
  destruct (bool_decide (fd h ∈ closed (os st))); [reflexivity|].
  cbn [orb]. destruct (fault (tick (os st)) (SysStat h)) as [e|]; reflexivity.
Qed.

(** The eviction block of [GetConn], computed. *)
Lemma evict_if_full_exec st :
  evict_if_full st
  = if maxConns (wr st) <=? wrap_uint64 (count_entries (openFilesPool (wr st))) then
      let oldestFile := fst (find_oldest (connLastUsed (wr st))) in
      if negb (String.eqb oldestFile "") then
        match openFilesPool (wr st) !! oldestFile with
        | Some oldFile =>
          Ret (tt,
               {| wr := with_lastUsed (delete oldestFile (connLastUsed (wr st)))
                          (with_pool (delete oldestFile (openFilesPool (wr st))) (wr st));
                  res := res st;
                  os := if bool_decide (fd oldFile ∈ closed (os st))
                        then later 1 (os st)
                        else {| tick := S (tick (os st));
                                closed := {[fd oldFile]} ∪ closed (os st);
                                next_fd := next_fd (os st);
                                trace := EvClose oldFile :: trace (os st) |} |})
        | None => Ret (tt, st)
        end
      else Ret (tt, st)
    else Ret (tt, st).
Proof.
  unfold evict_if_full. unfold bind at 1. unfold get at 1.
  destruct (maxConns (wr st) <=? wrap_uint64 (count_entries (openFilesPool (wr st))));
    [|destruct st; reflexivity].
  cbv zeta.
  destruct (negb (String.eqb (fst (find_oldest (connLastUsed (wr st)))) ""));
    [|destruct st; reflexivity].
  destruct (openFilesPool (wr st) !! fst (find_oldest (connLastUsed (wr st))))
    as [oldFile|]; [|destruct st; reflexivity].
  unfold bind at 1. rewrite Close_exec.
  destruct (bool_decide (fd oldFile ∈ closed (os st))); reflexivity.
Qed.

(** The last three statements of [GetConn], computed. *)
Lemma GetConn_exec (file : File) st :
  GetConn (Some file) st
  = match lookup_live (Name file) st with
    | Ret (Some fileObj, st1) => Ret ((Some fileObj, None), st1)
    | Ret (None, st1) =>
      match evict_if_full st1 with
      | Ret (_, st2) =>
        Ret ((Some file, None),
             {| wr := with_lastUsed
                        (<[Name file := clock (tick (os st2))]> (connLastUsed (wr st2)))
                        (with_pool (<[Name file := file]> (openFilesPool (wr st2))) (wr st2));
                res := res st2; os := later 1 (os st2) |})
      | Panic msg => Panic msg
      end
    | Panic msg => Panic msg
    end.
Proof.
  unfold GetConn. unfold bind at 1.
  destruct (lookup_live (Name file) st) as [[[h|] st1]|msg]; [reflexivity| |reflexivity].
  unfold bind at 1.
  destruct (evict_if_full st1) as [[[] st2]|msg]; reflexivity.
Qed.

End Exec.

(** ** What [GetConn] returns and admits *)

Section Admission.
Context {rt : Runtime}.

(** [GetConn] on a file leaves a handle pooled under the name of the
    file, with a last-use time read during the call, and returns that
    handle. *)
Lemma GetConn_admits (f : File) st :
  exists r st1 t,
    GetConn (Some f) st = Ret ((Some r, None), st1) /\
    openFilesPool (wr st1) !! Name f = Some r /\
    connLastUsed (wr st1) !! Name f = Some (clock t) /\
    (tick (os st) <= t < tick (os st1))%nat.
Proof.
  assert (Hadmit : forall st0, (tick (os st) <= tick (os st0))%nat ->
    exists r st1 t,
      match evict_if_full st0 with
      | Ret (_, st2) =>
        Ret ((Some f, @None error),
             {| wr := with_lastUsed
                        (<[Name f := clock (tick (os st2))]> (connLastUsed (wr st2)))
                        (with_pool (<[Name f := f]> (openFilesPool (wr st2))) (wr st2));
                res := res st2; os := later 1 (os st2) |})
      | Panic msg => Panic msg
      end = Ret ((Some r, None), st1) /\
      openFilesPool (wr st1) !! Name f = Some r /\
      connLastUsed (wr st1) !! Name f = Some (clock t) /\
      (tick (os st) <= t < tick (os st1))%nat).
  { intros st0 Hle. rewrite evict_if_full_exec. cbv zeta.
    destruct (maxConns (wr st0) <=? _);
      [destruct (negb _);
       [destruct (openFilesPool (wr st0) !! _) as [oldFile|] eqn:Hold|]|];
      (exists f; eexists; eexists; split; [reflexivity|];
       cbn [wr res os with_pool with_lastUsed openFilesPool connLastUsed];
       split; [apply lookup_insert_eq|]; split; [apply lookup_insert_eq|]).
    - destruct (bool_decide (fd oldFile ∈ closed (os st0))); cbn; lia.
    - cbn. lia.
    - cbn. lia.
    - cbn. lia. }
  rewrite GetConn_exec, lookup_live_exec.
  destruct (openFilesPool (wr st) !! Name f) as [h|] eqn:Hh.
  - destruct (bool_decide (fd h ∈ closed (os st))
              || bool_decide (is_Some (fault (tick (os st)) (SysStat h)))).
    + apply Hadmit. cbn. lia.
    + exists h. eexists. exists (S (tick (os st))). split; [reflexivity|].
      cbn [wr res os with_pool with_lastUsed openFilesPool connLastUsed].
      split; [exact Hh|]. split; [apply lookup_insert_eq|]. cbn. lia.
  - apply Hadmit. lia.
Qed.

(** C10. [GetConn] returns an error exactly when its argument is [nil],
    and then no handle, leaving the state as it was.  For a file that is
    not [nil] it returns a handle and no error: the pooled handle when
    there is a live one under the name, the file itself otherwise, which
    it admits to the pool.  Either way the handle returned is pooled under
    the name of the file when [GetConn] returns, with a last-use time read
    during the call.  So a worker of [Write] takes the acquisition-failure
    branch for [nil] jobs only, and in the results of [Write] there are as
    many acquisition failures as there are [nil] entries in the target
    list. *)
Theorem GetConn_fails_only_on_nil (file : option File) (st : State) :
  (exists r e st',
     GetConn file st = Ret ((r, e), st') /\
     (e <> None <-> file = None) /\
     (file = None -> r = None /\ st' = st) /\
     (forall f, file = Some f ->
        e = None /\
        ((exists h, live_in_pool st (Name f) h /\ r = Some h) \/
         ((forall h, ~ live_in_pool st (Name f) h) /\ r = Some f)) /\
        openFilesPool (wr st') !! Name f = r /\
        exists t, connLastUsed (wr st') !! Name f = Some (clock t) /\
                  (tick (os st) <= t < tick (os st'))%nat)) /\
  (forall o st', worker_job file st = Ret (o, st') ->
     (o = AcquisitionFailed <-> file = None)) /\
  (forall w maxWorkers o fs,
     validly_configured w o fs ->
     exists r outs st',
       Write (Some w) maxWorkers o = Ret ((Some r, None, outs), st') /\
       occurrences AcquisitionFailed outs = occurrences None fs).
Proof.
  split; [|split].
  - destruct file as [f|].
    + destruct (GetConn_returns f st) as (r & st' & Hrun & _ & _ & Hwho).
      destruct (GetConn_admits f st) as (r' & st1 & t & Hrun' & Hpool & Hlast & Ht).
      rewrite Hrun in Hrun'. injection Hrun' as <- <-.
      exists (Some r), None, st'. split; [exact Hrun|]. split; [|split].
      * split; [congruence | discriminate].
      * discriminate.
      * intros f' Hf. injection Hf as <-. split; [reflexivity|].
        split; [destruct Hwho as [(h & Hl & ->)|[Hn ->]]; [left; eauto | right; eauto]|].
        split; [exact Hpool|]. exists t. split; [exact Hlast | exact Ht].
    + eexists _, _, _. split; [reflexivity|]. split; [|split].
      * split; [reflexivity | discriminate].
      * intros _. split; reflexivity.
      * intros f Hf. discriminate.
  - intros o st' Hjob. destruct file as [f|].
    + split; [|discriminate]. intros ->. exfalso. revert Hjob.
      unfold worker_job.
      destruct (GetConn_returns f st) as (r & st1 & Hrun & _).
      unfold bind at 1. rewrite Hrun. unfold bind at 1. unfold get at 1.
      destruct (message (wr st1)) as [msg|]; [|discriminate].
      unfold bind at 1.
      destruct (retry writeToFile (Some r) msg st1) as [[[e|] st2]|]; discriminate.
    + split; [reflexivity|]. intros _.
      unfold worker_job, bind, GetConn, ret, record_failure, set_res, modify in Hjob.
      injection Hjob as <- _. reflexivity.
  - intros w maxWorkers o fs Hv.
    destruct (Write_valid w maxWorkers o fs Hv)
      as (r & outs & st' & Hrun & _ & _ & _ & _ & _ & _ & Hocc).
    exists r, outs, st'. split; assumption.
Qed.
End Admission.

Lemma GetConn_fails_only_on_nil_witness :
  (exists st',
     GetConn (rt := quiet) (Some file1) (state_of (test_writer [] 1 3 100))
       = Ret ((Some file1, None), st') /\
     openFilesPool (wr st') !! Name file1 = Some file1) /\
  (exists r outs st',
     Write (rt := quiet) (Some (test_writer [Some file1; None; Some file2] 1 3 100)) 2 fresh_OS
       = Ret ((Some r, None, outs), st') /\
     occurrences AcquisitionFailed outs = 1%nat).
Proof.
  destruct (GetConn_fails_only_on_nil (rt := quiet) (Some file1)
              (state_of (test_writer [] 1 3 100)))
    as ((r & e & st' & Hrun & _ & _ & Hfile) & _ & HW).
  split.
  - destruct (Hfile file1 eq_refl) as (-> & Hwho & Hpool & _).
    destruct Hwho as [(h & [Hh _] & _)|[_ ->]].
    + cbn in Hh. rewrite lookup_empty in Hh. discriminate.
    + exists st'. split; [exact Hrun | exact Hpool].
  - destruct (HW (test_writer [Some file1; None; Some file2] 1 3 100) 2 fresh_OS
                [Some file1; None; Some file2])
      as (r' & outs & st'' & Hrun' & Hocc).
    + apply test_writer_valid; [discriminate | vm_compute; discriminate].
    + exists r', outs, st''. split; [exact Hrun'|]. rewrite Hocc. reflexivity.
Defined.


(** ** What [RemoveConn] does to eviction *)

Section Stale.
Context {rt : Runtime}.

Lemma stale_oldest st k :
  stale st k -> fst (find_oldest (connLastUsed (wr st))) = k.
Proof.
  intros (Hk & Hne & Hpool & t & Ht & Hmin & Hclock).
  destruct (find_oldest_min (connLastUsed (wr st)) Hne) as (victim & t0 & Hfind & _ & Hv & Hle).
  { intros Hempty. rewrite Hempty, lookup_empty in Ht. discriminate. }
  rewrite Hfind. cbn [fst].
  destruct (decide (victim = k)) as [->|Hneq]; [reflexivity|].
  pose proof (Hmin victim t0 Hneq Hv). pose proof (Hle k t Ht). lia.
Qed.

Lemma stale_evict st k : stale st k -> evict_if_full st = Ret (tt, st).
Proof.
  intros Hs. rewrite evict_if_full_exec. cbv zeta. rewrite (stale_oldest st k Hs).
  destruct Hs as (Hk & _ & Hpool & _). rewrite Hpool.
  destruct (maxConns (wr st) <=? _); [|reflexivity].
  destruct (negb (String.eqb k "")); reflexivity.
Qed.

Lemma stale_preserved st st' k :
  stale st k ->
  openFilesPool (wr st') !! k = None ->
  connLastUsed (wr st') !! k = connLastUsed (wr st) !! k ->
  (EmptyString ∉ dom (connLastUsed (wr st'))) ->
  (forall k' t', k' <> k -> connLastUsed (wr st') !! k' = Some t' ->
     connLastUsed (wr st) !! k' = Some t' \/
     exists n, (tick (os st) <= n)%nat /\ t' = clock n) ->
  (tick (os st) <= tick (os st'))%nat ->
  stale st' k.
Proof.
  intros (Hk & Hne & Hpool & t & Ht & Hmin & Hclock) Hpool' Hsame Hne' Hothers Htick.
  split; [exact Hk|]. split; [exact Hne'|]. split; [exact Hpool'|].
  exists t. split; [rewrite Hsame; exact Ht|]. split.
  - intros k' t' Hneq Hl. destruct (Hothers k' t' Hneq Hl) as [Hold|(n & Hn & ->)].
    + exact (Hmin k' t' Hneq Hold).
    + exact (Hclock n Hn).
  - intros n Hn. apply Hclock. lia.
Qed.

(** When [RemoveConn] takes the least recently used entry out of the
    pool, its last-used entry stays behind as the oldest of the index. *)
Theorem RemoveConn_leaves_stale_entry (f h : File) (t : Z) (st : State) :
  pool_ok (wr st) ->
  openFilesPool (wr st) !! Name f = Some h ->
  connLastUsed (wr st) !! Name f = Some t ->
  (forall k' t', k' <> Name f -> connLastUsed (wr st) !! k' = Some t' -> t < t') ->
  (forall n, (tick (os st) <= n)%nat -> t < clock n) ->
  exists st',
    RemoveConn (Some f) st = Ret (None, st') /\
    stale st' (Name f) /\
    size (openFilesPool (wr st')) = Init.Nat.pred (size (openFilesPool (wr st))).
Proof.
  intros (Hdom & Hne & _) Hh Ht Hmin Hclock.
  unfold RemoveConn, bind, get. rewrite Hh.
  eexists. split; [reflexivity|].
  unfold stale. cbn [wr os res connLastUsed openFilesPool with_pool with_lastUsed tick].
  split.
  - split.
    { intros Heq. apply Hne. rewrite <- Heq. apply elem_of_dom. eexists; exact Hh. }
    split; [rewrite <- Hdom; exact Hne|].
    split; [apply lookup_delete_eq|].
    exists t. split; [exact Ht|]. split; [exact Hmin | exact Hclock].
  - apply map_size_delete_Some. eexists; exact Hh.
Qed.

(** With such an entry in the index, [GetConn] on any other name closes
    nothing and evicts nothing, however full the pool is: a name that is
    not pooled is added, so the pool grows by one, and the entry is still
    there afterwards. *)
Theorem GetConn_never_evicts_when_stale (k : string) (g : File) (st : State) :
  stale st k ->
  Name g <> k -> Name g <> EmptyString ->
  exists r st',
    GetConn (Some g) st = Ret ((Some r, None), st') /\
    stale st' k /\
    closed (os st') = closed (os st) /\
    (openFilesPool (wr st) !! Name g = None ->
     r = g /\
     openFilesPool (wr st') = <[Name g := g]> (openFilesPool (wr st)) /\
     size (openFilesPool (wr st')) = S (size (openFilesPool (wr st)))).
Proof.
  intros Hs Hgk Hg.
  assert (Hadmit : forall st1,
    stale st1 k -> closed (os st1) = closed (os st) ->
    (openFilesPool (wr st) !! Name g = None -> st1 = st) ->
    exists r st',
      match evict_if_full st1 with
      | Ret (_, st2) =>
        Ret ((Some g, @None error),
             {| wr := with_lastUsed
                        (<[Name g := clock (tick (os st2))]> (connLastUsed (wr st2)))
                        (with_pool (<[Name g := g]> (openFilesPool (wr st2))) (wr st2));
                res := res st2; os := later 1 (os st2) |})
      | Panic msg => Panic msg
      end = Ret ((Some r, None), st') /\
      stale st' k /\
      closed (os st') = closed (os st) /\
      (openFilesPool (wr st) !! Name g = None ->
       r = g /\
       openFilesPool (wr st') = <[Name g := g]> (openFilesPool (wr st)) /\
       size (openFilesPool (wr st')) = S (size (openFilesPool (wr st))))).
  { intros st1 Hs1 Hc1 Hsame. rewrite (stale_evict st1 k Hs1).
    eexists _, _. split; [reflexivity|]. split; [|split].
    - apply (stale_preserved st1 _ k Hs1); cbn.
      + rewrite lookup_insert_ne by exact Hgk. apply Hs1.
      + rewrite lookup_insert_ne by exact Hgk. reflexivity.
      + rewrite dom_insert_L. destruct Hs1 as (_ & Hne1 & _).
        intros Hin. apply elem_of_union in Hin as [Hin|Hin]; [|exact (Hne1 Hin)].
        apply elem_of_singleton in Hin. apply Hg. symmetry. exact Hin.
      + intros k' t' _ Hl. destruct (decide (Name g = k')) as [<-|Hneq].
        * rewrite lookup_insert_eq in Hl. injection Hl as <-.
          right. exists (tick (os st1)). split; [lia | reflexivity].
        * rewrite lookup_insert_ne in Hl by exact Hneq. left. exact Hl.
      + lia.
    - cbn. exact Hc1.
    - intros Hnone. rewrite (Hsame Hnone). cbn.
      split; [reflexivity|]. split; [reflexivity|].
      apply map_size_insert_None, Hnone. }
  rewrite GetConn_exec, lookup_live_exec.
  destruct (openFilesPool (wr st) !! Name g) as [h|] eqn:Hpool.
  - destruct (bool_decide (fd h ∈ closed (os st))
              || bool_decide (is_Some (fault (tick (os st)) (SysStat h)))).
    + apply Hadmit; [|reflexivity|discriminate].
      apply (stale_preserved st _ k Hs); cbn.
      * rewrite lookup_delete_ne by exact Hgk. apply Hs.
      * rewrite lookup_delete_ne by exact Hgk. reflexivity.
      * rewrite dom_delete_L. destruct Hs as (_ & Hne & _). set_solver.
      * intros k' t' _ Hl. left.
        destruct (decide (Name g = k')) as [<-|Hneq];
          [rewrite lookup_delete_eq in Hl; discriminate|].
        rewrite lookup_delete_ne in Hl by exact Hneq. exact Hl.
      * lia.
    + eexists _, _. split; [reflexivity|]. split; [|split; [reflexivity | discriminate]].
      apply (stale_preserved st _ k Hs); cbn.
      * apply Hs.
      * rewrite lookup_insert_ne by exact Hgk. reflexivity.
      * rewrite dom_insert_L. destruct Hs as (_ & Hne & _).
        intros Hin. apply elem_of_union in Hin as [Hin|Hin]; [|exact (Hne Hin)].
        apply elem_of_singleton in Hin. apply Hg. symmetry. exact Hin.
      * intros k' t' _ Hl. destruct (decide (Name g = k')) as [<-|Hneq].
        -- rewrite lookup_insert_eq in Hl. injection Hl as <-.
           right. exists (S (tick (os st))). split; [lia | reflexivity].
        -- rewrite lookup_insert_ne in Hl by exact Hneq. left. exact Hl.
      * lia.
  - apply Hadmit; [exact Hs | reflexivity | reflexivity].
Qed.

End Stale.

Lemma RemoveConn_leaves_stale_entry_witness :
  exists st',
    RemoveConn (Some file1) after_first_acquisition = Ret (None, st') /\
    stale (H := quiet) st' (Name file1).
Proof.
  assert (Hpool : openFilesPool (wr after_first_acquisition) = {[Name file1 := file1]})
    by (vm_compute; reflexivity).
  assert (Hlast : connLastUsed (wr after_first_acquisition) = {[Name file1 := 0]})
    by (vm_compute; reflexivity).
  assert (Htick : tick (os after_first_acquisition) = 1%nat) by reflexivity.
  destruct (RemoveConn_leaves_stale_entry (rt := quiet) file1 file1 0 after_first_acquisition)
    as (st' & Hrun & Hstale & _).
  - unfold pool_ok. rewrite Hpool, Hlast. rewrite !dom_singleton_L.
    split; [reflexivity|]. split; [|rewrite map_size_singleton; cbn; lia].
    intros Hin. apply elem_of_singleton in Hin. discriminate.
  - rewrite Hpool. apply lookup_singleton_eq.
  - rewrite Hlast. apply lookup_singleton_eq.
  - intros k' t' Hneq Hl. rewrite Hlast in Hl.
    apply lookup_singleton_Some in Hl as [Heq _]. congruence.
  - intros n Hn. rewrite Htick in Hn. cbn. lia.
  - exists st'. split; [exact Hrun | exact Hstale].
Defined.

Lemma GetConn_never_evicts_when_stale_witness :
  exists r st',
    GetConn (rt := quiet) (Some file3) after_second_acquisition = Ret ((Some r, None), st') /\
    maxConns (wr st') = 1 /\
    size (openFilesPool (wr st')) = 2%nat.
Proof.
  assert (Hpool : openFilesPool (wr after_second_acquisition) = {[Name file2 := file2]})
    by (vm_compute; reflexivity).
  assert (Hlast : connLastUsed (wr after_second_acquisition)
                  = <[Name file2 := 1]> {[Name file1 := 0]})
    by (vm_compute; reflexivity).
  assert (Htick : tick (os after_second_acquisition) = 2%nat) by reflexivity.
  destruct (GetConn_never_evicts_when_stale (rt := quiet) (Name file1) file3
              after_second_acquisition)
    as (r & st' & Hrun & _ & _ & Hgrow).
  - split; [discriminate|]. rewrite Hpool, Hlast.
    split.
    { rewrite dom_insert_L, dom_singleton_L. intros Hin.
      apply elem_of_union in Hin as [Hin|Hin]; apply elem_of_singleton in Hin;
        discriminate. }
    split; [apply lookup_singleton_ne; discriminate|].
    exists 0. split; [rewrite lookup_insert_ne by discriminate; apply lookup_singleton_eq|].
    split.
    + intros k' t' Hneq Hl. apply lookup_insert_Some in Hl as [[_ <-]|[_ Hl]]; [lia|].
      apply lookup_singleton_Some in Hl as [Heq _]. congruence.
    + intros n Hn. rewrite Htick in Hn. cbn. lia.
  - discriminate.
  - discriminate.
  - destruct Hgrow as (_ & Hp & Hsize).
    { rewrite Hpool. apply lookup_singleton_ne. discriminate. }
    exists r, st'. split; [exact Hrun|]. split.
    + rewrite GetConn_exec in Hrun. vm_compute in Hrun. injection Hrun as _ <-. reflexivity.
    + rewrite Hsize, Hpool, map_size_singleton. reflexivity.
Defined.

(** ** The default writer *)

Section DefaultWriterTheorems.
Context {rt : Runtime}.

(** The package's default writer has no targets: [Write] on it returns
    "files is empty" and does nothing.  Once a non-empty list of targets
    has been added with [AddFiles], [Write] returns results that count
    every target of the list once. *)
Theorem Dwriter_needs_files (maxWorkers : Z) (o : OS) (fs : list (option File)) :
  Write (Some Dwriter) maxWorkers o
  = Ret ((None, Some "files is empty"%string, []),
         {| wr := Dwriter; res := NewResults; os := o |}) /\
  AddFiles (Some Dwriter) fs = Ret (None, Some (with_files (Some fs) Dwriter)) /\
  (fs <> [] -> Z.of_nat (length fs) <= maxSliceLen ->
   exists r outs st',
     Write (Some (with_files (Some fs) Dwriter)) maxWorkers o
     = Ret ((Some r, None, outs), st') /\
     Total r = Z.of_nat (length fs) /\
     Success r + Failure r = Total r /\
     Z.of_nat (length (ErrSlice r)) = Failure r).
Proof.
  split; [unfold Write, Write_body, bind, get; cbn; reflexivity|].
  split; [reflexivity|].
  intros Hne Hlen.
  destruct (Write_valid (with_files (Some fs) Dwriter) maxWorkers o fs)
    as (r & outs & st' & Hrun & _ & _ & _ & Htot & (_ & _ & Hsum & Herrs) & _).
  { split; [reflexivity|]. split; [exact Hne|]. split; [exact Hlen|]. split.
    - split; [eexists; reflexivity|]. split; [|eexists; reflexivity].
      eexists _, _. split; reflexivity.
    - intros c [= <-]. reflexivity. }
  exists r, outs, st'. split; [exact Hrun|]. split; [exact Htot|].
  split; [lia | exact Herrs].
Qed.

End DefaultWriterTheorems.

(** ** Runs of [Write] in which no system call fails *)

Lemma bind_exec {A B} (m : M A) (k : A -> M B) st :
  bind m k st = match m st with Ret (a, st') => k a st' | Panic msg => Panic msg end.
Proof. reflexivity. Qed.

Lemma writes_later n o : writes (later n o) = writes o.
Proof. reflexivity. Qed.

Lemma ready_same w w' msg : same_settings w w' -> ready w msg -> ready w' msg.
Proof.
  intros (Hf & Hm & Hmsg & Hmc & Hr & Hb & Hc) (Hctx & Hmode & Hmessage & Hret).
  unfold ready. rewrite Hm, Hmsg, Hr, Hc. repeat split; assumption.
Qed.

Section WriteOk.
Context {rt : Runtime}.

Lemma CheckConnStatus_exec (f : File) st :
  CheckConnStatus (Some f) st
  = match openFilesPool (wr st) !! Name f with
    | None => Ret (false, st)
    | Some h =>
      Ret (negb (bool_decide (fd h ∈ closed (os st))
                 || bool_decide (is_Some (fault (tick (os st)) (SysStat h)))),
           on_os (later 1 (os st)) st)
    end.
Proof.
  unfold CheckConnStatus. rewrite bind_exec. unfold get at 1.
  destruct (openFilesPool (wr st) !! Name f) as [h|]; [|destruct st; reflexivity].
  rewrite bind_exec, Stat_exec.
  destruct (bool_decide (fd h ∈ closed (os st))); [reflexivity|].
  cbn [orb]. destruct (fault (tick (os st)) (SysStat h)); reflexivity.
Qed.

(** One acquisition when no call fails: the handle returned is the one
    pooled under the name, nothing is opened or written, and the
    bookkeeping of handles stays in order. *)
Lemma GetConn_tidy (f : File) st :
  no_faults -> tidy (wr st) (os st) -> (fd f < next_fd (os st))%nat ->
  exists r st1,
    GetConn (Some f) st = Ret ((Some r, None), st1) /\
    same_settings (wr st) (wr st1) /\
    res st1 = res st /\
    tidy (wr st1) (os st1) /\
    next_fd (os st1) = next_fd (os st) /\
    openFilesPool (wr st1) !! Name f = Some r /\
    Name r = Name f /\
    writes (os st1) = writes (os st) /\
    opens (os st1) = opens (os st).
Proof.
  intros Hnf (Hclosed & Hpool) Hfd.
  assert (Hadmit : forall st0,
    same_settings (wr st) (wr st0) -> res st0 = res st ->
    tidy (wr st0) (os st0) -> next_fd (os st0) = next_fd (os st) ->
    writes (os st0) = writes (os st) -> opens (os st0) = opens (os st) ->
    exists r st1,
      match evict_if_full st0 with
      | Ret (_, st2) =>
        Ret ((Some f, @None error),
             {| wr := with_lastUsed
                        (<[Name f := clock (tick (os st2))]> (connLastUsed (wr st2)))
                        (with_pool (<[Name f := f]> (openFilesPool (wr st2))) (wr st2));
                res := res st2; os := later 1 (os st2) |})
      | Panic msg => Panic msg
      end = Ret ((Some r, None), st1) /\
      same_settings (wr st) (wr st1) /\
      res st1 = res st /\
      tidy (wr st1) (os st1) /\
      next_fd (os st1) = next_fd (os st) /\
      openFilesPool (wr st1) !! Name f = Some r /\
      Name r = Name f /\
      writes (os st1) = writes (os st) /\
      opens (os st1) = opens (os st)).
  { intros st0 Hsame Hres (Hc0 & Hp0) Hnext Hw Ho.
    assert (Hins : forall (p : gmap string File) o',
              (forall k h, p !! k = Some h -> Name h = k /\ (fd h < next_fd o')%nat) ->
              next_fd o' = next_fd (os st) ->
              forall k h, <[Name f := f]> p !! k = Some h ->
                          Name h = k /\ (fd h < next_fd (later 1 o'))%nat).
    { intros p o' Hp Hn k h Hl. cbn [later next_fd].
      apply lookup_insert_Some in Hl as [[<- <-]|[_ Hl]];
        [split; [reflexivity | lia] | exact (Hp k h Hl)]. }
    rewrite evict_if_full_exec. cbv zeta.
    destruct (maxConns (wr st0) <=? _);
      [destruct (negb _);
       [destruct (openFilesPool (wr st0) !! _) as [oldFile|] eqn:Hold|]|].
    - exists f. eexists. split; [reflexivity|]. unfold tidy.
      cbn [wr res os with_pool with_lastUsed openFilesPool connLastUsed].
      split; [destruct Hsame as (?&?&?&?&?&?&?); repeat split; assumption|].
      split; [exact Hres|].
      destruct (Hp0 _ _ Hold) as [_ Holdfd].
      split; [|split; [|split; [apply lookup_insert_eq|split; [reflexivity|]]]].
      + split.
        * intros n Hn. destruct (bool_decide (fd oldFile ∈ closed (os st0)));
            cbn [later closed next_fd] in Hn |- *.
          -- exact (Hc0 n Hn).
          -- apply elem_of_union in Hn as [Hn|Hn]; [|exact (Hc0 n Hn)].
             apply elem_of_singleton in Hn. subst n. exact Holdfd.
        * intros k h Hl. apply lookup_insert_Some in Hl as [[<- <-]|[_ Hl]].
          -- split; [reflexivity|].
             destruct (bool_decide (fd oldFile ∈ closed (os st0)));
               cbn [later next_fd]; lia.
          -- apply lookup_delete_Some in Hl as [_ Hl].
             destruct (Hp0 k h Hl) as [Hn Hf]. split; [exact Hn|].
             destruct (bool_decide (fd oldFile ∈ closed (os st0)));
               cbn [later next_fd]; lia.
      + destruct (bool_decide (fd oldFile ∈ closed (os st0)));
          cbn [later next_fd]; exact Hnext.
      + destruct (bool_decide (fd oldFile ∈ closed (os st0))).
        * split; [exact Hw | exact Ho].
        * unfold writes, opens in *. cbn [later trace rev].
          rewrite !omap_app. cbn [omap]. rewrite !app_nil_r.
          split; [exact Hw | exact Ho].
    - exists f. eexists. split; [reflexivity|]. unfold tidy.
      cbn [wr res os with_pool with_lastUsed openFilesPool connLastUsed].
      split; [destruct Hsame as (?&?&?&?&?&?&?); repeat split; assumption|].
      split; [exact Hres|].
      split; [split; [exact Hc0 | exact (Hins _ _ Hp0 Hnext)]|].
      split; [exact Hnext|]. split; [apply lookup_insert_eq|].
      split; [reflexivity|]. split; [exact Hw | exact Ho].
    - exists f. eexists. split; [reflexivity|]. unfold tidy.
      cbn [wr res os with_pool with_lastUsed openFilesPool connLastUsed].
      split; [destruct Hsame as (?&?&?&?&?&?&?); repeat split; assumption|].
      split; [exact Hres|].
      split; [split; [exact Hc0 | exact (Hins _ _ Hp0 Hnext)]|].
      split; [exact Hnext|]. split; [apply lookup_insert_eq|].
      split; [reflexivity|]. split; [exact Hw | exact Ho].
    - exists f. eexists. split; [reflexivity|]. unfold tidy.
      cbn [wr res os with_pool with_lastUsed openFilesPool connLastUsed].
      split; [destruct Hsame as (?&?&?&?&?&?&?); repeat split; assumption|].
      split; [exact Hres|].
      split; [split; [exact Hc0 | exact (Hins _ _ Hp0 Hnext)]|].
      split; [exact Hnext|]. split; [apply lookup_insert_eq|].
      split; [reflexivity|]. split; [exact Hw | exact Ho]. }
  rewrite GetConn_exec, lookup_live_exec.
  destruct (openFilesPool (wr st) !! Name f) as [h|] eqn:Hh.
  - rewrite (Hnf (tick (os st)) (SysStat h)).
    replace (bool_decide (is_Some (@None error))) with false
      by (symmetry; apply bool_decide_eq_false; intros [? ?]; discriminate).
    rewrite orb_false_r.
    destruct (bool_decide (fd h ∈ closed (os st))) eqn:Hdead.
    + apply Hadmit; unfold tidy;
        cbn [wr res os with_pool with_lastUsed openFilesPool connLastUsed];
        try reflexivity.
      * repeat split.
      * split; [exact Hclosed|].
        intros k h' Hl. apply lookup_delete_Some in Hl as [_ Hl]. exact (Hpool k h' Hl).
    + exists h. eexists. split; [reflexivity|]. unfold tidy.
      cbn [wr res os with_pool with_lastUsed openFilesPool connLastUsed].
      split; [repeat split|]. split; [reflexivity|].
      split; [split; [exact Hclosed | exact Hpool]|].
      split; [reflexivity|]. split; [exact Hh|].
      split; [exact (proj1 (Hpool _ _ Hh))|]. split; reflexivity.
  - apply Hadmit; try reflexivity.
    + repeat split.
    + split; [exact Hclosed | exact Hpool].
Qed.

End WriteOk.

Section WriteToFileOk.
Context {rt : Runtime}.

(** The write and the flush of [writeToFile] on a handle that is open,
    when no call fails. *)
Lemma write_and_flush (target : File) (msg : string) st :
  no_faults -> fd target ∉ closed (os st) ->
  exists st',
    (let* written := bufio_WriteString (bufio_NewWriter target) msg in
     match written with
     | (_, Some e) =>
       Info_set (Name target) e;;;
       (if negb (Contains e "already closed")
        then let* _ := Close target in ret tt
        else ret tt);;;
       ret (Some ("error writing to file " +:+ Name target +:+ ": " +:+ e))
     | (bufferedWriter, None) =>
       let* ferr := bufio_Flush bufferedWriter in
       match ferr with
       | Some e =>
         Info_set (Name target) e;;;
         let* _ := Close target in
         ret (Some ("error flushing buffer for file " +:+ Name target +:+ ": " +:+ e))
       | None => ret None
       end
     end) st = Ret (None, st') /\
    wr st' = wr st /\ res st' = res st /\
    closed (os st') = closed (os st) /\ next_fd (os st') = next_fd (os st) /\
    opens (os st') = opens (os st) /\
    writes (os st')
    = writes (os st) ++ match msg with
                        | EmptyString => []
                        | _ => [(Name target, msg)]
                        end.
Proof.
  intros Hnf Hopen.
  assert (Hw : file_Write target msg st
               = Ret (None,
                      on_os {| tick := S (tick (os st)); closed := closed (os st);
                               next_fd := next_fd (os st);
                               trace := EvWrite target msg :: trace (os st) |} st)).
  { rewrite file_Write_exec, (Hnf (tick (os st)) (SysWrite target msg)).
    rewrite bool_decide_eq_false_2 by exact Hopen. reflexivity. }
  assert (Hwrites : forall o,
            writes {| tick := S (tick o); closed := closed o; next_fd := next_fd o;
                      trace := EvWrite target msg :: trace o |}
            = writes o ++ [(Name target, msg)]).
  { intros o. unfold writes. cbn [trace rev]. rewrite omap_app. reflexivity. }
  assert (Hopens : forall o,
            opens {| tick := S (tick o); closed := closed o; next_fd := next_fd o;
                     trace := EvWrite target msg :: trace o |}
            = opens o).
  { intros o. unfold opens. cbn [trace rev]. rewrite omap_app. cbn. apply app_nil_r. }
  rewrite bind_exec. unfold bufio_WriteString, bufio_NewWriter. cbn [wr_file buffered].
  destruct (bufio_defaultBufSize <? String.length msg)%nat eqn:Hlen.
  - rewrite bind_exec, Hw. cbn [ret]. rewrite bind_exec. unfold bufio_Flush.
    cbn [buffered ret].
    eexists. split; [reflexivity|]. cbn [wr res os on_os closed next_fd].
    repeat (split; [reflexivity|]). split; [apply Hopens|].
    rewrite Hwrites. destruct msg; [discriminate Hlen | reflexivity].
  - cbn [ret]. rewrite bind_exec. unfold bufio_Flush. cbn [buffered wr_file].
    destruct msg as [|c msg'].
    + cbn [ret]. eexists. split; [reflexivity|].
      repeat (split; [reflexivity|]). rewrite app_nil_r. reflexivity.
    + rewrite Hw. eexists. split; [reflexivity|]. cbn [wr res os on_os closed next_fd].
      repeat (split; [reflexivity|]). split; [apply Hopens | apply Hwrites].
Qed.

(** [writeToFile] when no call fails, on the handle that is pooled under
    its name: it succeeds; the message is written once, to this handle
    when it is open and otherwise to a new handle opened under the same
    name with the flags of the mode, which takes its place in the pool. *)
Lemma writeToFile_tidy (r : File) (msg msg0 : string) st :
  no_faults -> ready (wr st) msg0 -> tidy (wr st) (os st) ->
  openFilesPool (wr st) !! Name r = Some r ->
  exists st' flags,
    writeToFile (Some r) msg st = Ret (None, st') /\
    same_settings (wr st) (wr st') /\
    res st' = res st /\
    tidy (wr st') (os st') /\
    (next_fd (os st) <= next_fd (os st'))%nat /\
    (forall m s, mode (wr st) = Some m -> Mode.mode m = Some s ->
                 getFileMode s = (flags, None)) /\
    (opens (os st')
     = opens (os st) ++ (if bool_decide (fd r ∈ closed (os st))
                         then [(Name r, flags)] else [])) /\
    (writes (os st')
     = writes (os st) ++ match msg with
                         | EmptyString => []
                         | _ => [(Name r, msg)]
                         end).
Proof.
  intros Hnf ((c & Hctx & Hlive) & (m & s & Hm & Hs & Hsv) & _ & _) (Hclosed & Hpool) Hr.
  assert (Hflags : exists flags, getFileMode s = (flags, None))
    by (destruct Hsv as [-> | ->]; eexists; reflexivity).
  destruct Hflags as (flags & Hflags).
  unfold writeToFile. rewrite bind_exec. unfold get at 1.
  rewrite Hctx, Hlive, Hm, Hs, Hflags.
  rewrite bind_exec. unfold reopen_if_needed. rewrite bind_exec, CheckConnStatus_exec, Hr.
  rewrite (Hnf (tick (os st)) (SysStat r)).
  replace (bool_decide (is_Some (@None error))) with false
    by (symmetry; apply bool_decide_eq_false; intros [? ?]; discriminate).
  rewrite orb_false_r, negb_involutive.
  destruct (bool_decide (fd r ∈ closed (os st))) eqn:Hdead.
  - rewrite bind_exec, OpenFile_exec.
    rewrite (Hnf _ (SysOpenFile (Name r) flags 438)).
    set (nf := {| Name := Name r; fd := next_fd (os (on_os (later 1 (os st)) st)) |}).
    rewrite bind_exec. unfold pool_Store, set_wr, modify. cbn [ret].
    match goal with
    | |- exists st' flags0, ?k ?s1 = _ /\ _ =>
      destruct (write_and_flush nf msg s1 Hnf) as (st' & Hrun & Hwr & Hres & Hcl & Hnx & Hop & Hws)
    end.
    { cbn. intros Hin. apply Hclosed in Hin. lia. }
    exists st', flags. split; [exact Hrun|].
    unfold tidy. rewrite Hwr, Hres, Hcl, Hnx, Hop, Hws.
    cbn [wr res os on_os later with_pool openFilesPool closed next_fd].
    split; [repeat split|]. split; [reflexivity|]. split.
    { split.
      - intros n Hn. apply Hclosed in Hn. lia.
      - intros k h Hl. apply lookup_insert_Some in Hl as [[<- <-]|[_ Hl]].
        + split; [reflexivity | cbn; lia].
        + destruct (Hpool k h Hl). split; [assumption | lia]. }
    split; [lia|]. split.
    { intros m' s' [= <-] Hs'. rewrite Hs in Hs'. injection Hs' as <-. exact Hflags. }
    split.
    + unfold opens. cbn [trace rev later]. rewrite omap_app. reflexivity.
    + unfold writes. cbn [trace rev later]. rewrite omap_app. cbn [omap].
      rewrite app_nil_r. reflexivity.
  - cbn [ret].
    destruct (write_and_flush r msg (on_os (later 1 (os st)) st) Hnf)
      as (st' & Hrun & Hwr & Hres & Hcl & Hnx & Hop & Hws).
    { cbn. apply bool_decide_eq_false in Hdead. exact Hdead. }
    exists st', flags. split; [exact Hrun|].
    unfold tidy. rewrite Hwr, Hres, Hcl, Hnx, Hop, Hws.
    cbn [wr res os on_os later closed next_fd].
    split; [repeat split|]. split; [reflexivity|].
    split; [split; [exact Hclosed | exact Hpool]|].
    split; [lia|]. split.
    { intros m' s' [= <-] Hs'. rewrite Hs in Hs'. injection Hs' as <-. exact Hflags. }
    split; [rewrite app_nil_r; reflexivity | reflexivity].
Qed.

End WriteToFileOk.

Section WriteJobs.
Context {rt : Runtime}.

(** [Write] on a validly configured writer is its worker loop over the
    scheduled targets, followed by the computation of the rates. *)
Lemma Write_runs_jobs (w : Writer) (maxWorkers : Z) (o : OS) (fs : list (option File))
    (outs : list Outcome) (st1 : State) :
  validly_configured w o fs ->
  run_jobs (Schedule (worker_count maxWorkers (Z.of_nat (length fs))) fs)
    {| wr := w; res := NewResults; os := o |} = Ret (outs, st1) ->
  Write (Some w) maxWorkers o
  = Ret ((Some (finalize (Z.of_nat (length fs)) (res st1)), None, outs),
         {| wr := wr st1; res := finalize (Z.of_nat (length fs)) (res st1);
            os := os st1 |}).
Proof.
  intros (Hf & Hne & Hlen & Hrun & Hctx) Hjobs.
  assert (Hn : 1 <= Z.of_nat (length fs)) by (destruct fs; [congruence | cbn; lia]).
  destruct Hrun as ([c Hc] & (m & s & Hm & Hs) & [msg Hmsg]).
  unfold Write, Write_body. unfold bind at 1. unfold get at 1. cbn [wr os].
  rewrite Hc, (Hctx c Hc). unfold fullWriteCheck. rewrite Hf, Hm, Hmsg.
  destruct (Z.of_nat (length fs) =? 0) eqn:E0; [apply Z.eqb_eq in E0; lia|].
  unfold bind at 1. cbn [set_res modify wr res os].
  rewrite (queued_jobs_all w fs Hf Hne Hlen).
  unfold bind at 1. cbn [lift].
  set (workers := if Z.of_nat (length fs) <? _ then _ else _).
  assert (Hw : 1 <= workers).
  { subst workers. pose proof NumCPU_range as Hcpu.
    destruct (maxWorkers <=? 0) eqn:E1;
      [|apply Z.leb_gt in E1];
      match goal with |- context [?a <? ?b] => destruct (a <? b) eqn:E2 end;
      try apply Z.ltb_ge in E2; lia. }
  unfold run_workers.
  destruct (workers <=? 0) eqn:E3; [apply Z.leb_le in E3; lia|].
  unfold worker_count in Hjobs. fold workers in Hjobs.
  unfold bind at 1. rewrite Hjobs.
  assert (Hwrap : wrap_uint64 (Z.of_nat (length fs)) = Z.of_nat (length fs)).
  { unfold wrap_uint64. apply Z.mod_small. unfold maxSliceLen, uint64_modulus in *. lia. }
  rewrite Hwrap. reflexivity.
Qed.

Lemma retry_succeeds_at_once (function : option File -> string -> M (option error))
    file message st st' :
  function file message st = Ret (None, st') ->
  0 <= retries (wr st) ->
  retry function file message st = Ret (None, st').
Proof.
  intros Hrun Hret. unfold retry. rewrite bind_exec. unfold get at 1.
  destruct (retries (wr st) =? 0) eqn:E; [exact Hrun|].
  apply Z.eqb_neq in E.
  destruct (Z.to_nat (retries (wr st))) as [|n] eqn:En; [lia|].
  cbn [retry_loop]. rewrite bind_exec, Hrun. reflexivity.
Qed.

(** A job on a file, when no call fails: it is written. *)
Lemma worker_job_ok (f : File) (msg : string) st :
  no_faults -> ready (wr st) msg -> tidy (wr st) (os st) ->
  (fd f < next_fd (os st))%nat ->
  exists st' flags extra,
    worker_job (Some f) st = Ret (Written, st') /\
    same_settings (wr st) (wr st') /\
    res st' = one_more_success (res st) /\
    tidy (wr st') (os st') /\
    (next_fd (os st) <= next_fd (os st'))%nat /\
    (forall m s, mode (wr st) = Some m -> Mode.mode m = Some s ->
                 getFileMode s = (flags, None)) /\
    opens (os st') = opens (os st) ++ extra /\
    Forall (fun x => x = (Name f, flags)) extra /\
    (writes (os st')
     = writes (os st) ++ match msg with
                         | EmptyString => []
                         | _ => [(Name f, msg)]
                         end).
Proof.
  intros Hnf Hready Htidy Hfd.
  destruct (GetConn_tidy f st Hnf Htidy Hfd)
    as (r & st1 & Hconn & Hsame1 & Hres1 & Htidy1 & Hnext1 & Hpool1 & Hname & Hw1 & Ho1).
  assert (Hready1 : ready (wr st1) msg) by (eapply ready_same; eassumption).
  rewrite <- Hname in Hpool1.
  destruct (writeToFile_tidy r msg msg st1 Hnf Hready1 Htidy1 Hpool1)
    as (st2 & flags & Hwrite & Hsame2 & Hres2 & Htidy2 & Hnext2 & Hflags & Ho2 & Hw2).
  assert (Hretry : retry writeToFile (Some r) msg st1 = Ret (None, st2)).
  { apply retry_succeeds_at_once; [exact Hwrite | apply Hready1]. }
  unfold worker_job. rewrite bind_exec, Hconn. rewrite bind_exec. unfold get at 1.
  destruct Hready1 as (_ & _ & Hmsg1 & _). rewrite Hmsg1.
  rewrite bind_exec, Hretry. rewrite bind_exec. unfold record_success, set_res, modify.
  cbn [ret].
  eexists _, flags, _. split; [reflexivity|]. cbn [wr res os].
  split; [eapply same_settings_trans; eassumption|].
  split; [rewrite Hres2, Hres1; reflexivity|].
  split; [exact Htidy2|]. split; [lia|]. split.
  { intros m s Hm Hs. apply (Hflags m s); [|exact Hs].
    destruct Hsame1 as (_ & Hmode & _). rewrite Hmode. exact Hm. }
  rewrite Ho2, Ho1, Hw2, Hw1, Hname. split; [reflexivity|].
  split; [|reflexivity].
  destruct (bool_decide (fd r ∈ closed (os st1))); repeat constructor.
Qed.

End WriteJobs.

Section WriteNoFaults.
Context {rt : Runtime}.

Lemma mode_flags_same w w' : same_settings w w' -> mode_flags w' = mode_flags w.
Proof. intros (_ & Hm & _). unfold mode_flags. rewrite Hm. reflexivity. Qed.

(** The worker loop over jobs that are all files, when no call fails. *)
Lemma run_jobs_ok (msg : string) (jobs : list (option File)) : forall st,
  no_faults -> ready (wr st) msg -> tidy (wr st) (os st) ->
  Forall (fun j => exists f, j = Some f /\ (fd f < next_fd (os st))%nat) jobs ->
  0 <= Success (res st) ->
  Success (res st) + Z.of_nat (length jobs) < uint64_modulus ->
  exists outs st' extra,
    run_jobs jobs st = Ret (outs, st') /\
    Forall (fun o => o = Written) outs /\
    length outs = length jobs /\
    same_settings (wr st) (wr st') /\
    tidy (wr st') (os st') /\
    Success (res st') = Success (res st) + Z.of_nat (length jobs) /\
    Failure (res st') = Failure (res st) /\
    ErrSlice (res st') = ErrSlice (res st) /\
    Info (res st') = Info (res st) /\
    opens (os st') = opens (os st) ++ extra /\
    Forall (fun x => x.1 ∈ target_names jobs /\ x.2 = mode_flags (wr st)) extra /\
    (writes (os st')
     = writes (os st) ++ match msg with
                         | EmptyString => []
                         | _ => (fun n => (n, msg)) <$> target_names jobs
                         end).
Proof.
  induction jobs as [|j jobs IH]; intros st Hnf Hready Htidy Hjobs Hs0 Hs1.
  - exists [], st, []. cbn [run_jobs ret length].
    split; [reflexivity|]. split; [constructor|]. split; [reflexivity|].
    split; [apply same_settings_refl|]. split; [exact Htidy|].
    split; [cbn; lia|]. split; [reflexivity|]. split; [reflexivity|].
    split; [reflexivity|]. split; [rewrite app_nil_r; reflexivity|].
    split; [constructor|]. destruct msg; cbn; rewrite app_nil_r; reflexivity.
  - apply Forall_cons in Hjobs as [(f & -> & Hfd) Hjobs].
    destruct (worker_job_ok f msg st Hnf Hready Htidy Hfd)
      as (st1 & flags & extra1 & Hjob & Hsame1 & Hres1 & Htidy1 & Hnext1 & Hflags
          & Hopens1 & Hextra1 & Hwrites1).
    assert (Hready1 : ready (wr st1) msg) by (eapply ready_same; eassumption).
    assert (Hflags' : flags = mode_flags (wr st)).
    { destruct Hready as (_ & (m & s & Hm & Hs & _) & _).
      unfold mode_flags. rewrite Hm, Hs, (Hflags m s Hm Hs). reflexivity. }
    cbn [length] in Hs1.
    assert (Hsucc1 : Success (res st1) = Success (res st) + 1).
    { rewrite Hres1. cbn [Success one_more_success]. unfold wrap_uint64.
      apply Z.mod_small. lia. }
    destruct (IH st1 Hnf Hready1 Htidy1) as
      (outs & st2 & extra2 & Hrun & Houts & Hlen & Hsame2 & Htidy2 & Hsucc2 & Hfail2
       & Herr2 & Hinfo2 & Hopens2 & Hextra2 & Hwrites2).
    { eapply Forall_impl; [exact Hjobs|]. intros ? (g & -> & Hg).
      exists g. split; [reflexivity | lia]. }
    { lia. }
    { lia. }
    exists (Written :: outs), st2, (extra1 ++ extra2).
    cbn [run_jobs]. rewrite bind_exec, Hjob, bind_exec, Hrun. cbn [ret].
    split; [reflexivity|]. split; [constructor; [reflexivity | exact Houts]|].
    split; [cbn; rewrite Hlen; reflexivity|].
    split; [eapply same_settings_trans; eassumption|].
    split; [exact Htidy2|].
    split; [rewrite Hsucc2, Hsucc1; cbn [length]; lia|].
    split; [rewrite Hfail2, Hres1; reflexivity|].
    split; [rewrite Herr2, Hres1; reflexivity|].
    split; [rewrite Hinfo2, Hres1; reflexivity|].
    split; [rewrite Hopens2, Hopens1, app_assoc; reflexivity|].
    split.
    { apply Forall_app. split.
      - eapply Forall_impl; [exact Hextra1|]. intros x ->. cbn [fst snd target_names omap].
        split; [left | exact Hflags'].
      - eapply Forall_impl; [exact Hextra2|]. intros x [Hin Hfl].
        split; [cbn [target_names omap]; right; exact Hin|].
        rewrite Hfl. apply mode_flags_same, Hsame1. }
    rewrite Hwrites2, Hwrites1, <- app_assoc. f_equal.
    destruct msg; reflexivity.
Qed.

Lemma target_names_Some (fs : list File) : target_names (Some <$> fs) = Name <$> fs.
Proof. induction fs as [|f fs IH]; [reflexivity|]. cbn. f_equal. exact IH. Qed.

Lemma target_names_Permutation l l' : l ≡ₚ l' -> target_names l ≡ₚ target_names l'.
Proof. intros H. unfold target_names. rewrite H. reflexivity. Qed.

(** [Write] does what it is for when nothing fails and one worker does
    the work ([maxWorkers] is 1, or there is one target, or the machine
    has one CPU and [maxWorkers] is not positive).  On a writer with a
    context that is never done, a mode that holds "a" or "w", a message
    and targets that are all files, when no system call fails, [Write]
    returns results in which every target is a success: [Success] is the
    number of targets, [Failure] is 0, [ErrSlice] and [Info] are empty,
    the success rate is exactly 1 and the failure rate 0.  The message has
    been written once under the name of each target, in the order of the
    target list, and nothing else has been written; a file is opened only
    for a target, with the flags of the mode.  (With several workers one
    of them can evict and close the handle another is about to write to,
    so this is stated for one worker.) *)
Theorem Write_without_faults (w : Writer) (maxWorkers : Z) (o : OS)
    (fs : list File) (msg : string) :
  no_faults ->
  files w = Some (Some <$> fs) -> fs <> [] -> Z.of_nat (length fs) <= maxSliceLen ->
  ready w msg -> tidy w o ->
  Forall (fun f => (fd f < next_fd o)%nat) fs ->
  worker_count maxWorkers (Z.of_nat (length fs)) = 1 ->
  exists r outs st' extra,
    Write (Some w) maxWorkers o = Ret ((Some r, None, outs), st') /\
    Total r = Z.of_nat (length fs) /\
    Success r = Z.of_nat (length fs) /\
    Failure r = 0 /\
    ErrSlice r = [] /\
    Info r = ∅ /\
    SuccessRate r = float64_one /\
    FailureRate r = float64_zero /\
    Forall (fun o => o = Written) outs /\
    length outs = length fs /\
    (writes (os st')
     = writes o ++ match msg with
                   | EmptyString => []
                   | _ => (fun f => (Name f, msg)) <$> fs
                   end) /\
    opens (os st') = opens o ++ extra /\
    Forall (fun x => x.1 ∈ Name <$> fs /\ x.2 = mode_flags w) extra /\
    same_settings w (wr st') /\
    tidy (wr st') (os st').
Proof.
  intros Hnf Hfiles Hne Hlen Hready Htidy Hfds Hone.
  set (jobs := Some <$> fs).
  assert (Hlenjobs : length jobs = length fs) by (subst jobs; apply length_fmap).
  assert (Hvalid : validly_configured w o jobs).
  { split; [exact Hfiles|]. split; [subst jobs; destruct fs; [congruence | discriminate]|].
    split; [rewrite Hlenjobs; exact Hlen|]. split.
    - destruct Hready as ((c & Hc & _) & (m & s & Hm & Hs & _) & Hmsg & _).
      split; [eexists; exact Hc|]. split; [eexists _, _; split; eassumption|].
      eexists; exact Hmsg.
    - intros c Hc. destruct Hready as ((c' & Hc' & Hlive) & _).
      rewrite Hc in Hc'. injection Hc' as <-. apply Hlive. }
  set (st0 := {| wr := w; res := NewResults; os := o |}).
  destruct (run_jobs_ok msg jobs st0 Hnf Hready Htidy)
    as (outs & st1 & extra & Hrun & Houts & Hlenouts & Hsame & Htidy1 & Hsucc & Hfail
        & Herr & Hinfo & Hopens & Hextra & Hwrites).
  { subst jobs. apply Forall_fmap.
    eapply Forall_impl; [exact Hfds|]. intros f Hf. exists f. split; [reflexivity | exact Hf]. }
  { cbn. lia. }
  { cbn. rewrite Hlenjobs. unfold maxSliceLen, uint64_modulus in *. lia. }
  rewrite Hlenjobs in Hsucc, Hlenouts.
  cbn [st0 res NewResults Success Failure ErrSlice Info wr os] in Hsucc, Hfail, Herr, Hinfo,
    Hopens, Hwrites, Hextra, Hsame.
  assert (Hn : 1 <= Z.of_nat (length fs)) by (destruct fs; [congruence | cbn; lia]).
  assert (Hbig : Z.of_nat (length fs) < 2 ^ 53)
    by (unfold maxSliceLen in Hlen; lia).
  exists (finalize (Z.of_nat (length jobs)) (res st1)), outs,
    {| wr := wr st1; res := finalize (Z.of_nat (length jobs)) (res st1); os := os st1 |},
    extra.
  split.
  { apply (Write_runs_jobs w maxWorkers o jobs outs st1 Hvalid).
    rewrite Hlenjobs, Hone, Schedule_one. exact Hrun. }
  rewrite Hlenjobs. unfold finalize.
  replace (0 <? Z.of_nat (length fs)) with true by (symmetry; apply Z.ltb_lt; lia).
  cbn [Total Success Failure ErrSlice Info SuccessRate FailureRate wr os].
  rewrite Hsucc, Hfail, Herr, Hinfo.
  split; [reflexivity|]. split; [lia|]. split; [reflexivity|]. split; [reflexivity|].
  split; [reflexivity|].
  split; [rewrite Z.add_0_l, float64_quotient_self by lia; symmetry; apply float64_one_bits|].
  split; [apply float64_quotient_zero; lia|].
  split; [exact Houts|]. split; [exact Hlenouts|].
  split.
  { rewrite Hwrites. f_equal. destruct msg; [reflexivity|].
    subst jobs. rewrite target_names_Some, <- list_fmap_compose. reflexivity. }
  split; [exact Hopens|].
  split; [|split; [exact Hsame | exact Htidy1]].
  eapply Forall_impl; [exact Hextra|]. intros x [Hin Hfl]. split; [|exact Hfl].
  subst jobs. rewrite target_names_Some in Hin. exact Hin.
Qed.

End WriteNoFaults.

Lemma Write_without_faults_witness :
  exists r outs st',
    Write (rt := quiet) (Some (test_writer [Some file1; Some file2] 1 3 100)) 1 fresh_OS
    = Ret ((Some r, None, outs), st') /\
    Success r = 2 /\ Failure r = 0 /\ SuccessRate r = float64_one /\
    writes (os st') = [(Name file1, "Hello, World!"%string); (Name file2, "Hello, World!"%string)].
Proof.
  destruct (Write_without_faults (rt := quiet)
              (test_writer [Some file1; Some file2] 1 3 100) 1 fresh_OS
              [file1; file2] "Hello, World!")
    as (r & outs & st' & extra & Hrun & _ & Hs & Hf & _ & _ & Hsr & _ & _ & _ & Hw & _).
  - intros t c. reflexivity.
  - reflexivity.
  - discriminate.
  - vm_compute. discriminate.
  - split; [exists Background; split; [reflexivity | reflexivity]|].
    split; [exists modeA, "a"%string; repeat split; left; reflexivity|].
    split; [reflexivity | cbn; lia].
  - split; [intros n Hn; cbn in Hn; set_solver|].
    intros k h Hl. cbn in Hl. rewrite lookup_empty in Hl. discriminate.
  - repeat constructor; cbn; lia.
  - reflexivity.
  - exists r, outs, st'. split; [exact Hrun|]. split; [exact Hs|].
    split; [exact Hf|]. split; [exact Hsr | exact Hw].
Defined.

(** ** Runs of [Write] under a context that is done after entry *)

Lemma sleeps_on_os_later n st : sleeps (on_os (later n (os st)) st) = sleeps st.
Proof. reflexivity. Qed.

Section WriteCancelled.
Context {rt : Runtime}.

(** An acquisition takes time, and neither opens, writes nor sleeps. *)
Lemma GetConn_ticks (f : File) st :
  exists r st1,
    GetConn (Some f) st = Ret ((Some r, None), st1) /\
    same_settings (wr st) (wr st1) /\
    res st1 = res st /\
    (tick (os st) < tick (os st1))%nat /\
    writes (os st1) = writes (os st) /\
    opens (os st1) = opens (os st) /\
    sleeps st1 = sleeps st.
Proof.
  assert (Hadmit : forall st0,
    same_settings (wr st) (wr st0) -> res st0 = res st ->
    (tick (os st) <= tick (os st0))%nat ->
    writes (os st0) = writes (os st) -> opens (os st0) = opens (os st) ->
    sleeps st0 = sleeps st ->
    exists r st1,
      match evict_if_full st0 with
      | Ret (_, st2) =>
        Ret ((Some f, @None error),
             {| wr := with_lastUsed
                        (<[Name f := clock (tick (os st2))]> (connLastUsed (wr st2)))
                        (with_pool (<[Name f := f]> (openFilesPool (wr st2))) (wr st2));
                res := res st2; os := later 1 (os st2) |})
      | Panic msg => Panic msg
      end = Ret ((Some r, None), st1) /\
      same_settings (wr st) (wr st1) /\
      res st1 = res st /\
      (tick (os st) < tick (os st1))%nat /\
      writes (os st1) = writes (os st) /\
      opens (os st1) = opens (os st) /\
      sleeps st1 = sleeps st).
  { intros st0 Hsame Hres Htick Hw Ho Hsl.
    rewrite evict_if_full_exec. cbv zeta.
    destruct (maxConns (wr st0) <=? _);
      [destruct (negb _);
       [destruct (openFilesPool (wr st0) !! _) as [oldFile|] eqn:Hold|]|];
      (exists f; eexists; split; [reflexivity|];
       cbn [wr res os with_pool with_lastUsed openFilesPool connLastUsed];
       split; [destruct Hsame as (?&?&?&?&?&?&?); repeat split; assumption|];
       split; [exact Hres|]).
    - destruct (bool_decide (fd oldFile ∈ closed (os st0))).
      + split; [cbn; lia|]. split; [exact Hw|]. split; [exact Ho | exact Hsl].
      + split; [cbn; lia|].
        unfold writes, opens, sleeps in *. cbn [later trace rev os].
        rewrite !omap_app. cbn [omap]. rewrite !app_nil_r.
        split; [exact Hw|]. split; [exact Ho | exact Hsl].
    - split; [cbn; lia|]. split; [exact Hw|]. split; [exact Ho | exact Hsl].
    - split; [cbn; lia|]. split; [exact Hw|]. split; [exact Ho | exact Hsl].
    - split; [cbn; lia|]. split; [exact Hw|]. split; [exact Ho | exact Hsl]. }
  rewrite GetConn_exec, lookup_live_exec.
  destruct (openFilesPool (wr st) !! Name f) as [h|] eqn:Hh.
  - destruct (bool_decide (fd h ∈ closed (os st))
              || bool_decide (is_Some (fault (tick (os st)) (SysStat h)))).
    + apply Hadmit; cbn [wr res os with_pool with_lastUsed]; try reflexivity;
        try (cbn; lia); repeat split.
    + exists h. eexists. split; [reflexivity|].
      cbn [wr res os with_pool with_lastUsed].
      split; [repeat split|]. split; [reflexivity|]. split; [cbn; lia|].
      split; [reflexivity|]. split; reflexivity.
  - apply Hadmit; try reflexivity; try lia; repeat split.
Qed.

Lemma writeToFile_done c e file msg st :
  ctx (wr st) = Some c -> Err c (tick (os st)) = Some e ->
  writeToFile file msg st = Ret (Some e, st).
Proof.
  intros Hc He. unfold writeToFile. rewrite bind_exec. unfold get at 1.
  rewrite Hc, He. reflexivity.
Qed.

Lemma Sleep_exec d st :
  Sleep d st
  = Ret (tt, on_os {| tick := tick (os st); closed := closed (os st);
                      next_fd := next_fd (os st);
                      trace := EvSleep (Z.max 0 d) :: trace (os st) |} st).
Proof. reflexivity. Qed.

Lemma retry_loop_S (function : option File -> string -> M (option error))
    file msg (i : nat) b st :
  retry_loop function file msg (S i) b st
  = match function file msg st with
    | Ret (None, st') => Ret (None, st')
    | Ret (Some e, st') =>
      match i with
      | O => Ret (Some ("exhausted retries: last error: " +:+ e), st')
      | S _ =>
        retry_loop function file msg i
          (if b <? 1000 then wrap_uint64 (b * 2) else b)
          (on_os {| tick := tick (os st'); closed := closed (os st');
                    next_fd := next_fd (os st');
                    trace := EvSleep (pause b) :: trace (os st') |} st')
      end
    | Panic m => Panic m
    end.
Proof.
  change (retry_loop function file msg (S i) b st)
    with (bind (function file msg) (fun err =>
            match err with
            | None => ret None
            | Some e =>
              match i with
              | O => ret (Some ("exhausted retries: last error: " +:+ e))
              | S _ =>
                Sleep (Duration_mul (Duration b) Millisecond);;;
                retry_loop function file msg i
                  (if b <? 1000 then wrap_uint64 (b * 2) else b)
              end
            end) st).
  rewrite bind_exec. destruct (function file msg st) as [[[e|] st']|m]; try reflexivity.
  destruct i; reflexivity.
Qed.

(** The loop of [retry] under a context that is done: every attempt
    returns the error of the context at once, and the loop sleeps between
    the attempts all the same. *)
Lemma retry_loop_done c e file msg : forall (i : nat) b st,
  ctx (wr st) = Some c -> Err c (tick (os st)) = Some e ->
  exists st',
    retry_loop writeToFile file msg (S i) b st
    = Ret (Some ("exhausted retries: last error: " +:+ e), st') /\
    wr st' = wr st /\ res st' = res st /\ tick (os st') = tick (os st) /\
    writes (os st') = writes (os st) /\ opens (os st') = opens (os st) /\
    length (sleeps st') = (length (sleeps st) + i)%nat.
Proof.
  induction i as [|i IH]; intros b st Hc He.
  - exists st. rewrite retry_loop_S, (writeToFile_done c e) by assumption.
    split; [reflexivity|]. repeat (split; [reflexivity|]). lia.
  - rewrite retry_loop_S, (writeToFile_done c e) by assumption.
    match goal with
    | |- context [retry_loop _ _ _ _ ?b' ?s1] =>
      destruct (IH b' s1) as (st' & Hrun & Hwr & Hres & Htick & Hw & Ho & Hsl);
        [exact Hc | exact He |]
    end.
    exists st'. split; [exact Hrun|].
    split; [exact Hwr|]. split; [exact Hres|]. split; [exact Htick|].
    split; [rewrite Hw; unfold writes; cbn [on_os os trace rev]; rewrite omap_app;
            cbn [omap]; apply app_nil_r|].
    split; [rewrite Ho; unfold opens; cbn [on_os os trace rev]; rewrite omap_app;
            cbn [omap]; apply app_nil_r|].
    rewrite Hsl. unfold sleeps. cbn [on_os os trace rev]. rewrite omap_app.
    rewrite length_app.
    change (length (omap _ [EvSleep (pause b)])) with 1%nat. lia.
Qed.

Lemma retry_done c e file msg st :
  ctx (wr st) = Some c -> Err c (tick (os st)) = Some e -> 0 <= retries (wr st) ->
  exists st',
    retry writeToFile file msg st = Ret (Some (retry_error (retries (wr st)) e), st') /\
    wr st' = wr st /\ res st' = res st /\ tick (os st') = tick (os st) /\
    writes (os st') = writes (os st) /\ opens (os st') = opens (os st) /\
    Z.of_nat (length (sleeps st'))
    = Z.of_nat (length (sleeps st)) + Z.max 0 (retries (wr st) - 1).
Proof.
  intros Hc He Hret. unfold retry, retry_error. rewrite bind_exec. unfold get at 1.
  destruct (retries (wr st) =? 0) eqn:E.
  - apply Z.eqb_eq in E. exists st. rewrite (writeToFile_done c e) by assumption.
    split; [reflexivity|]. repeat (split; [reflexivity|]). rewrite E. lia.
  - apply Z.eqb_neq in E.
    destruct (Z.to_nat (retries (wr st))) as [|i] eqn:Ei; [lia|].
    destruct (retry_loop_done c e file msg i (backoff (wr st)) st Hc He)
      as (st' & Hrun & Hwr & Hres & Htick & Hw & Ho & Hsl).
    exists st'. split; [exact Hrun|]. split; [exact Hwr|]. split; [exact Hres|].
    split; [exact Htick|]. split; [exact Hw|]. split; [exact Ho|].
    rewrite Hsl. lia.
Qed.

End WriteCancelled.

Section WriteCancelledTheorem.
Context {rt : Runtime}.

Lemma worker_job_cancelled c e t0 (msg : string) (job : option File) st :
  done_after c e t0 st -> message (wr st) = Some msg -> 0 <= retries (wr st) ->
  exists o st',
    worker_job job st = Ret (o, st') /\
    o <> Written /\
    same_settings (wr st) (wr st') /\
    done_after c e t0 st' /\
    res st' = one_more_failure (job_error (retries (wr st)) e job) (res st) /\
    writes (os st') = writes (os st) /\
    opens (os st') = opens (os st) /\
    Z.of_nat (length (sleeps st'))
    = Z.of_nat (length (sleeps st))
      + match job with
        | Some _ => Z.max 0 (retries (wr st) - 1)
        | None => 0
        end.
Proof.
  intros (Hc & Hdone & Ht0) Hmsg Hret.
  destruct job as [f|].
  - destruct (GetConn_ticks f st)
      as (r & st1 & Hconn & Hsame1 & Hres1 & Htick1 & Hw1 & Ho1 & Hs1).
    assert (Hc1 : ctx (wr st1) = Some c).
    { destruct Hsame1 as (_ & _ & _ & _ & _ & _ & Hctx). rewrite Hctx. exact Hc. }
    assert (Hret1 : retries (wr st1) = retries (wr st)) by apply Hsame1.
    assert (Hmsg1 : message (wr st1) = Some msg).
    { destruct Hsame1 as (_ & _ & Hm & _). rewrite Hm. exact Hmsg. }
    destruct (retry_done c e (Some r) msg st1 Hc1)
      as (st2 & Hretry & Hwr2 & Hres2 & Htick2 & Hw2 & Ho2 & Hs2).
    { apply Hdone. lia. }
    { rewrite Hret1. exact Hret. }
    unfold worker_job. rewrite bind_exec, Hconn, bind_exec. unfold get at 1.
    rewrite Hmsg1, bind_exec, Hretry, bind_exec.
    unfold record_failure, set_res, modify. cbn [ret].
    eexists _, _. split; [reflexivity|]. cbn [wr res os].
    split; [discriminate|]. rewrite Hwr2.
    split; [exact Hsame1|].
    split; [split; [exact Hc1|]; split; [exact Hdone|]; cbn [os]; lia|].
    split; [rewrite Hres2, Hres1, Hret1; reflexivity|].
    split; [congruence|]. split; [congruence|].
    unfold sleeps in *. cbn [os]. rewrite Hs2, Hs1, Hret1. reflexivity.
  - exists AcquisitionFailed. eexists. split; [reflexivity|]. cbn [wr res os].
    split; [discriminate|]. split; [apply same_settings_refl|].
    split; [split; [exact Hc|]; split; [exact Hdone | exact Ht0]|].
    split; [reflexivity|]. split; [reflexivity|]. split; [reflexivity|].
    unfold sleeps. cbn [os]. lia.
Qed.

Lemma run_jobs_cancelled c e t0 (msg : string) (jobs : list (option File)) : forall st,
  done_after c e t0 st -> message (wr st) = Some msg -> 0 <= retries (wr st) ->
  0 <= Failure (res st) ->
  Failure (res st) + Z.of_nat (length jobs) < uint64_modulus ->
  exists outs st',
    run_jobs jobs st = Ret (outs, st') /\
    Forall (fun o => o <> Written) outs /\
    length outs = length jobs /\
    same_settings (wr st) (wr st') /\
    Success (res st') = Success (res st) /\
    Failure (res st') = Failure (res st) + Z.of_nat (length jobs) /\
    ErrSlice (res st') = ErrSlice (res st) ++ (job_error (retries (wr st)) e <$> jobs) /\
    Info (res st') = Info (res st) /\
    writes (os st') = writes (os st) /\
    opens (os st') = opens (os st) /\
    Z.of_nat (length (sleeps st'))
    = Z.of_nat (length (sleeps st))
      + Z.max 0 (retries (wr st) - 1) * Z.of_nat (length (target_names jobs)).
Proof.
  induction jobs as [|j jobs IH]; intros st Hdone Hmsg Hret Hf0 Hf1.
  - exists [], st. split; [reflexivity|]. split; [constructor|]. split; [reflexivity|].
    split; [apply same_settings_refl|]. split; [reflexivity|]. split; [cbn; lia|].
    split; [cbn; rewrite app_nil_r; reflexivity|].
    repeat (split; [reflexivity|]). cbn. lia.
  - destruct (worker_job_cancelled c e t0 msg j st Hdone Hmsg Hret)
      as (o & st1 & Hjob & Ho & Hsame1 & Hdone1 & Hres1 & Hw1 & Hop1 & Hs1).
    cbn [length] in Hf1.
    assert (Hret1 : retries (wr st1) = retries (wr st)) by apply Hsame1.
    assert (Hmsg1 : message (wr st1) = Some msg).
    { destruct Hsame1 as (_ & _ & Hm & _). rewrite Hm. exact Hmsg. }
    assert (Hfail1 : Failure (res st1) = Failure (res st) + 1).
    { rewrite Hres1. cbn [Failure one_more_failure]. unfold wrap_uint64.
      apply Z.mod_small. lia. }
    destruct (IH st1 Hdone1 Hmsg1) as
      (outs & st2 & Hrun & Houts & Hlen & Hsame2 & Hsucc2 & Hfail2 & Herr2 & Hinfo2
       & Hw2 & Hop2 & Hs2); [lia | lia | lia |].
    exists (o :: outs), st2.
    cbn [run_jobs]. rewrite bind_exec, Hjob, bind_exec, Hrun. cbn [ret].
    split; [reflexivity|]. split; [constructor; assumption|].
    split; [cbn; rewrite Hlen; reflexivity|].
    split; [eapply same_settings_trans; eassumption|].
    split; [rewrite Hsucc2, Hres1; reflexivity|].
    split; [rewrite Hfail2, Hfail1; cbn [length]; lia|].
    split; [rewrite Herr2, Hres1, Hret1; cbn [ErrSlice one_more_failure fmap list_fmap];
            rewrite <- app_assoc; reflexivity|].
    split; [rewrite Hinfo2, Hres1; reflexivity|].
    split; [congruence|]. split; [congruence|].
    rewrite Hs2, Hs1, Hret1.
    set (X := Z.max 0 (retries (wr st) - 1)). clearbody X.
    destruct j as [f|].
    + change (target_names (Some f :: jobs)) with (Name f :: target_names jobs).
      cbn [length]. rewrite Nat2Z.inj_succ. nia.
    + change (target_names (None :: jobs)) with (target_names jobs). lia.
Qed.

Lemma Write_cancelled (w : Writer) (maxWorkers : Z) (o : OS)
    (fs : list (option File)) (c : Context) (e : error) :
  validly_configured w o fs ->
  ctx w = Some c ->
  (forall t, (tick o < t)%nat -> Err c t = Some e) ->
  0 <= retries w ->
  exists r outs st' order,
    Write (Some w) maxWorkers o = Ret ((Some r, None, outs), st') /\
    Total r = Z.of_nat (length fs) /\
    Success r = 0 /\
    Failure r = Z.of_nat (length fs) /\
    order ≡ₚ fs /\
    ErrSlice r = job_error (retries w) e <$> order /\
    Forall (fun o => o <> Written) outs /\
    SuccessRate r = float64_zero /\
    FailureRate r = float64_one /\
    writes (os st') = writes o /\
    opens (os st') = opens o /\
    Z.of_nat (length (sleeps st'))
    = Z.of_nat (length (sleeps {| wr := w; res := NewResults; os := o |}))
      + Z.max 0 (retries w - 1) * Z.of_nat (length (target_names fs)).
Proof.
  intros Hvalid Hc Hdone Hret.
  pose proof Hvalid as (Hfiles & Hne & Hlen & (_ & _ & [msg Hmsg]) & _).
  set (st0 := {| wr := w; res := NewResults; os := o |}).
  set (k := worker_count maxWorkers (Z.of_nat (length fs))).
  destruct (run_jobs_cancelled c e (tick o) msg (Schedule k fs) st0)
    as (outs & st1 & Hrun & Houts & Hlenouts & Hsame & Hsucc & Hfail & Herr & Hinfo
        & Hw & Hop & Hs).
  { split; [exact Hc|]. split; [exact Hdone | reflexivity]. }
  { exact Hmsg. }
  { exact Hret. }
  { cbn. lia. }
  { cbn. rewrite (Permutation_length (Schedule_perm k fs)).
    unfold maxSliceLen, uint64_modulus in *. lia. }
  rewrite (Permutation_length (Schedule_perm k fs)) in Hfail.
  cbn [st0 res NewResults Success Failure ErrSlice Info wr os app] in Hsucc, Hfail, Herr, Hw, Hop.
  assert (Hn : 1 <= Z.of_nat (length fs)) by (destruct fs; [congruence | cbn; lia]).
  assert (Hbig : Z.of_nat (length fs) < 2 ^ 53) by (unfold maxSliceLen in Hlen; lia).
  exists (finalize (Z.of_nat (length fs)) (res st1)), outs,
    {| wr := wr st1; res := finalize (Z.of_nat (length fs)) (res st1); os := os st1 |},
    (Schedule k fs).
  split; [exact (Write_runs_jobs w maxWorkers o fs outs st1 Hvalid Hrun)|].
  unfold finalize.
  replace (0 <? Z.of_nat (length fs)) with true by (symmetry; apply Z.ltb_lt; lia).
  cbn [Total Success Failure ErrSlice Info SuccessRate FailureRate wr os].
  rewrite Hsucc, Hfail, Herr.
  split; [reflexivity|]. split; [reflexivity|]. split; [lia|].
  split; [apply (Schedule_perm k)|]. split; [reflexivity|]. split; [exact Houts|].
  split; [apply float64_quotient_zero; lia|].
  split; [rewrite Z.add_0_l, float64_quotient_self by lia; symmetry; apply float64_one_bits|].
  split; [exact Hw|]. split; [exact Hop|].
  unfold sleeps in *. cbn [os] in *. rewrite Hs.
  rewrite (Permutation_length (target_names_Permutation _ _ (Schedule_perm k fs))).
  reflexivity.
Qed.

(** Cancelling is not stopping.  When the context of the writer is live
    as [Write] is entered and done, with the error [e], at every later
    instant, [Write] still returns results and no error.  No target is a
    success and each is a failure: nothing is opened or written, the
    error recorded for a file is [e], wrapped as "exhausted retries" when
    [retries] is not 0, and between its attempts the worker still sleeps,
    [retries - 1] times for every file among the targets. *)
Theorem Write_cancelled_after_entry (w : Writer) (maxWorkers : Z) (o : OS)
    (fs : list (option File)) (c : Context) (e : error) :
  validly_configured w o fs ->
  ctx w = Some c ->
  (forall t, (tick o < t)%nat -> Err c t = Some e) ->
  0 <= retries w ->
  exists r outs st' order,
    Write (Some w) maxWorkers o = Ret ((Some r, None, outs), st') /\
    Total r = Z.of_nat (length fs) /\
    Success r = 0 /\
    Failure r = Z.of_nat (length fs) /\
    order ≡ₚ fs /\
    ErrSlice r = job_error (retries w) e <$> order /\
    Forall (fun o => o <> Written) outs /\
    SuccessRate r = float64_zero /\
    FailureRate r = float64_one /\
    writes (os st') = writes o /\
    opens (os st') = opens o /\
    Z.of_nat (length (sleeps st'))
    = Z.of_nat (length (sleeps {| wr := w; res := NewResults; os := o |}))
      + Z.max 0 (retries w - 1) * Z.of_nat (length (target_names fs)).
Proof. exact (Write_cancelled w maxWorkers o fs c e). Qed.

End WriteCancelledTheorem.

Lemma Write_cancelled_after_entry_witness :
  exists r outs st',
    Write (rt := quiet)
      (Some (with_ctx (Some (cancelled_after 0)) (test_writer [Some file1; None] 1 3 100)))
      2 fresh_OS
    = Ret ((Some r, None, outs), st') /\
    Success r = 0 /\ Failure r = 2 /\ writes (os st') = [] /\
    length (sleeps st') = 2%nat.
Proof.
  destruct (Write_cancelled_after_entry (rt := quiet)
              (with_ctx (Some (cancelled_after 0)) (test_writer [Some file1; None] 1 3 100))
              2 fresh_OS [Some file1; None] (cancelled_after 0) "context canceled")
    as (r & outs & st' & order & Hrun & _ & Hs & Hf & _ & _ & _ & _ & _ & Hw & _ & Hsl).
  - split; [reflexivity|]. split; [discriminate|]. split; [vm_compute; discriminate|].
    split.
    + split; [eexists; reflexivity|]. split; [|eexists; reflexivity].
      exists modeA, "a"%string. split; reflexivity.
    + intros c [= <-]. reflexivity.
  - reflexivity.
  - intros t Ht. cbn in Ht |- *. destruct t; [lia | reflexivity].
  - cbn. lia.
  - exists r, outs, st'. split; [exact Hrun|]. split; [exact Hs|].
    split; [exact Hf|]. split; [exact Hw|].
    cbn in Hsl. lia.
Defined.

(** ** [Write] on a list of [nil] targets *)

Section WriteNil.
Context {rt : Runtime}.

Lemma run_jobs_nil (n : nat) : forall st,
  0 <= Failure (res st) ->
  Failure (res st) + Z.of_nat n < uint64_modulus ->
  exists r,
    run_jobs (replicate n None) st
    = Ret (replicate n AcquisitionFailed, {| wr := wr st; res := r; os := os st |}) /\
    Total r = Total (res st) /\ Success r = Success (res st) /\
    Failure r = Failure (res st) + Z.of_nat n /\
    ErrSlice r = ErrSlice (res st) ++ replicate n "nil file pointer received"%string /\
    Info r = Info (res st).
Proof.
  induction n as [|n IH]; intros st H0 H1.
  - exists (res st). cbn [replicate run_jobs ret]. destruct st as [w r o]. cbn.
    split; [reflexivity|]. repeat (split; [reflexivity || lia|]).
    split; [rewrite app_nil_r; reflexivity | reflexivity].
  - set (st1 := {| wr := wr st;
                   res := one_more_failure "nil file pointer received" (res st);
                   os := os st |}).
    assert (Hf1 : Failure (res st1) = Failure (res st) + 1).
    { cbn. unfold wrap_uint64. apply Z.mod_small. lia. }
    destruct (IH st1) as (r & Hrun & Ht & Hs & Hf & He & Hi); [lia | lia |].
    exists r. cbn [replicate run_jobs]. rewrite bind_exec.
    change (worker_job None st) with (Ret (AcquisitionFailed, st1)).
    cbv beta iota. rewrite bind_exec, Hrun. cbn [ret wr os st1].
    split; [reflexivity|]. split; [exact Ht|]. split; [exact Hs|].
    split; [rewrite Hf, Hf1; lia|]. split; [|exact Hi].
    rewrite He. cbn [st1 res one_more_failure ErrSlice]. rewrite <- app_assoc. reflexivity.
Qed.

(** When every target is [nil], [Write] fails each of them with "nil file
    pointer received" and touches neither the writer nor the operating
    system: no clock is read, no pool entry made, nothing opened. *)
Theorem Write_nil_targets (w : Writer) (maxWorkers : Z) (o : OS) (n : nat) :
  validly_configured w o (replicate n None) ->
  exists r,
    Write (Some w) maxWorkers o
    = Ret ((Some r, None, replicate n AcquisitionFailed),
           {| wr := w; res := r; os := o |}) /\
    Total r = Z.of_nat n /\ Success r = 0 /\ Failure r = Z.of_nat n /\
    ErrSlice r = replicate n "nil file pointer received"%string /\
    Info r = ∅ /\
    SuccessRate r = float64_zero /\ FailureRate r = float64_one.
Proof.
  intros Hvalid.
  pose proof Hvalid as (_ & Hne & Hlen & _).
  rewrite length_replicate in Hlen.
  assert (Hn : 1 <= Z.of_nat n) by (destruct n; [cbn in Hne; congruence | lia]).
  assert (Hbig : Z.of_nat n < 2 ^ 53) by (unfold maxSliceLen in Hlen; lia).
  set (st0 := {| wr := w; res := NewResults; os := o |}).
  destruct (run_jobs_nil n st0) as (r & Hrun & Ht & Hs & Hf & He & Hi).
  { cbn. lia. }
  { cbn. unfold maxSliceLen, uint64_modulus in *. lia. }
  assert (Hsched : forall k, Schedule k (replicate n (@None File)) = replicate n None).
  { intros k. symmetry. apply replicate_Permutation. symmetry. apply Schedule_perm. }
  rewrite <- (Hsched (worker_count maxWorkers (Z.of_nat (length (replicate n (@None File))))))
    in Hrun.
  pose proof (Write_runs_jobs w maxWorkers o _ _ _ Hvalid Hrun) as HW.
  rewrite length_replicate in HW. cbn [wr res os] in HW.
  exists (finalize (Z.of_nat n) r). split; [exact HW|].
  unfold finalize.
  replace (0 <? Z.of_nat n) with true by (symmetry; apply Z.ltb_lt; lia).
  cbn [Total Success Failure ErrSlice Info SuccessRate FailureRate].
  cbn [st0 res NewResults Total Success Failure ErrSlice Info app] in Ht, Hs, Hf, He, Hi.
  rewrite Hs, Hf, He, Hi.
  split; [reflexivity|]. split; [reflexivity|]. split; [lia|]. split; [reflexivity|].
  split; [reflexivity|].
  split; [apply float64_quotient_zero; lia|].
  rewrite Z.add_0_l, float64_quotient_self by lia. symmetry. apply float64_one_bits.
Qed.

End WriteNil.

Lemma Write_nil_targets_witness :
  exists r,
    Write (rt := quiet) (Some (test_writer [None; None] 1 3 100)) 2 fresh_OS
    = Ret ((Some r, None, [AcquisitionFailed; AcquisitionFailed]),
           {| wr := test_writer [None; None] 1 3 100; res := r; os := fresh_OS |}) /\
    Failure r = 2.
Proof.
  destruct (Write_nil_targets (rt := quiet) (test_writer [None; None] 1 3 100) 2
              fresh_OS 2) as (r & Hrun & _ & _ & Hf & _).
  - apply test_writer_valid; [discriminate | vm_compute; discriminate].
  - exists r. split; [exact Hrun | exact Hf].
Defined.

(** ** [WriteWithTimeout] *)

Section TimeoutTheorems.
Context {rt : Runtime} {tm : Timers}.

(** With a timeout that is not positive, [WriteWithTimeout] returns
    "context deadline exceeded" and no results whatever the writer is
    configured with, and does nothing but replace the context of the
    writer; on a [nil] writer it panics. *)
Theorem WriteWithTimeout_expired (w : Writer) (maxWorkers timeout : Z) (o : OS) :
  timeout <= 0 ->
  WriteWithTimeout (Some w) maxWorkers timeout o
  = Ret ((None, Some DeadlineExceeded, []),
         {| wr := with_ctx (Some (timerCtx (tick o) (Some (tick o)))) w;
            res := NewResults; os := o |}) /\
  WriteWithTimeout None maxWorkers timeout o = Panic nil_dereference.
Proof.
  intros Hneg. split; [|reflexivity].
  unfold WriteWithTimeout. rewrite (expiry_past timeout (tick o) Hneg).
  cbn [SetContext assign Go_bind]. unfold Write, Write_body. rewrite bind_exec.
  unfold get at 1. cbn [wr os with_ctx ctx timerCtx Err].
  rewrite Nat.leb_refl. reflexivity.
Qed.

(** [WriteWithTimeout] leaves its context in the writer, cancelled.  So
    once it has returned, whatever it returned, every [Write] on the
    writer returns "context canceled" or "context deadline exceeded" and
    does nothing, until the context is replaced. *)
Theorem WriteWithTimeout_spoils_context (w : Writer) (maxWorkers timeout : Z) (o : OS)
    (r : option Results * option error * list Outcome) (st : State) :
  WriteWithTimeout (Some w) maxWorkers timeout o = Ret (r, st) ->
  forall maxWorkers' o',
    (tick (os st) <= tick o')%nat ->
    exists e,
      (e = DeadlineExceeded \/ e = Canceled) /\
      Write (Some (wr st)) maxWorkers' o'
      = Ret ((None, Some e, []), {| wr := wr st; res := NewResults; os := o' |}).
Proof.
  unfold WriteWithTimeout. cbn [SetContext assign Go_bind].
  destruct (Write (Some (with_ctx _ w)) maxWorkers o) as [[r1 st1]|msg] eqn:Hrun;
    cbn [Go_bind]; [|discriminate].
  intros [= <- <-] maxWorkers' o' Hlater. cbn [wr os] in *.
  unfold Write, Write_body. rewrite bind_exec. unfold get at 1.
  cbn [wr os with_ctx ctx timerCtx Err].
  destruct (expiry timeout (tick o) <=? tick (os st1))%nat eqn:E.
  - apply Nat.leb_le in E.
    replace (expiry timeout (tick o) <=? tick o')%nat with true
      by (symmetry; apply Nat.leb_le; lia).
    exists DeadlineExceeded. split; [left; reflexivity | reflexivity].
  - replace (tick (os st1) <=? tick o')%nat with true
      by (symmetry; apply Nat.leb_le; lia).
    exists Canceled. split; [right; reflexivity | reflexivity].
Qed.

End TimeoutTheorems.

Lemma WriteWithTimeout_expired_witness :
  WriteWithTimeout (rt := quiet) (tm := punctual)
    (Some (test_writer [Some file1] 1 3 100)) 2 0 fresh_OS
  = Ret ((None, Some DeadlineExceeded, []),
         {| wr := with_ctx (Some (timerCtx 0 (Some 0%nat)))
                    (test_writer [Some file1] 1 3 100);
            res := NewResults; os := fresh_OS |}).
Proof.
  apply (WriteWithTimeout_expired (rt := quiet) (tm := punctual)
           (test_writer [Some file1] 1 3 100) 2 0 fresh_OS).
  lia.
Defined.

Lemma WriteWithTimeout_spoils_context_witness :
  exists e,
    Write (rt := quiet)
      (Some (with_ctx (Some (timerCtx 0 (Some 0%nat))) (test_writer [Some file1] 1 3 100)))
      2 fresh_OS
    = Ret ((None, Some e, []),
           {| wr := with_ctx (Some (timerCtx 0 (Some 0%nat)))
                      (test_writer [Some file1] 1 3 100);
              res := NewResults; os := fresh_OS |}).
Proof.
  destruct (WriteWithTimeout_spoils_context (rt := quiet) (tm := punctual)
              (test_writer [Some file1] 1 3 100) 2 0 fresh_OS
              (None, Some DeadlineExceeded, [])
              {| wr := with_ctx (Some (timerCtx 0 (Some 0%nat)))
                         (test_writer [Some file1] 1 3 100);
                 res := NewResults; os := fresh_OS |}
              eq_refl 2 fresh_OS) as (e & _ & Hrun).
  - cbn. lia.
  - exists e. exact Hrun.
Defined.

(** ** The number of batches *)

Section BatcherCount.
Context {rt : Runtime}.

(** [batcher] returns as many batches as the targets need at the
    effective batch size, rounded up, and none for an empty list.  With
    the automatic batch size ([batchSize <= 0]) there are at least as
    many batches as CPUs, or as targets when these are fewer, and fewer
    than twice as many as CPUs. *)
Theorem batcher_count (w : Writer) (fs : list (option File)) (batchSize : Z) :
  files w = Some fs ->
  Z.of_nat (length fs) + effectiveBatchSize (Z.of_nat (length fs)) batchSize - 1 <= MaxInt ->
  exists batches,
    batcher w batchSize = Ret batches /\
    Z.of_nat (length batches)
    = (Z.of_nat (length fs) + effectiveBatchSize (Z.of_nat (length fs)) batchSize - 1)
      / effectiveBatchSize (Z.of_nat (length fs)) batchSize /\
    (fs = [] -> batches = []) /\
    (batchSize <= 0 ->
     Z.min (Z.of_nat (length fs)) NumCPU <= Z.of_nat (length batches) <= 2 * NumCPU - 1).
Proof.
  intros Hfiles Hmax.
  set (n := Z.of_nat (length fs)) in *.
  set (b := effectiveBatchSize n batchSize) in *.
  assert (Hn : 0 <= n) by (subst n; lia).
  assert (Hb : 0 < b) by (apply effectiveBatchSize_pos; lia).
  set (N := (n + b - 1) / b).
  assert (HN : n + b - 1 = b * N + (n + b - 1) mod b) by (apply Z.div_mod; lia).
  assert (Hr : 0 <= (n + b - 1) mod b < b) by (apply Z.mod_pos_bound; lia).
  assert (HN0 : 0 <= N) by (subst N; apply Z.div_pos; lia).
  assert (Hnum : Z.quot (wrap_int (wrap_int (n + b) - 1)) b = N).
  { replace (wrap_int (n + b) - 1) with (wrap_int (n + b) + (-1)) by lia.
    rewrite wrap_int_add_l.
    rewrite wrap_int_small by (unfold MinInt; lia).
    replace (n + b + -1) with (n + b - 1) by lia.
    apply Z.quot_div_nonneg; lia. }
  destruct (batcher_loop_spec fs b N Hb) with (k := Z.to_nat N) (i := 0)
    as (bs & Hrun & Hcat & Hlen & Hsizes); [fold n; nia | fold n; nia | nia | lia | lia |].
  fold n in Hrun.
  exists bs. split.
  { unfold batcher. rewrite Hfiles. fold n. fold b. rewrite Hnum.
    destruct (N <? 0) eqn:E; [apply Z.ltb_lt in E; lia | exact Hrun]. }
  split; [rewrite Hlen; lia|]. split.
  - intros ->. cbn in n. subst n.
    assert (N = 0) by (subst N; apply Z.div_small; lia).
    destruct bs; [reflexivity | cbn in Hlen; lia].
  - intros Hauto. rewrite Hlen, Z2Nat.id by lia.
    pose proof NumCPU_range as Hcpu.
    assert (Hbv : b = if n / NumCPU =? 0 then 1 else n / NumCPU).
    { subst b. unfold effectiveBatchSize.
      destruct (batchSize <=? 0) eqn:E; [|apply Z.leb_gt in E; lia].
      rewrite Z.quot_div_nonneg by lia. reflexivity. }
    assert (Hc0 : NumCPU <> 0) by lia.
    assert (Hc1 : 0 < NumCPU) by lia.
    pose proof (Z.div_mod n NumCPU Hc0) as Hdm.
    pose proof (Z.mod_pos_bound n NumCPU Hc1) as Hrm.
    assert (0 <= n / NumCPU) by (apply Z.div_pos; lia).
    destruct (n / NumCPU =? 0) eqn:E0.
    + apply Z.eqb_eq in E0. rewrite E0 in Hdm.
      assert (N = n) by (subst N; rewrite Hbv, Z.div_1_r; lia).
      lia.
    + apply Z.eqb_neq in E0. split.
      * apply Z.le_trans with NumCPU; [lia|].
        subst N. apply Z.div_le_lower_bound; [lia|]. nia.
      * assert (N < 2 * NumCPU); [|lia].
        subst N. apply Z.div_lt_upper_bound; [lia|]. nia.
Qed.

End BatcherCount.

Lemma batcher_count_witness :
  exists batches,
    batcher (rt := quiet) (test_writer [Some file1; None; Some file2] 1 3 100) 2 = Ret batches /\
    length batches = 2%nat.
Proof.
  destruct (batcher_count (rt := quiet)
              (test_writer [Some file1; None; Some file2] 1 3 100)
              [Some file1; None; Some file2] 2)
    as (batches & Hrun & Hlen & _).
  - reflexivity.
  - vm_compute. discriminate.
  - exists batches. split; [exact Hrun|].
    change (Z.of_nat (length batches) = 2) in Hlen. lia.
Defined.

(** ** Sleeping before a success *)

Section RetrySleeps.
Variable function : option File -> string -> M (option error).
Variable file : option File.
Variable message : string.
Variable calls : State -> nat.
Hypothesis Hcount : counts_invocations function file message calls.
Hypothesis Hquiet : forall s r s', function file message s = Ret (r, s') -> sleeps s' = sleeps s.

Lemma retry_loop_sleeps_until_success (k : nat) :
  forall i b st,
  (1 <= k <= i)%nat ->
  (forall s, (calls st <= calls s < calls st + k - 1)%nat -> fails_at function file message s) ->
  (forall s, calls s = (calls st + k - 1)%nat -> succeeds_at function file message s) ->
  exists st',
    retry_loop function file message i b st = Ret (None, st') /\
    sleeps st' = sleeps st ++ (pause <$> backoffs b (k - 1)) /\
    calls st' = (calls st + k)%nat.
Proof.
  destruct Hcount as [Hinc Hsl].
  induction k as [|k IH]; intros i b st Hk Hfail Hok; [lia|].
  destruct i as [|i]; [lia|].
  destruct (Hinc st) as (r & s1 & Hr & Hc).
  rewrite retry_loop_S, Hr.
  destruct k as [|k].
  - destruct (Hok st) as (s' & Hs'); [lia|].
    rewrite Hs' in Hr. injection Hr as <- <-.
    exists s'. split; [reflexivity|]. cbn [backoffs Nat.sub fmap list_fmap].
    split; [rewrite app_nil_r; apply (Hquiet _ _ _ Hs') | lia].
  - destruct (Hfail st) as (e & s' & He); [lia|].
    rewrite He in Hr. injection Hr as <- <-.
    destruct i as [|i]; [lia|].
    set (s2 := on_os {| tick := tick (os s'); closed := closed (os s');
                        next_fd := next_fd (os s');
                        trace := EvSleep (pause b) :: trace (os s') |} s').
    assert (Hs2 : calls s2 = calls s')
      by (apply (Hsl (Duration_mul (Duration b) Millisecond) s' s2); reflexivity).
    assert (Hsleep2 : sleeps s2 = sleeps st ++ [pause b]).
    { rewrite <- (Hquiet _ _ _ He).
      apply sleeps_after_Sleep with (d := Duration_mul (Duration b) Millisecond).
      reflexivity. }
    destruct (IH (S i) (if b <? 1000 then wrap_uint64 (b * 2) else b) s2)
      as (st' & Hrun & Hsleeps & Hc').
    + lia.
    + intros s Hs. apply Hfail. lia.
    + intros s Hs. apply Hok. lia.
    + exists st'. split; [exact Hrun|]. split; [|lia].
      rewrite Hsleeps, Hsleep2, <- app_assoc.
      replace (S (S k) - 1)%nat with (S (S k - 1)) by lia. reflexivity.
Qed.

End RetrySleeps.

Lemma pause_backoffs base n :
  0 <= base -> base * Millisecond <= MaxInt ->
  pause <$> backoffs base n = (fun b => b * Millisecond) <$> backoffs base n.
Proof.
  intros H0 Hfit.
  assert (Hb : 0 <= base < uint64_modulus)
    by (unfold Millisecond, MaxInt, uint64_modulus in *; lia).
  apply list_eq. intros i. rewrite !list_lookup_fmap.
  destruct (backoffs base n !! i) as [b|] eqn:Hi; [|reflexivity].
  cbn [fmap option_fmap option_map]. f_equal.
  assert (Hin : (i < n)%nat).
  { apply lookup_lt_Some in Hi. rewrite backoffs_length in Hi. exact Hi. }
  rewrite backoffs_lookup in Hi by exact Hin. injection Hi as <-.
  destruct (iter_backoff_inv base Hb i) as (Hge & Hle & _).
  apply pause_small; [exact Hge|]. unfold Millisecond, MaxInt in *. lia.
Qed.

(** When the first [k - 1] invocations of the operation fail and the
    [k]-th succeeds ([k] within the attempts allowed), [retry] returns
    [nil] having paused [k - 1] times, once after each failure: first for
    the base backoff, then for the values the backoff takes by doubling
    while it is below 1000.  After the success it does not pause.  The
    pause for a backoff [b] is [pause b] nanoseconds, the int64 product
    of [retry]; the pauses are [b] milliseconds each when the base
    backoff in nanoseconds fits an int64. *)
Theorem retry_sleeps_until_success
    (function : option File -> string -> M (option error))
    (file : option File) (message : string) (calls : State -> nat) (st : State) (k : nat) :
  counts_invocations function file message calls ->
  (forall s r s', function file message s = Ret (r, s') -> sleeps s' = sleeps s) ->
  0 <= retries (wr st) ->
  1 <= Z.of_nat k <= Z.max (retries (wr st)) 1 ->
  (forall s, (calls st <= calls s < calls st + k - 1)%nat ->
             fails_at function file message s) ->
  (forall s, calls s = (calls st + k - 1)%nat -> succeeds_at function file message s) ->
  exists st',
    retry function file message st = Ret (None, st') /\
    sleeps st' = sleeps st ++ (pause <$> backoffs (backoff (wr st)) (k - 1)) /\
    (0 <= backoff (wr st) -> backoff (wr st) * Millisecond <= MaxInt ->
     sleeps st'
     = sleeps st ++ ((fun b => b * Millisecond) <$> backoffs (backoff (wr st)) (k - 1))) /\
    calls st' = (calls st + k)%nat.
Proof.
  intros Hcount Hquiet Hret Hk Hfail Hok.
  assert (Hmain : exists st',
    retry function file message st = Ret (None, st') /\
    sleeps st' = sleeps st ++ (pause <$> backoffs (backoff (wr st)) (k - 1)) /\
    calls st' = (calls st + k)%nat).
  { unfold retry. rewrite bind_exec. unfold get at 1.
    destruct (retries (wr st) =? 0) eqn:E.
    - apply Z.eqb_eq in E. assert (k = 1%nat) by lia. subst k.
      destruct (Hok st) as (s' & Hs'); [lia|].
      destruct Hcount as [Hinc _]. destruct (Hinc st) as (r & s1 & Hr & Hc).
      rewrite Hs' in Hr. injection Hr as <- <-.
      exists s'. split; [exact Hs'|]. cbn [backoffs Nat.sub fmap list_fmap].
      split; [rewrite app_nil_r; apply (Hquiet _ _ _ Hs') | lia].
    - apply Z.eqb_neq in E.
      apply (retry_loop_sleeps_until_success function file message calls Hcount Hquiet k);
        [lia | exact Hfail | exact Hok]. }
  destruct Hmain as (st' & Hrun & Hsl & Hc).
  exists st'. split; [exact Hrun|]. split; [exact Hsl|]. split; [|exact Hc].
  intros H0 Hfit. rewrite Hsl, pause_backoffs by assumption. reflexivity.
Qed.

Lemma retry_sleeps_until_success_witness :
  exists st',
    retry (fails_first 2) None "m" (state_of (test_writer [] 1 5 100)) = Ret (None, st') /\
    sleeps st' = [100 * Millisecond; 200 * Millisecond].
Proof.
  destruct (retry_sleeps_until_success (fails_first 2) None "m" calls_noted
              (state_of (test_writer [] 1 5 100)) 3
              (fails_first_counts 2 None "m")) as (st' & Hrun & _ & Hsl & _).
  - intros s r s' H.
    unfold fails_first, bind, get, note_call, set_res, modify, ret in H.
    destruct (calls_noted s <? 2)%nat; injection H as _ <-; reflexivity.
  - cbn. lia.
  - cbn. lia.
  - intros s Hs. cbn in Hs.
    unfold fails_at, fails_first, bind, get, note_call, set_res, modify, ret.
    destruct (calls_noted s <? 2)%nat eqn:E; [eexists _, _; reflexivity|].
    apply Nat.ltb_ge in E. lia.
  - intros s Hs. cbn in Hs.
    unfold succeeds_at, fails_first, bind, get, note_call, set_res, modify, ret.
    destruct (calls_noted s <? 2)%nat eqn:E; [|eexists; reflexivity].
    apply Nat.ltb_lt in E. lia.
  - exists st'. split; [exact Hrun|]. apply Hsl; vm_compute; discriminate.
Defined.

(** ** The errors of [writeToFile] *)

Section WriteToFileErrors.
Context {rt : Runtime}.

Lemma file_Write_cases f data st :
  exists r o', file_Write f data st = Ret (r, on_os o' st).
Proof.
  rewrite file_Write_exec.
  destruct (bool_decide (fd f ∈ closed (os st))); [eexists _, _; reflexivity|].
  destruct (fault (tick (os st)) (SysWrite f data)); eexists _, _; reflexivity.
Qed.

Lemma Close_cases f st :
  exists r o', Close f st = Ret (r, on_os o' st).
Proof.
  rewrite Close_exec.
  destruct (bool_decide (fd f ∈ closed (os st))); eexists _, _; reflexivity.
Qed.

(** The write and the flush of [writeToFile], whatever the calls do. *)
Lemma write_and_flush_cases (target : File) (msg : string) st :
  exists r st',
    (let* written := bufio_WriteString (bufio_NewWriter target) msg in
     match written with
     | (_, Some e) =>
       Info_set (Name target) e;;;
       (if negb (Contains e "already closed")
        then let* _ := Close target in ret tt
        else ret tt);;;
       ret (Some ("error writing to file " +:+ Name target +:+ ": " +:+ e))
     | (bufferedWriter, None) =>
       let* ferr := bufio_Flush bufferedWriter in
       match ferr with
       | Some e =>
         Info_set (Name target) e;;;
         let* _ := Close target in
         ret (Some ("error flushing buffer for file " +:+ Name target +:+ ": " +:+ e))
       | None => ret None
       end
     end) st = Ret (r, st') /\
    wr st' = wr st /\
    match r with
    | None => res st' = res st
    | Some e =>
      exists cause,
        res st' = noted (Name target) cause (res st) /\
        (e = "error writing to file " +:+ Name target +:+ ": " +:+ cause \/
         e = "error flushing buffer for file " +:+ Name target +:+ ": " +:+ cause)
    end.
Proof.
  rewrite bind_exec. unfold bufio_WriteString, bufio_NewWriter. cbn [wr_file buffered].
  destruct (bufio_defaultBufSize <? String.length msg)%nat.
  - rewrite bind_exec. destruct (file_Write_cases target msg st) as (r & o1 & ->).
    cbn [ret]. destruct r as [e|].
    + rewrite bind_exec. unfold Info_set, set_res, modify. cbn [on_os wr res os].
      rewrite bind_exec.
      destruct (negb (Contains e "already closed")).
      * rewrite bind_exec.
        match goal with
        | |- context [Close target ?s] => destruct (Close_cases target s) as (rc & o2 & ->)
        end.
        cbn [ret]. eexists _, _. split; [reflexivity|]. split; [reflexivity|].
        exists e. split; [reflexivity | left; reflexivity].
      * cbn [ret]. eexists _, _. split; [reflexivity|]. split; [reflexivity|].
        exists e. split; [reflexivity | left; reflexivity].
    + rewrite bind_exec. unfold bufio_Flush. cbn [buffered ret].
      eexists _, _. split; [reflexivity|]. split; reflexivity.
  - cbn [ret]. rewrite bind_exec. unfold bufio_Flush. cbn [buffered wr_file].
    destruct msg as [|ch msg'].
    + cbn [ret]. eexists _, _. split; [reflexivity|]. split; reflexivity.
    + destruct (file_Write_cases target (String ch msg') st) as (r & o1 & ->).
      destruct r as [e|].
      * rewrite bind_exec. unfold Info_set, set_res, modify. cbn [on_os wr res os].
        rewrite bind_exec.
        match goal with
        | |- context [Close target ?s] => destruct (Close_cases target s) as (rc & o2 & ->)
        end.
        cbn [ret]. eexists _, _. split; [reflexivity|]. split; [reflexivity|].
        exists e. split; [reflexivity | right; reflexivity].
      * cbn [ret]. eexists _, _. split; [reflexivity|]. split; reflexivity.
Qed.

(** [writeToFile] keeps a record of what went wrong.  On a file, under a
    context that is live, it returns [nil] and leaves the results alone,
    or it returns an error and has noted the cause in [Info] under the
    name of the file: the error of [getFileMode] as it is, that of
    opening, writing or flushing inside the error returned.  Nothing else
    of the results changes.  For a [nil] file the note is under
    "nil_file"; when the context is done nothing is noted. *)
Theorem writeToFile_records_errors (f : File) (msg : string) (st : State)
    (c : Context) (m : Mode.t) (s : string) :
  ctx (wr st) = Some c -> mode (wr st) = Some m -> Mode.mode m = Some s ->
  (forall e, Err c (tick (os st)) = Some e ->
     writeToFile (Some f) msg st = Ret (Some e, st)) /\
  (Err c (tick (os st)) = None ->
   writeToFile None msg st
   = Ret (Some "nil file pointer received"%string,
          {| wr := wr st; res := noted "nil_file" "received nil file pointer" (res st);
             os := os st |}) /\
   exists r st',
     writeToFile (Some f) msg st = Ret (r, st') /\
     match r with
     | None => res st' = res st
     | Some e =>
       exists cause,
         res st' = noted (Name f) cause (res st) /\
         (e = cause \/
          e = "error opening file " +:+ Name f +:+ ": " +:+ cause \/
          e = "error writing to file " +:+ Name f +:+ ": " +:+ cause \/
          e = "error flushing buffer for file " +:+ Name f +:+ ": " +:+ cause)
     end).
Proof.
  intros Hc Hm Hs. split; [intros e He; apply (writeToFile_done c e); assumption|].
  intros Hlive. split.
  { unfold writeToFile. rewrite bind_exec. unfold get at 1. rewrite Hc, Hlive.
    reflexivity. }
  unfold writeToFile. rewrite bind_exec. unfold get at 1. rewrite Hc, Hlive, Hm, Hs.
  destruct (getFileMode s) as [fileMode [e|]].
  { eexists _, _. split; [reflexivity|]. exists e. split; [reflexivity | left; reflexivity]. }
  rewrite bind_exec. unfold reopen_if_needed. rewrite bind_exec, CheckConnStatus_exec.
  assert (Hwrite : forall (target : File) s1,
    Name target = Name f -> res s1 = res st ->
    exists r st',
      (let* written := bufio_WriteString (bufio_NewWriter target) msg in
       match written with
       | (_, Some e) =>
         Info_set (Name target) e;;;
         (if negb (Contains e "already closed")
          then let* _ := Close target in ret tt
          else ret tt);;;
         ret (Some ("error writing to file " +:+ Name target +:+ ": " +:+ e))
       | (bufferedWriter, None) =>
         let* ferr := bufio_Flush bufferedWriter in
         match ferr with
         | Some e =>
           Info_set (Name target) e;;;
           let* _ := Close target in
           ret (Some ("error flushing buffer for file " +:+ Name target +:+ ": " +:+ e))
         | None => ret None
         end
       end) s1 = Ret (r, st') /\
      match r with
      | None => res st' = res st
      | Some e =>
        exists cause,
          res st' = noted (Name f) cause (res st) /\
          (e = cause \/
           e = "error opening file " +:+ Name f +:+ ": " +:+ cause \/
           e = "error writing to file " +:+ Name f +:+ ": " +:+ cause \/
           e = "error flushing buffer for file " +:+ Name f +:+ ": " +:+ cause)
      end).
  { intros target s1 Hname Hres.
    destruct (write_and_flush_cases target msg s1) as (r & st' & Hrun & _ & Hr).
    exists r, st'. split; [exact Hrun|].
    destruct r as [e|]; [|rewrite Hr; exact Hres].
    destruct Hr as (cause & Hnoted & He). exists cause.
    rewrite Hnoted, Hres, Hname. split; [reflexivity|].
    rewrite Hname in He. destruct He as [He|He]; auto. }
  assert (Hopen : forall s0, res s0 = res st ->
    exists r st',
      (let* opened := OpenFile (Name f) fileMode 438 in
       match opened with
       | (Some newFile, None) =>
         let fileName := Name f in
         pool_Store fileName newFile;;;
         ret (inl newFile)
       | (_, Some e) =>
         Info_set (Name f) e;;;
         ret (inr ("error opening file " +:+ Name f +:+ ": " +:+ e))
       | (None, None) => panic nil_dereference
       end) s0 = Ret (r, st') /\
      match r with
      | inl target => Name target = Name f /\ res st' = res st
      | inr e =>
        exists cause,
          res st' = noted (Name f) cause (res st) /\
          e = "error opening file " +:+ Name f +:+ ": " +:+ cause
      end).
  { intros s0 Hres. rewrite bind_exec, OpenFile_exec.
    destruct (fault (tick (os s0)) (SysOpenFile (Name f) fileMode 438)) as [e|].
    - eexists _, _. split; [reflexivity|]. exists e. cbn. rewrite Hres.
      split; reflexivity.
    - cbv zeta. unfold bind, pool_Store, set_wr, modify, ret.
      eexists _, _. split; [reflexivity|]. cbn. split; [reflexivity | exact Hres]. }
  assert (Hrest : forall s0 (live : bool), res s0 = res st ->
    exists r st',
      match
        (if negb live
         then
           let* opened := OpenFile (Name f) fileMode 438 in
           match opened with
           | (Some newFile, None) =>
             let fileName := Name f in
             pool_Store fileName newFile;;;
             ret (inl newFile)
           | (_, Some e) =>
             Info_set (Name f) e;;;
             ret (inr ("error opening file " +:+ Name f +:+ ": " +:+ e))
           | (None, None) => panic nil_dereference
           end
         else ret (inl f)) s0
      with
      | Ret (a, st'0) =>
        match a with
        | inl file =>
          let bufferedWriter := bufio_NewWriter file in
          let* written := bufio_WriteString bufferedWriter msg in
          match written with
          | (_, Some e) =>
            Info_set (Name file) e;;;
            (if negb (Contains e "already closed")
             then let* _ := Close file in ret tt
             else ret tt);;;
            ret (Some ("error writing to file " +:+ Name file +:+ ": " +:+ e))
          | (bufferedWriter0, None) =>
            let* ferr := bufio_Flush bufferedWriter0 in
            match ferr with
            | Some e =>
              Info_set (Name file) e;;;
              let* _ := Close file in
              ret (Some ("error flushing buffer for file " +:+ Name file +:+ ": " +:+ e))
            | None => ret None
            end
          end
        | inr e => ret (Some e)
        end st'0
      | Panic msg0 => Panic msg0
      end = Ret (r, st') /\
      match r with
      | None => res st' = res st
      | Some e =>
        exists cause,
          res st' = noted (Name f) cause (res st) /\
          (e = cause \/
           e = "error opening file " +:+ Name f +:+ ": " +:+ cause \/
           e = "error writing to file " +:+ Name f +:+ ": " +:+ cause \/
           e = "error flushing buffer for file " +:+ Name f +:+ ": " +:+ cause)
      end).
  { intros s0 live Hres.
    destruct live; [change (negb true) with false | change (negb false) with true];
      cbv iota.
    - cbn [ret]. apply Hwrite; [reflexivity | exact Hres].
    - destruct (Hopen s0 Hres) as (r & s1 & -> & Hr).
      destruct r as [target|e].
      + destruct Hr as [Hname Hres1]. apply Hwrite; assumption.
      + cbn [ret]. destruct Hr as (cause & Hnoted & ->).
        eexists _, _. split; [reflexivity|]. exists cause. split; [exact Hnoted|].
        right; left; reflexivity. }
  destruct (openFilesPool (wr st) !! Name f) as [h|].
  - apply Hrest. reflexivity.
  - apply (Hrest st false). reflexivity.
Qed.

End WriteToFileErrors.

Lemma writeToFile_records_errors_witness :
  exists st',
    writeToFile (rt := quiet) (Some file1) "m" pooled_state = Ret (None, st') /\
    res st' = res pooled_state.
Proof.
  destruct (writeToFile_records_errors (rt := quiet) file1 "m" pooled_state
              Background modeA "a" eq_refl eq_refl eq_refl) as [_ Hlive].
  destruct (Hlive eq_refl) as (_ & r & st' & Hrun & Hr).
  assert (Hnone : r = None).
  { vm_compute in Hrun. injection Hrun as <- _. reflexivity. }
  subst r. exists st'. split; [exact Hrun | exact Hr].
Defined.

(** ** Adding a connection and taking it away again *)

Section PoolRoundTrip.
Context {rt : Runtime}.

(** A handle added with [AddConn] under a name the writer does not know
    is found by [CheckConnStatus] exactly when it is open and [Stat] on it
    works.  [CloseConn] then brings the pool and the last-used index back
    to what they were, with the handle closed, and [CheckConnStatus] no
    longer finds it; [RemoveConn] instead brings back the pool only. *)
Theorem AddConn_then_CloseConn (f : File) (st : State) :
  openFilesPool (wr st) !! Name f = None ->
  connLastUsed (wr st) !! Name f = None ->
  exists st1,
    AddConn (Some f) st = Ret (None, st1) /\
    (exists b s,
       CheckConnStatus (Some f) st1 = Ret (b, s) /\
       (b = true <->
        (fd f ∉ closed (os st)) /\ fault (S (tick (os st))) (SysStat f) = None)) /\
    (exists r st2,
       CloseConn (Some f) st1 = Ret (r, st2) /\
       openFilesPool (wr st2) = openFilesPool (wr st) /\
       connLastUsed (wr st2) = connLastUsed (wr st) /\
       fd f ∈ closed (os st2) /\
       CheckConnStatus (Some f) st2 = Ret (false, st2)) /\
    (exists st2,
       RemoveConn (Some f) st1 = Ret (None, st2) /\
       openFilesPool (wr st2) = openFilesPool (wr st) /\
       connLastUsed (wr st2)
       = <[Name f := clock (tick (os st))]> (connLastUsed (wr st))).
Proof.
  intros Hpool Hlast.
  set (st1 := {| wr := with_lastUsed
                         (<[Name f := clock (tick (os st))]> (connLastUsed (wr st)))
                         (with_pool (<[Name f := f]> (openFilesPool (wr st))) (wr st));
                 res := res st; os := later 1 (os st) |}).
  assert (Hadd : AddConn (Some f) st = Ret (None, st1)).
  { unfold AddConn. rewrite bind_exec. unfold get at 1. rewrite Hpool. reflexivity. }
  exists st1. split; [exact Hadd|]. subst st1. split; [|split].
  - rewrite CheckConnStatus_exec. cbn [wr openFilesPool with_pool with_lastUsed].
    rewrite lookup_insert_eq. eexists _, _. split; [reflexivity|].
    cbn [os]. change (tick (later 1 (os st))) with (S (tick (os st))).
    change (closed (later 1 (os st))) with (closed (os st)).
    rewrite negb_true_iff, orb_false_iff.
    rewrite !bool_decide_eq_false. split.
    + intros [Hopen Hstat]. split; [exact Hopen|].
      destruct (fault (S (tick (os st))) (SysStat f)); [|reflexivity].
      exfalso. apply Hstat. eexists; reflexivity.
    + intros [Hopen Hstat]. split; [exact Hopen|]. rewrite Hstat. intros [? ?]. discriminate.
  - unfold CloseConn. rewrite bind_exec. unfold get at 1.
    cbn [wr openFilesPool with_pool with_lastUsed]. rewrite lookup_insert_eq.
    rewrite bind_exec. unfold pool_Delete, set_wr, modify.
    rewrite bind_exec. unfold lastUsed_Delete, set_wr, modify.
    rewrite bind_exec, Close_exec. cbn [wr res os openFilesPool connLastUsed with_pool
      with_lastUsed].
    change (tick (later 1 (os st))) with (S (tick (os st))).
    change (closed (later 1 (os st))) with (closed (os st)).
    rewrite !delete_insert_id by assumption.
    destruct (bool_decide (fd f ∈ closed (os st))) eqn:Hdead.
    + apply bool_decide_eq_true in Hdead. cbn [ret].
      eexists _, _. split; [reflexivity|].
      cbn [wr res os openFilesPool connLastUsed with_pool with_lastUsed on_os closed later].
      split; [reflexivity|]. split; [reflexivity|]. split; [exact Hdead|].
      rewrite CheckConnStatus_exec.
      cbn [wr res os openFilesPool connLastUsed with_pool with_lastUsed on_os].
      rewrite Hpool. reflexivity.
    + destruct (fault (S (tick (os st))) (SysClose f)); cbn [ret];
        (eexists _, _; split; [reflexivity|];
         cbn [wr res os openFilesPool connLastUsed with_pool with_lastUsed on_os closed
              later];
         split; [reflexivity|]; split; [reflexivity|]; split; [set_solver|];
         rewrite CheckConnStatus_exec;
         cbn [wr res os openFilesPool connLastUsed with_pool with_lastUsed on_os];
         rewrite Hpool; reflexivity).
  - unfold RemoveConn. rewrite bind_exec. unfold get at 1.
    cbn [wr openFilesPool with_pool with_lastUsed]. rewrite lookup_insert_eq.
    unfold bind, pool_Delete, set_wr, modify, ret. cbn.
    eexists. split; [reflexivity|]. cbn.
    split; [apply delete_insert_id, Hpool | reflexivity].
Qed.

(** [SetContext] checks nothing: it takes a [nil] context, also on a
    writer that [fullWriteCheck] accepts before and after, and from then
    on [Write] panics. *)
Theorem SetContext_nil_then_Write_panics (w : Writer) (maxWorkers : Z) (o : OS) :
  SetContext (Some w) None = Ret (Some (with_ctx None w)) /\
  fullWriteCheck (Some (with_ctx None w)) = fullWriteCheck (Some w) /\
  Write (Some (with_ctx None w)) maxWorkers o = Panic nil_dereference /\
  (forall file msg, writeToFile file msg {| wr := with_ctx None w; res := NewResults; os := o |}
                    = Panic nil_dereference).
Proof. repeat split. Qed.

End PoolRoundTrip.

Lemma AddConn_then_CloseConn_witness :
  exists st1 r st2,
    AddConn (rt := quiet) (Some file1) (state_of (test_writer [] 1 3 100)) = Ret (None, st1) /\
    CloseConn (rt := quiet) (Some file1) st1 = Ret (r, st2) /\
    openFilesPool (wr st2) = ∅.
Proof.
  destruct (AddConn_then_CloseConn (rt := quiet) file1 (state_of (test_writer [] 1 3 100)))
    as (st1 & Hadd & _ & (r & st2 & Hclose & Hpool & _) & _).
  - reflexivity.
  - reflexivity.
  - exists st1, r, st2. split; [exact Hadd|]. split; [exact Hclose | exact Hpool].
Defined.

(** ** [StartWriteWithCancel] *)

Section WithCancelTheorems.
Context {rt : Runtime}.



End WithCancelTheorems.

(** ** The pool during [Write] *)

Section WritePool.
Context {rt : Runtime}.

(** What one acquisition does to the pool: entries may go, and the only
    entry that may come is the file under its name; the handle returned
    is the one pooled under the name afterwards. *)
Lemma GetConn_pool (f : File) st :
  exists r st1,
    GetConn (Some f) st = Ret ((Some r, None), st1) /\
    (forall k h, openFilesPool (wr st1) !! k = Some h ->
       openFilesPool (wr st) !! k = Some h \/ (k = Name f /\ h = f)) /\
    openFilesPool (wr st1) !! Name f = Some r.
Proof.
  assert (Hadmit : forall st0,
    (forall k h, openFilesPool (wr st0) !! k = Some h -> openFilesPool (wr st) !! k = Some h) ->
    exists r st1,
      match evict_if_full st0 with
      | Ret (_, st2) =>
        Ret ((Some f, @None error),
             {| wr := with_lastUsed
                        (<[Name f := clock (tick (os st2))]> (connLastUsed (wr st2)))
                        (with_pool (<[Name f := f]> (openFilesPool (wr st2))) (wr st2));
                res := res st2; os := later 1 (os st2) |})
      | Panic msg => Panic msg
      end = Ret ((Some r, None), st1) /\
      (forall k h, openFilesPool (wr st1) !! k = Some h ->
         openFilesPool (wr st) !! k = Some h \/ (k = Name f /\ h = f)) /\
      openFilesPool (wr st1) !! Name f = Some r).
  { intros st0 Hsub. rewrite evict_if_full_exec. cbv zeta.
    destruct (maxConns (wr st0) <=? _);
      [destruct (negb _);
       [destruct (openFilesPool (wr st0) !! _) as [oldFile|] eqn:Hold|]|];
      (exists f; eexists; split; [reflexivity|];
       cbn [wr res os with_pool with_lastUsed openFilesPool connLastUsed];
       split; [|apply lookup_insert_eq];
       intros k h Hl; apply lookup_insert_Some in Hl as [[<- <-]|[_ Hl]];
       [right; split; reflexivity | left]).
    - apply lookup_delete_Some in Hl as [_ Hl]. apply Hsub, Hl.
    - apply Hsub, Hl.
    - apply Hsub, Hl.
    - apply Hsub, Hl. }
  rewrite GetConn_exec, lookup_live_exec.
  destruct (openFilesPool (wr st) !! Name f) as [h|] eqn:Hh.
  - destruct (bool_decide (fd h ∈ closed (os st))
              || bool_decide (is_Some (fault (tick (os st)) (SysStat h)))).
    + apply Hadmit. cbn [wr with_pool with_lastUsed openFilesPool].
      intros k h' Hl. apply lookup_delete_Some in Hl as [_ Hl]. exact Hl.
    + exists h. eexists. split; [reflexivity|].
      cbn [wr with_pool with_lastUsed openFilesPool].
      split; [intros k h' Hl; left; exact Hl | exact Hh].
  - apply Hadmit. intros k h Hl. exact Hl.
Qed.

(** [writeToFile] changes the writer at most by putting a new handle for
    the file under its name. *)
Lemma writeToFile_wr (file : option File) (msg : string) st :
  runnable (wr st) ->
  exists r st',
    writeToFile file msg st = Ret (r, st') /\
    (wr st' = wr st \/
     exists f nf, file = Some f /\ Name nf = Name f /\
       wr st' = with_pool (<[Name f := nf]> (openFilesPool (wr st))) (wr st)).
Proof.
  intros ([c Hc] & (m & s & Hm & Hs) & _).
  unfold writeToFile. rewrite bind_exec. unfold get at 1. rewrite Hc.
  destruct (Err c (tick (os st))) as [e|]; [eexists _, _; split; [reflexivity | left; reflexivity]|].
  destruct file as [f|]; [|eexists _, _; split; [reflexivity | left; reflexivity]].
  rewrite Hm, Hs.
  destruct (getFileMode s) as [fileMode [e|]];
    [eexists _, _; split; [reflexivity | left; reflexivity]|].
  rewrite bind_exec. unfold reopen_if_needed. rewrite bind_exec, CheckConnStatus_exec.
  assert (Hwrite : forall (target : File) s1,
    (wr s1 = wr st \/
     exists f0 nf, Some f = Some f0 /\ Name nf = Name f0 /\
       wr s1 = with_pool (<[Name f0 := nf]> (openFilesPool (wr st))) (wr st)) ->
    exists r st',
      (let* written := bufio_WriteString (bufio_NewWriter target) msg in
       match written with
       | (_, Some e) =>
         Info_set (Name target) e;;;
         (if negb (Contains e "already closed")
          then let* _ := Close target in ret tt
          else ret tt);;;
         ret (Some ("error writing to file " +:+ Name target +:+ ": " +:+ e))
       | (bufferedWriter, None) =>
         let* ferr := bufio_Flush bufferedWriter in
         match ferr with
         | Some e =>
           Info_set (Name target) e;;;
           let* _ := Close target in
           ret (Some ("error flushing buffer for file " +:+ Name target +:+ ": " +:+ e))
         | None => ret None
         end
       end) s1 = Ret (r, st') /\
      (wr st' = wr st \/
       exists f0 nf, Some f = Some f0 /\ Name nf = Name f0 /\
         wr st' = with_pool (<[Name f0 := nf]> (openFilesPool (wr st))) (wr st))).
  { intros target s1 Hwr.
    destruct (write_and_flush_cases target msg s1) as (r & st' & Hrun & Hsame & _).
    exists r, st'. split; [exact Hrun|]. rewrite Hsame. exact Hwr. }
  assert (Hrest : forall s0 (live : bool), wr s0 = wr st ->
    exists r st',
      match
        (if negb live
         then
           let* opened := OpenFile (Name f) fileMode 438 in
           match opened with
           | (Some newFile, None) =>
             let fileName := Name f in
             pool_Store fileName newFile;;;
             ret (inl newFile)
           | (_, Some e) =>
             Info_set (Name f) e;;;
             ret (inr ("error opening file " +:+ Name f +:+ ": " +:+ e))
           | (None, None) => panic nil_dereference
           end
         else ret (inl f)) s0
      with
      | Ret (a, st'0) =>
        match a with
        | inl file =>
          let bufferedWriter := bufio_NewWriter file in
          let* written := bufio_WriteString bufferedWriter msg in
          match written with
          | (_, Some e) =>
            Info_set (Name file) e;;;
            (if negb (Contains e "already closed")
             then let* _ := Close file in ret tt
             else ret tt);;;
            ret (Some ("error writing to file " +:+ Name file +:+ ": " +:+ e))
          | (bufferedWriter0, None) =>
            let* ferr := bufio_Flush bufferedWriter0 in
            match ferr with
            | Some e =>
              Info_set (Name file) e;;;
              let* _ := Close file in
              ret (Some ("error flushing buffer for file " +:+ Name file +:+ ": " +:+ e))
            | None => ret None
            end
          end
        | inr e => ret (Some e)
        end st'0
      | Panic msg0 => Panic msg0
      end = Ret (r, st') /\
      (wr st' = wr st \/
       exists f0 nf, Some f = Some f0 /\ Name nf = Name f0 /\
         wr st' = with_pool (<[Name f0 := nf]> (openFilesPool (wr st))) (wr st))).
  { intros s0 live Hwr.
    destruct live; [change (negb true) with false | change (negb false) with true];
      cbv iota.
    - cbn [ret]. apply Hwrite. left. exact Hwr.
    - rewrite bind_exec, OpenFile_exec.
      destruct (fault (tick (os s0)) (SysOpenFile (Name f) fileMode 438)) as [e|].
      + eexists _, _. split; [reflexivity|]. left. exact Hwr.
      + cbv zeta. rewrite bind_exec. unfold pool_Store, set_wr, modify. cbn [ret].
        apply Hwrite. right.
        exists f, {| Name := Name f; fd := next_fd (os s0) |}.
        split; [reflexivity|]. split; [reflexivity|].
        cbn [wr on_os]. rewrite Hwr. reflexivity. }
  destruct (openFilesPool (wr st) !! Name f) as [h|].
  - apply Hrest. reflexivity.
  - apply (Hrest st false). reflexivity.
Qed.

Lemma writeToFile_holding w0 (r : File) msg st :
  runnable w0 -> holding w0 (Name r) st ->
  exists e st', writeToFile (Some r) msg st = Ret (e, st') /\ holding w0 (Name r) st'.
Proof.
  intros Hrun (Hsame & ((Hdom & Hne & Hsize) & Hnames) & Hin).
  destruct (writeToFile_wr (Some r) msg st (runnable_same _ _ Hsame Hrun))
    as (e & st' & Hrun' & Hwr).
  exists e, st'. split; [exact Hrun'|]. unfold holding, pool_sound, pool_ok.
  destruct Hwr as [->|(f & nf & [= <-] & Hnf & ->)].
  - split; [exact Hsame|]. split; [split; [repeat split; assumption | exact Hnames] | exact Hin].
  - split; [destruct Hsame as (?&?&?&?&?&?&?); repeat split; assumption|].
    assert (Hd : dom (<[Name r := nf]> (openFilesPool (wr st))) = dom (openFilesPool (wr st))).
    { rewrite dom_insert_L. apply elem_of_dom in Hin. set_solver. }
    split; [split; [split; [|split]|]|].
    + cbn. rewrite Hd. exact Hdom.
    + cbn. rewrite Hd. exact Hne.
    + cbn [openFilesPool maxConns with_pool].
      rewrite <- size_dom, Hd, size_dom. exact Hsize.
    + cbn. intros k h Hl. apply lookup_insert_Some in Hl as [[<- <-]|[_ Hl]];
        [exact Hnf | exact (Hnames k h Hl)].
    + cbn. rewrite lookup_insert_eq. eexists; reflexivity.
Qed.

Lemma retry_loop_holding w0 (r : File) msg : forall (i : nat) b st,
  runnable w0 -> holding w0 (Name r) st ->
  exists e st', retry_loop writeToFile (Some r) msg i b st = Ret (e, st') /\
                holding w0 (Name r) st'.
Proof.
  induction i as [|i IH]; intros b st Hrun Hh.
  - exists None, st. split; [reflexivity | exact Hh].
  - rewrite retry_loop_S.
    destruct (writeToFile_holding w0 r msg st Hrun Hh) as (e & st1 & -> & Hh1).
    destruct e as [e|]; [|exists None, st1; split; [reflexivity | exact Hh1]].
    destruct i as [|i]; [eexists _, st1; split; [reflexivity | exact Hh1]|].
    apply IH; [exact Hrun | exact Hh1].
Qed.

(** A job keeps the pool sound. *)
Lemma worker_job_sound (job : option File) st :
  runnable (wr st) -> pool_sound (wr st) ->
  0 <= maxConns (wr st) < uint64_modulus -> named job ->
  exists o st',
    worker_job job st = Ret (o, st') /\
    same_settings (wr st) (wr st') /\
    pool_sound (wr st') /\
    (forall k, k ∈ dom (openFilesPool (wr st')) ->
       k ∈ dom (openFilesPool (wr st)) \/ k ∈ target_names [job]).
Proof.
  intros Hrun (Hok & Hnames) Hmax Hnamed.
  destruct job as [f|].
  - cbn in Hnamed.
    destruct (GetConn_step f st Hmax Hok Hnamed)
      as (r & st1 & Hconn & Hres1 & Hmax1 & Hok1 & _).
    destruct (GetConn_pool f st) as (r' & st1' & Hconn' & Hsub & Hin).
    rewrite Hconn in Hconn'. injection Hconn' as <- <-.
    destruct (GetConn_returns f st) as (r'' & st1'' & Hconn'' & Hsame1 & _).
    rewrite Hconn in Hconn''. injection Hconn'' as <- <-.
    assert (Hnames1 : forall k h, openFilesPool (wr st1) !! k = Some h -> Name h = k).
    { intros k h Hl. destruct (Hsub k h Hl) as [Hold|[-> ->]];
        [exact (Hnames k h Hold) | reflexivity]. }
    assert (Hr : Name r = Name f) by exact (Hnames1 _ _ Hin).
    assert (Hh1 : holding (wr st) (Name r) st1).
    { split; [exact Hsame1|]. split; [split; assumption|].
      rewrite Hr. eexists; exact Hin. }
    destruct Hrun as (Hctx & Hmode & [msg Hmsg]).
    assert (Hmsg1 : message (wr st1) = Some msg).
    { destruct Hsame1 as (_ & _ & Hm & _). rewrite Hm. exact Hmsg. }
    assert (Hretry : exists e st2, retry writeToFile (Some r) msg st1 = Ret (e, st2) /\
                                   holding (wr st) (Name r) st2).
    { unfold retry. rewrite bind_exec. unfold get at 1.
      destruct (retries (wr st1) =? 0).
      - apply writeToFile_holding; [repeat split; eauto | exact Hh1].
      - apply retry_loop_holding; [repeat split; eauto | exact Hh1]. }
    destruct Hretry as (e & st2 & Hretry & (Hsame2 & Hsound2 & _)).
    assert (Hdom2 : dom (openFilesPool (wr st2)) = dom (openFilesPool (wr st1))).
    { destruct Hsound2 as ((Hd2 & _) & _). destruct Hok1 as (Hd1 & _).
      rewrite Hd2, Hd1.
      assert (Hl : forall st', same_settings (wr st) (wr st') -> True) by trivial.
      clear Hl.
      (* the last-used index is not touched by [retry] *)
      assert (Hlast : forall i b s, holding (wr st) (Name r) s ->
                forall e' s', retry_loop writeToFile (Some r) msg i b s = Ret (e', s') ->
                connLastUsed (wr s') = connLastUsed (wr s)).
      { induction i as [|i IH]; intros b s Hs e' s' Hrun'.
        - injection Hrun' as _ <-. reflexivity.
        - rewrite retry_loop_S in Hrun'.
          destruct (writeToFile_holding (wr st) r msg s) as (e1 & s1 & Hw & Hs1);
            [repeat split; eauto | exact Hs |].
          destruct (writeToFile_wr (Some r) msg s) as (e1' & s1' & Hw' & Hwr).
          { apply (runnable_same (wr st)); [apply Hs | repeat split; eauto]. }
          rewrite Hw in Hw'. injection Hw' as <- <-.
          assert (Hl1 : connLastUsed (wr s1) = connLastUsed (wr s)).
          { destruct Hwr as [->|(f0 & nf & _ & _ & ->)]; reflexivity. }
          rewrite Hw in Hrun'. destruct e1 as [e1|]; [|injection Hrun' as _ <-; exact Hl1].
          destruct i as [|i]; [injection Hrun' as _ <-; exact Hl1|].
          rewrite <- Hl1.
          apply (IH _ (on_os _ s1) Hs1 e' s' Hrun'). }
      unfold retry in Hretry. rewrite bind_exec in Hretry. unfold get at 1 in Hretry.
      destruct (retries (wr st1) =? 0).
      - destruct (writeToFile_wr (Some r) msg st1) as (e1' & s1' & Hw' & Hwr).
        { apply (runnable_same (wr st)); [exact Hsame1 | repeat split; eauto]. }
        rewrite Hretry in Hw'. injection Hw' as <- <-.
        destruct Hwr as [->|(f0 & nf & _ & _ & ->)]; reflexivity.
      - rewrite (Hlast _ _ _ Hh1 _ _ Hretry). reflexivity. }
    unfold worker_job. rewrite bind_exec, Hconn, bind_exec. unfold get at 1.
    rewrite Hmsg1, bind_exec, Hretry.
    assert (Hdoms : forall k, k ∈ dom (openFilesPool (wr st2)) ->
              k ∈ dom (openFilesPool (wr st)) \/ k ∈ target_names [Some f]).
    { intros k Hk. rewrite Hdom2 in Hk. apply elem_of_dom in Hk as [h Hk].
      destruct (Hsub k h Hk) as [Hold|[-> _]].
      - left. apply elem_of_dom. eexists; exact Hold.
      - right. cbn. left. }
    destruct e as [e|]; rewrite bind_exec;
      unfold record_failure, record_success, set_res, modify; cbn [ret];
      eexists _, _; (split; [reflexivity|]); cbn [wr];
      (split; [exact Hsame2|]); (split; [exact Hsound2 | exact Hdoms]).
  - exists AcquisitionFailed. eexists. split; [reflexivity|]. cbn [wr].
    split; [apply same_settings_refl|]. split; [split; assumption|].
    intros k Hk. left. exact Hk.
Qed.

Lemma run_jobs_sound : forall (jobs : list (option File)) st,
  runnable (wr st) -> pool_sound (wr st) ->
  0 <= maxConns (wr st) < uint64_modulus -> Forall named jobs ->
  exists outs st',
    run_jobs jobs st = Ret (outs, st') /\
    same_settings (wr st) (wr st') /\
    pool_sound (wr st') /\
    (forall k, k ∈ dom (openFilesPool (wr st')) ->
       k ∈ dom (openFilesPool (wr st)) \/ k ∈ target_names jobs).
Proof.
  induction jobs as [|job jobs IH]; intros st Hrun Hsound Hmax Hnamed.
  - exists [], st. split; [reflexivity|]. split; [apply same_settings_refl|].
    split; [exact Hsound|]. intros k Hk. left. exact Hk.
  - apply Forall_cons in Hnamed as [Hjob Hjobs].
    destruct (worker_job_sound job st Hrun Hsound Hmax Hjob)
      as (o & st1 & Hw & Hsame1 & Hsound1 & Hdom1).
    assert (Hmax1 : 0 <= maxConns (wr st1) < uint64_modulus).
    { destruct Hsame1 as (_ & _ & _ & -> & _). exact Hmax. }
    destruct (IH st1 (runnable_same _ _ Hsame1 Hrun) Hsound1 Hmax1 Hjobs)
      as (outs & st2 & Hr & Hsame2 & Hsound2 & Hdom2).
    exists (o :: outs), st2. split.
    { cbn [run_jobs]. rewrite bind_exec, Hw, bind_exec, Hr. reflexivity. }
    split; [exact (same_settings_trans _ _ _ Hsame1 Hsame2)|].
    split; [exact Hsound2|].
    intros k Hk. destruct (Hdom2 k Hk) as [Hk1|Hk1].
    + destruct (Hdom1 k Hk1) as [Hk0|Hk0]; [left; exact Hk0|].
      right. destruct job as [f|]; cbn in Hk0 |- *.
      * apply elem_of_cons in Hk0 as [->|Hk0]; [left | inversion Hk0].
      * inversion Hk0.
    + right. destruct job as [f|]; cbn; [right|]; exact Hk1.
Qed.

(** [Write] keeps the pool within its bound, whatever fails, when one
    worker does the work ([maxWorkers] is 1, or there is one target, or
    the machine has one CPU and [maxWorkers] is not positive).  On a
    validly configured writer whose limit fits a uint64, whose targets
    are files with a name, and whose pool is in order with every handle
    filed under its own name, [Write] returns results, and afterwards the
    pool is again in order: it holds at most [max maxConns 1] handles,
    each filed under its own name and with a last-use time, and every
    name in it was in the pool before or is the name of a target.  The
    settings of the writer are the same.  (With several workers
    [writeToFile] in one of them can store a handle again under a name
    another has just evicted, which the bound does not survive.) *)
Theorem Write_keeps_pool_sound (w : Writer) (maxWorkers : Z) (o : OS)
    (fs : list (option File)) :
  validly_configured w o fs ->
  0 <= maxConns w < uint64_modulus ->
  Forall named fs ->
  pool_sound w ->
  worker_count maxWorkers (Z.of_nat (length fs)) = 1 ->
  exists r outs st',
    Write (Some w) maxWorkers o = Ret ((Some r, None, outs), st') /\
    same_settings w (wr st') /\
    pool_sound (wr st') /\
    Z.of_nat (size (openFilesPool (wr st'))) <= Z.max (maxConns w) 1 /\
    (forall k, k ∈ dom (openFilesPool (wr st')) ->
       k ∈ dom (openFilesPool w) \/ k ∈ target_names fs).
Proof.
  intros Hvalid Hmax Hnamed Hsound Hone.
  destruct (run_jobs_sound fs {| wr := w; res := NewResults; os := o |})
    as (outs & st1 & Hjobs & Hsame & Hsound1 & Hdom);
    [apply Hvalid | exact Hsound | exact Hmax | exact Hnamed |].
  cbn [wr] in Hsame, Hdom.
  eexists _, outs, _. split.
  { apply (Write_runs_jobs w maxWorkers o fs outs st1 Hvalid).
    rewrite Hone, Schedule_one. exact Hjobs. }
  cbn [wr]. split; [exact Hsame|]. split; [exact Hsound1|]. split.
  - destruct Hsound1 as ((_ & _ & Hsize) & _).
    destruct Hsame as (_ & _ & _ & <- & _). exact Hsize.
  - exact Hdom.
Qed.

End WritePool.

Lemma Write_keeps_pool_sound_witness :
  exists r outs st',
    Write (rt := close_fails) (Some (test_writer [Some file1; None; Some file2] 1 3 100))
      1 fresh_OS
    = Ret ((Some r, None, outs), st') /\
    Z.of_nat (size (openFilesPool (wr st'))) <= 1.
Proof.
  destruct (Write_keeps_pool_sound (rt := close_fails)
              (test_writer [Some file1; None; Some file2] 1 3 100) 1 fresh_OS
              [Some file1; None; Some file2])
    as (r & outs & st' & Hrun & _ & _ & Hsize & _).
  - apply test_writer_valid; [discriminate | vm_compute; discriminate].
  - cbn. unfold uint64_modulus. lia.
  - repeat constructor; discriminate.
  - split; [split; [reflexivity | split; [set_solver | vm_compute; discriminate]]|].
    intros k h Hl. cbn in Hl. rewrite lookup_empty in Hl. discriminate.
  - reflexivity.
  - exists r, outs, st'. split; [exact Hrun | exact Hsize].
Defined.
